(* ===== verification/_CoqProject ===== *)
-Q . S2P
Prelude.v
Usize.v
Layout.v
State.v
PageSource.v
Bump.v
Trace.v
Steps.v
Schedule.v
Pool.v
GlobalAlloc.v
StubAlloc.v
WasmAlloc.v
WasmHost.v
Linear.v
Racing.v
Growing.v
Align.v
Contract.v
Zeroed.v
Realloc.v
Width.v
Mirror.v
Tests.v
