(* ===== verification/Prelude.v ===== *)
(** * Verification of the ink! bump allocator ([crates/allocator/src/bump.rs])

    ** The program

    [bump.rs] is a bump allocator for Wasm smart contracts.  It has three
    parts, composed linearly:

    - the page source, [InnerAlloc::request_pages]: asks the environment for
      [n] fresh 64 KiB pages and returns the base address of the run, or
      [None].  The source selects one of three bodies at compile time: the
      test stub (returns the current [upper_limit] and touches nothing), the
      [std] body (an [unreachable!]), and the [wasm32] body (calls
      [memory_grow], maps the failure sentinel to [None], multiplies the
      previous page count by [PAGE_SIZE] with [checked_mul]);
    - the allocator core, [InnerAlloc { next, upper_limit }] with
      [InnerAlloc::alloc] and [required_pages]: serve a request from the
      headroom below [upper_limit], or request pages and serve it from the
      base of the new run, abandoning the old headroom;
    - the adapter, [impl GlobalAlloc for BumpAllocator], over the single
      [static mut INNER]: [alloc] maps [None] to the null pointer,
      [alloc_zeroed] is [alloc], [dealloc] does nothing.

    The file ends with its tests: six unit tests and two quickcheck
    properties, all over the test stub.

    ** The files

    - [Prelude] (this file): the outcome monad the Rust control flow is
      written in, its notations (scope [rs_scope]), the tactics and the hint
      database [bump], and the facts on ceiling division, rounding and
      powers of two that the components share.
    - [Usize]: the address-width integer.  A [usize] is a [Z] in
      [0, 2^usize_bits); the width is a class [Usize] with the instances
      [usize32] (the deployment target) and [usize64] (the host the tests
      run on).  [checked_add], [checked_mul], [checked_div],
      [wrapping_add], [wrapping_sub], [bit_not] and [is_power_of_two] are
      written with their overflow behaviour spelled out.
    - [Layout]: [core::alloc::Layout] as the allocator uses it
      ([from_size_align], [padding_needed_for] with its mask arithmetic,
      [pad_to_align]).  This is library code, modelled from its documented
      behaviour; the mask arithmetic is proved to round up.
    - [State]: [PAGE_SIZE], the record [InnerAlloc], [InnerAlloc::new], the
      world a call runs in (the allocator's fields and the host
      environment, which for the static [INNER] is the process), the
      well-formedness invariant [inner_wf] and the blocks handed out.
    - [PageSource]: the interface [PageSource] (one operation,
      [request_pages]) and the class of laws [PageSourceLaws] a source must
      obey; the three bodies of the source as instances in the modules
      [TestStub], [StdStub] and [Wasm32] (the latter over a model of the
      Wasm linear memory with [memory_grow]), each with the laws proved.
      Importing a module selects the body, as the [cfg] does.
    - [Bump]: [required_pages] and [InnerAlloc::alloc], statement by
      statement in the outcome monad.  The relation [alloc_outcome] has one
      rule per path through [alloc] and is proved to hold of exactly the
      outcome the function computes; the inversion lemmas and the
      branch-by-branch equations follow from it.  The laws of a call
      (invariant kept, block fresh and granted, failure leaves the fields
      alone, no panic but the source's) are proved against
      [PageSourceLaws]; the instances discharge it.
    - [Trace]: sequences of calls.  [run] is a list of requests served in
      order with the blocks handed out, [play] the same with moves of the
      host between the calls; [step], [steps] and [reachable] are the
      transition system of the allocator.  Theorems: the blocks of a
      run are pairwise disjoint, in address order and below the limit; the
      invariant holds in every reachable state; the cursor and the limit
      never move down; the headroom stays below a page; a run returns; the
      blocks together hold no more bytes than the cursor has moved.
    - [Steps]: [alloc] one statement at a time.  A [Frame] is the statement
      a call executes next with its live locals, [stmt] executes it, [exec]
      runs a call on fuel, [interleave] runs two calls over the one
      allocator in the order a schedule gives.  A call run for eight
      statements or more is the call of [InnerAlloc::alloc], with its
      result, its state or its panic ([exec_alloc_more]: the statements
      are a cut of the function, not a second allocator).  Theorem: the
      invariant holds after every statement of a call.
    - [Schedule]: every schedule of two calls.  A schedule is a list of
      turns; [lead] is the number of statements a call executes before the
      other starts, and a schedule is [apart] when one call writes the
      cursor before the other reads it.  Theorems: two calls served from
      the headroom return disjoint blocks if and only if the schedule is
      [apart], and the same address otherwise; a call served from the
      headroom that a whole call interrupts after it read the cursor is
      given the cursor it read and writes it back.
    - [Pool]: any number of calls in flight.  [pool_run] executes the
      statements of the calls of a pool in the order a schedule of indices
      gives; [interleave] is the pool of two ([interleave_pool]).  The
      theorem on pools is in [Racing].
    - [GlobalAlloc]: the trait as a class, the adapter's three methods
      over the world that holds [INNER], and a client's calls in any order
      ([serve]).  Theorems: a client gets what [InnerAlloc::alloc] gives
      for its requests alone, and the blocks it holds never overlap,
      whatever it frees.
    - [StubAlloc]: the allocator over the test stub.  [allocate] is the
      algorithm of the specification as a pure function of the two fields;
      the refinement theorems say that a call, and a sequence of calls,
      compute it.  On top: the limit is a whole number of pages, a request
      succeeds whenever the address space has room, the heap grows by less
      than a page more than each block, and the scenarios of the
      specification evaluated at 32 and 64 bits.
    - [WasmAlloc]: the allocator over the Wasm memory.  Theorems: every
      block is inside the linear memory, a request the memory has room for
      is served at the old end of the memory, pages whose end is not an
      address are granted and lost, and the null pointer of the adapter
      means failure once the memory is not empty.
    - [WasmHost]: the host that may refuse [memory.grow] below its limit,
      as the WebAssembly specification allows.  The host carries the
      answers it will give; [request_pages] of [bump.rs] runs over it and
      obeys [PageSourceLaws], so the theorems of [Bump], [Trace],
      [GlobalAlloc] and [Contract] hold of it.  Theorems: a call is the
      call over [Wasm32] or a refusal that changes nothing, every state
      reached is reached over [Wasm32], and a caller that retries is
      served.
    - [Linear]: the interface [LinearSource], what [Wasm32] and [WasmHost]
      guarantee beyond the laws (what is granted is inside the memory, new
      pages start at its old end, it never shrinks, a request returns),
      with the two instances.  [Zeroed] and [Realloc] are proved against
      it.
    - [Racing]: what survives a race.  The invariant of the allocator
      does not: the cursor can end above the limit.  What each call keeps
      and the statements of the other calls do not disturb is that its
      locals hold addresses between the cursor the calls started from and
      a bound the host has granted.  Theorem: for any number of calls,
      under every schedule, on every path, over every linear memory, the
      blocks returned lie at or above that cursor and inside the memory.
    - [Growing]: two calls that both find the heap full.  Theorem: when
      each call tests the limit before the other writes it, the host
      answers the two with different runs of pages and the blocks are
      disjoint, wherever the schedule puts the writes.  The file ends with
      the 12870 schedules of two calls at the start of a module,
      evaluated: which leave what two calls one after the other leave,
      which return the null address, which leave the cursor above the
      limit, and that the blocks are disjoint and in the heap under the
      schedules of the theorem and the two without preemption only.
    - [Align]: the alignment of the addresses handed out.  [alloc] uses the
      alignment of a request to pad its size and for nothing else: the
      address does not depend on it; it is aligned exactly when the
      request was served from new pages or found the cursor aligned, so
      that a request after one of odd size is served at an odd address;
      and addresses are aligned when all requests have the same
      alignment.
    - [Contract]: what [GlobalAlloc] promises, as an abstract machine over
      the ledger of blocks owned (a finite map of stdpp, base address to
      size), and the forward simulation that says the adapter refines it;
      with the alignment of the address in the contract it does not.
    - [Zeroed]: the allocator, the ledger and the bytes of the memory that
      are not zero, as a process in which the client calls the allocator,
      bytes are stored anywhere in the memory but in the room the allocator
      has left (the program's data, blocks owned or freed, pages of
      others), and others than the allocator grow the memory.  Theorems:
      every block handed out is zero, with either host of the Wasm memory,
      which is why [alloc_zeroed] may be [alloc]; every block lies above
      the memory the process started with; and the conditions on the
      steps of the process take nothing from a client: each of its calls
      is a step with the answer the allocator gives, and so is each store
      to its data or to a block it owns.
    - [Realloc]: [GlobalAlloc::realloc], the default method the adapter
      inherits, with [copy_nonoverlapping] over the bytes of the memory.
      Theorems, for a block the client owns: the call returns and the copy
      is defined, the new block holds the bytes of the old one, the call is
      a sequence of steps of the process of [Zeroed], and it takes new
      memory whatever the new size.
    - [Width]: the allocator at two widths of [usize], over a page source
      that does not depend on the width.  A request served at the narrow
      width is served alike at the wide one; a request, and a run over the
      stub, served at the wide width is served alike at the narrow one
      when the limit it leaves is an address there.
    - [Mirror]: the test stub against the Wasm memory.  Over a memory that
      nobody else grows the allocator is the allocator over the stub moved
      up by the first size of the memory.  Theorem: a run over the stub on
      the host of the tests is the run over the memory on the target,
      block by block, as long as the memory has the pages and their end
      is an address of the target.
    - [Tests]: the unit tests and the two quickcheck properties of
      [bump.rs] as executable definitions; the unit tests evaluate to a
      pass, the quickcheck properties are proved for every [n], and the
      two tests with a loop for every number of allocations and every
      vector of sizes.

    ** How the model corresponds to the code

    A Rust function returning [Option<T>] while mutating [self] is a
    computation [M S T]: a function from the state to an [outcome], which
    is [Done v s] for [Some(v)], [Failed s] for [None] (with the state the
    writes so far left behind: the [?] operator returns early and does not
    roll back), and [Panicked] for a panic ([unreachable!], [unwrap] of a
    [None], a failed [assert_eq!], overflow in a test build).
    [x <- c ;; k] is sequencing, [try_opt o] is [o?], [unwrap o] is
    [o.unwrap()], [catch c] is a call whose [Option] the caller inspects.

    The state of a call is a [World H]: the two fields of [InnerAlloc] and
    a host of type [H], which is [unit] for the two stubs and the linear
    memory for [wasm32].  The local [inner] of a test and the static
    [INNER] of the adapter are both the [inner] of the world.

    All integers are kept at their width: a [usize] operation that can
    overflow is the checked or wrapping function the source calls, never a
    bare [+].  Theorems are stated for every width of at least 32 bits
    (Rust's [usize] has 16, 32 or 64 bits, and [PAGE_SIZE = 64 * 1024] is
    not a 16-bit [usize]) and evaluated at 32 and 64.

    [alloc] has no loop, and the runs of [Trace] and the loops of [Tests]
    recurse on the list of requests, so these definitions are total and
    evaluate with [vm_compute].  Fuel appears in two places.  [Steps.exec]
    runs a call for a number of statements: the longest path through
    [alloc] has eight, [Steps.exec_alloc_more] proves that eight are
    enough for every call, and [exec_seven_statements] that seven are
    not.  A
    schedule of [Schedule] is fuel for two calls: the theorems ask that it
    gives each call the statements of its path (five when the call is
    served from the headroom, eight on any path), and
    [Racing.pool_blocks_inside] holds of schedules cut short as well.
    [Growing.races_at_boot] evaluates all 12870 schedules of eight
    statements of each of two calls: eight because that is the longest
    path, so that every schedule lets both calls return.
    [WasmHost.alloc_retry] is a caller that asks again after [None]: it is
    served with more fuel than the host has refusals in store
    ([alloc_retry_served]).

    ** What the theorems show, and where the code parts from its description

    The allocator is safe as far as addresses go: blocks never overlap, lie
    in memory the host has granted and, in a Wasm memory, are zero when
    they are handed out; a failed call leaves the fields as they were; every value
    stays a [usize]; the adapter refines the contract of [GlobalAlloc] but
    for alignment; the inherited [realloc] keeps the contents of a block.
    All of it holds for every page source that obeys [PageSourceLaws],
    hence also for a host that refuses to grow the memory when it pleases.
    It rests on calls being atomic.  When they are not, two calls served
    from the headroom are safe exactly when one writes the cursor before
    the other reads it ([Schedule.two_calls_disjoint_iff]); a call that
    is interrupted after it read the cursor is served from the cursor it
    read ([Schedule.interrupted_call_stale]), which at the start of a
    module is the null address ([Growing.reentered_at_boot]); two calls
    that both grow the heap are safe when each tests the limit before the
    other writes it ([Growing.growing_calls_disjoint]); and for any
    number of calls in flight the blocks handed out before the race are
    never reached ([Racing.pool_blocks_inside]).
    The tests, which run over the stub at
    64 bits, say of the module over its memory at 32 bits what
    [Mirror.stub_run_predicts] states: the same blocks, moved up, as long
    as the addresses fit the target; they say nothing of the checks
    against [usize::MAX] on the target, which no test reaches.  The model
    also shows what the code does not do:

    - the address returned is aligned to the alignment of the request only
      when the cursor happens to be, or the request takes new pages
      ([Align.alloc_aligned_iff], [Contract.aligned_contract_broken]);
    - on [wasm32], pages whose end is beyond [usize::MAX] are granted by
      the host and then lost ([WasmAlloc.wasm_grow_lost]);
    - the null pointer means failure only if the memory was not empty when
      the process started ([WasmAlloc.started_null_iff_failed]);
    - a request of no bytes asks for no page and moves nothing, so start
      addresses are strictly increasing only for requests of at least one
      byte ([StubAlloc.scenario_A_no_page], [Bump.alloc_zero_size],
      [Trace.run_starts_increasing]);
    - the expected values of [can_alloc_many_different_sized_chunks] are
      right only when its remainder is the allocator's difference at every
      page boundary ([Tests.chunks_test_iff], [Tests.chunks_oracle_wrong]),
      and those of [can_alloc_a_foobarbaz] only while the blocks fit the
      pages of the first ([Tests.foobarbaz_holds]);
    - the heap grows by as many pages as the request needs, not by a page
      as the comment on [alloc] says ([Bump.alloc_grows_eq]);
    - [realloc] never grows a block in place and never gives one back
      ([Realloc.realloc_takes_memory]).

    ** What is not modelled

    The two stubs have no memory: over them [granted] holds of every
    address, and what the theorems say of memory granted by the host
    ([Bump.alloc_fresh], [Trace.reachable_ok], [Steps.exec_keeps_ok]) has
    content over [Wasm32] and [WasmHost] only.  [Layout::from_size_align]
    is the one of the library the crate was written against, which
    accepts a size that rounds up to at most [usize::MAX]; since Rust
    1.65 the bound is [isize::MAX], under which the [unwrap] in
    [fuzz_should_allocate_random_bytes_that_do_not_overflow] panics for
    [n] above it, and [Tests.fuzz_allocates_holds] holds of the smaller
    [n] only.

    The memory is its size in pages and, in [Zeroed] and [Realloc], the
    map of its bytes that are not zero; a byte is read and written by its
    address, and wider loads and stores are not modelled.  Of the default
    methods of [GlobalAlloc] only [realloc] is modelled; the other one the
    adapter could inherit, [alloc_zeroed], it overrides.  What calls the
    allocator in a contract ([Vec], [Box]) is not modelled beyond the
    sequences of calls of [Trace], [GlobalAlloc] and [Zeroed].

    Concurrency is modelled as interleavings of the statements of calls
    in flight, each statement atomic and memory sequentially consistent.
    The cut into statements is a choice: a statement of [Steps.stmt] reads
    or writes one field at most, and a write of [upper_limit] or of
    [next] is one statement with the arithmetic of its right-hand side,
    which touches locals only.  A call re-entered while another is in
    flight is the schedule in which it runs whole between two statements
    of the other.  A data race on a
    [static mut] is undefined behaviour in Rust, which no such model
    covers: the theorems of [Schedule], [Racing] and [Growing] say what
    the statements of [alloc] do when they interleave, not what a Rust
    program with the race does.  No call waits for another, since
    [alloc] has neither a loop nor a lock, and nothing is claimed of
    it.  The schedules are classified for two calls ([Schedule],
    [Growing]); for more than two the development has what holds of every
    schedule ([Pool], [Racing]) and no classification.

    The registration of [BumpAllocator] with [#[global_allocator]] is a
    declaration outside [bump.rs] with no behaviour of its own, and the
    [compile_error!] branch of [cfg_if] is a build failure: nothing of
    either can be modelled. *)

From Stdlib Require Import ZArith Lia List Bool.
Import ListNotations.
#[local] Open Scope Z_scope.

Declare Scope rs_scope.
Delimit Scope rs_scope with rs.

(** ** The outcome monad *)

(** What a call leaves behind: a value and the final state, [None] and the
    state reached when the function returned, or a panic. *)
Inductive outcome (S A : Type) : Type :=
| Done (a : A) (s : S)
| Failed (s : S)
| Panicked.

Arguments Done {S A} a s.
Arguments Failed {S A} s.
Arguments Panicked {S A}.

Definition M (S A : Type) : Type := S -> outcome S A.

Definition ret {S A} (a : A) : M S A := fun s => Done a s.

Definition bind {S A B} (c : M S A) (k : A -> M S B) : M S B :=
  fun s =>
    match c s with
    | Done a s' => k a s'
    | Failed s' => Failed s'
    | Panicked => Panicked
    end.

Definition get {S} : M S S := fun s => Done s s.
Definition put {S} (s : S) : M S unit := fun _ => Done tt s.
Definition gets {S A} (f : S -> A) : M S A := fun s => Done (f s) s.
Definition modify {S} (f : S -> S) : M S unit := fun s => Done tt (f s).

(** [return None]. *)
Definition fail {S A} : M S A := fun s => Failed s.
(** [panic!()]. *)
Definition panic {S A} : M S A := fun _ => Panicked.

(** The [?] operator on an [Option]. *)
Definition try_opt {S A} (o : option A) : M S A :=
  match o with Some a => ret a | None => fail end.

(** [Option::unwrap]: a panic on [None]. *)
Definition unwrap {S A} (o : option A) : M S A :=
  match o with Some a => ret a | None => panic end.

(** Rust's [Result<T, E>]. *)
Inductive Result (T E : Type) : Type :=
| Ok (t : T)
| Err (e : E).

Arguments Ok {T E} t.
Arguments Err {T E} e.

(** [Result::unwrap]: a panic on [Err]. *)
Definition unwrap_res {S T E} (r : Result T E) : M S T :=
  match r with Ok t => ret t | Err _ => panic end.

(** [Result::is_ok]. *)
Definition is_ok {T E} (r : Result T E) : bool :=
  match r with Ok _ => true | Err _ => false end.

(** A call whose [Option] is kept as a value instead of propagated with
    [?]: [None] is a result, the state is the one the callee left. *)
Definition catch {S A} (c : M S A) : M S (option A) :=
  fun s =>
    match c s with
    | Done a s' => Done (Some a) s'
    | Failed s' => Done None s'
    | Panicked => Panicked
    end.

(** [assert!]. *)
Definition assert {S} (b : bool) : M S unit :=
  if b then ret tt else panic.

(** [Option::and_then]. *)
Definition and_then {A B} (o : option A) (f : A -> option B) : option B :=
  match o with Some a => f a | None => None end.

(** The value a call returned, as Rust's [Option]; a panic returns nothing. *)
Definition value_of {S A} (r : outcome S A) : option A :=
  match r with Done a _ => Some a | _ => None end.

(** The state a call left, when it returned at all. *)
Definition state_of {S A} (r : outcome S A) : option S :=
  match r with Done _ s | Failed s => Some s | Panicked => None end.

Definition panicked {S A} (r : outcome S A) : bool :=
  match r with Panicked => true | _ => false end.

Notation "x <- c ;; k" := (bind c (fun x => k))
  (at level 100, c at next level, k at level 200, right associativity) : rs_scope.
Notation "c ;; k" := (bind c (fun _ => k))
  (at level 100, k at level 200, right associativity) : rs_scope.

(** ** Arithmetic shared by the components *)

(** [ceil_div a b] is the least [q] with [a <= q * b]. *)
Definition ceil_div (a b : Z) : Z := (a + (b - 1)) / b.

(** [round_up a b] is the least multiple of [b] that is at least [a]. *)
Definition round_up (a b : Z) : Z := ceil_div a b * b.

(** [a] is a multiple of [b]. *)
Definition aligned (a b : Z) : bool := a mod b =? 0.

(** ** Tactics *)

Create HintDb bump discriminated.
Create Rewrite HintDb bump_rw.

(** Division and modulo by a positive divisor, as linear facts. *)
Ltac zdiv := Z.div_mod_to_equations; nia.

(** Invert an equation between constructors and substitute. *)
Ltac inv H := inversion H; subst; clear H.

(** Case analysis on the first boolean test or option the goal matches on. *)
Ltac case_test :=
  match goal with
  | |- context [if ?b then _ else _] => destruct b eqn:?
  | |- context [match ?o with Some _ => _ | None => _ end] => destruct o eqn:?
  end.

(** The same on a hypothesis. *)
Ltac case_hyp H :=
  match type of H with
  | context [if ?b then _ else _] => destruct b eqn:?
  | context [match ?o with Some _ => _ | None => _ end] => destruct o eqn:?
  end.

(** Turn the boolean comparisons among the hypotheses into propositions. *)
Ltac bool_to_prop :=
  repeat match goal with
  | H : (_ <=? _) = true |- _ => apply Z.leb_le in H
  | H : (_ <=? _) = false |- _ => apply Z.leb_gt in H
  | H : (_ <? _) = true |- _ => apply Z.ltb_lt in H
  | H : (_ <? _) = false |- _ => apply Z.ltb_ge in H
  | H : (_ >? _) = true |- _ => rewrite Z.gtb_ltb in H; apply Z.ltb_lt in H
  | H : (_ >? _) = false |- _ => rewrite Z.gtb_ltb in H; apply Z.ltb_ge in H
  | H : (_ =? _) = true |- _ => apply Z.eqb_eq in H
  | H : (_ =? _) = false |- _ => apply Z.eqb_neq in H
  | H : (_ && _) = true |- _ => apply andb_true_iff in H; destruct H
  | H : negb _ = true |- _ => apply negb_true_iff in H
  | H : negb _ = false |- _ => apply negb_false_iff in H
  end.

(** Close a closed comparison on [Z], or a closed boolean equation, by
    evaluation. *)
Ltac by_compute :=
  lazymatch goal with
  | |- _ <= _ => apply Z.leb_le; vm_compute; reflexivity
  | |- _ < _ => apply Z.ltb_lt; vm_compute; reflexivity
  | |- _ /\ _ => split; by_compute
  | |- True => exact I
  | |- _ => vm_compute; reflexivity
  end.

(** ** The monad laws and the inversion of [bind] *)

Section Monad.
Context {S A B C : Type}.

Lemma bind_ret_l (a : A) (k : A -> M S B) (s : S) :
  bind (ret a) k s = k a s.
Proof. reflexivity. Qed.

Lemma bind_ret_r (c : M S A) (s : S) : bind c ret s = c s.
Proof. unfold bind, ret. destruct (c s); reflexivity. Qed.

Lemma bind_assoc (c : M S A) (k : A -> M S B) (h : B -> M S C) (s : S) :
  bind (bind c k) h s = bind c (fun a => bind (k a) h) s.
Proof. unfold bind. destruct (c s); reflexivity. Qed.

Lemma bind_Done_inv (c : M S A) (k : A -> M S B) s b s' :
  bind c k s = Done b s' ->
  exists a s0, c s = Done a s0 /\ k a s0 = Done b s'.
Proof. unfold bind. destruct (c s); try discriminate. eauto. Qed.

Lemma bind_Failed_inv (c : M S A) (k : A -> M S B) s s' :
  bind c k s = Failed s' ->
  c s = Failed s' \/ exists a s0, c s = Done a s0 /\ k a s0 = Failed s'.
Proof.
  unfold bind. destruct (c s); try discriminate; [eauto|].
  intros H; inv H. now left.
Qed.

Lemma bind_Panicked_inv (c : M S A) (k : A -> M S B) s :
  bind c k s = Panicked ->
  c s = Panicked \/ exists a s0, c s = Done a s0 /\ k a s0 = Panicked.
Proof. unfold bind. destruct (c s); try discriminate; eauto. Qed.

Lemma try_opt_Some (a : A) (s : S) : try_opt (Some a) s = Done a s.
Proof. reflexivity. Qed.

Lemma try_opt_None (s : S) : @try_opt S A None s = Failed s.
Proof. reflexivity. Qed.

Lemma and_then_Some_inv (o : option A) (f : A -> option B) b :
  and_then o f = Some b -> exists a, o = Some a /\ f a = Some b.
Proof. destruct o; simpl; [eauto | discriminate]. Qed.

End Monad.

#[export] Hint Rewrite @bind_ret_l @try_opt_Some @try_opt_None : bump_rw.

(** ** Ceiling division and rounding *)

Section Rounding.
Variables a b : Z.
Hypothesis Hb : 0 < b.

Lemma ceil_div_spec : (ceil_div a b - 1) * b < a <= ceil_div a b * b.
Proof. unfold ceil_div. zdiv. Qed.

Lemma ceil_div_unique q : (q - 1) * b < a <= q * b -> ceil_div a b = q.
Proof.
  pose proof ceil_div_spec. intros.
  assert (ceil_div a b <= q - 1 \/ ceil_div a b = q \/ q + 1 <= ceil_div a b)
    as [|[|]] by lia; [nia | assumption | nia].
Qed.

Lemma ceil_div_nonneg : 0 <= a -> 0 <= ceil_div a b.
Proof. intros. unfold ceil_div. apply Z.div_pos; lia. Qed.

Lemma ceil_div_pos : 0 < a -> 0 < ceil_div a b.
Proof. intros. unfold ceil_div. apply Z.div_str_pos; lia. Qed.

Lemma ceil_div_exact : a mod b = 0 -> ceil_div a b = a / b.
Proof. unfold ceil_div. zdiv. Qed.

Lemma round_up_ge : a <= round_up a b.
Proof. unfold round_up. pose proof ceil_div_spec. lia. Qed.

Lemma round_up_lt : round_up a b < a + b.
Proof. unfold round_up. pose proof ceil_div_spec. lia. Qed.

Lemma round_up_mod : round_up a b mod b = 0.
Proof. unfold round_up. apply Z.mod_mul. lia. Qed.

Lemma round_up_least m : a <= m -> m mod b = 0 -> round_up a b <= m.
Proof.
  intros Hle Hm. apply Z.mod_divide in Hm; [|lia]. destruct Hm as [k ->].
  unfold round_up, ceil_div.
  assert ((a + (b - 1)) / b < k + 1) by (apply Z.div_lt_upper_bound; lia).
  nia.
Qed.

Lemma round_up_aligned : a mod b = 0 -> round_up a b = a.
Proof.
  intros Hm. apply Z.le_antisymm; [|apply round_up_ge].
  apply round_up_least; [lia | assumption].
Qed.

Lemma round_up_as_mod : round_up a b = a + (b - 1) - (a + (b - 1)) mod b.
Proof. unfold round_up, ceil_div. zdiv. Qed.

Lemma aligned_spec : aligned a b = true <-> a mod b = 0.
Proof. unfold aligned. apply Z.eqb_eq. Qed.

End Rounding.

Lemma ceil_div_mono a a' b : 0 < b -> a <= a' -> ceil_div a b <= ceil_div a' b.
Proof. intros. unfold ceil_div. apply Z.div_le_mono; lia. Qed.

Lemma round_up_idem a b : 0 < b -> round_up (round_up a b) b = round_up a b.
Proof. intros. apply round_up_aligned, round_up_mod; assumption. Qed.

(** ** Powers of two *)

Lemma pow2_pos k : 0 <= k -> 0 < 2 ^ k.
Proof. intros. apply Z.pow_pos_nonneg; lia. Qed.

Lemma pow2_le_divide j k : 0 <= j <= k -> (2 ^ j | 2 ^ k).
Proof.
  intros. exists (2 ^ (k - j)). rewrite <- Z.pow_add_r by lia. f_equal. lia.
Qed.

(** A multiple of [2^j] below [2^k] leaves room for a whole [2^j] under
    [2^k]: the reason rounding up to an alignment cannot overflow. *)
Lemma pow2_multiple_room m j k :
  0 <= j <= k -> m mod 2 ^ j = 0 -> m < 2 ^ k -> m + 2 ^ j <= 2 ^ k.
Proof.
  intros Hjk Hm Hlt. destruct (pow2_le_divide j k Hjk) as [q Hq].
  pose proof (pow2_pos j ltac:(lia)) as Hpos.
  apply Z.mod_divide in Hm; [|lia]. destruct Hm as [c ->].
  rewrite Hq in *. apply Z.mul_lt_mono_pos_r in Hlt; [nia | assumption].
Qed.

#[export] Hint Resolve pow2_pos ceil_div_nonneg round_up_ge round_up_mod : bump.
