(* ===== verification/Usize.v ===== *)
(** * Usize: the address-width unsigned integer

    A [usize] is a [Z] in [0, 2^usize_bits).  The operations are the ones
    [bump.rs] and [core::alloc::Layout] call, with what they do on overflow
    written out: the checked ones return [None], the wrapping ones reduce
    modulo [2^usize_bits].  The lemmas give each operation's result on both
    sides of the overflow boundary. *)

From Stdlib Require Import ZArith Lia Bool.
From S2P Require Import Prelude.
#[local] Open Scope Z_scope.

(** The width of [usize].  Rust has targets of 16, 32 and 64 bits, and
    [PAGE_SIZE = 64 * 1024] is not a 16-bit [usize]: the allocator compiles
    from 32 bits on. *)
Class Usize : Type := {
  usize_bits : Z;
  usize_bits_min : 32 <= usize_bits
}.

(** [wasm32-unknown-unknown], the deployment target. *)
Definition usize32 : Usize := {| usize_bits := 32; usize_bits_min := ltac:(lia) |}.

(** The 64-bit host the test suite runs on. *)
Definition usize64 : Usize := {| usize_bits := 64; usize_bits_min := ltac:(lia) |}.

(** [u32::count_ones] and friends, on the binary representation. *)
Fixpoint pos_count_ones (p : positive) : Z :=
  match p with
  | xH => 1
  | xO q => pos_count_ones q
  | xI q => 1 + pos_count_ones q
  end.

Definition count_ones (a : Z) : Z :=
  match a with
  | Zpos p => pos_count_ones p
  | _ => 0
  end.

(** [usize::is_power_of_two]: exactly one bit set. *)
Definition is_power_of_two (a : Z) : bool := count_ones a =? 1.

Section Ops.
Context {U : Usize}.

Definition usize_modulus : Z := 2 ^ usize_bits.

(** [usize::MAX]. *)
Definition usize_MAX : Z := usize_modulus - 1.

Definition in_usize (z : Z) : Prop := 0 <= z <= usize_MAX.

Definition is_usize (z : Z) : bool := (0 <=? z) && (z <=? usize_MAX).

Definition wrap (z : Z) : Z := z mod usize_modulus.

(** [usize::checked_add]. *)
Definition checked_add (a b : Z) : option Z :=
  let r := a + b in if r <=? usize_MAX then Some r else None.

(** [usize::checked_mul]. *)
Definition checked_mul (a b : Z) : option Z :=
  let r := a * b in if r <=? usize_MAX then Some r else None.

(** [usize::checked_div]: [None] on a zero divisor. *)
Definition checked_div (a b : Z) : option Z :=
  if b =? 0 then None else Some (a / b).

(** [usize::wrapping_add] and [usize::wrapping_sub]. *)
Definition wrapping_add (a b : Z) : Z := wrap (a + b).
Definition wrapping_sub (a b : Z) : Z := wrap (a - b).

(** [!a] on a [usize]: the complement within the width. *)
Definition bit_not (a : Z) : Z := wrap (Z.lnot a).

(** [a & b]. *)
Definition bit_and (a b : Z) : Z := Z.land a b.

(** ** The range *)

Lemma usize_bits_nonneg : 0 <= usize_bits.
Proof. pose proof usize_bits_min. lia. Qed.

Lemma usize_modulus_pos : 0 < usize_modulus.
Proof. apply pow2_pos, usize_bits_nonneg. Qed.

(** Every width the allocator compiles for holds [2^32 - 1]. *)
Lemma usize_modulus_ge : 2 ^ 32 <= usize_modulus.
Proof.
  unfold usize_modulus. apply Z.pow_le_mono_r; [lia | apply usize_bits_min].
Qed.

Lemma usize_MAX_ge : 4294967295 <= usize_MAX.
Proof. pose proof usize_modulus_ge. unfold usize_MAX. lia. Qed.

Lemma in_usize_lt z : in_usize z <-> 0 <= z < usize_modulus.
Proof. unfold in_usize, usize_MAX. lia. Qed.

Lemma is_usize_spec z : is_usize z = true <-> in_usize z.
Proof. unfold is_usize, in_usize. rewrite andb_true_iff, !Z.leb_le. tauto. Qed.

Lemma in_usize_0 : in_usize 0.
Proof. pose proof usize_MAX_ge. unfold in_usize. lia. Qed.

Lemma wrap_small z : in_usize z -> wrap z = z.
Proof. intros H. apply Z.mod_small, in_usize_lt, H. Qed.

Lemma wrap_in_usize z : in_usize (wrap z).
Proof. apply in_usize_lt, Z.mod_pos_bound, usize_modulus_pos. Qed.

(** ** Checked arithmetic *)

Lemma checked_add_Some a b r :
  checked_add a b = Some r <-> r = a + b /\ a + b <= usize_MAX.
Proof.
  unfold checked_add. destruct (Z.leb_spec (a + b) usize_MAX) as [Hle | Hgt].
  - split; [intros E; inv E; auto | intros [-> _]; reflexivity].
  - split; [discriminate | lia].
Qed.

Lemma checked_add_None a b : checked_add a b = None <-> usize_MAX < a + b.
Proof.
  unfold checked_add. destruct (Z.leb_spec (a + b) usize_MAX) as [Hle | Hgt].
  - split; [discriminate | lia].
  - split; [lia | reflexivity].
Qed.

Lemma checked_add_fits a b : a + b <= usize_MAX -> checked_add a b = Some (a + b).
Proof. intros. apply checked_add_Some. auto. Qed.

Lemma checked_add_in_usize a b r :
  0 <= a -> 0 <= b -> checked_add a b = Some r -> in_usize r.
Proof. intros ? ? H. apply checked_add_Some in H. unfold in_usize. lia. Qed.

Lemma checked_mul_Some a b r :
  checked_mul a b = Some r <-> r = a * b /\ a * b <= usize_MAX.
Proof.
  unfold checked_mul. destruct (Z.leb_spec (a * b) usize_MAX) as [Hle | Hgt].
  - split; [intros E; inv E; auto | intros [-> _]; reflexivity].
  - split; [discriminate | lia].
Qed.

Lemma checked_mul_None a b : checked_mul a b = None <-> usize_MAX < a * b.
Proof.
  unfold checked_mul. destruct (Z.leb_spec (a * b) usize_MAX) as [Hle | Hgt].
  - split; [discriminate | lia].
  - split; [lia | reflexivity].
Qed.

Lemma checked_mul_fits a b : a * b <= usize_MAX -> checked_mul a b = Some (a * b).
Proof. intros. apply checked_mul_Some. auto. Qed.

Lemma checked_div_pos a b : 0 < b -> checked_div a b = Some (a / b).
Proof. intros. unfold checked_div. destruct (Z.eqb_spec b 0); [lia | reflexivity]. Qed.

Lemma checked_div_0 a : checked_div a 0 = None.
Proof. reflexivity. Qed.

Lemma checked_div_in_usize a b r :
  in_usize a -> in_usize b -> checked_div a b = Some r -> in_usize r.
Proof.
  unfold checked_div, in_usize. intros Ha Hb.
  destruct (Z.eqb_spec b 0); intros H; inv H. split.
  - apply Z.div_pos; lia.
  - apply Z.le_trans with a; [apply Z.div_le_upper_bound; nia | lia].
Qed.

(** ** Wrapping arithmetic and the complement *)

Lemma wrapping_add_fits a b : in_usize (a + b) -> wrapping_add a b = a + b.
Proof. apply wrap_small. Qed.

Lemma wrapping_sub_fits a b : in_usize (a - b) -> wrapping_sub a b = a - b.
Proof. apply wrap_small. Qed.

(** One wrap at the end is as good as a wrap after every step. *)
Lemma wrapping_sub_add a b c : wrapping_sub (wrapping_add a b) c = wrap (a + b - c).
Proof.
  unfold wrapping_sub, wrapping_add, wrap.
  rewrite Zminus_mod_idemp_l. reflexivity.
Qed.

Lemma bit_not_sub a : in_usize a -> bit_not a = usize_MAX - a.
Proof.
  intros Ha. unfold bit_not, wrap, Z.lnot, usize_MAX in *.
  pose proof usize_modulus_pos. apply in_usize_lt in Ha.
  replace (Z.pred (- a)) with (usize_modulus - 1 - a + (-1) * usize_modulus) by lia.
  rewrite Z.mod_add by lia. apply Z.mod_small. lia.
Qed.

End Ops.

(** ** Powers of two *)

Lemma pos_count_ones_pos p : 0 < pos_count_ones p.
Proof. induction p; cbn [pos_count_ones]; lia. Qed.

Lemma pos_count_ones_1 p :
  pos_count_ones p = 1 <-> exists n : nat, Zpos p = 2 ^ Z.of_nat n.
Proof.
  induction p as [p IH | p IH |]; cbn [pos_count_ones].
  - pose proof (pos_count_ones_pos p). split; [lia|]. intros [n Hn].
    destruct n; [discriminate|]. rewrite Nat2Z.inj_succ, Z.pow_succ_r in Hn; lia.
  - rewrite IH. split; intros [n Hn].
    + exists (S n). rewrite Nat2Z.inj_succ, Z.pow_succ_r by lia. lia.
    + destruct n; [discriminate|]. exists n.
      rewrite Nat2Z.inj_succ, Z.pow_succ_r in Hn; lia.
  - split; [exists 0%nat; reflexivity | reflexivity].
Qed.

Lemma is_power_of_two_spec a :
  is_power_of_two a = true <-> exists k, 0 <= k /\ a = 2 ^ k.
Proof.
  unfold is_power_of_two. rewrite Z.eqb_eq. destruct a as [|p|p]; simpl.
  - split; [discriminate|]. intros (k & Hk & H). pose proof (pow2_pos k Hk). lia.
  - rewrite pos_count_ones_1. split.
    + intros [n Hn]. exists (Z.of_nat n). split; [lia | assumption].
    + intros (k & Hk & H). exists (Z.to_nat k). now rewrite Z2Nat.id.
  - split; [discriminate|]. intros (k & Hk & H). pose proof (pow2_pos k Hk). lia.
Qed.

Lemma is_power_of_two_pos a : is_power_of_two a = true -> 0 < a.
Proof.
  intros H. apply is_power_of_two_spec in H. destruct H as (k & Hk & ->).
  now apply pow2_pos.
Qed.

(** A power of two that is a [usize] divides the modulus. *)
Lemma is_power_of_two_divides `{Usize} a :
  is_power_of_two a = true -> in_usize a -> exists k, 0 <= k < usize_bits /\ a = 2 ^ k.
Proof.
  intros Hp Ha. apply is_power_of_two_spec in Hp. destruct Hp as (k & Hk & ->).
  exists k. split; [|reflexivity]. split; [assumption|].
  apply in_usize_lt in Ha. unfold usize_modulus in Ha. destruct Ha as [_ Ha].
  apply Z.pow_lt_mono_r_iff in Ha; [assumption | lia | apply usize_bits_nonneg].
Qed.

#[export] Hint Resolve usize_modulus_pos in_usize_0 wrap_in_usize
  checked_add_fits checked_mul_fits : bump.
