(* ===== verification/Layout.v ===== *)
(** * Layout: [core::alloc::Layout] as the allocator uses it

    A layout is a size and an alignment.  [from_size_align] is the checked
    constructor, [padding_needed_for] the mask arithmetic that rounds a size
    up to an alignment, [pad_to_align] the method [InnerAlloc::alloc] calls.
    The file proves that the mask arithmetic computes [round_up], that
    [pad_to_align] cannot panic on a layout [from_size_align] accepts, and
    the bounds on the padded size.  This is code of the Rust core library,
    modelled from its documented behaviour. *)

From Stdlib Require Import ZArith Lia Bool.
From S2P Require Import Prelude Usize.
#[local] Open Scope Z_scope.
#[local] Open Scope rs_scope.

Record Layout : Type := mkLayout { size : Z; align : Z }.

(** The error of [from_size_align]: it carries nothing. *)
Inductive LayoutErr : Type := mkLayoutErr.

Section WithUsize.
Context {U : Usize}.

(** [Layout::from_size_align]: the alignment is a power of two, and the size
    rounded up to it does not overflow. *)
Definition from_size_align (size align : Z) : Result Layout LayoutErr :=
  if negb (is_power_of_two align) then Err mkLayoutErr
  else if size >? usize_MAX - (align - 1) then Err mkLayoutErr
  else Ok (mkLayout size align).

(** [Layout::padding_needed_for]. *)
Definition padding_needed_for (l : Layout) (align : Z) : Z :=
  let len := size l in
  let len_rounded_up :=
    bit_and (wrapping_sub (wrapping_add len align) 1)
            (bit_not (wrapping_sub align 1)) in
  wrapping_sub len_rounded_up len.

(** [usize + usize] with overflow checks on: a panic on overflow. *)
Definition add_strict {S} (a b : Z) : M S Z :=
  unwrap (checked_add a b).

(** [Layout::pad_to_align]. *)
Definition pad_to_align {S} (l : Layout) : M S Layout :=
  let pad := padding_needed_for l (align l) in
  new_size <- add_strict (size l) pad ;;
  unwrap_res (from_size_align new_size (align l)).

(** What [from_size_align] accepts: the invariant of every [Layout] value. *)
Definition layout_ok (l : Layout) : bool :=
  is_usize (size l) && is_usize (align l) &&
  is_power_of_two (align l) && (size l <=? usize_MAX - (align l - 1)).

Definition valid (l : Layout) : Prop := layout_ok l = true.

(** The size [pad_to_align] arrives at, stated without the mask. *)
Definition padded_size (l : Layout) : Z := round_up (size l) (align l).

(** ** Valid layouts *)

Lemma valid_inv l :
  valid l ->
  in_usize (size l) /\ in_usize (align l) /\
  (exists k, 0 <= k < usize_bits /\ align l = 2 ^ k) /\
  size l + align l - 1 <= usize_MAX.
Proof.
  unfold valid, layout_ok. intros H. bool_to_prop.
  repeat match goal with H : is_usize _ = true |- _ => apply is_usize_spec in H end.
  repeat split; try apply H; try apply H2; try lia.
  now apply is_power_of_two_divides.
Qed.

Lemma valid_intro s a :
  in_usize s -> in_usize a -> is_power_of_two a = true ->
  s + a - 1 <= usize_MAX -> valid (mkLayout s a).
Proof.
  intros Hs Ha Hp Hfit. unfold valid, layout_ok. cbn [size align].
  rewrite Hp, (proj2 (is_usize_spec s) Hs), (proj2 (is_usize_spec a) Ha).
  apply Z.leb_le. lia.
Qed.

Lemma valid_align_pos l : valid l -> 0 < align l.
Proof.
  intros H. apply valid_inv in H. destruct H as (_ & _ & (k & Hk & ->) & _).
  apply pow2_pos. lia.
Qed.

Lemma from_size_align_Ok s a l :
  in_usize s -> in_usize a ->
  from_size_align s a = Ok l <-> l = mkLayout s a /\ valid (mkLayout s a).
Proof.
  intros Hs Ha. apply is_usize_spec in Hs, Ha.
  unfold from_size_align, valid, layout_ok. simpl. rewrite Hs, Ha. simpl.
  destruct (is_power_of_two a); simpl; [|split; [discriminate | intros [_ ?]; discriminate]].
  rewrite Z.gtb_ltb. destruct (Z.ltb_spec (usize_MAX - (a - 1)) s) as [Hlt | Hge].
  - split; [discriminate|]. intros [_ H]. apply Z.leb_le in H. lia.
  - split; [intros H; inv H; split; [reflexivity | apply Z.leb_le; lia]
           | intros [-> _]; reflexivity].
Qed.

Lemma from_size_align_valid l : valid l -> from_size_align (size l) (align l) = Ok l.
Proof.
  intros H. pose proof (valid_inv l H) as (Hs & Ha & _ & _).
  apply from_size_align_Ok; [assumption.. |]. destruct l. auto.
Qed.

(** ** The mask arithmetic rounds up *)

(** Clearing the low [k] bits of a [usize] with [& !(2^k - 1)]. *)
Lemma mask_low_bits x k :
  in_usize x -> 0 <= k < usize_bits ->
  bit_and x (bit_not (2 ^ k - 1)) = x - x mod 2 ^ k.
Proof.
  intros Hx Hk. unfold bit_and, bit_not, wrap, usize_modulus.
  pose proof usize_bits_nonneg.
  rewrite <- (Z.land_ones (Z.lnot _)) by assumption.
  rewrite (Z.land_comm (Z.lnot _)), Z.land_assoc, (Z.land_comm x).
  rewrite (Z.land_comm (Z.ones _) x), Z.land_ones by assumption.
  rewrite Z.mod_small by (apply in_usize_lt, Hx).
  rewrite <- Z.sub_land_same_l. f_equal.
  replace (2 ^ k - 1) with (Z.ones k) by (rewrite Z.ones_equiv; lia).
  apply Z.land_ones. lia.
Qed.

Lemma padding_needed_for_spec l :
  valid l -> padding_needed_for l (align l) = padded_size l - size l.
Proof.
  intros H. pose proof (valid_align_pos l H) as Hpos.
  destruct (valid_inv l H) as (Hs & Ha & (k & Hk & Hal) & Hfit).
  unfold padding_needed_for, padded_size. unfold in_usize in *.
  rewrite wrapping_sub_add, (wrap_small (_ + _ - 1)) by (unfold in_usize; lia).
  rewrite (wrapping_sub_fits (align l)) by (unfold in_usize; lia).
  rewrite Hal at 2. rewrite mask_low_bits by (unfold in_usize; lia).
  rewrite <- Hal, (round_up_as_mod _ _ Hpos).
  replace (size l + (align l - 1)) with (size l + align l - 1) by lia.
  apply wrapping_sub_fits. unfold in_usize.
  pose proof (Z.mod_pos_bound (size l + align l - 1) (align l) Hpos). lia.
Qed.

(** ** The padded size *)

Lemma padded_size_ge l : valid l -> size l <= padded_size l.
Proof. intros H. apply round_up_ge, valid_align_pos, H. Qed.

Lemma padded_size_lt l : valid l -> padded_size l < size l + align l.
Proof. intros H. apply round_up_lt, valid_align_pos, H. Qed.

Lemma padded_size_aligned l : valid l -> padded_size l mod align l = 0.
Proof. intros H. apply round_up_mod, valid_align_pos, H. Qed.

Lemma padded_size_in_usize l : valid l -> in_usize (padded_size l).
Proof.
  intros H. pose proof (padded_size_ge l H). pose proof (padded_size_lt l H).
  destruct (valid_inv l H) as (Hs & _ & _ & Hfit). unfold in_usize in *. lia.
Qed.

(** Rounding up leaves room for the alignment below the modulus, so the
    padded layout is one [from_size_align] accepts. *)
Lemma padded_valid l : valid l -> valid (mkLayout (padded_size l) (align l)).
Proof.
  intros H. pose proof (padded_size_in_usize l H) as Hp.
  pose proof (padded_size_aligned l H) as Hm.
  destruct (valid_inv l H) as (_ & Ha & (k & Hk & Hal) & _).
  unfold valid, layout_ok in *. cbn [size align]. bool_to_prop.
  match goal with
  | Hs : is_usize (align l) = true, Hp2 : is_power_of_two _ = true |- _ =>
      rewrite (proj2 (is_usize_spec _) Hp), Hs, Hp2
  end.
  apply Z.leb_le. rewrite Hal in *.
  assert (0 <= k <= usize_bits) as Hk' by lia.
  pose proof (pow2_multiple_room (padded_size l) k usize_bits Hk' Hm).
  apply in_usize_lt in Hp. unfold usize_MAX, usize_modulus in *. lia.
Qed.

(** [pad_to_align] returns, and returns the rounded size. *)
Lemma pad_to_align_spec {S} l (s : S) :
  valid l -> pad_to_align l s = Done (mkLayout (padded_size l) (align l)) s.
Proof.
  intros H. unfold pad_to_align, add_strict.
  rewrite padding_needed_for_spec by assumption.
  pose proof (padded_size_in_usize l H) as Hp.
  rewrite checked_add_fits by (unfold in_usize in Hp; lia).
  unfold bind, unwrap, ret. replace (size l + (padded_size l - size l)) with (padded_size l) by lia.
  pose proof (from_size_align_valid _ (padded_valid l H)) as Hok.
  cbn [size align] in Hok. rewrite Hok. reflexivity.
Qed.

Lemma padded_size_idem l :
  valid l -> padded_size (mkLayout (padded_size l) (align l)) = padded_size l.
Proof.
  intros H. unfold padded_size. cbn [size align].
  apply round_up_idem, valid_align_pos, H.
Qed.

Lemma padded_size_aligned_id l :
  valid l -> size l mod align l = 0 -> padded_size l = size l.
Proof. intros H. apply round_up_aligned, valid_align_pos, H. Qed.

End WithUsize.

#[export] Hint Resolve padded_size_ge padded_size_in_usize valid_align_pos : bump.
