(* ===== verification/State.v ===== *)
(** * State: the allocator's state and the world a call runs in

    [InnerAlloc] is the struct of [bump.rs]; [World] pairs it with the host
    environment a page source acts on, so that a method taking [&mut self]
    is a computation over [World].  The file defines the well-formedness
    invariant of the state and the blocks the allocator hands out. *)

From Stdlib Require Import ZArith Lia Bool.
From S2P Require Import Prelude Usize.
#[local] Open Scope Z_scope.

(** A page in Wasm is 64 KiB. *)
Definition PAGE_SIZE : Z := 64 * 1024.

Record InnerAlloc : Type := mkInnerAlloc {
  (** Points to the start of the next available allocation. *)
  next : Z;
  (** The address of the upper limit of our heap. *)
  upper_limit : Z
}.

(** [InnerAlloc::new]. *)
Definition new : InnerAlloc := {| next := 0; upper_limit := 0 |}.

(** The allocator ([self], or the static [INNER]) and the environment of
    type [H] that [request_pages] acts on. *)
Record World (H : Type) : Type := mkWorld { inner : InnerAlloc; host : H }.

Arguments mkWorld {H} inner host.
Arguments inner {H} w.
Arguments host {H} w.

Section Access.
Context {H : Type}.

(** Reads and writes of the fields of [self]. *)
Definition get_next : M (World H) Z := gets (fun w => next (inner w)).

Definition get_upper_limit : M (World H) Z := gets (fun w => upper_limit (inner w)).

Definition with_next (v : Z) (w : World H) : World H :=
  mkWorld (mkInnerAlloc v (upper_limit (inner w))) (host w).

Definition with_upper_limit (v : Z) (w : World H) : World H :=
  mkWorld (mkInnerAlloc (next (inner w)) v) (host w).

Definition set_next (v : Z) : M (World H) unit := modify (with_next v).

Definition set_upper_limit (v : Z) : M (World H) unit := modify (with_upper_limit v).

End Access.

(** A block handed out: its first address and its length in bytes. *)
Record Block : Type := mkBlock { start : Z; len : Z }.

(** One past the last address of a block. *)
Definition block_end (b : Block) : Z := start b + len b.

(** [x] is an address of the block. *)
Definition in_block (x : Z) (b : Block) : Prop := start b <= x < block_end b.

(** Two blocks share no address. *)
Definition disjoint (b c : Block) : Prop := forall x, ~ (in_block x b /\ in_block x c).

(** The executable test: one ends before the other starts, or one is empty. *)
Definition disjointb (b c : Block) : bool :=
  (block_end b <=? start c) || (block_end c <=? start b) ||
  (len b <=? 0) || (len c <=? 0).

Section Invariant.
Context {U : Usize}.

(** The invariant of the state: the cursor is inside the granted range, and
    both are addresses. *)
Definition inner_wf (a : InnerAlloc) : Prop :=
  0 <= next a /\ next a <= upper_limit a /\ upper_limit a <= usize_MAX.

Definition inner_ok (a : InnerAlloc) : bool :=
  (0 <=? next a) && (next a <=? upper_limit a) && (upper_limit a <=? usize_MAX).

(** The headroom: bytes granted and not yet handed out. *)
Definition headroom (a : InnerAlloc) : Z := upper_limit a - next a.

Lemma inner_ok_spec a : inner_ok a = true <-> inner_wf a.
Proof.
  unfold inner_ok, inner_wf. rewrite !andb_true_iff, !Z.leb_le. tauto.
Qed.

Lemma new_wf : inner_wf new.
Proof. pose proof usize_MAX_ge. unfold inner_wf, new. simpl. lia. Qed.

Lemma inner_wf_next_in_usize a : inner_wf a -> in_usize (next a).
Proof. unfold inner_wf, in_usize. lia. Qed.

Lemma inner_wf_upper_in_usize a : inner_wf a -> in_usize (upper_limit a).
Proof. unfold inner_wf, in_usize. lia. Qed.

Lemma headroom_nonneg a : inner_wf a -> 0 <= headroom a.
Proof. unfold inner_wf, headroom. lia. Qed.

End Invariant.

Lemma PAGE_SIZE_eq : PAGE_SIZE = 65536.
Proof. reflexivity. Qed.

Lemma PAGE_SIZE_pos : 0 < PAGE_SIZE.
Proof. reflexivity. Qed.

Lemma PAGE_SIZE_in_usize `{Usize} : in_usize PAGE_SIZE.
Proof. pose proof usize_MAX_ge. unfold in_usize. rewrite PAGE_SIZE_eq. lia. Qed.

Lemma disjointb_spec b c : disjointb b c = true <-> disjoint b c.
Proof.
  unfold disjointb, disjoint, in_block, block_end.
  rewrite !orb_true_iff, !Z.leb_le. split.
  - intros Hd x. lia.
  - intros Hd. pose proof (Hd (start b)). pose proof (Hd (start c)). lia.
Qed.

Lemma disjoint_sym b c : disjoint b c -> disjoint c b.
Proof. unfold disjoint. intros Hd x [? ?]. apply (Hd x). auto. Qed.

(** Blocks in address order are disjoint. *)
Lemma before_disjoint b c : block_end b <= start c -> disjoint b c.
Proof. unfold disjoint, in_block. intros ? x. lia. Qed.

Section World.
Context {H : Type}.
Implicit Types (w : World H) (v : Z).

Lemma inner_with_next v w :
  inner (with_next v w) = mkInnerAlloc v (upper_limit (inner w)).
Proof. reflexivity. Qed.

Lemma inner_with_upper_limit v w :
  inner (with_upper_limit v w) = mkInnerAlloc (next (inner w)) v.
Proof. reflexivity. Qed.

Lemma host_with_next v w : host (with_next v w) = host w.
Proof. reflexivity. Qed.

Lemma host_with_upper_limit v w : host (with_upper_limit v w) = host w.
Proof. reflexivity. Qed.

End World.

#[export] Hint Resolve new_wf PAGE_SIZE_pos inner_wf_next_in_usize
  inner_wf_upper_in_usize before_disjoint : bump.
#[export] Hint Rewrite @inner_with_next @inner_with_upper_limit
  @host_with_next @host_with_upper_limit : bump_rw.
