(* ===== verification/PageSource.v ===== *)
(** * PageSource: growing the heap by whole pages

    [InnerAlloc::request_pages] has three bodies in [bump.rs], chosen by
    [cfg]: the test stub, the [std] placeholder and the [wasm32] one.  The
    class [PageSource] is the operation, [PageSourceLaws] what the allocator
    core relies on, and the modules [TestStub], [StdStub] and [Wasm32] are
    the three bodies with the proofs that each obeys the laws.  Importing
    one of the modules selects its instance, as the [cfg] does. *)

From Stdlib Require Import ZArith Lia Bool.
From S2P Require Import Prelude Usize State.
#[local] Open Scope Z_scope.
#[local] Open Scope rs_scope.

(** The operation: [request_pages(&mut self, pages) -> Option<usize>] over
    a host environment of type [H]. *)
Class PageSource (H : Type) : Type := {
  request_pages : Z -> M (World H) Z
}.

(** What the allocator core relies on.  [granted u h] reads "the host [h]
    has granted every address below [u]". *)
Class PageSourceLaws {U : Usize} (H : Type) {PS : PageSource H} : Type := {
  granted : Z -> H -> Prop;
  (** a request leaves the allocator's fields alone; *)
  rp_frame_done : forall n w p w',
    request_pages n w = Done p w' -> inner w' = inner w;
  rp_frame_failed : forall n w w',
    request_pages n w = Failed w' -> inner w' = inner w;
  (** the run it returns starts at or above everything granted so far, and
      is granted whole; *)
  rp_fresh : forall n w p w',
    0 <= n -> granted (upper_limit (inner w)) (host w) ->
    request_pages n w = Done p w' ->
    upper_limit (inner w) <= p /\ granted (p + n * PAGE_SIZE) (host w');
  (** a refusal takes nothing back; *)
  rp_failed_granted : forall n w w' u,
    0 <= n -> granted u (host w) ->
    request_pages n w = Failed w' -> granted u (host w');
  (** and what is granted below [u] is granted below any smaller bound. *)
  granted_mono : forall u u' h, granted u h -> u' <= u -> granted u' h
}.

(** A source that returns: the [std] placeholder is the one that does not. *)
Definition never_panics {H} (PS : PageSource H) : Prop :=
  forall n w, request_pages n w <> Panicked.

(** ** The test stub ([cfg(test)]) *)

Module TestStub.

(** Simulates growth by returning the current high-water mark. *)
Definition request_pages (_pages : Z) : M (World unit) Z :=
  get_upper_limit.

#[export] Instance source : PageSource unit := Build_PageSource _ request_pages.

Lemma request_pages_spec n w :
  request_pages n w = Done (upper_limit (inner w)) w.
Proof. reflexivity. Qed.

Lemma stub_never_panics : never_panics source.
Proof. intros n w. discriminate. Qed.

#[export] Instance laws {U : Usize} : PageSourceLaws unit.
Proof.
  refine {| granted := fun _ _ => True |}; simpl; unfold request_pages.
  - intros n w p w' E. inv E. reflexivity.
  - discriminate.
  - intros n w p w' _ _ E. inv E. split; [lia | exact I].
  - trivial.
  - trivial.
Defined.

End TestStub.

(** ** The placeholder of [std] builds outside tests *)

Module StdStub.

(** [unreachable!]: the branch only keeps the compiler happy. *)
Definition request_pages (_pages : Z) : M (World unit) Z := panic.

#[export] Instance source : PageSource unit := Build_PageSource _ request_pages.

#[export] Instance laws {U : Usize} : PageSourceLaws unit.
Proof.
  refine {| granted := fun _ _ => True |}; simpl; unfold request_pages;
    try discriminate; trivial.
Defined.

Lemma request_pages_panics n w : request_pages n w = Panicked.
Proof. reflexivity. Qed.

End StdStub.

(** ** The Wasm body ([target_arch = "wasm32"]) *)

Module Wasm32.

(** The linear memory as the allocator sees it: its size in pages and the
    size beyond which the host refuses to grow it. *)
Record Memory : Type := mkMemory { mem_pages : Z; mem_limit : Z }.

(** A 32-bit linear memory has at most [2^16] pages. *)
Definition MAX_PAGES : Z := 65536.

Definition memory_ok (m : Memory) : Prop :=
  0 <= mem_pages m /\ mem_pages m <= mem_limit m /\ mem_limit m <= MAX_PAGES.

Definition memory_okb (m : Memory) : bool :=
  (0 <=? mem_pages m) && (mem_pages m <=? mem_limit m) && (mem_limit m <=? MAX_PAGES).

(** The size of the memory in bytes. *)
Definition mem_bytes (m : Memory) : Z := mem_pages m * PAGE_SIZE.

(** [memory.grow] by [k] pages executed by something else than the
    allocator. *)
Definition foreign_grow (k : Z) (m : Memory) : Memory :=
  if (0 <=? k) && (mem_pages m + k <=? mem_limit m)
  then mkMemory (mem_pages m + k) (mem_limit m) else m.

Section WithUsize.
Context {U : Usize}.

(** [core::arch::wasm32::memory_grow(0, delta)]: the previous size in pages,
    or [usize::MAX] when the memory cannot grow by [delta] pages. *)
Definition memory_grow (delta : Z) : M (World Memory) Z :=
  fun w =>
    let m := host w in
    if mem_pages m + delta <=? mem_limit m
    then Done (mem_pages m)
              (mkWorld (inner w) (mkMemory (mem_pages m + delta) (mem_limit m)))
    else Done usize_MAX w.

(** Request a [pages] number of pages of Wasm memory. *)
Definition request_pages (pages : Z) : M (World Memory) Z :=
  prev_page <- memory_grow pages ;;
  if prev_page =? usize_MAX then fail
  else try_opt (checked_mul prev_page PAGE_SIZE).

#[export] Instance source : PageSource Memory := Build_PageSource _ request_pages.

(** Everything below [u] is inside the memory. *)
Definition granted_below (u : Z) (m : Memory) : Prop :=
  memory_ok m /\ u <= mem_bytes m.

Lemma memory_okb_spec m : memory_okb m = true <-> memory_ok m.
Proof.
  unfold memory_okb, memory_ok. rewrite !andb_true_iff, !Z.leb_le. tauto.
Qed.

(** What was inside the memory is inside it after somebody else grew it. *)
Lemma foreign_grow_keeps k u m : granted_below u m -> granted_below u (foreign_grow k m).
Proof.
  intros [Hok Hu]. unfold foreign_grow. destruct (_ && _) eqn:E; [|now split].
  bool_to_prop. unfold granted_below, memory_ok, mem_bytes in *. cbn [mem_pages mem_limit].
  pose proof PAGE_SIZE_pos. split; [lia | nia].
Qed.

Lemma MAX_PAGES_lt_usize_MAX : MAX_PAGES < usize_MAX.
Proof. pose proof usize_MAX_ge. unfold MAX_PAGES. lia. Qed.

(** The three ways a request ends: the host refuses, the host grows the
    memory and the base address overflows, or it returns the old size in
    bytes. *)
Lemma request_pages_cases n w :
  memory_ok (host w) ->
  let m := host w in
  let grown := mkWorld (inner w) (mkMemory (mem_pages m + n) (mem_limit m)) in
  request_pages n w =
    if mem_pages m + n <=? mem_limit m
    then if mem_bytes m <=? usize_MAX then Done (mem_bytes m) grown else Failed grown
    else Failed w.
Proof.
  intros (H0 & Hle & Hmax). cbv zeta.
  pose proof MAX_PAGES_lt_usize_MAX.
  unfold request_pages, memory_grow, bind, mem_bytes, checked_mul.
  destruct (Z.leb_spec (mem_pages (host w) + n) (mem_limit (host w))).
  - destruct (Z.eqb_spec (mem_pages (host w)) usize_MAX); [lia|].
    destruct (Z.leb_spec (mem_pages (host w) * PAGE_SIZE) usize_MAX); reflexivity.
  - rewrite Z.eqb_refl. reflexivity.
Qed.

Lemma request_pages_Done n w p w' :
  memory_ok (host w) -> request_pages n w = Done p w' ->
  p = mem_bytes (host w) /\ p <= usize_MAX /\
  mem_pages (host w) + n <= mem_limit (host w) /\
  w' = mkWorld (inner w) (mkMemory (mem_pages (host w) + n) (mem_limit (host w))).
Proof.
  intros Hok E. rewrite request_pages_cases in E by assumption.
  repeat case_hyp E; inv E; bool_to_prop; repeat split; auto.
Qed.

Lemma request_pages_Failed n w w' :
  memory_ok (host w) -> request_pages n w = Failed w' ->
  (mem_pages (host w) + n <= mem_limit (host w) /\ usize_MAX < mem_bytes (host w) /\
   w' = mkWorld (inner w) (mkMemory (mem_pages (host w) + n) (mem_limit (host w)))) \/
  (mem_limit (host w) < mem_pages (host w) + n /\ w' = w).
Proof.
  intros Hok E. rewrite request_pages_cases in E by assumption.
  repeat case_hyp E; inv E; bool_to_prop; auto.
Qed.

(** The test for the failure sentinel changes no result: without it the
    multiplication of [usize::MAX] by [PAGE_SIZE] overflows, and
    [checked_mul] returns [None] as the test does. *)
Remark sentinel_test_redundant pages w :
  request_pages pages w =
    (prev_page <- memory_grow pages ;; try_opt (checked_mul prev_page PAGE_SIZE)) w.
Proof.
  unfold request_pages, bind. destruct (memory_grow pages w) as [prev w' | |]; try reflexivity.
  destruct (Z.eqb_spec prev usize_MAX) as [-> | _]; [|reflexivity].
  pose proof usize_MAX_ge. rewrite (proj2 (checked_mul_None _ _)); [reflexivity|].
  rewrite PAGE_SIZE_eq. lia.
Qed.

(** Nothing in the wasm32 body can panic: a refusal of the host and an
    overflow of the base address are both [None]. *)
Lemma wasm_never_panics : never_panics source.
Proof.
  intros n w. simpl. unfold request_pages, memory_grow, bind.
  repeat case_test; unfold fail, try_opt, ret; try discriminate.
  all: destruct (checked_mul _ _); discriminate.
Qed.

End WithUsize.

#[export] Instance laws {U : Usize} : PageSourceLaws Memory.
Proof.
  refine {| granted := granted_below |}; simpl.
  - intros n w p w'. unfold request_pages, memory_grow, bind.
    repeat case_test; unfold fail, try_opt; try discriminate;
      destruct (checked_mul _ _); intros E; inv E; reflexivity.
  - intros n w w'. unfold request_pages, memory_grow, bind.
    repeat case_test; unfold fail, try_opt; try discriminate;
      try (destruct (checked_mul _ _)); intros E; inv E; reflexivity.
  - intros n w p w' Hn [Hok Hu] E.
    apply request_pages_Done in E; [|assumption]. destruct E as (-> & _ & Hfit & ->).
    unfold granted_below, memory_ok, mem_bytes in *. simpl. split; [lia|].
    split; [lia | nia].
  - intros n w w' u Hn [Hok Hu] E. apply request_pages_Failed in E; [|assumption].
    destruct E as [(Hfit & _ & ->) | (_ & ->)]; [|split; assumption].
    unfold granted_below, memory_ok, mem_bytes in *. simpl.
    pose proof PAGE_SIZE_pos. split; [lia | nia].
  - unfold granted_below. intros u u' h [? ?] ?. split; [assumption | lia].
Defined.

(** On success the run returned is [n] whole pages appended after all the
    memory there was: the address is the old size in bytes, the new size is
    the end of the run, the memory stays within its limit, and the
    allocator's fields are not touched. *)
Theorem request_pages_appends {U : Usize} n w p w' :
  0 <= n -> memory_ok (host w) -> request_pages n w = Done p w' ->
  p = mem_bytes (host w) /\ mem_bytes (host w') = p + n * PAGE_SIZE /\
  memory_ok (host w') /\ inner w' = inner w.
Proof.
  intros Hn Hok E. destruct (request_pages_Done n w p w' Hok E) as (-> & _ & Hfit & ->).
  unfold memory_ok, mem_bytes in *. simpl. repeat split; lia.
Qed.

Lemma request_pages_appends_witness :
  1114112 = mem_bytes (mkMemory 17 65536) /\
  mem_bytes (mkMemory 20 65536) = 1114112 + 3 * PAGE_SIZE /\
  memory_ok (mkMemory 20 65536) /\ new = new.
Proof.
  apply (@request_pages_appends usize32 3 (mkWorld new (mkMemory 17 65536)) 1114112
           (mkWorld new (mkMemory 20 65536)));
    [lia | apply memory_okb_spec; reflexivity | reflexivity].
Defined.

End Wasm32.
