(* ===== verification/Bump.v ===== *)
(** * Bump: the allocator core

    [required_pages] and [InnerAlloc::alloc] of [bump.rs], statement by
    statement, over any page source.  The relation [alloc_outcome] lists the
    paths through [alloc] and is proved to be the function; from it come
    the inversion lemmas, the result of [alloc] on each branch, and what
    holds of every call when the source obeys [PageSourceLaws]: the
    invariant is kept, the block returned is fresh, the cursor and the limit
    only grow, a failed call leaves the allocator as it was, and the only
    panic is the source's. *)

From Stdlib Require Import ZArith Lia Bool.
From S2P Require Import Prelude Usize Layout State PageSource.
#[local] Open Scope Z_scope.
#[local] Open Scope rs_scope.

(** [required_pages]: the pages needed to hold [size] bytes. *)
Definition required_pages {U : Usize} (size : Z) : option Z :=
  and_then (checked_add size (PAGE_SIZE - 1))
           (fun num => checked_div num PAGE_SIZE).

Module InnerAlloc.
Section WithSource.
Context {U : Usize} {H : Type} {PS : PageSource H}.

(** [InnerAlloc::alloc]: tries to allocate enough memory on the heap for the
    given layout; if there is not enough room it grows the heap. *)
Definition alloc (layout : Layout) : M (World H) Z :=
  alloc_start <- get_next ;;
  padded <- pad_to_align layout ;;
  let aligned_size := size padded in
  alloc_end <- try_opt (checked_add alloc_start aligned_size) ;;
  upper <- get_upper_limit ;;
  if alloc_end >? upper then
    (required_pages <- try_opt (required_pages aligned_size) ;;
     page_start <- request_pages required_pages ;;
     limit <- try_opt (and_then (checked_mul required_pages PAGE_SIZE)
                                (fun pages => checked_add page_start pages)) ;;
     set_upper_limit limit ;;
     new_next <- try_opt (checked_add page_start aligned_size) ;;
     set_next new_next ;;
     ret page_start)
  else
    (set_next alloc_end ;;
     ret alloc_start).

(** The block a successful call hands out. *)
Definition block_of (layout : Layout) (addr : Z) : Block :=
  mkBlock addr (padded_size layout).

End WithSource.
End InnerAlloc.

(** ** [required_pages] *)

Section RequiredPages.
Context {U : Usize}.

Lemma required_pages_Some size :
  size + (PAGE_SIZE - 1) <= usize_MAX ->
  required_pages size = Some (ceil_div size PAGE_SIZE).
Proof.
  intros Hfit. unfold required_pages.
  rewrite checked_add_fits by assumption. simpl.
  apply checked_div_pos, PAGE_SIZE_pos.
Qed.

Lemma required_pages_None size :
  usize_MAX < size + (PAGE_SIZE - 1) -> required_pages size = None.
Proof.
  intros Hover. unfold required_pages.
  now rewrite (proj2 (checked_add_None _ _) Hover).
Qed.

Lemma required_pages_inv size n :
  required_pages size = Some n ->
  n = ceil_div size PAGE_SIZE /\ size + (PAGE_SIZE - 1) <= usize_MAX.
Proof.
  unfold required_pages. intros E. apply and_then_Some_inv in E.
  destruct E as (num & Hadd & Hdiv). apply checked_add_Some in Hadd.
  destruct Hadd as [-> Hfit]. rewrite checked_div_pos in Hdiv by apply PAGE_SIZE_pos.
  inv Hdiv. auto.
Qed.

(** The pages hold the size, and one page fewer would not. *)
Lemma required_pages_bounds size n :
  required_pages size = Some n ->
  (n - 1) * PAGE_SIZE < size <= n * PAGE_SIZE.
Proof.
  intros E. apply required_pages_inv in E. destruct E as [-> _].
  apply ceil_div_spec; auto with bump.
Qed.

Lemma required_pages_nonneg size n :
  0 <= size -> required_pages size = Some n -> 0 <= n.
Proof.
  intros Hs E. apply required_pages_inv in E. destruct E as [-> _].
  apply ceil_div_nonneg; auto with bump.
Qed.

Lemma required_pages_pos size n :
  0 < size -> required_pages size = Some n -> 0 < n.
Proof.
  intros Hs E. apply required_pages_inv in E. destruct E as [-> _].
  apply ceil_div_pos; auto with bump.
Qed.

(** C9. [required_pages size] is the ceiling of [size / PAGE_SIZE], and [None]
    exactly when [size + (PAGE_SIZE - 1)] is not a [usize]. *)
Lemma required_pages_spec size :
  required_pages size =
    if size + (PAGE_SIZE - 1) <=? usize_MAX
    then Some (ceil_div size PAGE_SIZE) else None.
Proof.
  destruct (Z.leb_spec (size + (PAGE_SIZE - 1)) usize_MAX).
  - now apply required_pages_Some.
  - now apply required_pages_None.
Qed.

(** The values the specification lists, at every width. *)
Lemma required_pages_examples :
  required_pages 0 = Some 0 /\ required_pages 1 = Some 1 /\
  required_pages 65536 = Some 1 /\ required_pages 65537 = Some 2.
Proof.
  pose proof usize_MAX_ge.
  repeat split; rewrite required_pages_Some; try reflexivity; rewrite PAGE_SIZE_eq; lia.
Qed.

End RequiredPages.

(** ** The branches of [alloc] *)

Section Branches.
Context {U : Usize} {H : Type} {PS : PageSource H}.
Implicit Types (l : Layout) (w : World H).

(** After a successful request for [n] pages at [p]: the new limit and the
    new cursor. *)
Definition grown (sz n p : Z) (w' : World H) : World H :=
  with_next (p + sz) (with_upper_limit (p + n * PAGE_SIZE) w').

(** Every way a call of [alloc] ends, one rule per path through its body.
    [cur] is the cursor before the call, [lim] the limit, [sz] the padded
    size of the request. *)
Section Outcome.
Variables (l : Layout) (w : World H).
#[local] Abbreviation cur := (next (inner w)).
#[local] Abbreviation lim := (upper_limit (inner w)).
#[local] Abbreviation sz := (padded_size l).

Inductive alloc_outcome : outcome (World H) Z -> Prop :=
| alloc_fits :
    cur + sz <= usize_MAX -> cur + sz <= lim ->
    alloc_outcome (Done cur (with_next (cur + sz) w))
| alloc_end_overflows :
    usize_MAX < cur + sz ->
    alloc_outcome (Failed w)
| alloc_pages_overflow :
    cur + sz <= usize_MAX -> lim < cur + sz ->
    usize_MAX < sz + (PAGE_SIZE - 1) ->
    alloc_outcome (Failed w)
| alloc_source_panics n :
    cur + sz <= usize_MAX -> lim < cur + sz ->
    required_pages sz = Some n -> request_pages n w = Panicked ->
    alloc_outcome Panicked
| alloc_source_refuses n w' :
    cur + sz <= usize_MAX -> lim < cur + sz ->
    required_pages sz = Some n -> request_pages n w = Failed w' ->
    alloc_outcome (Failed w')
| alloc_limit_overflows n p w' :
    cur + sz <= usize_MAX -> lim < cur + sz ->
    required_pages sz = Some n -> request_pages n w = Done p w' ->
    usize_MAX < n * PAGE_SIZE \/ usize_MAX < p + n * PAGE_SIZE ->
    alloc_outcome (Failed w')
| alloc_grows n p w' :
    cur + sz <= usize_MAX -> lim < cur + sz ->
    required_pages sz = Some n -> request_pages n w = Done p w' ->
    n * PAGE_SIZE <= usize_MAX -> p + n * PAGE_SIZE <= usize_MAX ->
    alloc_outcome (Done p (grown sz n p w')).

End Outcome.

(** [alloc] up to the test of the headroom. *)
Lemma alloc_head l w :
  valid l ->
  InnerAlloc.alloc l w =
    match checked_add (next (inner w)) (padded_size l) with
    | None => Failed w
    | Some alloc_end =>
        if alloc_end >? upper_limit (inner w) then
          (n <- try_opt (required_pages (padded_size l)) ;;
           p <- request_pages n ;;
           limit <- try_opt (and_then (checked_mul n PAGE_SIZE)
                                      (fun pages => checked_add p pages)) ;;
           set_upper_limit limit ;;
           new_next <- try_opt (checked_add p (padded_size l)) ;;
           set_next new_next ;;
           ret p) w
        else Done (next (inner w)) (with_next alloc_end w)
    end.
Proof.
  intros Hl. unfold InnerAlloc.alloc, bind at 1 2, get_next, gets.
  rewrite pad_to_align_spec by assumption. cbn [size].
  unfold bind at 1. destruct (checked_add _ _) as [alloc_end|]; [|reflexivity].
  cbn [try_opt ret]. unfold bind at 1, get_upper_limit, gets.
  destruct (alloc_end >? _); reflexivity.
Qed.

(** The cursor after a growth is an address: the pages hold the size. *)
Lemma grow_next_fits sz n p :
  required_pages sz = Some n -> p + n * PAGE_SIZE <= usize_MAX ->
  checked_add p sz = Some (p + sz).
Proof.
  intros Hn Hfit. apply required_pages_bounds in Hn.
  apply checked_add_fits. lia.
Qed.

(** The growth branch once the source has answered. *)
Lemma alloc_tail sz n p w' :
  required_pages sz = Some n ->
  (limit <- try_opt (and_then (checked_mul n PAGE_SIZE)
                              (fun pages => checked_add p pages)) ;;
   set_upper_limit limit ;;
   new_next <- try_opt (checked_add p sz) ;;
   set_next new_next ;;
   ret p) w' =
  if (n * PAGE_SIZE <=? usize_MAX) && (p + n * PAGE_SIZE <=? usize_MAX)
  then Done p (grown sz n p w') else Failed w'.
Proof.
  intros Hn. unfold checked_mul at 1. cbv zeta.
  destruct (Z.leb_spec (n * PAGE_SIZE) usize_MAX); [|reflexivity]. simpl and_then.
  unfold checked_add at 1. cbv zeta.
  destruct (Z.leb_spec (p + n * PAGE_SIZE) usize_MAX); [|reflexivity].
  unfold bind, try_opt, ret, set_upper_limit, set_next, modify.
  rewrite (grow_next_fits sz n p) by assumption. reflexivity.
Qed.

(** [alloc] ends in one of the seven ways, and in no other. *)
Lemma alloc_cases l w : valid l -> alloc_outcome l w (InnerAlloc.alloc l w).
Proof.
  intros Hl. rewrite alloc_head by assumption.
  destruct (checked_add (next (inner w)) (padded_size l)) as [e|] eqn:Hadd;
    [|apply checked_add_None in Hadd; now apply alloc_end_overflows].
  apply checked_add_Some in Hadd. destruct Hadd as [-> Hfit].
  rewrite Z.gtb_ltb.
  destruct (Z.ltb_spec (upper_limit (inner w)) (next (inner w) + padded_size l))
    as [Hgrow | Hroom]; [|now apply alloc_fits].
  unfold bind at 1.
  destruct (required_pages (padded_size l)) as [n|] eqn:Hn; simpl try_opt.
  - unfold ret at 1, bind at 1.
    destruct (request_pages n w) as [p w' | w' |] eqn:Hrp.
    + rewrite alloc_tail by assumption.
      destruct (Z.leb_spec (n * PAGE_SIZE) usize_MAX);
        destruct (Z.leb_spec (p + n * PAGE_SIZE) usize_MAX); simpl;
        solve [ eapply alloc_grows; eauto | eapply alloc_limit_overflows; eauto ].
    + eapply alloc_source_refuses; eauto.
    + eapply alloc_source_panics; eauto.
  - apply alloc_pages_overflow; try assumption.
    destruct (Z.le_gt_cases (padded_size l + (PAGE_SIZE - 1)) usize_MAX) as [Hle|]; [|lia].
    rewrite required_pages_Some in Hn by assumption. discriminate.
Qed.

End Branches.

(** ** The relation is the function *)

Section Determinism.
Context {U : Usize} {H : Type} {PS : PageSource H}.
Implicit Types (l : Layout) (w : World H) (r : outcome (World H) Z).

(** The rules exclude one another. *)
Lemma alloc_outcome_det l w r r' :
  alloc_outcome l w r -> alloc_outcome l w r' -> r = r'.
Proof.
  intros H1 H2. inv H1; inv H2;
    try reflexivity; try lia; try congruence;
    repeat match goal with
    | E1 : required_pages ?s = Some ?n, E2 : required_pages ?s = Some ?m |- _ =>
        rewrite E1 in E2; inv E2
    | E1 : request_pages ?n ?w = _, E2 : request_pages ?n ?w = _ |- _ =>
        rewrite E1 in E2; inv E2
    | E : required_pages _ = Some _, Hov : usize_MAX < _ + (PAGE_SIZE - 1) |- _ =>
        apply required_pages_inv in E
    end; try reflexivity; try lia.
Qed.

(** A rule that applies gives the result of the call. *)
Lemma alloc_complete l w r :
  valid l -> alloc_outcome l w r -> InnerAlloc.alloc l w = r.
Proof.
  intros Hl Hr. eapply alloc_outcome_det; [apply alloc_cases, Hl | exact Hr].
Qed.

(** C8. The seven rules describe [alloc] exactly: a rule derives an outcome
    if and only if the call computes it. *)
Lemma alloc_outcome_iff l w r :
  valid l -> (alloc_outcome l w r <-> InnerAlloc.alloc l w = r).
Proof.
  intros Hl. split; [now apply alloc_complete|]. intros <-. now apply alloc_cases.
Qed.

End Determinism.

(** ** Reading an outcome backwards *)

Section Inversion.
Context {U : Usize} {H : Type} {PS : PageSource H}.
Implicit Types (l : Layout) (w : World H).

(** A request the source answered with pages at [p]. *)
Definition grew l w (n p : Z) (w1 : World H) : Prop :=
  upper_limit (inner w) < next (inner w) + padded_size l /\
  required_pages (padded_size l) = Some n /\
  request_pages n w = Done p w1.

(** An address comes from the headroom or from the base of a new run. *)
Lemma alloc_Done_inv l w addr w' :
  valid l -> InnerAlloc.alloc l w = Done addr w' ->
  (next (inner w) + padded_size l <= upper_limit (inner w) /\
   addr = next (inner w) /\ w' = with_next (addr + padded_size l) w) \/
  (exists n w1, grew l w n addr w1 /\ addr + n * PAGE_SIZE <= usize_MAX /\
                w' = grown (padded_size l) n addr w1).
Proof.
  intros Hl E. pose proof (alloc_cases l w Hl) as Hc. rewrite E in Hc.
  inv Hc; [left | right; eexists; eexists]; unfold grew; eauto 10.
Qed.

(** [None] comes from an overflow before the request, from the source, or
    from an overflow of the new limit after the source granted pages. *)
Lemma alloc_Failed_inv l w w' :
  valid l -> InnerAlloc.alloc l w = Failed w' ->
  w' = w \/
  (exists n, required_pages (padded_size l) = Some n /\ request_pages n w = Failed w') \/
  (exists n p, grew l w n p w' /\
               (usize_MAX < n * PAGE_SIZE \/ usize_MAX < p + n * PAGE_SIZE)).
Proof.
  intros Hl E. pose proof (alloc_cases l w Hl) as Hc. rewrite E in Hc.
  inv Hc; unfold grew; eauto 10.
Qed.

(** A panic is the source's. *)
Lemma alloc_Panicked_inv l w :
  valid l -> InnerAlloc.alloc l w = Panicked ->
  exists n, required_pages (padded_size l) = Some n /\ request_pages n w = Panicked.
Proof.
  intros Hl E. pose proof (alloc_cases l w Hl) as Hc. rewrite E in Hc.
  inv Hc; eauto.
Qed.

End Inversion.

(** ** What holds of every call *)

Section Laws.
Context {U : Usize} {H : Type} {PS : PageSource H} {L : PageSourceLaws H}.
Implicit Types (l : Layout) (w : World H).

(** The invariant of the world: the allocator is well formed and everything
    below its limit has been granted by the host. *)
Definition world_ok w : Prop :=
  inner_wf (inner w) /\ granted (upper_limit (inner w)) (host w).

Lemma padded_size_nonneg l : valid l -> 0 <= padded_size l.
Proof. intros Hl. apply padded_size_in_usize in Hl. apply Hl. Qed.

(** What a request that was answered tells: the pages hold the size, the
    allocator's fields are as before, the run is above the old limit and
    granted whole. *)
Lemma grew_facts l w n p w1 :
  valid l -> world_ok w -> grew l w n p w1 ->
  0 <= n /\ padded_size l <= n * PAGE_SIZE /\ inner w1 = inner w /\
  upper_limit (inner w) <= p /\ granted (p + n * PAGE_SIZE) (host w1).
Proof.
  intros Hl [Hwf Hg] (_ & Hn & Hrp). pose proof (padded_size_nonneg l Hl) as Hsz.
  pose proof (required_pages_nonneg _ _ Hsz Hn) as Hn0.
  pose proof (required_pages_bounds _ _ Hn) as [_ Hb].
  destruct (rp_fresh n w p w1 Hn0 Hg Hrp) as [Hp Hg'].
  pose proof (rp_frame_done n w p w1 Hrp). auto.
Qed.

(** A successful call keeps the invariant. *)
Lemma alloc_Done_ok l w addr w' :
  valid l -> world_ok w -> InnerAlloc.alloc l w = Done addr w' -> world_ok w'.
Proof.
  intros Hl Hok E. pose proof (padded_size_nonneg l Hl) as Hsz.
  apply alloc_Done_inv in E; [|exact Hl].
  destruct E as [(Hroom & -> & ->) | (n & w1 & Hg & Hlim & ->)].
  - destruct Hok as [Hwf Hgr]. split; [|exact Hgr]. unfold inner_wf in *. simpl. lia.
  - destruct (grew_facts l w n addr w1 Hl Hok Hg) as (Hn0 & Hb & Hin & Hp & Hgr).
    destruct Hok as [Hwf _]. split; [|exact Hgr]. unfold inner_wf in *. simpl. lia.
Qed.

(** So does a call that returns [None], and it leaves the allocator's fields
    as they were. *)
Lemma alloc_Failed_ok l w w' :
  valid l -> world_ok w -> InnerAlloc.alloc l w = Failed w' ->
  world_ok w' /\ inner w' = inner w.
Proof.
  intros Hl Hok E. pose proof (padded_size_nonneg l Hl) as Hsz.
  apply alloc_Failed_inv in E; [|exact Hl].
  destruct E as [-> | [(n & Hn & Hrp) | (n & p & Hg & _)]]; [now split | |].
  - destruct Hok as [Hwf Hgr]. pose proof (required_pages_nonneg _ _ Hsz Hn).
    pose proof (rp_frame_failed _ _ _ Hrp) as Hin.
    unfold world_ok. rewrite Hin. repeat split; try apply Hwf.
    eapply rp_failed_granted; eauto.
  - destruct (grew_facts l w n p w' Hl Hok Hg) as (Hn0 & _ & Hin & Hp & Hgr).
    destruct Hok as [Hwf _]. unfold world_ok. rewrite Hin. repeat split; try apply Hwf.
    apply granted_mono with (p + n * PAGE_SIZE); [exact Hgr|].
    pose proof PAGE_SIZE_pos. nia.
Qed.

(** The state a call leaves, whether it returned an address or [None],
    satisfies the invariant again. *)
Lemma alloc_keeps_ok l w w' :
  valid l -> world_ok w ->
  state_of (InnerAlloc.alloc l w) = Some w' -> world_ok w'.
Proof.
  intros Hl Hok E. destruct (InnerAlloc.alloc l w) eqn:Ha; inv E;
    [eapply alloc_Done_ok | eapply alloc_Failed_ok]; eauto.
Qed.

(** The address returned is at or after the old cursor, the new cursor is
    the end of the block, and it is at most the new limit. *)
Lemma alloc_Done_bounds l w addr w' :
  valid l -> world_ok w -> InnerAlloc.alloc l w = Done addr w' ->
  next (inner w) <= addr /\
  next (inner w') = addr + padded_size l /\
  next (inner w') <= upper_limit (inner w').
Proof.
  intros Hl Hok E. destruct (alloc_Done_ok l w addr w' Hl Hok E) as [(_ & Hle & _) _].
  apply alloc_Done_inv in E; [|exact Hl].
  destruct E as [(Hroom & -> & ->) | (n & w1 & Hg & Hlim & ->)].
  - simpl in *. lia.
  - destruct (grew_facts l w n addr w1 Hl Hok Hg) as (_ & _ & _ & Hp & _).
    destruct Hok as [Hwf _]. unfold inner_wf in Hwf. simpl in *. lia.
Qed.

(** C2. The block returned is fresh: it overlaps no block that ends at or below
    the old cursor, which every block handed out before does, and all of it
    has been granted by the host. *)
Theorem alloc_fresh l w addr w' b :
  valid l -> world_ok w -> InnerAlloc.alloc l w = Done addr w' ->
  block_end b <= next (inner w) ->
  disjoint b (InnerAlloc.block_of l addr) /\
  granted (block_end (InnerAlloc.block_of l addr)) (host w').
Proof.
  intros Hl Hok E Hb. destruct (alloc_Done_bounds l w addr w' Hl Hok E) as (Hlo & Hnx & Hle).
  destruct (alloc_Done_ok l w addr w' Hl Hok E) as [_ Hg]. split.
  - apply before_disjoint. simpl. lia.
  - apply granted_mono with (upper_limit (inner w')); [exact Hg|].
    unfold block_end, InnerAlloc.block_of. simpl. lia.
Qed.

(** C6. A call that returns [None] leaves [next] and [upper_limit] as they
    were. *)
Lemma alloc_failed_inner l w w' :
  valid l -> InnerAlloc.alloc l w = Failed w' -> inner w' = inner w.
Proof.
  intros Hl E. apply alloc_Failed_inv in E; [|exact Hl].
  destruct E as [-> | [(n & Hn & Hrp) | (n & p & (_ & _ & Hrp) & _)]].
  - reflexivity.
  - eapply rp_frame_failed; eauto.
  - eapply rp_frame_done; eauto.
Qed.

(** The cursor and the limit never move down. *)
Lemma alloc_monotone l w w' :
  valid l -> world_ok w -> state_of (InnerAlloc.alloc l w) = Some w' ->
  next (inner w) <= next (inner w') /\
  upper_limit (inner w) <= upper_limit (inner w').
Proof.
  intros Hl Hok E. pose proof (padded_size_nonneg l Hl) as Hsz.
  destruct (InnerAlloc.alloc l w) as [addr w1 | w1 |] eqn:Ha; inv E.
  - destruct (alloc_Done_bounds l w addr w' Hl Hok Ha) as (Hlo & Hnx & _).
    split; [lia|]. apply alloc_Done_inv in Ha; [|exact Hl].
    destruct Ha as [(_ & _ & ->) | (n & w1 & Hg & _ & ->)]; simpl; [lia|].
    destruct (grew_facts l w n addr w1 Hl Hok Hg) as (Hn0 & _ & _ & Hp & _).
    pose proof PAGE_SIZE_pos. nia.
  - destruct (alloc_Failed_ok l w w' Hl Hok Ha) as [_ ->]. lia.
Qed.

(** C25. Every [usize] of a call is one: the address returned and the end of the
    block lie in [0, usize::MAX], and so do the two fields in the state the
    call leaves, whether it returned an address or [None]. *)
Theorem alloc_typed l w w' :
  valid l -> world_ok w -> state_of (InnerAlloc.alloc l w) = Some w' ->
  in_usize (next (inner w')) /\ in_usize (upper_limit (inner w')) /\
  forall addr, value_of (InnerAlloc.alloc l w) = Some addr ->
    in_usize addr /\ in_usize (addr + padded_size l).
Proof.
  intros Hl Hok E. pose proof Hok as [(H0 & _) _].
  destruct (alloc_keeps_ok l w w' Hl Hok E) as [Hwf _].
  split; [|split]; [unfold inner_wf, in_usize in *; lia..|]. intros addr Ev.
  destruct (InnerAlloc.alloc l w) as [a w1 | w1 |] eqn:Ea; inv E; inv Ev.
  destruct (alloc_Done_bounds l w addr w' Hl Hok Ea) as (Hlo & Hnx & Hle).
  pose proof (padded_size_nonneg l Hl). unfold inner_wf, in_usize in *. lia.
Qed.

(** The only panic is the page source's. *)
Lemma alloc_no_panic l w :
  valid l -> never_panics PS -> InnerAlloc.alloc l w <> Panicked.
Proof.
  intros Hl Hnp E. apply alloc_Panicked_inv in E; [|exact Hl].
  destruct E as (n & _ & Hrp). exact (Hnp n w Hrp).
Qed.

End Laws.

(** ** The result of [alloc], branch by branch *)

Section Functional.
Context {U : Usize} {H : Type} {PS : PageSource H}.
Implicit Types (l : Layout) (w : World H).

(** C4. A request that fits the headroom is served at the cursor, which moves
    up by the padded size; the limit and the host are untouched, whatever
    the page source is. *)
Lemma alloc_fits_eq l w :
  valid l -> inner_wf (inner w) ->
  padded_size l <= headroom (inner w) ->
  InnerAlloc.alloc l w =
    Done (next (inner w)) (with_next (next (inner w) + padded_size l) w).
Proof.
  intros Hl Hwf Hroom. unfold headroom, inner_wf in *.
  apply alloc_complete; [exact Hl|]. apply alloc_fits; lia.
Qed.

(** C5. A request that does not fit is served at the base of the run the source
    returns: the limit becomes the end of that run, the cursor the end of
    the block, and the old headroom is abandoned. *)
Lemma alloc_grows_eq l w n p w' :
  valid l -> inner_wf (inner w) -> 0 <= p ->
  headroom (inner w) < padded_size l ->
  next (inner w) + padded_size l <= usize_MAX ->
  required_pages (padded_size l) = Some n ->
  request_pages n w = Done p w' ->
  p + n * PAGE_SIZE <= usize_MAX ->
  InnerAlloc.alloc l w =
    Done p (with_next (p + padded_size l) (with_upper_limit (p + n * PAGE_SIZE) w')).
Proof.
  intros Hl Hwf Hp Hroom Hend Hn Hrp Hlim. unfold headroom in *.
  pose proof (required_pages_nonneg _ _ (padded_size_nonneg l Hl) Hn).
  apply alloc_complete; [exact Hl|]. eapply alloc_grows; eauto; lia.
Qed.

(** C40. A request of padded size zero is served at the cursor and changes
    nothing: the next request is served at the same address. *)
Lemma alloc_zero_size l w :
  valid l -> inner_wf (inner w) -> padded_size l = 0 ->
  InnerAlloc.alloc l w = Done (next (inner w)) w.
Proof.
  intros Hl Hwf Hz. apply alloc_complete; [exact Hl|].
  assert (Hw : with_next (next (inner w) + padded_size l) w = w)
    by (rewrite Hz, Z.add_0_r; now destruct w as [[n u] h]).
  pose proof (alloc_fits l w) as Hf. rewrite Hw in Hf.
  unfold inner_wf in Hwf. apply Hf; lia.
Qed.

(** The end of the block would not be an address: [None], state untouched. *)
Lemma alloc_end_overflow_eq l w :
  valid l -> usize_MAX < next (inner w) + padded_size l ->
  InnerAlloc.alloc l w = Failed w.
Proof. intros Hl Hov. apply alloc_complete; [exact Hl|]. now apply alloc_end_overflows. Qed.

(** The size plus the rounding slack of [required_pages] would not be a
    [usize]: [None], state untouched, the source is not asked. *)
Lemma alloc_pages_overflow_eq l w :
  valid l -> inner_wf (inner w) ->
  headroom (inner w) < padded_size l ->
  usize_MAX < padded_size l + (PAGE_SIZE - 1) ->
  InnerAlloc.alloc l w = Failed w.
Proof.
  intros Hl Hwf Hroom Hov. unfold headroom in *. apply alloc_complete; [exact Hl|].
  destruct (Z.le_gt_cases (next (inner w) + padded_size l) usize_MAX).
  - now apply alloc_pages_overflow; try lia.
  - now apply alloc_end_overflows.
Qed.

(** The source refuses: [None], with the world the source left. *)
Lemma alloc_refused_eq l w n w' :
  valid l -> headroom (inner w) < padded_size l ->
  next (inner w) + padded_size l <= usize_MAX ->
  required_pages (padded_size l) = Some n ->
  request_pages n w = Failed w' ->
  InnerAlloc.alloc l w = Failed w'.
Proof.
  intros Hl Hroom Hend Hn Hrp. unfold headroom in *.
  apply alloc_complete; [exact Hl|]. eapply alloc_source_refuses; eauto; lia.
Qed.

(** The source grants pages whose end is not an address: [None]; the
    allocator's fields are not written, the pages are lost. *)
Lemma alloc_limit_overflow_eq l w n p w' :
  valid l -> headroom (inner w) < padded_size l ->
  next (inner w) + padded_size l <= usize_MAX ->
  required_pages (padded_size l) = Some n ->
  request_pages n w = Done p w' ->
  usize_MAX < p + n * PAGE_SIZE ->
  InnerAlloc.alloc l w = Failed w'.
Proof.
  intros Hl Hroom Hend Hn Hrp Hov. unfold headroom in *.
  apply alloc_complete; [exact Hl|]. eapply alloc_limit_overflows; eauto; lia.
Qed.

(** The source panics: so does the call. *)
Lemma alloc_panics_eq l w n :
  valid l -> headroom (inner w) < padded_size l ->
  next (inner w) + padded_size l <= usize_MAX ->
  required_pages (padded_size l) = Some n ->
  request_pages n w = Panicked ->
  InnerAlloc.alloc l w = Panicked.
Proof.
  intros Hl Hroom Hend Hn Hrp. unfold headroom in *.
  apply alloc_complete; [exact Hl|]. eapply alloc_source_panics; eauto; lia.
Qed.

End Functional.

(** ** The theorems at concrete requests

    On a 64-bit host with the test stub: a fresh allocator serves 65535
    bytes at 0 from a first page, then has one byte of headroom. *)

Section Witnesses.
#[local] Existing Instance usize64.
Import TestStub.

Definition w_one_page : World unit := mkWorld (mkInnerAlloc 65535 65536) tt.

Lemma w_one_page_ok : world_ok w_one_page.
Proof. split; [apply inner_ok_spec; reflexivity | exact I]. Qed.

Lemma alloc_fits_eq_witness :
  InnerAlloc.alloc (mkLayout 1 1) w_one_page =
    Done 65535 (mkWorld (mkInnerAlloc 65536 65536) tt).
Proof.
  apply (alloc_fits_eq (mkLayout 1 1) w_one_page);
    [reflexivity | apply inner_ok_spec; reflexivity | by_compute].
Defined.

Lemma alloc_grows_eq_witness :
  InnerAlloc.alloc (mkLayout 2 2) w_one_page =
    Done 65536 (mkWorld (mkInnerAlloc 65538 131072) tt).
Proof.
  apply (alloc_grows_eq (mkLayout 2 2) w_one_page 1 65536 w_one_page);
    [reflexivity | apply inner_ok_spec; reflexivity | by_compute..
    | reflexivity | reflexivity | by_compute].
Defined.

Lemma alloc_fresh_witness :
  disjoint (mkBlock 0 65535) (InnerAlloc.block_of (mkLayout 2 2) 65536) /\
  granted (block_end (InnerAlloc.block_of (mkLayout 2 2) 65536)) tt.
Proof.
  apply (alloc_fresh (mkLayout 2 2) w_one_page 65536
           (mkWorld (mkInnerAlloc 65538 131072) tt) (mkBlock 0 65535));
    [reflexivity | apply w_one_page_ok | reflexivity | by_compute].
Defined.

Lemma alloc_failed_inner_witness :
  inner (mkWorld (mkInnerAlloc 65535 65536) tt) = inner w_one_page.
Proof.
  apply (alloc_failed_inner (mkLayout (usize_MAX - 7) 8) w_one_page);
    [reflexivity | vm_compute; reflexivity].
Defined.

Lemma alloc_outcome_iff_witness :
  alloc_outcome (mkLayout 1 1) w_one_page
    (Done 65535 (mkWorld (mkInnerAlloc 65536 65536) tt)) <->
  InnerAlloc.alloc (mkLayout 1 1) w_one_page =
    Done 65535 (mkWorld (mkInnerAlloc 65536 65536) tt).
Proof. apply (alloc_outcome_iff (mkLayout 1 1) w_one_page). reflexivity. Defined.

Lemma alloc_zero_size_witness :
  InnerAlloc.alloc (mkLayout 0 4) w_one_page = Done 65535 w_one_page.
Proof.
  apply (alloc_zero_size (mkLayout 0 4) w_one_page);
    [reflexivity | apply inner_ok_spec; reflexivity | reflexivity].
Defined.

Lemma alloc_pages_overflow_eq_witness :
  InnerAlloc.alloc (mkLayout (usize_MAX - 7) 8) w_one_page = Failed w_one_page.
Proof.
  apply (alloc_pages_overflow_eq (mkLayout (usize_MAX - 7) 8) w_one_page);
    [reflexivity | apply inner_ok_spec; reflexivity | by_compute | by_compute].
Defined.

Lemma alloc_typed_witness :
  in_usize 65538 /\ in_usize 131072 /\
  forall addr, value_of (InnerAlloc.alloc (mkLayout 2 2) w_one_page) = Some addr ->
    in_usize addr /\ in_usize (addr + padded_size (mkLayout 2 2)).
Proof.
  apply (alloc_typed (mkLayout 2 2) w_one_page (mkWorld (mkInnerAlloc 65538 131072) tt));
    [reflexivity | apply w_one_page_ok | reflexivity].
Defined.

(** Outside the tests a [std] build has the source that panics. *)
Lemma alloc_panics_eq_witness :
  @InnerAlloc.alloc usize64 unit StdStub.source (mkLayout 2 2) w_one_page = Panicked.
Proof.
  apply (@alloc_panics_eq usize64 unit StdStub.source (mkLayout 2 2) w_one_page 1);
    [reflexivity | by_compute | by_compute | reflexivity | reflexivity].
Defined.

End Witnesses.
