(* ===== verification/Trace.v ===== *)
(** * Trace: runs of the allocator

    A client calls [alloc] again and again over the life of the process; a
    call that returns [None] hands out nothing and the client goes on.
    [run] is such a sequence of calls and collects the blocks handed out;
    [play] is a sequence of calls between which the host may move on its
    own account, as when something else grows the memory.
    The theorems are about whole runs from any world satisfying the
    invariant: the blocks are in address order and pairwise disjoint, they
    lie between the first cursor and the last, the invariant holds at the
    end, and the run returns unless the page source panics.  [step] is one
    call as a transition: every state reachable from [InnerAlloc::new]
    satisfies the invariant and has less than a page of headroom, and the
    cursor and the limit never move down. *)

From Stdlib Require Import ZArith Lia Bool List Sorted.
From S2P Require Import Prelude Usize Layout State PageSource Bump.
Import ListNotations.
#[local] Open Scope Z_scope.
#[local] Open Scope rs_scope.

(** Blocks laid out one after the other from [lo] upwards, gaps allowed. *)
Fixpoint in_order (lo : Z) (bs : list Block) : Prop :=
  match bs with
  | [] => True
  | b :: rest => lo <= start b /\ 0 <= len b /\ in_order (block_end b) rest
  end.

(** The executable test of [in_order]. *)
Fixpoint in_orderb (lo : Z) (bs : list Block) : bool :=
  match bs with
  | [] => true
  | b :: rest => (lo <=? start b) && (0 <=? len b) && in_orderb (block_end b) rest
  end.

(** The end of the last block, [lo] when there is none. *)
Fixpoint last_end (lo : Z) (bs : list Block) : Z :=
  match bs with
  | [] => lo
  | b :: rest => last_end (block_end b) rest
  end.

(** The bytes of a list of blocks. *)
Definition total (bs : list Block) : Z := fold_right (fun b n => len b + n) 0 bs.

Section Runs.
Context {U : Usize} {H : Type} {PS : PageSource H}.

(** The calls [alloc(l)] for [l] in [ls], in order; the blocks handed out,
    oldest first.  A panic ends the run. *)
Fixpoint run (ls : list Layout) : M (World H) (list Block) :=
  match ls with
  | [] => ret []
  | l :: rest =>
      fun w =>
        match InnerAlloc.alloc l w with
        | Done addr w' =>
            (bs <- run rest ;; ret (InnerAlloc.block_of l addr :: bs)) w'
        | Failed w' => run rest w'
        | Panicked => Panicked
        end
  end.

(** What happens to the allocator over the life of the process: a call, or
    a move of the host on its own account, as when something else than the
    allocator grows the memory. *)
Inductive Event : Type :=
| Request (l : Layout)
| HostMove (f : H -> H).

(** The world after the host moved. *)
Definition move_host (f : H -> H) (w : World H) : World H :=
  mkWorld (inner w) (f (host w)).

(** The events in order, and the blocks handed out. *)
Fixpoint play (es : list Event) : M (World H) (list Block) :=
  match es with
  | [] => ret []
  | Request l :: rest =>
      fun w =>
        match InnerAlloc.alloc l w with
        | Done addr w' =>
            (bs <- play rest ;; ret (InnerAlloc.block_of l addr :: bs)) w'
        | Failed w' => play rest w'
        | Panicked => Panicked
        end
  | HostMove f :: rest => fun w => play rest (move_host f w)
  end.

(** One call, whatever it returns, as a transition of the world. *)
Inductive step : World H -> World H -> Prop :=
| step_alloc l w w' :
    valid l -> state_of (InnerAlloc.alloc l w) = Some w' -> step w w'.

(** Zero or more calls. *)
Inductive steps : World H -> World H -> Prop :=
| steps_refl w : steps w w
| steps_cons w w' w'' : step w w' -> steps w' w'' -> steps w w''.

(** The worlds the process can be in: those reached from [InnerAlloc::new]
    and some host [h]. *)
Definition reachable (h : H) (w : World H) : Prop := steps (mkWorld new h) w.

End Runs.

(** ** Blocks in order *)

Lemma in_orderb_spec lo bs : in_orderb lo bs = true <-> in_order lo bs.
Proof.
  revert lo. induction bs as [|b bs IH]; intros lo; simpl; [tauto|].
  rewrite !andb_true_iff, !Z.leb_le, IH. tauto.
Qed.

Lemma in_order_weaken lo lo' bs : lo' <= lo -> in_order lo bs -> in_order lo' bs.
Proof. destruct bs; simpl; [trivial|]. intros ? (? & ? & ?). repeat split; auto; lia. Qed.

Lemma in_order_last_end lo bs : in_order lo bs -> lo <= last_end lo bs.
Proof.
  revert lo. induction bs as [|b bs IH]; intros lo; simpl; [lia|].
  intros (Hlo & Hlen & Hrest). apply IH in Hrest. unfold block_end in *. lia.
Qed.

(** Every block of an ordered list lies between the start and the end. *)
Lemma in_order_bounds lo bs :
  in_order lo bs ->
  Forall (fun b => lo <= start b /\ block_end b <= last_end lo bs) bs.
Proof.
  revert lo. induction bs as [|b bs IH]; intros lo; simpl; [constructor|].
  intros (Hlo & Hlen & Hrest). constructor.
  - split; [exact Hlo | now apply in_order_last_end].
  - eapply Forall_impl; [|apply IH, Hrest].
    unfold block_end. simpl. intros c [? ?]. split; lia.
Qed.

(** Blocks in order are pairwise disjoint. *)
Lemma in_order_disjoint lo bs : in_order lo bs -> ForallOrdPairs disjoint bs.
Proof.
  revert lo. induction bs as [|b bs IH]; intros lo; simpl; [constructor|].
  intros (Hlo & Hlen & Hrest). constructor; [|eapply IH, Hrest].
  eapply Forall_impl; [|apply in_order_bounds, Hrest].
  intros c [Hc _]. now apply before_disjoint.
Qed.

Lemma total_cons b bs : total (b :: bs) = len b + total bs.
Proof. reflexivity. Qed.

(** Blocks in order take at least their bytes of the address space. *)
Lemma in_order_total lo bs : in_order lo bs -> lo + total bs <= last_end lo bs.
Proof.
  revert lo. induction bs as [|b bs IH]; intros lo; simpl; [lia|].
  intros (Hlo & Hlen & Hrest). apply IH in Hrest. unfold block_end in *. lia.
Qed.

Lemma in_order_app lo bs cs :
  in_order lo bs -> in_order (last_end lo bs) cs -> in_order lo (bs ++ cs).
Proof.
  revert lo. induction bs as [|b bs IH]; intros lo; simpl; [trivial|].
  intros (? & ? & ?) ?. auto.
Qed.

(** ** Invariants of the transition system *)

(** Blocks in order that are not empty start at strictly increasing
    addresses. *)
Lemma in_order_starts lo bs :
  in_order lo bs -> Forall (fun b => 0 < len b) bs ->
  StronglySorted Z.lt (map start bs) /\ Forall (fun s => lo <= s) (map start bs).
Proof.
  revert lo. induction bs as [|b bs IH]; intros lo; simpl;
    [split; constructor|].
  intros (Hlo & _ & Hrest) Hlen. inv Hlen. destruct (IH _ Hrest H2) as [Hs Hge].
  unfold block_end in Hge. split; constructor; auto.
  - eapply Forall_impl; [|exact Hge]. cbv beta. lia.
  - eapply Forall_impl; [|exact Hge]. cbv beta. lia.
Qed.

Section Steps.
Context {U : Usize} {H : Type} {PS : PageSource H}.

(** A property every call keeps holds along any sequence of calls. *)
Lemma steps_invariant (P : World H -> Prop) :
  (forall w w', P w -> step w w' -> P w') ->
  forall w w', P w -> steps w w' -> P w'.
Proof. intros Hstep w w' HP Hs. induction Hs; eauto. Qed.

Lemma steps_trans (w w' w'' : World H) : steps w w' -> steps w' w'' -> steps w w''.
Proof. intros Hs. induction Hs; eauto using steps_cons. Qed.

Lemma steps_one (w w' : World H) : step w w' -> steps w w'.
Proof. eauto using steps_cons, steps_refl. Qed.

End Steps.

(** ** Whole runs *)

Section RunLaws.
Context {U : Usize} {H : Type} {PS : PageSource H} {L : PageSourceLaws H}.
Implicit Types (ls : list Layout) (w : World H) (bs : list Block).

(** A move of the host that takes nothing back. *)
Definition keeps_granted (f : H -> H) : Prop :=
  forall u h, granted u h -> granted u (f h).

Definition event_ok (e : Event) : Prop :=
  match e with Request l => valid l | HostMove f => keeps_granted f end.

(** A run is the requests played with a host that does not move. *)
Lemma run_as_play ls w : run ls w = play (map Request ls) w.
Proof.
  revert w. induction ls as [|l ls IH]; intros w; [reflexivity|].
  cbn [run play map]. unfold bind.
  destruct (InnerAlloc.alloc l w); rewrite ?IH; reflexivity.
Qed.

Lemma move_host_ok f w : keeps_granted f -> world_ok w -> world_ok (move_host f w).
Proof. intros Hf [Hwf Hg]. split; [exact Hwf | now apply Hf]. Qed.

(** Inversion of a request that was played. *)
Lemma play_Request_inv l es w bs w' :
  play (Request l :: es) w = Done bs w' ->
  (exists addr w1 bs1, InnerAlloc.alloc l w = Done addr w1 /\
      play es w1 = Done bs1 w' /\ bs = InnerAlloc.block_of l addr :: bs1) \/
  (exists w1, InnerAlloc.alloc l w = Failed w1 /\ play es w1 = Done bs w').
Proof.
  cbn [play]. destruct (InnerAlloc.alloc l w) as [addr w1 | w1 |] eqn:Ha;
    [| eauto | discriminate].
  unfold bind, ret. destruct (play es w1) as [bs1 w2 | |] eqn:Hr; try discriminate.
  intros E; inv E. left. eauto 10.
Qed.

(** The blocks handed out are in order from the first cursor, end at or
    before the last cursor, and the invariant holds at the end, whatever
    the host does between the calls. *)
Lemma play_in_order es : forall w bs w',
  Forall event_ok es -> world_ok w -> play es w = Done bs w' ->
  in_order (next (inner w)) bs /\
  last_end (next (inner w)) bs <= next (inner w') /\ world_ok w'.
Proof.
  induction es as [|[l | f] es IH]; intros w bs w' Hes Hok E.
  - inv E. simpl. repeat split; try apply Hok; lia.
  - inv Hes. apply play_Request_inv in E.
    destruct E as [(addr & w1 & bs1 & Ha & Hr & ->) | (w1 & Ha & Hr)].
    + destruct (alloc_Done_bounds l w addr w1 H2 Hok Ha) as (Hlo & Hnx & _).
      pose proof (padded_size_nonneg l H2).
      destruct (IH w1 bs1 w' H3 (alloc_Done_ok l w addr w1 H2 Hok Ha) Hr) as (Ho & Hl & Hok').
      simpl. unfold block_end. simpl. rewrite <- Hnx. auto.
    + destruct (alloc_Failed_ok l w w1 H2 Hok Ha) as [Hok1 Hin].
      rewrite <- Hin. now apply IH.
  - inv Hes. apply (IH (move_host f w)); auto using move_host_ok.
Qed.

(** C1. No two blocks handed out share an address, whatever the host does
    between the calls as long as it takes nothing back: the allocator does
    not rely on being the only one to grow the memory. *)
Theorem play_disjoint es w bs w' :
  Forall event_ok es -> world_ok w -> play es w = Done bs w' ->
  ForallOrdPairs disjoint bs.
Proof.
  intros Hes Hok E. destruct (play_in_order es w bs w' Hes Hok E) as (Ho & _).
  eapply in_order_disjoint, Ho.
Qed.

(** Inversion of a run that returned. *)
Lemma run_cons_inv l ls w bs w' :
  run (l :: ls) w = Done bs w' ->
  (exists addr w1 bs1, InnerAlloc.alloc l w = Done addr w1 /\
      run ls w1 = Done bs1 w' /\ bs = InnerAlloc.block_of l addr :: bs1) \/
  (exists w1, InnerAlloc.alloc l w = Failed w1 /\ run ls w1 = Done bs w').
Proof.
  simpl. destruct (InnerAlloc.alloc l w) as [addr w1 | w1 |] eqn:Ha;
    [| eauto | discriminate].
  unfold bind, ret. destruct (run ls w1) as [bs1 w2 | |] eqn:Hr; try discriminate.
  intros E; inv E. left. eauto 10.
Qed.

(** The blocks of a run are in order from the first cursor, end at or
    before the last cursor, and the invariant holds at the end. *)
Lemma run_in_order ls : forall w bs w',
  Forall valid ls -> world_ok w -> run ls w = Done bs w' ->
  in_order (next (inner w)) bs /\
  last_end (next (inner w)) bs <= next (inner w') /\ world_ok w'.
Proof.
  intros w bs w' Hls Hok E. rewrite run_as_play in E.
  apply (play_in_order (map Request ls)); [|assumption..].
  apply Forall_map. exact Hls.
Qed.

(** No two blocks handed out in a run share an address. *)
Lemma run_disjoint ls w bs w' :
  Forall valid ls -> world_ok w -> run ls w = Done bs w' ->
  ForallOrdPairs disjoint bs.
Proof.
  intros Hls Hok E. destruct (run_in_order ls w bs w' Hls Hok E) as (Ho & _).
  eapply in_order_disjoint, Ho.
Qed.

(** Every block lies between the cursor before the run and the cursor
    after it, hence below the limit the host has granted. *)
Lemma run_within ls w bs w' :
  Forall valid ls -> world_ok w -> run ls w = Done bs w' ->
  Forall (fun b => next (inner w) <= start b /\
                   block_end b <= next (inner w') /\
                   block_end b <= upper_limit (inner w')) bs.
Proof.
  intros Hls Hok E. destruct (run_in_order ls w bs w' Hls Hok E) as (Ho & Hl & [Hwf _]).
  eapply Forall_impl; [|apply in_order_bounds, Ho].
  unfold inner_wf in Hwf. intros b [? ?]. repeat split; lia.
Qed.

(** The cursor moves up by the bytes handed out at least, and stays an
    address: all the blocks of a run together hold no more bytes than the
    address space has. *)
Theorem run_total ls w bs w' :
  Forall valid ls -> world_ok w -> run ls w = Done bs w' ->
  next (inner w) + total bs <= next (inner w') /\ next (inner w') <= usize_MAX.
Proof.
  intros Hls Hok E. destruct (run_in_order ls w bs w' Hls Hok E) as (Ho & Hl & [Hwf _]).
  apply in_order_total in Ho. unfold inner_wf in Hwf. lia.
Qed.

(** A run returns when the page source does. *)
Lemma run_returns ls : forall w,
  Forall valid ls -> never_panics PS -> exists bs w', run ls w = Done bs w'.
Proof.
  induction ls as [|l ls IH]; intros w Hls Hnp; [simpl; eauto|].
  inv Hls. simpl. pose proof (alloc_no_panic l w H2 Hnp) as Hp.
  destruct (InnerAlloc.alloc l w) as [addr w1 | w1 |]; [| eauto | congruence].
  destruct (IH w1 H3 Hnp) as (bs & w' & Hr). unfold bind, ret. rewrite Hr. eauto.
Qed.

(** Every transition keeps the invariant. *)
Lemma step_ok w w' : world_ok w -> step w w' -> world_ok w'.
Proof. intros Hok Hs. inv Hs. eauto using alloc_keeps_ok. Qed.

Lemma steps_ok w w' : world_ok w -> steps w w' -> world_ok w'.
Proof. apply steps_invariant. intros; eauto using step_ok. Qed.

(** Along any sequence of calls the cursor and the limit only grow. *)
Lemma steps_monotone w w' :
  world_ok w -> steps w w' ->
  next (inner w) <= next (inner w') /\
  upper_limit (inner w) <= upper_limit (inner w').
Proof.
  intros Hok Hs. induction Hs as [|w w1 w2 Hs1 Hs IH]; [lia|].
  pose proof (step_ok _ _ Hok Hs1) as Hok1. inv Hs1.
  destruct (alloc_monotone l w w1 H0 Hok H1). specialize (IH Hok1). lia.
Qed.

(** So they do over a run. *)
Lemma run_monotone ls : forall w bs w',
  Forall valid ls -> world_ok w -> run ls w = Done bs w' ->
  next (inner w) <= next (inner w') /\
  upper_limit (inner w) <= upper_limit (inner w').
Proof.
  induction ls as [|l ls IH]; intros w bs w' Hls Hok E; [inv E; lia|].
  inv Hls. apply run_cons_inv in E.
  destruct E as [(addr & w1 & bs1 & Ha & Hr & _) | (w1 & Ha & Hr)];
    assert (Hs : state_of (InnerAlloc.alloc l w) = Some w1) by now rewrite Ha.
  all: destruct (alloc_monotone l w w1 H2 Hok Hs);
    destruct (IH w1 _ w' H3 (alloc_keeps_ok l w w1 H2 Hok Hs) Hr); lia.
Qed.

(** C3. Every world the process can be in satisfies the invariant, provided
    the host it started with grants nothing yet claimed. *)
Lemma reachable_ok h w : granted 0 h -> reachable h w -> world_ok w.
Proof.
  intros Hg Hr. eapply steps_ok; [|exact Hr]. split; auto with bump.
Qed.

(** The blocks of requests for at least one byte are not empty. *)
Lemma run_lens ls : forall w bs w',
  Forall valid ls -> Forall (fun l => 0 < size l) ls ->
  run ls w = Done bs w' -> Forall (fun b => 0 < len b) bs.
Proof.
  induction ls as [|l ls IH]; intros w bs w' Hls Hpos E; [inv E; constructor|].
  inv Hls. inv Hpos. apply run_cons_inv in E.
  destruct E as [(addr & w1 & bs1 & Ha & Hr & ->) | (w1 & Ha & Hr)]; [|eauto].
  constructor; [|eauto]. pose proof (padded_size_ge l H2). simpl. lia.
Qed.

(** The start addresses of a run of requests for at least one byte are
    strictly increasing. *)
Theorem run_starts_increasing ls w bs w' :
  Forall valid ls -> Forall (fun l => 0 < size l) ls -> world_ok w ->
  run ls w = Done bs w' -> StronglySorted Z.lt (map start bs).
Proof.
  intros Hls Hpos Hok E. destruct (run_in_order ls w bs w' Hls Hok E) as (Ho & _).
  eapply in_order_starts; eauto using run_lens.
Qed.

(** A call leaves less than a page of headroom when there was less than a
    page before: pages are requested only when the request does not fit,
    and no more of them than the request needs. *)
Lemma alloc_headroom l w w' :
  valid l -> world_ok w -> headroom (inner w) < PAGE_SIZE ->
  state_of (InnerAlloc.alloc l w) = Some w' -> headroom (inner w') < PAGE_SIZE.
Proof.
  intros Hl Hok Hh E. pose proof (padded_size_nonneg l Hl) as Hsz. unfold headroom in *.
  destruct (InnerAlloc.alloc l w) as [addr w1 | w1 |] eqn:Ha; inv E.
  - apply alloc_Done_inv in Ha; [|exact Hl].
    destruct Ha as [(_ & -> & ->) | (n & w1 & (_ & Hn & _) & _ & ->)]; simpl; [lia|].
    pose proof (required_pages_bounds _ _ Hn). lia.
  - now destruct (alloc_Failed_ok l w w' Hl Hok Ha) as [_ ->].
Qed.

(** C28. The allocator never sits on a whole unused page: in every world the
    process can be in, the headroom is less than a page. *)
Theorem reachable_headroom h w :
  granted 0 h -> reachable h w -> headroom (inner w) < PAGE_SIZE.
Proof.
  intros Hg Hr. cut (world_ok w /\ headroom (inner w) < PAGE_SIZE); [tauto|].
  revert Hr. apply (steps_invariant (fun w => world_ok w /\ headroom (inner w) < PAGE_SIZE)).
  - intros w1 w2 [Hok Hh] Hs. inv Hs. split; eauto using alloc_keeps_ok, alloc_headroom.
  - split; [split; [apply new_wf | exact Hg] | exact PAGE_SIZE_pos].
Qed.

End RunLaws.

(** ** The theorems at a concrete run

    Scenario B of the specification on a 64-bit host with the test stub:
    65535 bytes, then two bytes aligned to two. *)

Section Witnesses.
#[local] Existing Instance usize64.
Import TestStub.

Lemma run_disjoint_witness :
  ForallOrdPairs disjoint [mkBlock 0 65535; mkBlock 65536 2].
Proof.
  apply (run_disjoint [mkLayout 65535 1; mkLayout 2 2] (mkWorld new tt)
           [mkBlock 0 65535; mkBlock 65536 2]
           (mkWorld (mkInnerAlloc 65538 131072) tt)).
  - repeat constructor.
  - split; [apply new_wf | exact I].
  - vm_compute. reflexivity.
Defined.

Lemma run_total_witness :
  0 + total [mkBlock 0 65535; mkBlock 65536 2] <= 65538 /\ 65538 <= usize_MAX.
Proof.
  apply (run_total [mkLayout 65535 1; mkLayout 2 2] (mkWorld new tt)
           [mkBlock 0 65535; mkBlock 65536 2]
           (mkWorld (mkInnerAlloc 65538 131072) tt)).
  - repeat constructor.
  - split; [apply new_wf | exact I].
  - vm_compute. reflexivity.
Defined.

Lemma run_returns_witness :
  exists bs w', run [mkLayout 65535 1; mkLayout 2 2] (mkWorld new tt) = Done bs w'.
Proof.
  apply (run_returns [mkLayout 65535 1; mkLayout 2 2] (mkWorld new tt)).
  - repeat constructor.
  - apply stub_never_panics.
Defined.

Lemma one_page_reachable : reachable tt (mkWorld (mkInnerAlloc 65535 65536) tt).
Proof.
  apply steps_one, (step_alloc (mkLayout 65535 1)); reflexivity.
Qed.

Lemma reachable_ok_witness : world_ok (mkWorld (mkInnerAlloc 65535 65536) tt).
Proof. apply (reachable_ok tt); [exact I | apply one_page_reachable]. Defined.

Lemma steps_monotone_witness : 0 <= 65535 /\ 0 <= 65536.
Proof.
  apply (steps_monotone (mkWorld new tt) (mkWorld (mkInnerAlloc 65535 65536) tt));
    [split; [apply new_wf | exact I] | apply one_page_reachable].
Defined.

Lemma run_starts_increasing_witness : StronglySorted Z.lt [0; 65536].
Proof.
  apply (run_starts_increasing [mkLayout 65535 1; mkLayout 2 2] (mkWorld new tt)
           [mkBlock 0 65535; mkBlock 65536 2]
           (mkWorld (mkInnerAlloc 65538 131072) tt)).
  - repeat constructor.
  - repeat constructor.
  - split; [apply new_wf | exact I].
  - vm_compute. reflexivity.
Defined.

Lemma reachable_headroom_witness :
  headroom (mkInnerAlloc 65535 65536) < PAGE_SIZE.
Proof.
  apply (reachable_headroom tt (mkWorld (mkInnerAlloc 65535 65536) tt));
    [exact I | apply one_page_reachable].
Defined.

End Witnesses.

(** ** The theorem in a Wasm memory that something else grows as well

    A module of 17 pages on the 32-bit target: a request, three pages
    taken by somebody else, and a request that needs two more. *)

Section WasmWitness.
#[local] Existing Instance usize32.
Import Wasm32.

Lemma play_disjoint_witness :
  ForallOrdPairs disjoint [mkBlock 1114112 100; mkBlock 1376256 70000].
Proof.
  apply (play_disjoint
           [Request (mkLayout 100 4); HostMove (foreign_grow 3); Request (mkLayout 70000 8)]
           (mkWorld new (mkMemory 17 65536))
           [mkBlock 1114112 100; mkBlock 1376256 70000]
           (mkWorld (mkInnerAlloc 1446256 1507328) (mkMemory 23 65536))).
  - constructor; [reflexivity|]. constructor; [exact (foreign_grow_keeps 3)|].
    constructor; [reflexivity | constructor].
  - split; [apply new_wf | split; [apply memory_okb_spec; reflexivity | by_compute]].
  - vm_compute. reflexivity.
Defined.

End WasmWitness.
