(* ===== verification/Steps.v ===== *)
(** * Steps: [alloc] statement by statement

    [InnerAlloc::alloc] of [Bump] is one function of the state: a call is
    atomic.  That is the promise of the target, not of the code, which
    keeps the allocator in a [static mut] and takes no lock.  This file
    has the statements of [alloc] one at a time: a [Frame] is the statement
    a call executes next with the locals that are live there, [stmt]
    executes it, [exec] runs a call for a number of statements, and
    [interleave] runs two calls over the one allocator in the order a
    schedule gives.  The statements are those of the function: a call
    run for eight statements or more is the call of [Bump], with its
    result, its state or its panic ([exec_alloc_more]).  The theorem: the
    invariant of the allocator holds after every statement of a call, not
    only between calls.  [Schedule], [Racing] and [Growing] are about
    calls whose statements interleave. *)

From Stdlib Require Import ZArith Lia Bool List.
From S2P Require Import Prelude Usize Layout State PageSource Bump Trace.
Import ListNotations.
#[local] Open Scope Z_scope.
#[local] Open Scope rs_scope.

(** Where a call of [alloc] is: the statement it executes next, and the
    locals defined so far that are still used. *)
Inductive Frame : Type :=
| ReadNext (layout : Layout)
| PadSize (layout : Layout) (alloc_start : Z)
| AddEnd (alloc_start aligned_size : Z)
| TestLimit (alloc_start aligned_size alloc_end : Z)
| CountPages (aligned_size : Z)
| RequestPages (aligned_size required_pages : Z)
| WriteLimit (aligned_size required_pages page_start : Z)
| WriteNext (aligned_size page_start : Z)
| BumpNext (alloc_start alloc_end : Z)
| Return (r : option Z).

(** The [?] of a statement: go on with the value, or return [None]. *)
Definition or_return {A} (o : option A) (k : A -> Frame) : Frame :=
  match o with Some a => k a | None => Return None end.

(** Which of two calls executes its next statement. *)
Inductive Turn : Type := First | Second.

Section Statements.
Context {U : Usize} {H : Type} {PS : PageSource H}.

(** One statement of [alloc]. *)
Definition stmt (f : Frame) : M (World H) Frame :=
  match f with
  | ReadNext layout =>
      alloc_start <- get_next ;;
      ret (PadSize layout alloc_start)
  | PadSize layout alloc_start =>
      padded <- pad_to_align layout ;;
      ret (AddEnd alloc_start (size padded))
  | AddEnd alloc_start aligned_size =>
      ret (or_return (checked_add alloc_start aligned_size)
                     (TestLimit alloc_start aligned_size))
  | TestLimit alloc_start aligned_size alloc_end =>
      upper <- get_upper_limit ;;
      ret (if alloc_end >? upper then CountPages aligned_size
           else BumpNext alloc_start alloc_end)
  | CountPages aligned_size =>
      ret (or_return (required_pages aligned_size) (RequestPages aligned_size))
  | RequestPages aligned_size required_pages =>
      page_start <- catch (request_pages required_pages) ;;
      ret (or_return page_start (WriteLimit aligned_size required_pages))
  | WriteLimit aligned_size required_pages page_start =>
      match and_then (checked_mul required_pages PAGE_SIZE)
                     (fun pages => checked_add page_start pages) with
      | Some limit => set_upper_limit limit ;; ret (WriteNext aligned_size page_start)
      | None => ret (Return None)
      end
  | WriteNext aligned_size page_start =>
      match checked_add page_start aligned_size with
      | Some new_next => set_next new_next ;; ret (Return (Some page_start))
      | None => ret (Return None)
      end
  | BumpNext alloc_start alloc_end =>
      set_next alloc_end ;; ret (Return (Some alloc_start))
  | Return r => ret (Return r)
  end.

(** A call run for [fuel] statements. *)
Fixpoint exec (fuel : nat) (f : Frame) : M (World H) Frame :=
  match fuel with
  | O => ret f
  | S fuel' => f' <- stmt f ;; exec fuel' f'
  end.

(** Two calls in flight over the one allocator, and the statements of the
    two in the order [turns] gives. *)
Fixpoint interleave (turns : list Turn) (fs : Frame * Frame)
  : M (World H) (Frame * Frame) :=
  match turns with
  | [] => ret fs
  | First :: rest => f <- stmt (fst fs) ;; interleave rest (f, snd fs)
  | Second :: rest => f <- stmt (snd fs) ;; interleave rest (fst fs, f)
  end.

(** The number of statements a call may take. *)
Definition alloc_statements : nat := 8.

End Statements.

(** ** A call, statement by statement *)

Section Calls.
Context {U : Usize} {H : Type} {PS : PageSource H}.
Implicit Types (l : Layout) (w : World H) (f g : Frame) (fuel : nat).

(** A call that has returned stays where it is. *)
Lemma exec_Return fuel r w : exec fuel (Return r) w = Done (Return r) w.
Proof. induction fuel as [|fuel IH]; [reflexivity | exact IH]. Qed.

Lemma exec_add fuel fuel' f w :
  exec (fuel + fuel') f w = (f' <- exec fuel f ;; exec fuel' f') w.
Proof.
  revert f w. induction fuel as [|fuel IH]; intros f w; [reflexivity|].
  cbn [exec Nat.add]. unfold bind. destruct (stmt f w) as [f1 w1 | |]; [|reflexivity..].
  now rewrite IH.
Qed.

(** [pad_to_align] returns a layout or panics: it has no [None]. *)
Lemma pad_to_align_not_Failed l w w' : pad_to_align l w <> Failed w'.
Proof.
  unfold pad_to_align, add_strict, bind, unwrap, unwrap_res.
  destruct (checked_add _ _); [|discriminate]. cbn.
  now destruct (from_size_align _ _).
Qed.

(** Eight statements are a call of [alloc]: the same result, the same
    state, the same panic. *)
Lemma exec_alloc l w :
  exec alloc_statements (ReadNext l) w =
    (r <- catch (InnerAlloc.alloc l) ;; ret (Return r)) w.
Proof.
  unfold alloc_statements, InnerAlloc.alloc.
  cbv beta iota delta [exec stmt bind catch ret get_next get_upper_limit gets
    set_next set_upper_limit modify try_opt fail or_return].
  pose proof (pad_to_align_not_Failed l w) as Hpad.
  destruct (pad_to_align l w) as [padded w1 | w1 |]; [| now elim (Hpad w1) | reflexivity].
  destruct (checked_add _ _) as [alloc_end|]; [|reflexivity].
  destruct (alloc_end >? _); [|reflexivity].
  destruct (required_pages _) as [n|]; [|reflexivity].
  destruct (request_pages n w1) as [p w2 | w2 |]; try reflexivity.
  destruct (and_then _ _) as [limit|]; [|reflexivity].
  now destruct (checked_add p _).
Qed.

(** Statements past the eighth change nothing. *)
Lemma exec_alloc_more fuel l w :
  exec (alloc_statements + fuel) (ReadNext l) w =
    (r <- catch (InnerAlloc.alloc l) ;; ret (Return r)) w.
Proof.
  rewrite exec_add. unfold bind at 1. rewrite exec_alloc. unfold bind, catch, ret.
  destruct (InnerAlloc.alloc l w); try reflexivity; apply exec_Return.
Qed.

(** ** Two calls, one of them running *)

Lemma interleave_First_exec fuel turns : forall f g w,
  interleave (repeat First fuel ++ turns) (f, g) w =
    (f' <- exec fuel f ;; interleave turns (f', g)) w.
Proof.
  induction fuel as [|fuel IH]; intros f g w; [reflexivity|].
  cbn [repeat app interleave exec fst snd]. unfold bind.
  destruct (stmt f w) as [f1 w1 | |]; [|reflexivity..]. now rewrite IH.
Qed.

Lemma interleave_Second_exec fuel turns : forall f g w,
  interleave (repeat Second fuel ++ turns) (f, g) w =
    (g' <- exec fuel g ;; interleave turns (f, g')) w.
Proof.
  induction fuel as [|fuel IH]; intros f g w; [reflexivity|].
  cbn [repeat app interleave exec fst snd]. unfold bind.
  destruct (stmt g w) as [g1 w1 | |]; [|reflexivity..]. now rewrite IH.
Qed.

(** The statements of a call that is served from the headroom. *)
Lemma stmt_PadSize l a w :
  valid l -> stmt (PadSize l a) w = Done (AddEnd a (padded_size l)) w.
Proof. intros Hl. cbn [stmt]. unfold bind. now rewrite pad_to_align_spec. Qed.

Lemma stmt_AddEnd_fits a sz w :
  a + sz <= usize_MAX -> stmt (AddEnd a sz) w = Done (TestLimit a sz (a + sz)) w.
Proof. intros Hfit. cbn [stmt]. now rewrite checked_add_fits. Qed.

Lemma stmt_TestLimit_fits a sz e w :
  e <= upper_limit (inner w) -> stmt (TestLimit a sz e) w = Done (BumpNext a e) w.
Proof.
  intros Hfit. cbn [stmt]. unfold bind, get_upper_limit, gets, ret.
  rewrite Z.gtb_ltb. now rewrite (proj2 (Z.ltb_ge _ _)).
Qed.

End Calls.

(** ** The invariant, statement by statement *)

Section Invariant.
Context {U : Usize} {H : Type} {PS : PageSource H} {L : PageSourceLaws H}.
Implicit Types (l : Layout) (w : World H) (f : Frame) (fuel : nat).

(** What the locals of a call say of the state it runs in. *)
Definition frame_ok f w : Prop :=
  match f with
  | ReadNext l => valid l
  | PadSize l a => valid l /\ a = next (inner w)
  | AddEnd a sz => 0 <= sz /\ a = next (inner w)
  | TestLimit a sz e => 0 <= sz /\ a = next (inner w) /\ e = a + sz
  | CountPages sz => 0 <= sz
  | RequestPages sz n => 0 <= sz /\ required_pages sz = Some n
  | WriteLimit sz n p =>
      0 <= sz /\ required_pages sz = Some n /\
      upper_limit (inner w) <= p /\ granted (p + n * PAGE_SIZE) (host w)
  | WriteNext sz p => 0 <= sz /\ next (inner w) <= p /\ p + sz <= upper_limit (inner w)
  | BumpNext a e => a = next (inner w) /\ a <= e /\ e <= upper_limit (inner w)
  | Return _ => True
  end.

(** The request for pages: the allocator's fields are untouched and the
    run returned is above the limit and granted. *)
Lemma stmt_RequestPages_ok sz n w f' w' :
  world_ok w -> frame_ok (RequestPages sz n) w ->
  stmt (RequestPages sz n) w = Done f' w' -> world_ok w' /\ frame_ok f' w'.
Proof.
  intros [Hwf Hg] [Hsz Hn] E. cbn [stmt] in E. unfold bind, catch, ret in E.
  pose proof (required_pages_nonneg _ _ Hsz Hn) as Hn0. pose proof PAGE_SIZE_pos.
  destruct (request_pages n w) as [p w1 | w1 |] eqn:Hrp; inv E.
  - destruct (rp_fresh n w p w' Hn0 Hg Hrp) as [Hp Hg'].
    pose proof (rp_frame_done n w p w' Hrp) as Hin. unfold world_ok. rewrite Hin.
    cbn [or_return frame_ok]. rewrite Hin.
    repeat split; try assumption; try apply Hwf.
    apply granted_mono with (p + n * PAGE_SIZE); [assumption | nia].
  - pose proof (rp_frame_failed n w w' Hrp) as Hin. unfold world_ok. rewrite Hin.
    repeat split; try apply Hwf. eapply rp_failed_granted; eauto.
Qed.

(** The write of the limit comes first: the cursor is below it before and
    after. *)
Lemma stmt_WriteLimit_ok sz n p w f' w' :
  world_ok w -> frame_ok (WriteLimit sz n p) w ->
  stmt (WriteLimit sz n p) w = Done f' w' -> world_ok w' /\ frame_ok f' w'.
Proof.
  intros [(H0 & Hle & Hmax) Hg] (Hsz & Hn & Hp & Hg') E. cbn [stmt] in E.
  pose proof (required_pages_bounds _ _ Hn) as [_ Hb].
  destruct (and_then _ _) as [limit|] eqn:Hl; inv E;
    [|repeat split; assumption].
  apply and_then_Some_inv in Hl. destruct Hl as (pages & Hm & Ha).
  apply checked_mul_Some in Hm. destruct Hm as [-> _].
  apply checked_add_Some in Ha. destruct Ha as [-> Hfit].
  unfold world_ok, inner_wf, with_upper_limit, with_next.
  cbn [inner next upper_limit host frame_ok]. repeat split; try assumption; lia.
Qed.

(** Every statement keeps the invariant of the world and what the locals
    say of it. *)
Lemma stmt_keeps_ok f w f' w' :
  world_ok w -> frame_ok f w -> stmt f w = Done f' w' ->
  world_ok w' /\ frame_ok f' w'.
Proof.
  intros Hok Hf E. pose proof Hok as [(H0 & Hle & Hmax) Hg].
  destruct f as [l | l a | a sz | a sz e | sz | sz n | sz n p | sz p | a e | r];
    [ | | | | | now apply (stmt_RequestPages_ok sz n w)
    | now apply (stmt_WriteLimit_ok sz n p w) | | | ];
    cbn [stmt frame_ok] in *.
  - inv E. cbn [frame_ok]. auto.
  - destruct Hf as [Hl ->]. unfold bind in E. rewrite pad_to_align_spec in E by assumption.
    inv E. cbn [size frame_ok]. pose proof (padded_size_nonneg l Hl). auto.
  - destruct Hf as [Hsz ->]. inv E. split; [exact Hok|].
    destruct (checked_add _ _) as [e|] eqn:Ha; cbn [or_return frame_ok]; [|exact I].
    apply checked_add_Some in Ha. destruct Ha as [-> _]. auto.
  - destruct Hf as (Hsz & -> & ->). unfold bind, get_upper_limit, gets, ret in E. inv E.
    split; [exact Hok|].
    destruct (_ >? _) eqn:Ht; bool_to_prop; cbn [frame_ok];
      [assumption | repeat split; lia].
  - inv E. split; [exact Hok|].
    destruct (required_pages sz) eqn:Hn; cbn [or_return frame_ok]; auto.
  - destruct Hf as (Hsz & Hp & Hfit).
    destruct (checked_add p sz) as [nn|] eqn:Ha; inv E; [|cbn [frame_ok]; auto].
    apply checked_add_Some in Ha. destruct Ha as [-> _].
    unfold world_ok, inner_wf, with_next.
    cbn [inner next upper_limit host frame_ok]. repeat split; try assumption; lia.
  - destruct Hf as (-> & Hae & Hfit). inv E.
    unfold world_ok, inner_wf, with_next.
    cbn [inner next upper_limit host frame_ok]. repeat split; try assumption; lia.
  - inv E. cbn [frame_ok]. auto.
Qed.

(** C24. The invariant holds after every statement of a call, not only between
    calls: a call cut short at any statement leaves the allocator well
    formed, with everything below its limit granted. *)
Theorem exec_keeps_ok fuel : forall l w f' w',
  valid l -> world_ok w -> exec fuel (ReadNext l) w = Done f' w' -> world_ok w'.
Proof.
  intros l w f' w' Hl Hok E.
  cut (world_ok w' /\ frame_ok f' w'); [tauto|].
  assert (Hf : frame_ok (ReadNext l) w) by exact Hl. clear Hl.
  revert w E Hok Hf. generalize (ReadNext l) as f.
  induction fuel as [|fuel IH]; intros f w E Hok Hf; [inv E; auto|].
  cbn [exec] in E. apply bind_Done_inv in E. destruct E as (f1 & w1 & Hs & E).
  destruct (stmt_keeps_ok f w f1 w1 Hok Hf Hs). eauto.
Qed.

End Invariant.

(** ** The theorems at concrete calls (64-bit host, test stub) *)

Section Witnesses.
#[local] Existing Instance usize64.
Import TestStub.

(** Seven statements are not enough: a call that grows the heap still has
    the cursor to write. *)
Example exec_seven_statements :
  exec 7 (ReadNext (mkLayout 2 2)) w_one_page =
    Done (WriteNext 2 65536) (mkWorld (mkInnerAlloc 65535 131072) tt).
Proof. vm_compute. reflexivity. Qed.

Lemma exec_keeps_ok_witness : world_ok (mkWorld (mkInnerAlloc 65535 131072) tt).
Proof.
  apply (exec_keeps_ok 7 (mkLayout 2 2) w_one_page (WriteNext 2 65536));
    [reflexivity | apply w_one_page_ok | apply exec_seven_statements].
Defined.

End Witnesses.
