(* ===== verification/Schedule.v ===== *)
(** * Schedule: every interleaving of two calls

    [Steps] has two calls of [alloc] in flight and one schedule in which
    they collide.  This file is about every schedule.  A call that is
    served from the headroom reads the cursor in its first statement and
    writes it in its fifth; what two such calls are given depends on one
    thing, whether one of them writes the cursor before the other reads it.
    If so the schedule is [apart], and the two calls are the two calls of
    [alloc] one after the other, in the order they start in; if not both
    are given the address the cursor had.  A call served from the
    headroom that is interrupted between its first statement and its
    fifth by a whole call, on any path, is given the cursor it read and
    writes it back. *)

From Stdlib Require Import ZArith Lia Bool List.
From S2P Require Import Prelude Usize Layout State PageSource Bump Trace Steps.
Import ListNotations.
#[local] Open Scope Z_scope.
#[local] Open Scope rs_scope.

(** ** Schedules *)

Definition other (t : Turn) : Turn :=
  match t with First => Second | Second => First end.

Definition Turn_eqb (s t : Turn) : bool :=
  match s, t with
  | First, First | Second, Second => true
  | _, _ => false
  end.

(** The statements the schedule gives the call [t]. *)
Fixpoint turns_of (t : Turn) (turns : list Turn) : nat :=
  match turns with
  | [] => 0
  | s :: rest => if Turn_eqb t s then S (turns_of t rest) else turns_of t rest
  end.

(** The statements the call [t] executes before the other call starts. *)
Fixpoint lead (t : Turn) (turns : list Turn) : nat :=
  match turns with
  | [] => 0
  | s :: rest => if Turn_eqb t s then S (lead t rest) else 0
  end.

(** The statements of a call served from the headroom, up to and with the
    write of the cursor. *)
Definition fits_statements : nat := 5.

(** One call writes the cursor before the other reads it. *)
Definition apart (turns : list Turn) : bool :=
  (fits_statements <=? lead First turns)%nat ||
  (fits_statements <=? lead Second turns)%nat.

(** Both calls are given their statements. *)
Definition complete (n : nat) (turns : list Turn) : Prop :=
  (n <= turns_of First turns)%nat /\ (n <= turns_of Second turns)%nat.

(** The statements of one call, then those of the other. *)
Definition serial : list Turn :=
  repeat First alloc_statements ++ repeat Second alloc_statements.

(** The statements of the two calls in turn: both read the cursor before
    either writes it. *)
Definition in_turn : list Turn :=
  [First; Second; First; Second; First; Second; First; Second; First; Second].

(** The second call is interrupted after [k] statements by the whole of
    the first, and then goes on. *)
Definition reentered (k : nat) : list Turn :=
  repeat Second k ++ repeat First alloc_statements ++
  repeat Second (alloc_statements - k).

(** Where a call served from the headroom is after [k] statements, having
    read the cursor at [a]. *)
Definition fits_frame (l : Layout) (a : Z) (k : nat) : Frame :=
  match k with
  | 0%nat => ReadNext l
  | 1%nat => PadSize l a
  | 2%nat => AddEnd a (padded_size l)
  | 3%nat => TestLimit a (padded_size l) (a + padded_size l)
  | 4%nat => BumpNext a (a + padded_size l)
  | _ => Return (Some a)
  end.

Lemma Turn_eqb_eq s t : Turn_eqb s t = true <-> s = t.
Proof. destruct s, t; cbn; split; congruence. Qed.

Lemma turns_of_app t xs ys :
  turns_of t (xs ++ ys) = (turns_of t xs + turns_of t ys)%nat.
Proof.
  induction xs as [|s xs IH]; [reflexivity|]. cbn [app turns_of].
  destruct (Turn_eqb t s); lia.
Qed.

Lemma turns_of_repeat s t n :
  turns_of t (repeat s n) = if Turn_eqb t s then n else 0%nat.
Proof.
  induction n as [|n IH]; cbn [repeat turns_of]; [now destruct (Turn_eqb t s)|].
  rewrite IH. now destruct (Turn_eqb t s).
Qed.

(** A schedule is the lead of a call and the rest, which the other call
    starts if the lead is not the whole schedule. *)
Lemma lead_split t turns :
  turns = repeat t (lead t turns) ++ skipn (lead t turns) turns /\
  (skipn (lead t turns) turns = [] \/
   exists rest, skipn (lead t turns) turns = other t :: rest).
Proof.
  induction turns as [|s turns [IH1 IH2]]; [now split; [|left]|].
  cbn [lead]. destruct (Turn_eqb t s) eqn:Hs.
  - apply Turn_eqb_eq in Hs. subst s. cbn [repeat skipn app]. now rewrite <- IH1.
  - split; [reflexivity|]. right. exists turns. cbn [skipn]. f_equal.
    now destruct t, s.
Qed.

Lemma lead_map_other t turns : lead (other t) (map other turns) = lead t turns.
Proof.
  induction turns as [|s turns IH]; [reflexivity|]. cbn [map lead].
  rewrite IH. now destruct t, s.
Qed.

Lemma turns_of_map_other t turns :
  turns_of (other t) (map other turns) = turns_of t turns.
Proof.
  induction turns as [|s turns IH]; [reflexivity|]. cbn [map turns_of].
  rewrite IH. now destruct t, s.
Qed.

Lemma map_other_involutive turns : map other (map other turns) = turns.
Proof. rewrite map_map. rewrite <- (map_id turns) at 2. apply map_ext. now intros []. Qed.

(** The lead of one call is all that matters. *)
Lemma apart_lead t turns :
  lead (other t) turns = 0%nat -> apart turns = (fits_statements <=? lead t turns)%nat.
Proof.
  unfold apart. destruct t; cbn [other]; intros ->; cbn [Nat.leb fits_statements];
    [apply orb_false_r | reflexivity].
Qed.

(** ** Calls on any path *)

Section AnyPath.
Context {U : Usize} {H : Type} {PS : PageSource H}.
Implicit Types (l : Layout) (w : World H) (f g : Frame) (turns : list Turn).

(** The two calls change places. *)
Lemma interleave_swap turns : forall f g w,
  interleave (map other turns) (g, f) w =
    (fg <- interleave turns (f, g) ;; ret (snd fg, fst fg)) w.
Proof.
  induction turns as [|[|] turns IH]; intros f g w; [reflexivity| |];
    cbn [map other interleave fst snd]; unfold bind.
  - destruct (stmt f w) as [f1 w1 | |]; [now rewrite IH | reflexivity..].
  - destruct (stmt g w) as [g1 w1 | |]; [now rewrite IH | reflexivity..].
Qed.

(** Once the first call has returned the schedule is a run of the second. *)
Lemma interleave_returned turns : forall r g w,
  interleave turns (Return r, g) w =
    (g' <- exec (turns_of Second turns) g ;; ret (Return r, g')) w.
Proof.
  induction turns as [|[|] turns IH]; intros r g w; [reflexivity| |];
    cbn [interleave fst snd turns_of Turn_eqb exec].
  - apply IH.
  - unfold bind. destruct (stmt g w) as [g1 w1 | |]; [now rewrite IH | reflexivity..].
Qed.

End AnyPath.

(** ** Calls served from the headroom *)

Section FromTheHeadroom.
Context {U : Usize} {H : Type} {PS : PageSource H}.
Implicit Types (l : Layout) (w : World H) (a : Z) (k n : nat) (turns : list Turn).

(** The state after the statement [k] of a call that read the cursor at
    [a]: the fifth statement writes the cursor. *)
Definition after_stmt l a k w : World H :=
  if (k =? 4)%nat then with_next (a + padded_size l) w else w.

(** The call fits below the limit. *)
Definition fits_at l a w : Prop :=
  valid l /\ a + padded_size l <= upper_limit (inner w) <= usize_MAX.

Lemma fits_at_after l a l' a' k w : fits_at l a w -> fits_at l a (after_stmt l' a' k w).
Proof. unfold after_stmt. now destruct (k =? 4)%nat. Qed.

Lemma with_next_after v l a k w : with_next v (after_stmt l a k w) = with_next v w.
Proof. unfold after_stmt. now destruct (k =? 4)%nat. Qed.

Lemma with_next_same w : with_next (next (inner w)) w = w.
Proof. now destruct w as [[] ?]. Qed.

Lemma fits_frame_returned l a k : (fits_statements <= k)%nat -> fits_frame l a k = Return (Some a).
Proof. unfold fits_statements. now do 5 (destruct k as [|k]; [lia|]). Qed.

(** The statements after the read of the cursor. *)
Lemma stmt_fits_frame l a k w :
  (1 <= k)%nat -> fits_at l a w ->
  stmt (fits_frame l a k) w = Done (fits_frame l a (S k)) (after_stmt l a k w).
Proof.
  intros Hk (Hl & Hfit & Hmax).
  destruct k as [|[|[|[|[|k]]]]]; [lia|..]; cbn [fits_frame]; unfold after_stmt; cbn [Nat.eqb].
  - now apply stmt_PadSize.
  - apply stmt_AddEnd_fits. lia.
  - now apply stmt_TestLimit_fits.
  - reflexivity.
  - reflexivity.
Qed.

(** A call alone: it returns the cursor it read and leaves the cursor at
    the end of its block when it is given five statements. *)
Lemma exec_fits_frame n : forall l a k w,
  (1 <= k)%nat -> fits_at l a w ->
  exec n (fits_frame l a k) w =
    Done (fits_frame l a (k + n))
         (if (k <=? 4)%nat && (4 <? k + n)%nat then with_next (a + padded_size l) w else w).
Proof.
  induction n as [|n IH]; intros l a k w Hk Hfit.
  - cbn [exec]. rewrite Nat.add_0_r.
    now destruct (Nat.leb_spec k 4), (Nat.ltb_spec 4 k); try lia.
  - cbn [exec]. unfold bind. rewrite stmt_fits_frame by assumption.
    rewrite IH by (try apply fits_at_after; auto with arith).
    rewrite Nat.add_succ_r. cbn [Nat.add]. f_equal. unfold after_stmt.
    destruct (Nat.eqb_spec k 4), (Nat.leb_spec k 4), (Nat.leb_spec (S k) 4),
      (Nat.ltb_spec 4 (k + S n)), (Nat.ltb_spec 4 (S (k + n))); try lia; reflexivity.
Qed.

Lemma exec_fits n l w :
  (fits_statements <= n)%nat -> fits_at l (next (inner w)) w ->
  exec n (ReadNext l) w =
    Done (Return (Some (next (inner w)))) (with_next (next (inner w) + padded_size l) w).
Proof.
  intros Hn Hfit. destruct n as [|n]; [inv Hn|]. unfold fits_statements in Hn.
  cbn [exec stmt]. unfold bind at 1 2, get_next, gets, ret.
  change (PadSize l (next (inner w))) with (fits_frame l (next (inner w)) 1).
  rewrite exec_fits_frame by (auto with arith).
  rewrite fits_frame_returned by (unfold fits_statements; lia).
  now destruct (Nat.ltb_spec 4 (1 + n)); [|lia].
Qed.

(** Both calls have read the cursor: each returns what it read, whatever
    the schedule, and the cursor is left where the last write puts it. *)
Lemma interleave_both_read l1 l2 a1 a2 turns : forall k1 k2 w,
  (1 <= k1)%nat -> (1 <= k2)%nat -> fits_at l1 a1 w -> fits_at l2 a2 w ->
  exists nx,
    interleave turns (fits_frame l1 a1 k1, fits_frame l2 a2 k2) w =
      Done (fits_frame l1 a1 (k1 + turns_of First turns),
            fits_frame l2 a2 (k2 + turns_of Second turns)) (with_next nx w) /\
    ((nx = next (inner w) /\
      ((k1 + turns_of First turns <= 4)%nat \/ (5 <= k1)%nat) /\
      ((k2 + turns_of Second turns <= 4)%nat \/ (5 <= k2)%nat)) \/
     nx = a1 + padded_size l1 \/ nx = a2 + padded_size l2).
Proof.
  induction turns as [|[|] turns IH]; intros k1 k2 w Hk1 Hk2 Hf1 Hf2.
  - exists (next (inner w)). cbn [interleave turns_of]. rewrite !Nat.add_0_r, with_next_same.
    split; [reflexivity | left; lia].
  - destruct (IH (S k1) k2 (after_stmt l1 a1 k1 w)) as (nx & E & Hnx);
      [lia | lia | now apply fits_at_after..|].
    exists nx. cbn [interleave fst snd turns_of Turn_eqb]. unfold bind.
    rewrite stmt_fits_frame, E, with_next_after, !Nat.add_succ_r by assumption.
    split; [reflexivity|]. revert Hnx. unfold after_stmt.
    destruct (Nat.eqb_spec k1 4); cbn [with_next inner next]; lia.
  - destruct (IH k1 (S k2) (after_stmt l2 a2 k2 w)) as (nx & E & Hnx);
      [lia | lia | now apply fits_at_after..|].
    exists nx. cbn [interleave fst snd turns_of Turn_eqb]. unfold bind.
    rewrite stmt_fits_frame, E, with_next_after, !Nat.add_succ_r by assumption.
    split; [reflexivity|]. revert Hnx. unfold after_stmt.
    destruct (Nat.eqb_spec k2 4); cbn [with_next inner next]; lia.
Qed.

End FromTheHeadroom.

(** ** Every schedule of two calls served from the headroom *)

Section TwoCalls.
Context {U : Usize} {H : Type} {PS : PageSource H}.
Implicit Types (l : Layout) (w : World H) (turns : list Turn).

(** There is room for both calls, one after the other. *)
Definition both_fit l1 l2 w : Prop :=
  valid l1 /\ valid l2 /\ inner_wf (inner w) /\
  padded_size l1 + padded_size l2 <= headroom (inner w).

Lemma both_fit_sym l1 l2 w : both_fit l1 l2 w -> both_fit l2 l1 w.
Proof. unfold both_fit. intuition lia. Qed.

Lemma both_fit_at l1 l2 w :
  both_fit l1 l2 w ->
  0 <= padded_size l1 /\ fits_at l1 (next (inner w)) w /\
  fits_at l2 (next (inner w)) w /\
  fits_at l2 (next (inner w) + padded_size l1) w.
Proof.
  intros (Hl1 & Hl2 & (H0 & Hle & Hmax) & Hroom). unfold headroom in Hroom.
  pose proof (padded_size_nonneg l1 Hl1). pose proof (padded_size_nonneg l2 Hl2).
  unfold fits_at. repeat split; try assumption; lia.
Qed.

Lemma interleave_flip turns f g w :
  interleave turns (f, g) w =
    (fg <- interleave (map other turns) (g, f) ;; ret (snd fg, fst fg)) w.
Proof. now rewrite <- (map_other_involutive turns) at 1; rewrite interleave_swap. Qed.

Lemma complete_map_other n turns : complete n turns -> complete n (map other turns).
Proof.
  unfold complete.
  rewrite (turns_of_map_other Second turns : turns_of First (map other turns) = _),
    (turns_of_map_other First turns : turns_of Second (map other turns) = _). tauto.
Qed.

(** The first call writes the cursor before the second reads it. *)
Lemma lead_First_apart turns l1 l2 w :
  both_fit l1 l2 w -> (fits_statements <= lead First turns)%nat ->
  (fits_statements <= turns_of Second turns)%nat ->
  interleave turns (ReadNext l1, ReadNext l2) w =
    Done (Return (Some (next (inner w))),
          Return (Some (next (inner w) + padded_size l1)))
         (with_next (next (inner w) + padded_size l1 + padded_size l2) w).
Proof.
  intros Hfit Hlead Hturns. destruct (both_fit_at l1 l2 w Hfit) as (_ & Hf1 & _ & Hf2).
  destruct (lead_split First turns) as [Hsplit _].
  set (rest := skipn _ turns) in Hsplit. set (k := lead First turns) in *.
  rewrite Hsplit, turns_of_app, turns_of_repeat in Hturns. cbn [Turn_eqb] in Hturns.
  rewrite Hsplit, interleave_First_exec. unfold bind. rewrite exec_fits by assumption.
  rewrite interleave_returned. unfold bind. now rewrite exec_fits by assumption.
Qed.

(** The second call reads the cursor before the first has written it. *)
Lemma lead_First_overlap turns l1 l2 w :
  both_fit l1 l2 w -> (1 <= lead First turns < fits_statements)%nat ->
  complete fits_statements turns ->
  exists nx,
    interleave turns (ReadNext l1, ReadNext l2) w =
      Done (Return (Some (next (inner w))), Return (Some (next (inner w))))
           (with_next nx w) /\
    (nx = next (inner w) + padded_size l1 \/ nx = next (inner w) + padded_size l2).
Proof.
  intros Hfit Hlead [Hc1 Hc2]. destruct (both_fit_at l1 l2 w Hfit) as (_ & Hf1 & Hf2 & _).
  destruct (lead_split First turns) as [Hsplit Hrest]. unfold fits_statements in *.
  revert Hsplit Hrest. generalize (skipn (lead First turns) turns) as rest.
  set (k := lead First turns) in *. intros rest Hsplit [-> | [rest' ->]];
    rewrite Hsplit, turns_of_app, turns_of_repeat in Hc1, Hc2;
    cbn [turns_of Turn_eqb other] in Hc1, Hc2; [lia|].
  destruct (interleave_both_read l1 l2 (next (inner w)) (next (inner w)) rest' k 1 w)
    as (nx & E & Hnx); [lia | lia | assumption..|].
  exists nx. rewrite Hsplit, interleave_First_exec. unfold bind.
  destruct k as [|k]; [lia|]. cbn [exec stmt]. unfold bind at 1 2, get_next, gets, ret.
  change (PadSize l1 (next (inner w))) with (fits_frame l1 (next (inner w)) 1).
  rewrite exec_fits_frame by (auto with arith).
  destruct (Nat.ltb_spec 4 (1 + k)); [lia|]. cbn [Nat.leb andb other interleave fst snd stmt].
  unfold bind at 1 2, get_next, gets, ret.
  change (PadSize l2 (next (inner w))) with (fits_frame l2 (next (inner w)) 1).
  change (1 + k)%nat with (S k).
  rewrite E, !fits_frame_returned by (unfold fits_statements; lia).
  split; [reflexivity | lia].
Qed.

(** A schedule that gives both calls a statement starts with the lead of
    one of them. *)
Lemma lead_cases n turns :
  (1 <= n)%nat -> complete n turns ->
  (1 <= lead First turns)%nat /\ lead Second turns = 0%nat \/
  (1 <= lead Second turns)%nat /\ lead First turns = 0%nat.
Proof.
  intros Hn [Hc1 Hc2]. destruct turns as [|[|] turns]; [cbn in Hc1; lia|..]; cbn; lia.
Qed.

(** What two calls served from the headroom are given, for every schedule:
    apart, the blocks follow each other in the order the calls start in;
    if not, both are given the cursor, which is left at the end of one of
    the two blocks. *)
Lemma two_calls_given turns l1 l2 w :
  both_fit l1 l2 w -> complete fits_statements turns ->
  exists a1 a2 nx,
    interleave turns (ReadNext l1, ReadNext l2) w =
      Done (Return (Some a1), Return (Some a2)) (with_next nx w) /\
    if apart turns
    then nx = next (inner w) + padded_size l1 + padded_size l2 /\
         (a1 = next (inner w) /\ a2 = a1 + padded_size l1 \/
          a2 = next (inner w) /\ a1 = a2 + padded_size l2)
    else a1 = next (inner w) /\ a2 = next (inner w) /\
         (nx = a1 + padded_size l1 \/ nx = a2 + padded_size l2).
Proof.
  intros Hfit Hc. pose proof (both_fit_sym _ _ _ Hfit) as Hfit'.
  pose proof (complete_map_other _ _ Hc) as Hc'.
  pose proof Hc as [_ Hc2]. pose proof Hc' as [_ Hc2'].
  pose proof (lead_map_other Second turns) as HlF. pose proof (lead_map_other First turns) as HlS.
  cbn [other] in HlF, HlS.
  destruct (lead_cases fits_statements turns ltac:(unfold fits_statements; lia) Hc)
    as [[Hlead Hz] | [Hlead Hz]].
  - rewrite (apart_lead First) by exact Hz.
    destruct (Nat.leb_spec fits_statements (lead First turns)).
    + do 3 eexists. split; [now apply lead_First_apart | lia].
    + destruct (lead_First_overlap turns l1 l2 w Hfit ltac:(lia) Hc) as (nx & E & Hnx).
      do 3 eexists. split; [exact E | lia].
  - rewrite (apart_lead Second), interleave_flip by exact Hz. unfold bind.
    destruct (Nat.leb_spec fits_statements (lead Second turns)).
    + rewrite (lead_First_apart _ l2 l1 w Hfit') by lia.
      do 3 eexists. split; [reflexivity | cbn [fst snd]; lia].
    + destruct (lead_First_overlap (map other turns) l2 l1 w Hfit' ltac:(lia) Hc') as (nx & E & Hnx).
      rewrite E. do 3 eexists. split; [reflexivity | cbn [fst snd]; lia].
Qed.

(** Two blocks of at least one byte at the same address overlap. *)
Lemma same_start_overlap l1 l2 a :
  valid l1 -> valid l2 -> 0 < size l1 -> 0 < size l2 ->
  ~ disjoint (InnerAlloc.block_of l1 a) (InnerAlloc.block_of l2 a).
Proof.
  intros Hl1 Hl2 Hs1 Hs2 Hd. apply (Hd a).
  pose proof (padded_size_ge l1 Hl1). pose proof (padded_size_ge l2 Hl2).
  unfold in_block, block_end, InnerAlloc.block_of. cbn [start len]. lia.
Qed.

(** C18. Two calls that the headroom has room for, under every schedule that
    gives each its five statements: both return an address, and the two
    blocks are disjoint exactly when the schedule is [apart], that is when
    one call has written the cursor before the other reads it.  Under every
    other schedule the allocator hands out two blocks that overlap. *)
Theorem two_calls_disjoint_iff turns l1 l2 w :
  both_fit l1 l2 w -> 0 < size l1 -> 0 < size l2 -> complete fits_statements turns ->
  exists a1 a2 w',
    interleave turns (ReadNext l1, ReadNext l2) w =
      Done (Return (Some a1), Return (Some a2)) w' /\
    (disjoint (InnerAlloc.block_of l1 a1) (InnerAlloc.block_of l2 a2) <->
     apart turns = true).
Proof.
  intros Hfit Hs1 Hs2 Hc. pose proof Hfit as (Hl1 & Hl2 & _).
  destruct (two_calls_given turns l1 l2 w Hfit Hc) as (a1 & a2 & nx & E & Hgiven).
  exists a1, a2, (with_next nx w). split; [exact E|].
  destruct (apart turns).
  - split; [reflexivity | intros _]. destruct Hgiven as [_ [[-> ->] | [-> ->]]];
      [|apply disjoint_sym]; apply before_disjoint; unfold block_end; cbn; lia.
  - destruct Hgiven as (-> & -> & _). split; [intros Hd | discriminate].
    now elim (same_start_overlap l1 l2 (next (inner w))).
Qed.

End TwoCalls.

(** ** A call interrupted by another *)

Section Interrupted.
Context {U : Usize} {H : Type} {PS : PageSource H}.
Implicit Types (l : Layout) (w : World H) (k : nat).

(** The statements of a call before it tests the limit: it reads the
    cursor and computes the end of its block. *)
Lemma exec_before_test l w k :
  valid l -> next (inner w) + padded_size l <= usize_MAX -> (1 <= k <= 3)%nat ->
  exec k (ReadNext l) w = Done (fits_frame l (next (inner w)) k) w.
Proof.
  intros Hl Hend Hk. destruct k as [|[|[|[|k]]]]; try lia; cbn [exec stmt fits_frame];
    unfold bind at 1 2, get_next, gets, ret; try reflexivity;
    unfold bind at 1; rewrite stmt_PadSize by assumption; try reflexivity.
  cbn [exec]. unfold bind. now rewrite stmt_AddEnd_fits by assumption.
Qed.

(** C31. A call interrupted after it read the cursor is served from the cursor
    it read.  When the call that interrupts it is served, on whatever path,
    and the interrupted call fits below the limit that call leaves, it
    returns the old cursor and writes the cursor back to the end of its own
    block: the block of the interrupting call, which lies at or above the
    old cursor, is left in the headroom or shared with the interrupted
    call. *)
Theorem interrupted_call_stale k l1 l2 w p w1 :
  (1 <= k <= 3)%nat -> valid l1 ->
  InnerAlloc.alloc l1 w = Done p w1 -> fits_at l2 (next (inner w)) w1 ->
  interleave (reentered k) (ReadNext l1, ReadNext l2) w =
    Done (Return (Some p), Return (Some (next (inner w))))
         (with_next (next (inner w) + padded_size l2) w1).
Proof.
  intros Hk Hl1 E Hfit. pose proof Hfit as (Hl2 & Hend). unfold reentered.
  rewrite interleave_Second_exec. unfold bind at 1.
  rewrite exec_before_test by (auto; lia).
  rewrite interleave_First_exec. unfold bind at 1.
  rewrite <- (Nat.add_0_r alloc_statements), exec_alloc_more. unfold bind at 1, catch, ret.
  rewrite E, interleave_returned, turns_of_repeat. cbn [Turn_eqb]. unfold bind.
  rewrite exec_fits_frame, fits_frame_returned by (unfold alloc_statements, fits_statements; lia || auto).
  unfold alloc_statements.
  now destruct (Nat.leb_spec k 4), (Nat.ltb_spec 4 (k + (8 + 0 - k))); try lia.
Qed.

End Interrupted.

(** ** The theorems at concrete calls (64-bit host, test stub) *)

Section Witnesses.
#[local] Existing Instance usize64.
Import TestStub.

Lemma interrupted_call_stale_witness :
  interleave (reentered 2) (ReadNext (mkLayout 2 2), ReadNext (mkLayout 4 1)) w_one_page =
    Done (Return (Some 65536), Return (Some 65535))
         (with_next (65535 + 4) (mkWorld (mkInnerAlloc 65538 131072) tt)).
Proof.
  apply (interrupted_call_stale 2 (mkLayout 2 2) (mkLayout 4 1) w_one_page 65536
           (mkWorld (mkInnerAlloc 65538 131072) tt));
    [lia | reflexivity | reflexivity | split; [reflexivity | by_compute]].
Defined.

(** The interrupted call is given the last byte of the first page and the
    first three of the second, two of which are the block of the call that
    interrupted it. *)
Example interrupted_call_overlaps :
  ~ disjoint (InnerAlloc.block_of (mkLayout 2 2) 65536)
             (InnerAlloc.block_of (mkLayout 4 1) 65535).
Proof. intros Hd. apply disjointb_spec in Hd. discriminate. Qed.

Lemma two_calls_disjoint_iff_witness :
  exists a1 a2 w',
    interleave in_turn (ReadNext (mkLayout 8 8), ReadNext (mkLayout 4 4))
      (mkWorld (mkInnerAlloc 0 65536) tt) =
      Done (Return (Some a1), Return (Some a2)) w' /\
    (disjoint (InnerAlloc.block_of (mkLayout 8 8) a1)
              (InnerAlloc.block_of (mkLayout 4 4) a2) <-> apart in_turn = true).
Proof.
  apply (two_calls_disjoint_iff in_turn (mkLayout 8 8) (mkLayout 4 4)
           (mkWorld (mkInnerAlloc 0 65536) tt));
    [ split; [reflexivity | split; [reflexivity | split;
        [apply inner_ok_spec; reflexivity | by_compute]]]
    | by_compute | by_compute | split; vm_compute; lia ].
Defined.

(** In turn, both calls are given address 0 and the cursor is left at the
    end of the smaller block. *)
Example in_turn_collides :
  apart in_turn = false /\
  interleave in_turn (ReadNext (mkLayout 8 8), ReadNext (mkLayout 4 4))
    (mkWorld (mkInnerAlloc 0 65536) tt) =
    Done (Return (Some 0), Return (Some 0)) (mkWorld (mkInnerAlloc 4 65536) tt).
Proof. split; vm_compute; reflexivity. Qed.

End Witnesses.
