(* ===== verification/Pool.v ===== *)
(** * Pool: any number of calls in flight

    [Steps.interleave] has two calls over the one allocator.  Nothing in
    the code bounds their number: this file has a pool of calls, any
    number of them, and a schedule that names the call that executes its
    next statement; two calls under [interleave] are a pool of two
    ([interleave_pool]).  [Racing] has what the blocks of a pool keep. *)

From Stdlib Require Import ZArith List.
From S2P Require Import Prelude Usize Layout State PageSource Bump Trace Steps.
Import ListNotations.
#[local] Open Scope Z_scope.
#[local] Open Scope rs_scope.

(** The list with [a] at index [i]. *)
Fixpoint put {A} (i : nat) (a : A) (xs : list A) : list A :=
  match xs, i with
  | [], _ => []
  | _ :: rest, O => a :: rest
  | x :: rest, S j => x :: put j a rest
  end.

(** The index of a call of [interleave] in the pool of two. *)
Definition index_of (t : Turn) : nat := match t with First => 0 | Second => 1 end.

Section Pool.
Context {U : Usize} {H : Type} {PS : PageSource H}.

(** The call [i] executes its next statement. *)
Definition pool_stmt (i : nat) (fs : list Frame) : M (World H) (list Frame) :=
  match nth_error fs i with
  | Some f => f' <- stmt f ;; ret (put i f' fs)
  | None => ret fs
  end.

(** The statements of the calls in the order of the schedule. *)
Fixpoint pool_run (sched : list nat) (fs : list Frame) : M (World H) (list Frame) :=
  match sched with
  | [] => ret fs
  | i :: rest => fs' <- pool_stmt i fs ;; pool_run rest fs'
  end.

End Pool.

(** ** Lists updated at an index *)

Section Put.
Context {A B : Type}.
Implicit Types (xs : list A) (ys : list B) (i j : nat).

(** A relation between two lists, index by index, survives an update that
    keeps it at the index. *)
Lemma Forall2_put (R : B -> A -> Prop) i (a : A) ys xs :
  Forall2 R ys xs -> (forall y, nth_error ys i = Some y -> R y a) ->
  Forall2 R ys (put i a xs).
Proof.
  intros HF. revert i. induction HF as [|y x ys xs Hyx HF IH]; intros [|i] Ha; cbn;
    constructor; auto.
Qed.

Lemma Forall2_nth_error (R : B -> A -> Prop) i ys xs x :
  Forall2 R ys xs -> nth_error xs i = Some x ->
  exists y, nth_error ys i = Some y /\ R y x.
Proof.
  intros HF. revert i. induction HF as [|y x' ys xs Hyx HF IH]; intros [|i] E; cbn in *;
    try discriminate; [inv E; eauto | auto].
Qed.

End Put.

(** ** Two calls are a pool of two *)

Section Two.
Context {U : Usize} {H : Type} {PS : PageSource H}.

Lemma interleave_pool turns : forall f g (w : World H),
  (fg <- interleave turns (f, g) ;; ret [fst fg; snd fg]) w =
    pool_run (map index_of turns) [f; g] w.
Proof.
  induction turns as [|[|] turns IH]; intros f g w; [reflexivity| |];
    cbn [map index_of interleave pool_run pool_stmt nth_error fst snd put]; unfold bind;
    [destruct (stmt f w) as [f1 w1 | |] | destruct (stmt g w) as [g1 w1 | |]];
    try reflexivity; cbn [ret]; now rewrite <- IH.
Qed.

End Two.

(** ** A concrete pool *)

(** Three calls; the third is interrupted after its first statement by
    the other two, which run in turn. *)
Definition three_calls : list Layout := [mkLayout 8 8; mkLayout 4 4; mkLayout 1 1].

Definition third_interrupted : list nat :=
  ([2] ++ concat (repeat [0; 1] 8) ++ repeat 2 7)%nat.
