(* ===== verification/GlobalAlloc.v ===== *)
(** * GlobalAlloc: the adapter [impl GlobalAlloc for BumpAllocator]

    The trait [core::alloc::GlobalAlloc] is the class [GlobalAlloc]; the
    unit struct [BumpAllocator] implements it over the world that holds the
    static [INNER].  [alloc] turns [None] into the null pointer,
    [alloc_zeroed] is [alloc], [dealloc] does nothing.  The theorems say
    what a caller of the trait can rely on: a call always returns a
    pointer, a non-null pointer is the base of a fresh block, a client gets
    what [InnerAlloc::alloc] gives for its requests alone, and memory that
    was freed is never handed out again. *)

From Stdlib Require Import ZArith Lia Bool List.
From S2P Require Import Prelude Usize Layout State PageSource Bump Trace.
Import ListNotations.
#[local] Open Scope Z_scope.
#[local] Open Scope rs_scope.

(** [core::ptr::null_mut()]. *)
Definition null_mut : Z := 0.

(** The trait: the three methods the allocator implements, over a state
    [S].  A pointer is its address. *)
Class GlobalAlloc (A S : Type) : Type := {
  ga_alloc : A -> Layout -> M S Z;
  ga_alloc_zeroed : A -> Layout -> M S Z;
  ga_dealloc : A -> Z -> Layout -> M S unit
}.

(** A bump allocator suitable for use in a Wasm environment. *)
Inductive BumpAllocator : Type := mkBumpAllocator.

(** [static mut INNER: InnerAlloc = InnerAlloc::new()], in a host [h]. *)
Definition INNER {H} (h : H) : World H := mkWorld new h.

Module BumpAllocator.
Section WithSource.
Context {U : Usize} {H : Type} {PS : PageSource H}.

(** [GlobalAlloc::alloc]. *)
Definition alloc (self : BumpAllocator) (layout : Layout) : M (World H) Z :=
  fun w =>
    match InnerAlloc.alloc layout w with
    | Done start w' => Done start w'
    | Failed w' => Done null_mut w'
    | Panicked => Panicked
    end.

(** [GlobalAlloc::alloc_zeroed]: a new page in Wasm is already zero, so
    this is the regular [alloc]. *)
Definition alloc_zeroed (self : BumpAllocator) (layout : Layout) : M (World H) Z :=
  alloc self layout.

(** [GlobalAlloc::dealloc]: nothing is reclaimed. *)
Definition dealloc (self : BumpAllocator) (_ptr : Z) (_layout : Layout)
  : M (World H) unit :=
  ret tt.

#[export] Instance global_alloc : GlobalAlloc BumpAllocator (World H) :=
  {| ga_alloc := alloc; ga_alloc_zeroed := alloc_zeroed; ga_dealloc := dealloc |}.

End WithSource.
End BumpAllocator.

(** What a client does with the allocator. *)
Inductive Call : Type :=
| CallAlloc (layout : Layout)
| CallAllocZeroed (layout : Layout)
| CallDealloc (ptr : Z) (layout : Layout).

Definition call_layout (c : Call) : Layout :=
  match c with
  | CallAlloc l | CallAllocZeroed l | CallDealloc _ l => l
  end.

Section Client.
Context {U : Usize} {H : Type} {PS : PageSource H}.
#[local] Existing Instance BumpAllocator.global_alloc.

(** What the client holds after a call: a block, unless the pointer is
    null. *)
Definition held (l : Layout) (ptr : Z) (bs : list Block) : list Block :=
  if ptr =? null_mut then bs else InnerAlloc.block_of l ptr :: bs.

(** A client's calls in order; the blocks behind the non-null pointers it
    received, oldest first. *)
Fixpoint serve (cs : list Call) : M (World H) (list Block) :=
  match cs with
  | [] => ret []
  | CallAlloc l :: rest =>
      ptr <- ga_alloc mkBumpAllocator l ;;
      bs <- serve rest ;;
      ret (held l ptr bs)
  | CallAllocZeroed l :: rest =>
      ptr <- ga_alloc_zeroed mkBumpAllocator l ;;
      bs <- serve rest ;;
      ret (held l ptr bs)
  | CallDealloc ptr l :: rest =>
      ga_dealloc mkBumpAllocator ptr l ;;
      serve rest
  end.

(** The requests among the calls. *)
Fixpoint requests (cs : list Call) : list Layout :=
  match cs with
  | [] => []
  | CallDealloc _ _ :: rest => requests rest
  | (CallAlloc l | CallAllocZeroed l) :: rest => l :: requests rest
  end.

End Client.

(** ** The adapter *)

Section Adapter.
Context {U : Usize} {H : Type} {PS : PageSource H}.
Implicit Types (l : Layout) (w : World H) (a : BumpAllocator).

(** The adapter never returns [None]: failure is the null pointer. *)
Lemma alloc_not_Failed a l w w' : BumpAllocator.alloc a l w <> Failed w'.
Proof. unfold BumpAllocator.alloc. destruct (InnerAlloc.alloc l w); discriminate. Qed.

Lemma alloc_of_Done a l w addr w' :
  InnerAlloc.alloc l w = Done addr w' -> BumpAllocator.alloc a l w = Done addr w'.
Proof. unfold BumpAllocator.alloc. now intros ->. Qed.

(** [None] becomes the null pointer, with the state [alloc] left. *)
Lemma alloc_of_Failed a l w w' :
  InnerAlloc.alloc l w = Failed w' -> BumpAllocator.alloc a l w = Done null_mut w'.
Proof. unfold BumpAllocator.alloc. now intros ->. Qed.

(** A pointer that is not null is an address [InnerAlloc::alloc] returned. *)
Lemma alloc_nonnull_inv a l w ptr w' :
  BumpAllocator.alloc a l w = Done ptr w' -> ptr <> null_mut ->
  InnerAlloc.alloc l w = Done ptr w'.
Proof.
  unfold BumpAllocator.alloc. destruct (InnerAlloc.alloc l w); intros E Hnn; inv E;
    [reflexivity | contradiction].
Qed.

(** The state after a call of the adapter is the state [InnerAlloc::alloc]
    left. *)
Lemma alloc_state a l w ptr w' :
  BumpAllocator.alloc a l w = Done ptr w' ->
  state_of (InnerAlloc.alloc l w) = Some w'.
Proof.
  unfold BumpAllocator.alloc. destruct (InnerAlloc.alloc l w); intros E; inv E; reflexivity.
Qed.

(** Freeing changes nothing: the allocator after [dealloc] is the allocator
    before it, whatever is freed. *)
Lemma dealloc_noop a ptr l w : BumpAllocator.dealloc a ptr l w = Done tt w.
Proof. reflexivity. Qed.

(** A zeroed request is served like any other. *)
Lemma alloc_zeroed_eq a l w : BumpAllocator.alloc_zeroed a l w = BumpAllocator.alloc a l w.
Proof. reflexivity. Qed.

(** The blocks of a run whose base is not the null pointer. *)
Definition nonnull (bs : list Block) : list Block :=
  filter (fun b => negb (start b =? null_mut)) bs.

(** A client of the trait gets what [InnerAlloc::alloc] gives for its
    requests alone: frees change nothing, a zeroed request is a request,
    and the client holds every block but one at address 0, which it takes
    for a failure. *)
Theorem serve_as_run cs : forall w,
  serve cs w = (bs <- run (requests cs) ;; ret (nonnull bs)) w.
Proof.
  induction cs as [|c cs IH]; intros w; [reflexivity|].
  destruct c as [l | l | ptr l]; cbn [serve requests run ga_alloc ga_alloc_zeroed
    ga_dealloc BumpAllocator.global_alloc];
    unfold bind, ret, BumpAllocator.alloc_zeroed, BumpAllocator.alloc,
      BumpAllocator.dealloc in *; [| | apply IH].
  all: destruct (InnerAlloc.alloc l w) as [addr w1 | w1 |]; [| | reflexivity];
    rewrite IH; destruct (run (requests cs) w1) as [bs w2 | |]; try reflexivity.
  all: unfold held, nonnull; cbn [filter start InnerAlloc.block_of];
    destruct (addr =? null_mut); reflexivity.
Qed.

End Adapter.

Section AdapterLaws.
Context {U : Usize} {H : Type} {PS : PageSource H} {L : PageSourceLaws H}.
Implicit Types (l : Layout) (w : World H) (a : BumpAllocator) (cs : list Call).

(** A non-null pointer is the base of a block of fresh, granted addresses,
    and the invariant holds after the call. *)
Lemma alloc_nonnull_fresh a l w ptr w' :
  valid l -> world_ok w ->
  BumpAllocator.alloc a l w = Done ptr w' -> ptr <> null_mut ->
  next (inner w) <= ptr /\
  ptr + padded_size l <= next (inner w') /\
  next (inner w') <= upper_limit (inner w') /\ world_ok w'.
Proof.
  intros Hl Hok E Hnn. apply alloc_nonnull_inv in E; [|exact Hnn].
  destruct (alloc_Done_bounds l w ptr w' Hl Hok E) as (? & ? & ?).
  pose proof (alloc_Done_ok l w ptr w' Hl Hok E).
  split; [lia | split; [lia | split; [lia | assumption]]].
Qed.

(** The calls of a client with the frees left out. *)
Lemma serve_cons_inv c cs w bs w' :
  serve (c :: cs) w = Done bs w' ->
  match c with
  | CallDealloc _ _ => serve cs w = Done bs w'
  | CallAlloc l | CallAllocZeroed l =>
      exists ptr w1 bs1, BumpAllocator.alloc mkBumpAllocator l w = Done ptr w1 /\
        serve cs w1 = Done bs1 w' /\
        bs = held l ptr bs1
  end.
Proof.
  destruct c as [l | l | ptr l]; simpl; unfold bind, ret, BumpAllocator.alloc_zeroed;
    [| | now intros E].
  all: destruct (BumpAllocator.alloc _ l w) as [ptr w1 | w1 |] eqn:Ha; try discriminate;
    destruct (serve cs w1) as [bs1 w2 | |] eqn:Hs; try discriminate;
    intros E; inv E; eauto 10.
Qed.

(** Whatever a client allocates and frees, in whatever order, the blocks
    behind the non-null pointers it holds are in address order from the
    first cursor: memory that was freed is never handed out again. *)
Lemma serve_in_order cs : forall w bs w',
  Forall (fun c => valid (call_layout c)) cs -> world_ok w ->
  serve cs w = Done bs w' ->
  in_order (next (inner w)) bs /\ world_ok w'.
Proof.
  induction cs as [|c cs IH]; intros w bs w' Hcs Hok E.
  - inv E. simpl. auto.
  - apply Forall_cons_iff in Hcs. destruct Hcs as [Hc Hcs].
    apply serve_cons_inv in E. destruct c as [l | l | ptr l]; simpl in Hc;
      [| | now apply IH].
    all: destruct E as (ptr & w1 & bs1 & Ha & Hs & ->);
      pose proof (alloc_keeps_ok l w w1 Hc Hok (alloc_state _ _ _ _ _ Ha)) as Hok1;
      destruct (IH w1 bs1 w' Hcs Hok1 Hs) as [Ho Hok'];
      destruct (alloc_monotone l w w1 Hc Hok (alloc_state _ _ _ _ _ Ha)) as [Hmono _];
      (split; [|exact Hok']); unfold held;
      destruct (Z.eqb_spec ptr null_mut) as [_ | Hnn];
      [ eapply in_order_weaken; eauto
      | destruct (alloc_nonnull_fresh _ l w ptr w1 Hc Hok Ha Hnn) as (Hlo & Hhi & _);
        pose proof (padded_size_nonneg l Hc); simpl; repeat split; try lia;
        eapply in_order_weaken; [|exact Ho]; unfold block_end; simpl; lia ].
Qed.

(** No two blocks a client holds share an address, frees or no frees. *)
Lemma serve_disjoint cs w bs w' :
  Forall (fun c => valid (call_layout c)) cs -> world_ok w ->
  serve cs w = Done bs w' -> ForallOrdPairs disjoint bs.
Proof.
  intros Hcs Hok E. destruct (serve_in_order cs w bs w' Hcs Hok E) as [Ho _].
  eapply in_order_disjoint, Ho.
Qed.

End AdapterLaws.

(** ** The theorems at a concrete client

    On a 64-bit host with the test stub, from an allocator with one byte of
    headroom: a byte, freed at once, then two zeroed bytes. *)

Section Witnesses.
#[local] Existing Instance usize64.
Import TestStub.

Definition w_one_byte_left : World unit := mkWorld (mkInnerAlloc 65535 65536) tt.

Definition client : list Call :=
  [CallAlloc (mkLayout 1 1); CallDealloc 65535 (mkLayout 1 1);
   CallAllocZeroed (mkLayout 2 2)].

Lemma w_one_byte_left_ok : world_ok w_one_byte_left.
Proof. split; [apply inner_ok_spec; reflexivity | exact I]. Qed.

Lemma serve_disjoint_witness :
  ForallOrdPairs disjoint [mkBlock 65535 1; mkBlock 65536 2].
Proof.
  apply (serve_disjoint client w_one_byte_left [mkBlock 65535 1; mkBlock 65536 2]
           (mkWorld (mkInnerAlloc 65538 131072) tt)).
  - repeat constructor.
  - apply w_one_byte_left_ok.
  - vm_compute. reflexivity.
Defined.

End Witnesses.
