(* ===== verification/StubAlloc.v ===== *)
(** * StubAlloc: the allocator over the test stub

    With the stub as page source the allocator is a function of its two
    fields alone.  [allocate] is that function, written from the
    specification's description of the algorithm; the refinement theorem
    says [InnerAlloc::alloc] computes it.  On top of it: the limit is a
    whole number of pages and grows by exactly the pages requested, a
    request succeeds whenever the address space has room, and the places
    where the specification's wording and the code part ways. *)

From Stdlib Require Import ZArith Lia Bool List.
From S2P Require Import Prelude Usize Layout State PageSource Bump Trace.
Import ListNotations.
Import TestStub.
#[local] Open Scope Z_scope.
#[local] Open Scope rs_scope.

Section Stub.
Context {U : Usize}.
Implicit Types (a : InnerAlloc) (l : Layout) (w : World unit) (sz : Z).

(** The specification's [allocate]: serve [sz] bytes from the headroom, or
    from fresh pages appended at the limit; [None] when an address would
    overflow. *)
Definition allocate a sz : option (Z * InnerAlloc) :=
  if sz <=? headroom a then
    Some (next a, mkInnerAlloc (next a + sz) (upper_limit a))
  else
    let pages := ceil_div sz PAGE_SIZE in
    if (next a + sz <=? usize_MAX) && (sz + (PAGE_SIZE - 1) <=? usize_MAX)
       && (upper_limit a + pages * PAGE_SIZE <=? usize_MAX)
    then Some (upper_limit a,
               mkInnerAlloc (upper_limit a + sz) (upper_limit a + pages * PAGE_SIZE))
    else None.

(** The outcome of a call that computes [r]. *)
Definition as_outcome w (r : option (Z * InnerAlloc)) : outcome (World unit) Z :=
  match r with
  | Some (addr, a') => Done addr (mkWorld a' tt)
  | None => Failed w
  end.

(** The specification's allocator over a sequence of requests: the blocks
    handed out, oldest first, and the state at the end.  A request that
    cannot be served is answered with failure and the next one is tried. *)
Fixpoint allocate_all a (ls : list Layout) : list Block * InnerAlloc :=
  match ls with
  | [] => ([], a)
  | l :: rest =>
      match allocate a (padded_size l) with
      | Some (addr, a') =>
          let (bs, a'') := allocate_all a' rest in
          (InnerAlloc.block_of l addr :: bs, a'')
      | None => allocate_all a rest
      end
  end.

(** The limit is a whole number of pages. *)
Definition page_aligned a : Prop := upper_limit a mod PAGE_SIZE = 0.

(** ** Refinement *)

Lemma world_unit_eta w : w = mkWorld (inner w) tt.
Proof. destruct w as [a []]. reflexivity. Qed.

(** The stub answers with the limit and changes nothing. *)
Lemma stub_grew l w n p w1 :
  grew l w n p w1 -> p = upper_limit (inner w) /\ w1 = w.
Proof. intros (_ & _ & E). now inv E. Qed.

(** A call that returns [None] over the stub has changed nothing. *)
Lemma stub_failed_same l w w' :
  valid l -> InnerAlloc.alloc l w = Failed w' -> w' = w.
Proof.
  intros Hl E. apply alloc_Failed_inv in E; [|exact Hl].
  destruct E as [-> | [(n & _ & E) | (n & p & Hg & _)]];
    [reflexivity | discriminate | now apply stub_grew in Hg].
Qed.

(** One call of [InnerAlloc::alloc] over the test stub computes [allocate]. *)
Lemma alloc_as_allocate l w :
  valid l -> inner_wf (inner w) ->
  InnerAlloc.alloc l w = as_outcome w (allocate (inner w) (padded_size l)).
Proof.
  intros Hl Hwf. pose proof (padded_size_nonneg l Hl) as Hsz.
  destruct w as [a []]. unfold allocate, as_outcome. cbn [inner] in *.
  pose proof Hwf as (H0 & Hle & Hmax).
  destruct (Z.leb_spec (padded_size l) (headroom a)) as [Hroom | Hgrow].
  - unfold headroom in Hroom. apply alloc_complete; [exact Hl|].
    apply (alloc_fits l (mkWorld a tt)); cbn [inner]; lia.
  - pose proof Hgrow as Hgrow'. unfold headroom in Hgrow'.
    set (n := ceil_div (padded_size l) PAGE_SIZE).
    destruct (Z.leb_spec (next a + padded_size l) usize_MAX) as [Hend | Hend];
      [|apply alloc_end_overflow_eq; [assumption | cbn [inner]; lia]].
    destruct (Z.leb_spec (padded_size l + (PAGE_SIZE - 1)) usize_MAX) as [Hpg | Hpg];
      [|apply alloc_complete; [exact Hl|]; apply alloc_pages_overflow; cbn [inner]; lia].
    pose proof (required_pages_Some _ Hpg) as Hn. fold n in Hn.
    destruct (Z.leb_spec (upper_limit a + n * PAGE_SIZE) usize_MAX) as [Hlim | Hlim];
      cbn [andb].
    + apply alloc_complete; [exact Hl|].
      apply (alloc_grows l (mkWorld a tt) n (upper_limit a) (mkWorld a tt));
        cbn [inner]; try assumption; try reflexivity; lia.
    + now apply (alloc_limit_overflow_eq l (mkWorld a tt) n (upper_limit a)).
Qed.

(** ** Consequences *)

(** A request the headroom cannot serve is served at the old limit, and the
    limit grows by exactly the pages requested. *)
Lemma allocate_grows a sz addr a' :
  headroom a < sz -> allocate a sz = Some (addr, a') ->
  addr = upper_limit a /\ next a' = upper_limit a + sz /\
  upper_limit a' = upper_limit a + ceil_div sz PAGE_SIZE * PAGE_SIZE.
Proof.
  unfold allocate. intros Hgrow. destruct (Z.leb_spec sz (headroom a)); [lia|].
  case_test; intros E; inv E. auto.
Qed.

(** A request the headroom can serve moves the cursor and nothing else. *)
Lemma allocate_fits a sz addr a' :
  sz <= headroom a -> allocate a sz = Some (addr, a') ->
  addr = next a /\ next a' = next a + sz /\ upper_limit a' = upper_limit a.
Proof.
  unfold allocate. intros Hfit. destruct (Z.leb_spec sz (headroom a)); [|lia].
  intros E; inv E. auto.
Qed.

(** The block a request gets from the headroom. *)
Lemma allocate_room a sz :
  sz <= headroom a ->
  allocate a sz = Some (next a, mkInnerAlloc (next a + sz) (upper_limit a)).
Proof. intros Hfit. unfold allocate. now rewrite (proj2 (Z.leb_le _ _) Hfit). Qed.

(** The limit stays a whole number of pages. *)
Lemma allocate_page_aligned a sz addr a' :
  page_aligned a -> allocate a sz = Some (addr, a') -> page_aligned a'.
Proof.
  unfold page_aligned. intros Ha E.
  destruct (Z.le_gt_cases sz (headroom a)) as [Hfit | Hgrow].
  - apply allocate_fits in E; [|assumption]. destruct E as (_ & _ & ->). exact Ha.
  - apply allocate_grows in E; [|assumption]. destruct E as (_ & _ & ->).
    rewrite Z.mod_add by (pose proof PAGE_SIZE_pos; lia). exact Ha.
Qed.

(** [allocate] keeps the cursor below the limit and the limit an address. *)
Lemma allocate_wf a sz addr a' :
  inner_wf a -> 0 <= sz -> allocate a sz = Some (addr, a') -> inner_wf a'.
Proof.
  intros (H0 & Hle & Hmax) Hsz. unfold allocate, headroom, inner_wf.
  pose proof (ceil_div_spec sz PAGE_SIZE PAGE_SIZE_pos) as [_ Hhi].
  repeat case_test; intros E; inv E; bool_to_prop; simpl; lia.
Qed.

(** C10. A sequence of calls of [InnerAlloc::alloc] over the test stub hands out
    the blocks of the specification's allocator and ends in its state. *)
Theorem run_refines_allocate ls : forall w,
  Forall valid ls -> inner_wf (inner w) ->
  run ls w = Done (fst (allocate_all (inner w) ls))
                  (mkWorld (snd (allocate_all (inner w) ls)) tt).
Proof.
  induction ls as [|l ls IH]; intros w Hls Hwf; [now rewrite (world_unit_eta w) at 1|].
  inv Hls. cbn [run allocate_all]. rewrite alloc_as_allocate by assumption.
  destruct (allocate _ _) as [[addr a']|] eqn:Ea; cbn [as_outcome]; [|now apply IH].
  unfold bind, ret. rewrite IH; cbn [inner]; [|assumption |].
  - destruct (allocate_all a' ls). reflexivity.
  - eapply allocate_wf; eauto using padded_size_nonneg.
Qed.

(** [allocate] fails only for want of address space: with room for the
    block after the cursor and for its pages after the limit, it returns. *)
Lemma allocate_succeeds a sz :
  inner_wf a -> 0 <= sz ->
  upper_limit a + sz + (PAGE_SIZE - 1) <= usize_MAX ->
  exists addr a', allocate a sz = Some (addr, a').
Proof.
  intros (H0 & Hle & Hmax) Hsz Hroom. unfold allocate.
  destruct (Z.leb_spec sz (headroom a)); [eauto|].
  pose proof (ceil_div_spec sz PAGE_SIZE PAGE_SIZE_pos) as [Hlo _].
  repeat case_test; bool_to_prop; eauto; rewrite ?PAGE_SIZE_eq in *; lia.
Qed.

(** The bytes abandoned by a growth: the old headroom. *)
Lemma allocate_abandons a sz addr a' :
  inner_wf a -> headroom a < sz -> allocate a sz = Some (addr, a') ->
  addr - next a = headroom a.
Proof.
  intros Hwf Hgrow E. apply allocate_grows in E; [|assumption].
  destruct E as (-> & _). reflexivity.
Qed.

(** The call as the tests make it, keeping the [Option]. *)
Lemma catch_alloc_stub l w :
  valid l -> inner_wf (inner w) ->
  catch (InnerAlloc.alloc l) w =
    match allocate (inner w) (padded_size l) with
    | Some (addr, a') => Done (Some addr) (mkWorld a' tt)
    | None => Done None w
    end.
Proof.
  intros Hl Hwf. unfold catch. rewrite alloc_as_allocate by assumption.
  destruct (allocate _ _) as [[addr a']|]; reflexivity.
Qed.

(** The first request of a fresh allocator: nothing for no bytes, else the
    pages that hold it, from address 0. *)
Lemma allocate_new sz :
  0 <= sz -> sz + (PAGE_SIZE - 1) <= usize_MAX ->
  round_up sz PAGE_SIZE <= usize_MAX ->
  allocate new sz = Some (0, mkInnerAlloc sz (round_up sz PAGE_SIZE)).
Proof.
  intros Hsz Hpg Hlim. pose proof PAGE_SIZE_pos.
  unfold allocate, headroom, round_up in *. cbn [next upper_limit new].
  destruct (Z.leb_spec sz (0 - 0)) as [Hz | Hpos].
  - assert (sz = 0) as -> by lia. reflexivity.
  - rewrite !Z.add_0_l.
    rewrite (proj2 (Z.leb_le _ _) Hpg), (proj2 (Z.leb_le _ _) Hlim).
    rewrite (proj2 (Z.leb_le sz usize_MAX)) by lia. reflexivity.
Qed.

(** A first request too large for [required_pages] is refused. *)
Lemma allocate_new_overflow sz :
  usize_MAX < sz + (PAGE_SIZE - 1) -> allocate new sz = None.
Proof.
  intros Hov. unfold allocate, headroom. cbn [next upper_limit new].
  destruct (Z.leb_spec sz (0 - 0)); [rewrite PAGE_SIZE_eq in *; pose proof usize_MAX_ge; lia|].
  rewrite (proj2 (Z.leb_gt _ _) Hov), andb_false_r. reflexivity.
Qed.

(** ** The stub's allocator, call by call *)

(** A request that does not fit is served at the old limit, the limit
    grows by exactly the pages requested, and the cursor is the end of the
    block: what is left of the old headroom is abandoned. *)
Lemma stub_alloc_grows l w addr w' :
  valid l -> inner_wf (inner w) -> headroom (inner w) < padded_size l ->
  InnerAlloc.alloc l w = Done addr w' ->
  addr = upper_limit (inner w) /\
  next (inner w') = upper_limit (inner w) + padded_size l /\
  upper_limit (inner w') =
    upper_limit (inner w) + ceil_div (padded_size l) PAGE_SIZE * PAGE_SIZE.
Proof.
  intros Hl Hwf Hgrow E. rewrite alloc_as_allocate in E by assumption.
  destruct (allocate _ _) as [[addr' a']|] eqn:Ea; inv E.
  now apply allocate_grows.
Qed.

(** With the stub, [alloc] fails only for want of addresses: when the
    block and the slack of [required_pages] fit above the limit, it
    returns an address. *)
Lemma stub_alloc_succeeds l w :
  valid l -> inner_wf (inner w) ->
  upper_limit (inner w) + padded_size l + (PAGE_SIZE - 1) <= usize_MAX ->
  exists addr w', InnerAlloc.alloc l w = Done addr w'.
Proof.
  intros Hl Hwf Hroom. rewrite alloc_as_allocate by assumption.
  destruct (allocate_succeeds (inner w) (padded_size l) Hwf (padded_size_nonneg l Hl) Hroom)
    as (addr & a' & ->).
  simpl. eauto.
Qed.

(** ** Every state the tests can reach *)

(** A call keeps the limit a whole number of pages. *)
Lemma stub_step_page_aligned w w' :
  world_ok w /\ page_aligned (inner w) -> step w w' ->
  world_ok w' /\ page_aligned (inner w').
Proof.
  intros [Hok Hpa] Hs. split; [eapply step_ok; eauto|]. inv Hs.
  destruct Hok as [Hwf _]. rewrite alloc_as_allocate in H0 by assumption.
  destruct (allocate _ _) as [[addr a']|] eqn:Ea; inv H0; [|exact Hpa].
  eapply allocate_page_aligned; eauto.
Qed.

(** From [InnerAlloc::new], the limit is always a whole number of pages
    and the invariant holds. *)
Lemma stub_reachable_page_aligned w :
  reachable tt w -> world_ok w /\ page_aligned (inner w).
Proof.
  apply (steps_invariant (fun w => world_ok w /\ page_aligned (inner w))).
  - apply stub_step_page_aligned.
  - split; [split; [apply new_wf | exact I] | reflexivity].
Qed.

(** ** Fragmentation *)

(** A call grows the heap by less than a page more than the block. *)
Lemma allocate_limit a sz addr a' :
  0 <= sz -> allocate a sz = Some (addr, a') ->
  upper_limit a' <= upper_limit a + sz + (PAGE_SIZE - 1).
Proof.
  intros Hsz E. pose proof PAGE_SIZE_pos.
  destruct (Z.le_gt_cases sz (headroom a)) as [Hfit | Hgrow].
  - apply allocate_fits in E; [|assumption]. destruct E as (_ & _ & ->). lia.
  - apply allocate_grows in E; [|assumption]. destruct E as (_ & _ & ->).
    pose proof (ceil_div_spec sz PAGE_SIZE PAGE_SIZE_pos). lia.
Qed.

(** C27. The fragmentation the source warns of is bounded: over a run the heap
    grows by the bytes handed out and, for each block, less than a page. *)
Theorem stub_run_fragmentation ls : forall w bs w',
  Forall valid ls -> inner_wf (inner w) -> run ls w = Done bs w' ->
  upper_limit (inner w') <=
    upper_limit (inner w) + total bs + (PAGE_SIZE - 1) * Z.of_nat (length bs).
Proof.
  induction ls as [|l ls IH]; intros w bs w' Hls Hwf E; [inv E; cbn; lia|].
  inv Hls. apply run_cons_inv in E.
  destruct E as [(addr & w1 & bs1 & Ha & Hr & ->) | (w1 & Ha & Hr)];
    rewrite alloc_as_allocate in Ha by assumption;
    destruct (allocate _ _) as [[addr' a']|] eqn:Ea; inv Ha; [|now apply IH].
  pose proof (padded_size_nonneg l H1) as Hsz.
  pose proof (allocate_limit _ _ _ _ Hsz Ea).
  specialize (IH (mkWorld a' tt) _ _ H2 (allocate_wf _ _ _ _ Hwf Hsz Ea) Hr).
  rewrite total_cons. cbn [length len InnerAlloc.block_of inner] in *.
  rewrite PAGE_SIZE_eq in *. lia.
Qed.

(** ** Where the specification's wording and the code part ways *)

(** C39. With no headroom left, a request is served at the base of the new
    pages, and that base is the old cursor: growth does not imply a start
    address different from the old [next]. *)
Lemma stub_grow_at_cursor l w addr w' :
  valid l -> inner_wf (inner w) -> headroom (inner w) = 0 ->
  InnerAlloc.alloc l w = Done addr w' -> addr = next (inner w).
Proof.
  intros Hl Hwf Hz E. rewrite alloc_as_allocate in E by assumption.
  unfold headroom in Hz. destruct (allocate _ _) as [[addr' a']|] eqn:Ea; inv E.
  destruct (Z.le_gt_cases (padded_size l) (headroom (inner w))) as [Hfit | Hgrow].
  - now apply allocate_fits in Ea.
  - apply allocate_grows in Ea; [|assumption]. destruct Ea as (-> & _). lia.
Qed.

(** A first request too large for [required_pages] is refused and leaves
    the fresh allocator as it was. *)
Lemma stub_first_overflow l :
  valid l -> usize_MAX < padded_size l + (PAGE_SIZE - 1) ->
  InnerAlloc.alloc l (mkWorld new tt) = Failed (mkWorld new tt).
Proof.
  intros Hl Hov. rewrite alloc_as_allocate by auto with bump.
  cbn [inner]. now rewrite allocate_new_overflow.
Qed.

End Stub.

(** ** The scenarios of the specification

    At the two widths the allocator is built for: 32 bits on the target,
    64 bits where the tests run. *)

Section Scenarios.

(** An allocator that served the requests [ls] from fresh. *)
Definition after_run (U : Usize) (ls : list Layout) : outcome (World unit) (list Block) :=
  run ls (mkWorld new tt).

(** Scenario A: a request of no bytes is served at 0 and asks for no page.
    The limit stays 0; the specification expects 65536. *)
Lemma scenario_A_no_page :
  forall U : Usize,
    InnerAlloc.alloc (mkLayout 0 1) (mkWorld new tt) = Done 0 (mkWorld new tt).
Proof.
  intros U. pose proof usize_MAX_ge. apply alloc_complete.
  - apply valid_intro; [apply in_usize_0 | unfold in_usize; lia | reflexivity | lia].
  - apply (alloc_fits (mkLayout 0 1) (mkWorld new tt)); cbn; lia.
Qed.

(** Scenario B: a byte short of a page, then two bytes that start the
    second page and leave the last byte of the first unused. *)
Lemma scenario_B :
  let ls := [mkLayout 65535 1; mkLayout 2 2] in
  let r := Done [mkBlock 0 65535; mkBlock 65536 2]
                (mkWorld (mkInnerAlloc 65538 131072) tt) in
  after_run usize32 ls = r /\ after_run usize64 ls = r.
Proof. split; vm_compute; reflexivity. Qed.

(** Scenario C: two pages exactly, then one byte on a third page. *)
Lemma scenario_C :
  let ls := [mkLayout 131072 1; mkLayout 1 1] in
  let r := Done [mkBlock 0 131072; mkBlock 131072 1]
                (mkWorld (mkInnerAlloc 131073 196608) tt) in
  after_run usize32 ls = r /\ after_run usize64 ls = r.
Proof. split; vm_compute; reflexivity. Qed.

End Scenarios.

(** ** The theorems at concrete states (64-bit host) *)

Section Witnesses.
#[local] Existing Instance usize64.

Definition w_byte_left : World unit := mkWorld (mkInnerAlloc 65535 65536) tt.
Definition w_full_pages : World unit := mkWorld (mkInnerAlloc 131072 131072) tt.

Lemma run_refines_allocate_witness :
  run [mkLayout 65535 1; mkLayout 2 2] (mkWorld new tt) =
    Done [mkBlock 0 65535; mkBlock 65536 2] (mkWorld (mkInnerAlloc 65538 131072) tt).
Proof.
  etransitivity;
    [apply (run_refines_allocate [mkLayout 65535 1; mkLayout 2 2] (mkWorld new tt));
       [repeat constructor | apply new_wf]
    | vm_compute; reflexivity].
Defined.

Lemma stub_alloc_grows_witness :
  65536 = 65536 /\ 65538 = 65536 + 2 /\ 131072 = 65536 + 1 * 65536.
Proof.
  apply (stub_alloc_grows (mkLayout 2 2) w_byte_left 65536
           (mkWorld (mkInnerAlloc 65538 131072) tt));
    [reflexivity | apply inner_ok_spec; reflexivity | by_compute | reflexivity].
Defined.

Lemma stub_alloc_succeeds_witness :
  exists addr w', InnerAlloc.alloc (mkLayout 2 2) w_byte_left = Done addr w'.
Proof.
  apply (stub_alloc_succeeds (mkLayout 2 2) w_byte_left);
    [reflexivity | apply inner_ok_spec; reflexivity | by_compute].
Defined.

Lemma stub_reachable_page_aligned_witness :
  world_ok w_byte_left /\ page_aligned (inner w_byte_left).
Proof.
  apply (stub_reachable_page_aligned w_byte_left).
  apply steps_one, (step_alloc (mkLayout 65535 1)); reflexivity.
Defined.

Lemma stub_run_fragmentation_witness :
  131072 <= 0 + total [mkBlock 0 65535; mkBlock 65536 2] + (PAGE_SIZE - 1) * Z.of_nat 2.
Proof.
  apply (stub_run_fragmentation [mkLayout 65535 1; mkLayout 2 2] (mkWorld new tt)
           [mkBlock 0 65535; mkBlock 65536 2] (mkWorld (mkInnerAlloc 65538 131072) tt));
    [repeat constructor | apply new_wf | vm_compute; reflexivity].
Defined.

Lemma stub_grow_at_cursor_witness : 131072 = next (inner w_full_pages).
Proof.
  apply (stub_grow_at_cursor (mkLayout 1 1) w_full_pages 131072
           (mkWorld (mkInnerAlloc 131073 196608) tt));
    [reflexivity | apply inner_ok_spec; reflexivity | reflexivity | reflexivity].
Defined.

Lemma stub_first_overflow_witness :
  InnerAlloc.alloc (mkLayout (usize_MAX - 65534) 1) (mkWorld new tt) =
    Failed (mkWorld new tt).
Proof.
  apply (stub_first_overflow (mkLayout (usize_MAX - 65534) 1)); [reflexivity | by_compute].
Defined.

End Witnesses.
