(* ===== verification/WasmAlloc.v ===== *)
(** * WasmAlloc: the allocator over the Wasm linear memory

    With [memory_grow] as page source, the invariant of the world says the
    allocator's limit is inside the memory.  The theorems: every block
    handed out is inside the memory the host has granted, the memory only
    grows, a request the memory has room for is served, pages whose end is
    not an address are granted and lost, and the null pointer of the
    adapter means failure once the memory is not empty. *)

From Stdlib Require Import ZArith Lia Bool List.
From S2P Require Import Prelude Usize Layout State PageSource Bump Trace GlobalAlloc.
Import ListNotations.
Import Wasm32.
#[local] Open Scope Z_scope.
#[local] Open Scope rs_scope.

Section Wasm.
Context {U : Usize}.
Implicit Types (l : Layout) (w : World Memory) (m : Memory).

(** The world after the host granted [n] pages. *)
Definition grown_by (n : Z) w : World Memory :=
  mkWorld (inner w) (mkMemory (mem_pages (host w) + n) (mem_limit (host w))).

(** The invariant once the process runs: the world is well formed, the
    memory is not empty, and a cursor at 0 means nothing was granted to the
    allocator yet. *)
Definition started w : Prop :=
  world_ok w /\ 1 <= mem_pages (host w) /\
  (next (inner w) = 0 -> upper_limit (inner w) = 0).

(** ** The invariant, unfolded *)

Lemma world_ok_inv w :
  world_ok w ->
  inner_wf (inner w) /\ memory_ok (host w) /\
  upper_limit (inner w) <= mem_bytes (host w).
Proof. intros [Hwf [Hok Hle]]. auto. Qed.

Lemma world_ok_intro w :
  inner_wf (inner w) -> memory_ok (host w) ->
  upper_limit (inner w) <= mem_bytes (host w) -> world_ok w.
Proof. intros. split; [assumption | split; assumption]. Qed.

(** The source's answer to a request it can serve. *)
Lemma request_pages_grows n w :
  memory_ok (host w) -> mem_pages (host w) + n <= mem_limit (host w) ->
  mem_bytes (host w) <= usize_MAX ->
  request_pages n w = Done (mem_bytes (host w)) (grown_by n w).
Proof.
  intros Hok Hfit Hmax. rewrite request_pages_cases by assumption. cbv zeta.
  rewrite (proj2 (Z.leb_le _ _) Hfit), (proj2 (Z.leb_le _ _) Hmax). reflexivity.
Qed.

(** ** Memory safety *)

(** C7. Every address of a block handed out is inside the linear memory. *)
Lemma wasm_alloc_in_memory l w addr w' :
  valid l -> world_ok w -> InnerAlloc.alloc l w = Done addr w' ->
  0 <= addr /\ addr + padded_size l <= mem_bytes (host w').
Proof.
  intros Hl Hok E. destruct (alloc_Done_bounds l w addr w' Hl Hok E) as (Hlo & Hnx & Hle).
  pose proof (alloc_Done_ok l w addr w' Hl Hok E) as Hok'.
  apply world_ok_inv in Hok, Hok'.
  destruct Hok as ((H0 & _) & _). destruct Hok' as (_ & _ & Hin). lia.
Qed.

(** So is every block of a run, in the memory as it is at the end. *)
Lemma wasm_run_in_memory ls w bs w' :
  Forall valid ls -> world_ok w -> run ls w = Done bs w' ->
  Forall (fun b => 0 <= start b /\ block_end b <= mem_bytes (host w')) bs.
Proof.
  intros Hls Hok E. destruct (run_in_order ls w bs w' Hls Hok E) as (_ & _ & Hok').
  destruct (world_ok_inv w Hok) as ((H0 & _) & _).
  destruct (world_ok_inv w' Hok') as (_ & _ & Hin).
  eapply Forall_impl; [|apply (run_within ls w bs w' Hls Hok E)].
  cbv beta. intros b (? & _ & ?). lia.
Qed.

(** ** The memory only grows *)

(** What a call does to the host: nothing, or [n] more pages for some
    [n >= 0]. *)
Lemma wasm_alloc_host l w w' :
  valid l -> world_ok w -> state_of (InnerAlloc.alloc l w) = Some w' ->
  exists n, 0 <= n /\ host w' = host (grown_by n w).
Proof.
  intros Hl Hok E. destruct (world_ok_inv w Hok) as (_ & Hm & _).
  pose proof (padded_size_nonneg l Hl) as Hsz.
  assert (host w = host (grown_by 0 w)) as Hsame
    by (unfold grown_by; destruct (host w); simpl; f_equal; lia).
  destruct (InnerAlloc.alloc l w) as [addr w1 | w1 |] eqn:Ha; inv E.
  - apply alloc_Done_inv in Ha; [|exact Hl].
    destruct Ha as [(_ & _ & ->) | (n & w1 & (_ & Hn & Hrp) & _ & ->)].
    + exists 0. split; [lia | exact Hsame].
    + exists n. split; [eapply required_pages_nonneg; eauto|].
      apply request_pages_Done in Hrp; [|exact Hm]. destruct Hrp as (_ & _ & _ & ->).
      reflexivity.
  - apply alloc_Failed_inv in Ha; [|exact Hl].
    destruct Ha as [-> | [(n & Hn & Hrp) | (n & p & (_ & Hn & Hrp) & _)]].
    + exists 0. split; [lia | exact Hsame].
    + apply request_pages_Failed in Hrp; [|exact Hm].
      destruct Hrp as [(_ & _ & ->) | (_ & ->)].
      * exists n. split; [eapply required_pages_nonneg; eauto | reflexivity].
      * exists 0. split; [lia | exact Hsame].
    + exists n. split; [eapply required_pages_nonneg; eauto|].
      apply request_pages_Done in Hrp; [|exact Hm]. destruct Hrp as (_ & _ & _ & ->).
      reflexivity.
Qed.

Lemma wasm_alloc_memory_grows l w w' :
  valid l -> world_ok w -> state_of (InnerAlloc.alloc l w) = Some w' ->
  mem_pages (host w) <= mem_pages (host w') /\
  mem_limit (host w') = mem_limit (host w).
Proof.
  intros Hl Hok E. destruct (wasm_alloc_host l w w' Hl Hok E) as (n & Hn & ->).
  simpl. split; [lia | reflexivity].
Qed.

(** The limit of the memory is the same after a run. *)
Lemma wasm_run_limit ls : forall w bs w',
  Forall valid ls -> world_ok w -> run ls w = Done bs w' ->
  mem_limit (host w') = mem_limit (host w).
Proof.
  induction ls as [|l ls IH]; intros w bs w' Hls Hok E; [now inv E|].
  inv Hls. apply run_cons_inv in E.
  destruct E as [(addr & w1 & bs1 & Ha & Hr & ->) | (w1 & Ha & Hr)];
    assert (Hs : state_of (InnerAlloc.alloc l w) = Some w1) by now rewrite Ha.
  all: destruct (wasm_alloc_memory_grows l w w1 H1 Hok Hs) as [_ <-].
  all: eapply IH; eauto using alloc_keeps_ok.
Qed.

(** ** Out of memory *)

(** C26. The allocator runs out of memory: all the blocks of a run together
    hold no more bytes than lie between the first cursor and the size at
    which the host stops growing the memory. *)
Theorem wasm_run_total ls w bs w' :
  Forall valid ls -> world_ok w -> run ls w = Done bs w' ->
  next (inner w) + total bs <= mem_limit (host w) * PAGE_SIZE.
Proof.
  intros Hls Hok E. destruct (run_total ls w bs w' Hls Hok E) as [Htot _].
  destruct (run_in_order ls w bs w' Hls Hok E) as (_ & _ & Hok').
  destruct (world_ok_inv w' Hok') as ((_ & Hle & _) & (_ & Hpages & _) & Hin).
  rewrite <- (wasm_run_limit ls w bs w' Hls Hok E).
  unfold mem_bytes in Hin. pose proof PAGE_SIZE_pos. nia.
Qed.

(** ** Requests the memory has room for are served *)

(** The growth branch over the Wasm memory: the new pages start at the old
    end of the memory. *)
Lemma alloc_at_memory_end l w n :
  valid l -> world_ok w ->
  headroom (inner w) < padded_size l ->
  required_pages (padded_size l) = Some n ->
  mem_pages (host w) + n <= mem_limit (host w) ->
  (mem_pages (host w) + n) * PAGE_SIZE <= usize_MAX ->
  InnerAlloc.alloc l w =
    Done (mem_bytes (host w))
         (with_next (mem_bytes (host w) + padded_size l)
            (with_upper_limit (mem_bytes (host w) + n * PAGE_SIZE) (grown_by n w))).
Proof.
  intros Hl Hok Hgrow Hn Hfit Hmax.
  destruct (world_ok_inv w Hok) as (Hwf & Hm & Hin).
  pose proof Hwf as (H0 & Hle & _). pose proof Hm as (Hp0 & _).
  pose proof (padded_size_nonneg l Hl) as Hsz. pose proof PAGE_SIZE_pos as Hps.
  pose proof (required_pages_bounds _ _ Hn) as [_ Hhi].
  pose proof (required_pages_nonneg _ _ Hsz Hn) as Hn0.
  unfold mem_bytes in *.
  assert (mem_pages (host w) * PAGE_SIZE + n * PAGE_SIZE <= usize_MAX) as Hend by lia.
  apply alloc_complete; [exact Hl|]. unfold headroom in Hgrow.
  apply (alloc_grows l w n (mem_pages (host w) * PAGE_SIZE) (grown_by n w));
    try assumption; try nia.
  apply request_pages_grows; [assumption.. | unfold mem_bytes; nia].
Qed.

(** C32. When the request does not fit the headroom, the host can grow the
    memory by the pages [required_pages] asks for and the end of the new
    pages is an address, [alloc] returns the old size of the memory in
    bytes. *)
Lemma wasm_alloc_succeeds l w n :
  valid l -> world_ok w ->
  headroom (inner w) < padded_size l ->
  required_pages (padded_size l) = Some n ->
  mem_pages (host w) + n <= mem_limit (host w) ->
  (mem_pages (host w) + n) * PAGE_SIZE <= usize_MAX ->
  InnerAlloc.alloc l w =
    Done (mem_bytes (host w))
         (with_next (mem_bytes (host w) + padded_size l)
            (with_upper_limit (mem_bytes (host w) + n * PAGE_SIZE) (grown_by n w))).
Proof. exact (alloc_at_memory_end l w n). Qed.

(** ** Pages granted and lost *)

(** C33. When the pages the host grants end beyond the last address, the memory
    has grown and [alloc] returns [None] all the same: the allocator's
    fields are unchanged, and the pages are never used. *)
Lemma wasm_grow_lost l w n :
  valid l -> world_ok w ->
  headroom (inner w) < padded_size l ->
  next (inner w) + padded_size l <= usize_MAX ->
  required_pages (padded_size l) = Some n ->
  mem_pages (host w) + n <= mem_limit (host w) ->
  usize_MAX < (mem_pages (host w) + n) * PAGE_SIZE ->
  InnerAlloc.alloc l w = Failed (grown_by n w).
Proof.
  intros Hl Hok Hgrow Hend Hn Hfit Hov.
  destruct (world_ok_inv w Hok) as (Hwf & Hm & Hin).
  destruct (Z.le_gt_cases (mem_bytes (host w)) usize_MAX) as [Hle | Hgt].
  - apply (alloc_limit_overflow_eq l w n (mem_bytes (host w))); try assumption.
    + now apply request_pages_grows.
    + unfold mem_bytes. lia.
  - apply (alloc_refused_eq l w n); try assumption.
    change (request_pages n w = Failed (grown_by n w)).
    rewrite request_pages_cases by assumption. cbv zeta.
    rewrite (proj2 (Z.leb_le _ _) Hfit), (proj2 (Z.leb_gt _ _) Hgt). reflexivity.
Qed.

(** ** The null pointer *)

Lemma started_ok w : started w -> world_ok w.
Proof. now intros [? _]. Qed.

(** Calls keep [started]. *)
Lemma alloc_keeps_started l w w' :
  valid l -> started w -> state_of (InnerAlloc.alloc l w) = Some w' -> started w'.
Proof.
  intros Hl (Hok & Hpages & Hzero) E.
  destruct (wasm_alloc_memory_grows l w w' Hl Hok E) as [Hmono _].
  split; [eapply alloc_keeps_ok; eauto | split; [lia|]].
  destruct (world_ok_inv w Hok) as ((H0 & Hle & _) & _).
  pose proof (padded_size_nonneg l Hl) as Hsz.
  destruct (InnerAlloc.alloc l w) as [addr w1 | w1 |] eqn:Ha; inv E.
  - destruct (alloc_Done_bounds l w addr w' Hl Hok Ha) as (Hlo & Hnx & _).
    apply alloc_Done_inv in Ha; [|exact Hl].
    destruct Ha as [(_ & _ & ->) | (n & w1 & (Hg & _) & _ & ->)]; simpl in *; lia.
  - destruct (alloc_Failed_ok l w w' Hl Hok Ha) as [_ ->]. exact Hzero.
Qed.

(** Once the memory is not empty, a request for at least one byte is never
    served at address 0. *)
Lemma started_alloc_nonzero l w addr w' :
  valid l -> started w -> 0 < size l ->
  InnerAlloc.alloc l w = Done addr w' -> addr <> 0.
Proof.
  intros Hl (Hok & Hpages & Hzero) Hpos E.
  destruct (world_ok_inv w Hok) as ((H0 & Hle & _) & Hm & _).
  pose proof (padded_size_ge l Hl) as Hsz.
  apply alloc_Done_inv in E; [|exact Hl].
  destruct E as [(Hroom & -> & _) | (n & w1 & (_ & _ & Hrp) & _)].
  - intros Hz. rewrite Hz in *. specialize (Hzero eq_refl). lia.
  - apply request_pages_Done in Hrp; [|exact Hm]. destruct Hrp as (-> & _).
    unfold mem_bytes. rewrite PAGE_SIZE_eq. lia.
Qed.

(** C34. So the adapter's null pointer means what [GlobalAlloc] says it means:
    the allocation failed. *)
Lemma started_null_iff_failed l w ptr w' :
  valid l -> started w -> 0 < size l ->
  BumpAllocator.alloc mkBumpAllocator l w = Done ptr w' ->
  (ptr = null_mut <-> InnerAlloc.alloc l w = Failed w').
Proof.
  intros Hl Hst Hpos E. unfold BumpAllocator.alloc in E.
  destruct (InnerAlloc.alloc l w) as [addr w1 | w1 |] eqn:Ha; inv E.
  - pose proof (started_alloc_nonzero l w ptr w' Hl Hst Hpos Ha).
    split; [contradiction | discriminate].
  - split; reflexivity.
Qed.

End Wasm.

(** ** The theorems at concrete memories (32-bit target)

    A module that starts with 17 pages, as [rustc] lays one out, and one
    that has grown to one page short of the 4 GiB a 32-bit memory can
    hold. *)

Section Witnesses.
#[local] Existing Instance usize32.

Definition w_boot : World Memory := mkWorld new (mkMemory 17 65536).
Definition w_first : World Memory :=
  mkWorld (mkInnerAlloc 1114212 1179648) (mkMemory 18 65536).
Definition w_top : World Memory :=
  mkWorld (mkInnerAlloc 4294836224 4294836224) (mkMemory 65535 65536).

Lemma world_ok_by_compute (w : World Memory) :
  inner_ok (inner w) = true -> memory_okb (host w) = true ->
  (upper_limit (inner w) <=? mem_bytes (host w)) = true -> world_ok w.
Proof.
  intros Hi Hm Hu. apply world_ok_intro;
    [now apply inner_ok_spec | now apply memory_okb_spec | now apply Z.leb_le].
Qed.

Lemma w_boot_started : started w_boot.
Proof.
  split; [apply world_ok_by_compute; reflexivity | split; [by_compute | reflexivity]].
Qed.

Lemma wasm_alloc_in_memory_witness :
  0 <= 1114112 /\ 1114112 + 100 <= mem_bytes (mkMemory 18 65536).
Proof.
  apply (wasm_alloc_in_memory (mkLayout 100 4) w_boot 1114112 w_first);
    [reflexivity | apply world_ok_by_compute; reflexivity | reflexivity].
Defined.

Lemma wasm_run_in_memory_witness :
  Forall (fun b => 0 <= start b /\ block_end b <= mem_bytes (mkMemory 18 65536))
         [mkBlock 1114112 100].
Proof.
  apply (wasm_run_in_memory [mkLayout 100 4] w_boot [mkBlock 1114112 100] w_first);
    [repeat constructor | apply world_ok_by_compute; reflexivity | reflexivity].
Defined.

Lemma wasm_run_total_witness :
  0 + total [mkBlock 1114112 100] <= mem_limit (mkMemory 17 65536) * PAGE_SIZE.
Proof.
  apply (wasm_run_total [mkLayout 100 4] w_boot [mkBlock 1114112 100] w_first);
    [repeat constructor | apply world_ok_by_compute; reflexivity | reflexivity].
Defined.

Lemma wasm_alloc_succeeds_witness :
  InnerAlloc.alloc (mkLayout 100 4) w_boot = Done 1114112 w_first.
Proof.
  apply (wasm_alloc_succeeds (mkLayout 100 4) w_boot 1);
    [reflexivity | apply world_ok_by_compute; reflexivity | by_compute | reflexivity
    | by_compute | by_compute].
Defined.

Lemma wasm_grow_lost_witness :
  InnerAlloc.alloc (mkLayout 8 8) w_top =
    Failed (mkWorld (inner w_top) (mkMemory 65536 65536)).
Proof.
  apply (wasm_grow_lost (mkLayout 8 8) w_top 1);
    [reflexivity | apply world_ok_by_compute; reflexivity | by_compute | by_compute
    | reflexivity | by_compute | by_compute].
Defined.

Lemma alloc_keeps_started_witness : started w_first.
Proof.
  apply (alloc_keeps_started (mkLayout 100 4) w_boot w_first);
    [reflexivity | apply w_boot_started | reflexivity].
Defined.

Lemma started_null_iff_failed_witness :
  1114112 = null_mut <-> InnerAlloc.alloc (mkLayout 100 4) w_boot = Failed w_first.
Proof.
  apply (started_null_iff_failed (mkLayout 100 4) w_boot 1114112 w_first);
    [reflexivity | apply w_boot_started | by_compute | reflexivity].
Defined.

End Witnesses.
