(* ===== verification/WasmHost.v ===== *)
(** * WasmHost: a host that may refuse to grow the memory

    The instruction [memory.grow] may fail although the memory is below its
    limit: the embedder decides.  [Wasm32] of [PageSource] is the host that
    refuses at the limit only.  Here the host carries the answers it will
    give, one for each [memory.grow] to come, and [request_pages] of
    [bump.rs] runs over it.  The theorems: this host obeys the laws of a
    page source, so everything proved of every page source holds of it; a
    call is a call over the host that never refuses early, or a refusal
    that changes nothing but the answers left; every state reached is one
    the other host reaches; and a caller that retries is served once the
    host stops refusing. *)

From Stdlib Require Import ZArith Lia Bool List.
From S2P Require Import Prelude Usize Layout State PageSource Bump Trace GlobalAlloc WasmAlloc.
Import ListNotations.
#[local] Open Scope Z_scope.
#[local] Open Scope rs_scope.

(** ** Changing the host under the allocator *)

Section Natural.
Context {U : Usize} {A B : Type} {PA : PageSource A} {PB : PageSource B}.
Variable g : A -> B.

(** The same allocator over the host seen through [g]. *)
Definition map_host (w : World A) : World B := mkWorld (inner w) (g (host w)).

Definition map_outcome {T} (r : outcome (World A) T) : outcome (World B) T :=
  match r with
  | Done a w => Done a (map_host w)
  | Failed w => Failed (map_host w)
  | Panicked => Panicked
  end.

(** [alloc] asks the source at most once, in the world it was called in:
    when the two sources agree there, so do the two calls. *)
Lemma alloc_natural l w :
  valid l ->
  (forall n, map_outcome (request_pages n w) = request_pages n (map_host w)) ->
  map_outcome (InnerAlloc.alloc l w) = InnerAlloc.alloc l (map_host w).
Proof.
  intros Hl Hrp. symmetry. apply alloc_complete; [exact Hl|].
  destruct (alloc_cases l w Hl) as [| | | n ? ? ? Hr | n w' ? ? ? Hr
    | n p w' ? ? ? Hr | n p w' ? ? ? Hr]; cbn [map_outcome];
    try (specialize (Hrp n); rewrite Hr in Hrp; cbn [map_outcome] in Hrp; symmetry in Hrp).
  - now apply (alloc_fits l (map_host w)).
  - now apply alloc_end_overflows.
  - now apply alloc_pages_overflow.
  - now apply alloc_source_panics with n.
  - now apply alloc_source_refuses with n.
  - now apply alloc_limit_overflows with n p.
  - now apply (alloc_grows l (map_host w) n p (map_host w')).
Qed.

End Natural.

Import Wasm32.

(** ** The host and its [memory_grow] *)

Module WasmHost.

(** The memory, and for each [memory.grow] to come whether the host will
    refuse it whatever the size of the memory; when the answers run out the
    host refuses at the limit only. *)
Record Host : Type := mkHost { memory : Memory; refusals : list bool }.

(** The answer to the next [memory.grow]. *)
Definition refuses (h : Host) : bool := hd false (refusals h).

(** The world once the host has given its next answer and changed nothing
    else. *)
Definition answered (w : World Host) : World Host :=
  mkWorld (inner w) (mkHost (memory (host w)) (tl (refusals (host w)))).

(** The world over the memory [m], with the answers [ds] to come. *)
Definition with_answers (ds : list bool) (w : World Memory) : World Host :=
  mkWorld (inner w) (mkHost (host w) ds).

(** [memory.grow] by [k] pages executed by something else than the
    allocator; the answers the allocator will get are as they were. *)
Definition foreign_grow (k : Z) (h : Host) : Host :=
  mkHost (Wasm32.foreign_grow k (memory h)) (refusals h).

Section WithUsize.
Context {U : Usize}.

(** [core::arch::wasm32::memory_grow(0, delta)]: the previous size in pages,
    or [usize::MAX] when the host refuses or the memory cannot grow by
    [delta] pages. *)
Definition memory_grow (delta : Z) : M (World Host) Z :=
  fun w =>
    let m := memory (host w) in
    let rest := tl (refusals (host w)) in
    if negb (refuses (host w)) && (mem_pages m + delta <=? mem_limit m)
    then Done (mem_pages m)
              (mkWorld (inner w)
                 (mkHost (mkMemory (mem_pages m + delta) (mem_limit m)) rest))
    else Done usize_MAX (answered w).

(** Request a [pages] number of pages of Wasm memory. *)
Definition request_pages (pages : Z) : M (World Host) Z :=
  prev_page <- memory_grow pages ;;
  if prev_page =? usize_MAX then fail
  else try_opt (checked_mul prev_page PAGE_SIZE).

#[export] Instance source : PageSource Host := Build_PageSource _ request_pages.

(** The result of a request over the memory alone, with the answers left. *)
Definition lift (ds : list bool) (r : outcome (World Memory) Z) : outcome (World Host) Z :=
  match r with
  | Done a w => Done a (with_answers ds w)
  | Failed w => Failed (with_answers ds w)
  | Panicked => Panicked
  end.

(** A caller that asks again when it gets [None], [fuel] times at most. *)
Fixpoint alloc_retry (fuel : nat) (l : Layout) : M (World Host) Z :=
  match fuel with
  | O => fail
  | S fuel' =>
      fun w =>
        match InnerAlloc.alloc l w with
        | Done addr w' => Done addr w'
        | Failed w' => alloc_retry fuel' l w'
        | Panicked => Panicked
        end
  end.

(** ** The two answers of the host *)

Implicit Types (w : World Host) (l : Layout).

(** The host refuses: [None], and nothing has changed but the answers
    left. *)
Lemma request_pages_refused n w :
  refuses (host w) = true -> request_pages n w = Failed (answered w).
Proof.
  intros Hr. unfold request_pages, memory_grow, bind. rewrite Hr. cbn [negb andb].
  now rewrite Z.eqb_refl.
Qed.

(** The host does not refuse: the request is the request over the memory
    alone. *)
Lemma request_pages_granted n w :
  refuses (host w) = false ->
  request_pages n w =
    lift (tl (refusals (host w))) (Wasm32.request_pages n (map_host memory w)).
Proof.
  intros Hr. unfold request_pages, Wasm32.request_pages, memory_grow,
    Wasm32.memory_grow, bind. rewrite Hr. cbn [negb andb map_host host].
  destruct (_ <=? _); [|now rewrite Z.eqb_refl].
  destruct (_ =? usize_MAX); [reflexivity|].
  unfold try_opt. now destruct (checked_mul _ _).
Qed.

Lemma forget_with_answers ds (wd : World Memory) :
  map_host memory (with_answers ds wd) = wd.
Proof. now destruct wd. Qed.

Lemma forget_answered w : map_host memory (answered w) = map_host memory w.
Proof. reflexivity. Qed.

Lemma forget_lift ds r : map_outcome memory (lift ds r) = r.
Proof. destruct r; cbn; now rewrite ?forget_with_answers. Qed.

(** Pages come from the memory, when the host did not refuse. *)
Lemma request_pages_Done_inv n w p w' :
  request_pages n w = Done p w' ->
  refuses (host w) = false /\
  Wasm32.request_pages n (map_host memory w) = Done p (map_host memory w').
Proof.
  intros E. destruct (refuses (host w)) eqn:Hr;
    [now rewrite request_pages_refused in E|].
  rewrite request_pages_granted in E by assumption. split; [reflexivity|].
  destruct (Wasm32.request_pages n _); inv E. now rewrite forget_with_answers.
Qed.

(** [None] is the host's refusal, or that of the memory. *)
Lemma request_pages_Failed_inv n w w' :
  request_pages n w = Failed w' ->
  (refuses (host w) = true /\ w' = answered w) \/
  (refuses (host w) = false /\
   Wasm32.request_pages n (map_host memory w) = Failed (map_host memory w')).
Proof.
  intros E. destruct (refuses (host w)) eqn:Hr.
  - rewrite request_pages_refused in E by assumption. inv E. auto.
  - rewrite request_pages_granted in E by assumption. right. split; [reflexivity|].
    destruct (Wasm32.request_pages n _); inv E. now rewrite forget_with_answers.
Qed.

Lemma host_never_panics : never_panics source.
Proof.
  intros n w. cbn. destruct (refuses (host w)) eqn:Hr.
  - now rewrite request_pages_refused.
  - rewrite request_pages_granted by assumption.
    pose proof (wasm_never_panics n (map_host memory w)) as Hp. cbn in Hp.
    now destruct (Wasm32.request_pages n _).
Qed.

End WithUsize.

(** The host obeys the laws of a page source: what it has granted is what
    its memory holds. *)
#[export] Instance laws {U : Usize} : PageSourceLaws Host.
Proof.
  refine {| granted := fun u h => granted_below u (memory h) |}; cbn.
  - intros n w p w' E. apply request_pages_Done_inv in E. destruct E as [_ E].
    exact (rp_frame_done (PageSourceLaws := Wasm32.laws) n _ p _ E).
  - intros n w w' E. apply request_pages_Failed_inv in E.
    destruct E as [[_ ->] | [_ E]]; [reflexivity|].
    exact (rp_frame_failed (PageSourceLaws := Wasm32.laws) n _ _ E).
  - intros n w p w' Hn Hg E. apply request_pages_Done_inv in E. destruct E as [_ E].
    exact (rp_fresh (PageSourceLaws := Wasm32.laws) n (map_host memory w) p _ Hn Hg E).
  - intros n w w' u Hn Hg E. apply request_pages_Failed_inv in E.
    destruct E as [[_ ->] | [_ E]]; [exact Hg|].
    exact (rp_failed_granted (PageSourceLaws := Wasm32.laws) n (map_host memory w) _ u Hn Hg E).
  - intros u u' h. apply (granted_mono (PageSourceLaws := Wasm32.laws)).
Defined.

End WasmHost.

(** ** The allocator over the host that may refuse *)

Section HostAlloc.
Import WasmHost.
Context {U : Usize}.
Implicit Types (w : World Host) (l : Layout).

#[local] Abbreviation forget := (map_host memory).
#[local] Abbreviation alloc_mem := (@InnerAlloc.alloc U Memory Wasm32.source).

(** While the host does not refuse, a call is the call over the memory
    alone. *)
Lemma alloc_granted l w :
  valid l -> refuses (host w) = false ->
  map_outcome memory (InnerAlloc.alloc l w) = alloc_mem l (forget w).
Proof.
  intros Hl Hr. apply alloc_natural; [exact Hl|]. intros n.
  change (map_outcome memory (request_pages n w) = Wasm32.request_pages n (forget w)).
  now rewrite request_pages_granted, forget_lift.
Qed.

(** Every call is the call over the memory alone, or a refusal of the host
    that leaves everything but the answers to come as it was. *)
Lemma alloc_forget l w :
  valid l ->
  map_outcome memory (InnerAlloc.alloc l w) = alloc_mem l (forget w) \/
  (refuses (host w) = true /\ InnerAlloc.alloc l w = Failed (answered w)).
Proof.
  intros Hl. destruct (refuses (host w)) eqn:Hr; [|left; now apply alloc_granted].
  assert (Hrp : forall n, PageSource.request_pages n w = Failed (answered w))
    by (intros n; now apply request_pages_refused).
  destruct (alloc_cases l w Hl) as [| | | n ? ? ? E | n w' ? ? ? E
    | n p w' ? ? ? E | n p w' ? ? ? E];
    try (rewrite Hrp in E; inv E);
    [left; symmetry; apply alloc_complete; [exact Hl|].. | right; auto].
  - now apply (alloc_fits l (forget w)).
  - now apply alloc_end_overflows.
  - now apply alloc_pages_overflow.
Qed.

(** The host refuses a request that needs pages: [None], whatever room the
    memory has; the allocator and the memory are as they were. *)
Theorem alloc_refused l w n :
  valid l -> refuses (host w) = true ->
  headroom (inner w) < padded_size l ->
  next (inner w) + padded_size l <= usize_MAX ->
  required_pages (padded_size l) = Some n ->
  InnerAlloc.alloc l w = Failed (answered w).
Proof.
  intros Hl Hr Hroom Hend Hn. apply (alloc_refused_eq l w n); try assumption.
  now apply request_pages_refused.
Qed.

(** One call over this host is no call or one call over the memory
    alone. *)
Lemma host_step_forget w w' :
  step w w' -> forget w' = forget w \/ step (forget w) (forget w').
Proof.
  intros Hs. inv Hs. destruct (alloc_forget l w H) as [E | [_ E]].
  - right. apply (step_alloc l); [assumption|]. rewrite <- E.
    destruct (InnerAlloc.alloc l w); inv H0; reflexivity.
  - left. rewrite E in H0. now inv H0.
Qed.

(** C22. Every state the allocator reaches over a host that may refuse, it
    reaches over the host that refuses at the limit only: the calls refused
    early are calls that were not made. *)
Theorem host_steps_forget w w' : steps w w' -> steps (forget w) (forget w').
Proof.
  intros Hs. induction Hs as [|w w1 w2 Hs1 _ IH]; [apply steps_refl|].
  destruct (host_step_forget w w1 Hs1) as [<- | Hs']; [exact IH|].
  now apply steps_cons with (forget w1).
Qed.

(** C23. A caller that retries is served: when the memory alone would serve the
    request, the caller gets the same address after at most as many
    refusals as the host has in store. *)
Theorem alloc_retry_served l fuel : forall w addr wd,
  valid l -> (length (refusals (host w)) < fuel)%nat ->
  alloc_mem l (forget w) = Done addr wd ->
  exists w', alloc_retry fuel l w = Done addr w' /\ forget w' = wd.
Proof.
  induction fuel as [|fuel IH]; intros w addr wd Hl Hfuel E; [inversion Hfuel|].
  cbn [alloc_retry]. destruct (alloc_forget l w Hl) as [Ea | [Hr Ea]].
  - rewrite E in Ea. destruct (InnerAlloc.alloc l w) as [a w1 | |]; inv Ea. eauto.
  - rewrite Ea. apply IH; [exact Hl | | exact E].
    unfold refuses in Hr. cbn. destruct (refusals (host w)); [discriminate|].
    cbn in *. lia.
Qed.

End HostAlloc.

(** ** The theorems in a module of 17 pages (32-bit target)

    The host refuses the first [memory.grow] and grants the second. *)

Section Witnesses.
#[local] Existing Instance usize32.
Import WasmHost.

Definition w_refusing : World Host := with_answers [true; false] w_boot.

Lemma alloc_refused_witness :
  InnerAlloc.alloc (mkLayout 100 4) w_refusing = Failed (with_answers [false] w_boot).
Proof.
  apply (alloc_refused (mkLayout 100 4) w_refusing 1);
    [reflexivity | reflexivity | by_compute | by_compute | reflexivity].
Defined.

Lemma w_refusing_first : steps w_refusing (with_answers [] w_first).
Proof.
  apply steps_cons with (with_answers [false] w_boot);
    [|apply steps_one]; apply (step_alloc (mkLayout 100 4)); reflexivity.
Qed.

Lemma host_steps_forget_witness : steps w_boot w_first.
Proof.
  apply (host_steps_forget w_refusing (with_answers [] w_first)), w_refusing_first.
Defined.

Lemma alloc_retry_served_witness :
  exists w', alloc_retry 3 (mkLayout 100 4) w_refusing = Done 1114112 w' /\
             map_host memory w' = w_first.
Proof.
  apply (alloc_retry_served (mkLayout 100 4) 3 w_refusing 1114112 w_first);
    [reflexivity | cbn; lia | reflexivity].
Defined.

End Witnesses.
