(* ===== verification/Linear.v ===== *)
(** * Linear: page sources over a linear memory

    What the theorems on the contents of the memory need of a page source,
    beyond [PageSourceLaws]: the host has a memory of some size, what it
    has granted lies inside it, new pages start at its old end, it never
    shrinks, and a request returns.  [LinearSource] is that interface;
    [Wasm32] and [WasmHost] implement it, the two stubs do not (they have
    no memory).  The lemmas say what a call of [alloc] does to the memory
    of such a host; [Zeroed] and [Realloc] are proved against the interface
    and hold for both hosts. *)

From Stdlib Require Import ZArith Lia Bool List.
From S2P Require Import Prelude Usize Layout State PageSource Bump Trace WasmHost.
#[local] Open Scope Z_scope.
#[local] Open Scope rs_scope.

Class LinearSource {U : Usize} (H : Type) {PS : PageSource H} {L : PageSourceLaws H}
  : Type := {
  (** the size of the memory in bytes; *)
  mem_size : H -> Z;
  (** what the host has granted is inside the memory; *)
  granted_inside : forall u h, granted u h -> u <= mem_size h;
  (** new pages start where the memory ended; *)
  rp_appends : forall n w p w' u,
    granted u (host w) -> request_pages n w = Done p w' -> p = mem_size (host w);
  (** the memory does not shrink; *)
  rp_grows : forall n w w' u,
    0 <= n -> granted u (host w) ->
    state_of (request_pages n w) = Some w' -> mem_size (host w) <= mem_size (host w');
  (** and a request returns. *)
  rp_returns : never_panics PS
}.

(** What the rest of the instance may do to the host between two calls:
    grow the memory.  It takes nothing back from the allocator. *)
Definition grows_only {U : Usize} {H : Type} {PS : PageSource H} {L : PageSourceLaws H}
    {LS : LinearSource H} (g : H -> H) : Prop :=
  keeps_granted g /\ forall h, mem_size h <= mem_size (g h).

(** ** The two hosts *)

Section Hosts.
Context {U : Usize}.

#[export] Instance wasm32_linear :
  LinearSource (PS := Wasm32.source) (L := Wasm32.laws) Wasm32.Memory.
Proof.
  refine {| mem_size := Wasm32.mem_bytes |}.
  - now intros u h [_ Hle].
  - intros n w p w' u [Hok _] E. now apply Wasm32.request_pages_Done in E.
  - intros n w w' u Hn [Hok _] E. pose proof PAGE_SIZE_pos. cbn in E.
    destruct (Wasm32.request_pages n w) as [p w1 | w1 |] eqn:Hrp; inv E.
    + apply Wasm32.request_pages_Done in Hrp; [|exact Hok].
      destruct Hrp as (_ & _ & _ & ->). unfold Wasm32.mem_bytes. cbn. nia.
    + apply Wasm32.request_pages_Failed in Hrp; [|exact Hok].
      destruct Hrp as [(_ & _ & ->) | (_ & ->)]; unfold Wasm32.mem_bytes; cbn; nia.
  - exact Wasm32.wasm_never_panics.
Defined.

#[export] Instance host_linear :
  LinearSource (PS := WasmHost.source) (L := WasmHost.laws) WasmHost.Host.
Proof.
  refine {| mem_size := fun h => Wasm32.mem_bytes (WasmHost.memory h) |}.
  - now intros u h [_ Hle].
  - intros n w p w' u Hg E. apply WasmHost.request_pages_Done_inv in E.
    destruct E as [_ E].
    exact (rp_appends (LinearSource := wasm32_linear) n (map_host WasmHost.memory w) p _ u Hg E).
  - intros n w w' u Hn Hg E. cbn in E.
    destruct (WasmHost.request_pages n w) as [p w1 | w1 |] eqn:Hrp; inv E.
    + apply WasmHost.request_pages_Done_inv in Hrp. destruct Hrp as [_ Hrp].
      apply (rp_grows (LinearSource := wasm32_linear) n (map_host WasmHost.memory w)
               (map_host WasmHost.memory w') u Hn Hg).
      cbn. now rewrite Hrp.
    + apply WasmHost.request_pages_Failed_inv in Hrp.
      destruct Hrp as [[_ ->] | [_ Hrp]]; [reflexivity|].
      apply (rp_grows (LinearSource := wasm32_linear) n (map_host WasmHost.memory w)
               (map_host WasmHost.memory w') u Hn Hg).
      cbn. now rewrite Hrp.
  - exact WasmHost.host_never_panics.
Defined.

(** [memory.grow] executed by the rest of the instance is such a move. *)
Lemma foreign_grow_grows_only k :
  grows_only (LS := wasm32_linear) (Wasm32.foreign_grow k).
Proof.
  split; [exact (Wasm32.foreign_grow_keeps k)|]. intros h. cbn [mem_size wasm32_linear].
  unfold Wasm32.foreign_grow, Wasm32.mem_bytes. pose proof PAGE_SIZE_pos.
  destruct (_ && _) eqn:E; [|lia]. bool_to_prop. cbn [Wasm32.mem_pages]. nia.
Qed.

Lemma host_foreign_grow_grows_only k :
  grows_only (LS := host_linear) (WasmHost.foreign_grow k).
Proof.
  destruct (foreign_grow_grows_only k) as [Hk Hm].
  split; [intros u h; apply Hk | intros h; apply Hm].
Qed.

End Hosts.

(** ** A call over a linear memory *)

Section Calls.
Context {U : Usize} {H : Type} {PS : PageSource H} {L : PageSourceLaws H}.
Context {LS : LinearSource H}.
Implicit Types (l : Layout) (w : World H).

(** The limit is inside the memory. *)
Lemma world_inside w : world_ok w -> upper_limit (inner w) <= mem_size (host w).
Proof. intros [_ Hg]. now apply granted_inside. Qed.

(** A call returns: an address or [None]. *)
Lemma alloc_returns l w :
  valid l -> exists w', state_of (InnerAlloc.alloc l w) = Some w'.
Proof.
  intros Hl. pose proof (alloc_no_panic l w Hl rp_returns) as Hp.
  destruct (InnerAlloc.alloc l w); cbn; eauto. congruence.
Qed.

(** A block from new pages starts where the memory ended. *)
Lemma grew_at_end l w n p w1 :
  world_ok w -> grew l w n p w1 -> p = mem_size (host w).
Proof. intros [_ Hg] (_ & _ & Hrp). exact (rp_appends n w p w1 _ Hg Hrp). Qed.

(** A call does not shrink the memory. *)
Lemma alloc_grows_memory l w w' :
  valid l -> world_ok w -> state_of (InnerAlloc.alloc l w) = Some w' ->
  mem_size (host w) <= mem_size (host w').
Proof.
  intros Hl Hok E. pose proof Hok as [_ Hg].
  pose proof (padded_size_nonneg l Hl) as Hsz.
  assert (Hrp : forall n w1, required_pages (padded_size l) = Some n ->
            state_of (request_pages n w) = Some w1 ->
            mem_size (host w) <= mem_size (host w1)).
  { intros n w1 Hn. apply (rp_grows n w w1 (upper_limit (inner w))); [|exact Hg].
    eapply required_pages_nonneg; eauto. }
  destruct (InnerAlloc.alloc l w) as [addr w1 | w1 |] eqn:Ha; inv E.
  - apply alloc_Done_inv in Ha; [|exact Hl].
    destruct Ha as [(_ & _ & ->) | (n & w1 & (_ & Hn & E) & _ & ->)]; [cbn; lia|].
    cbn [grown with_next with_upper_limit host]. apply (Hrp n); [exact Hn | now rewrite E].
  - apply alloc_Failed_inv in Ha; [|exact Hl].
    destruct Ha as [-> | [(n & Hn & E) | (n & p & (_ & Hn & E) & _)]]; [lia | |];
      apply (Hrp n); try exact Hn; now rewrite E.
Qed.

(** Every block handed out is inside the memory. *)
Lemma alloc_inside l w addr w' :
  valid l -> world_ok w -> InnerAlloc.alloc l w = Done addr w' ->
  0 <= addr /\ addr + padded_size l <= mem_size (host w').
Proof.
  intros Hl Hok E. destruct (alloc_Done_bounds l w addr w' Hl Hok E) as (Hlo & Hnx & Hle).
  pose proof (world_inside w' (alloc_Done_ok l w addr w' Hl Hok E)) as Hin.
  destruct Hok as [(Hcur & _) _]. lia.
Qed.

End Calls.
