(* ===== verification/Racing.v ===== *)
(** * Racing: what survives a race, and what does not

    Calls of [alloc] whose statements interleave can break the invariant
    of the allocator: the cursor above the limit, two blocks at one
    address, a block below the heap.  One thing survives every schedule,
    on every path through [alloc], over every linear memory and for any
    number of calls in flight: the blocks the calls return lie at or above
    the cursor the calls started from and inside the memory.  A race
    damages the racing calls and the calls after them, never a block
    handed out before.

    The proof is by an invariant that each call keeps and that the
    statements of the other calls do not disturb: what the locals of a
    call hold lies between the cursor the calls started from and a bound
    that the host has granted, which only grows. *)

From Stdlib Require Import ZArith Lia Bool List.
From S2P Require Import Prelude Usize Layout State PageSource Bump Trace Steps.
From S2P Require Import GlobalAlloc WasmAlloc Linear Schedule Pool.
Import ListNotations.
#[local] Open Scope Z_scope.
#[local] Open Scope rs_scope.

Section Inside.
Context {U : Usize} {H : Type} {PS : PageSource H} {L : PageSourceLaws H}.
Context {LS : LinearSource H}.
Implicit Types (l : Layout) (w : World H) (f g : Frame) (top : Z).

(** The cursor the calls started from. *)
Variable lo : Z.

(** What the locals of a call for [l] hold: addresses from [lo] on, and
    nothing beyond [top]. *)
Definition frame_inside l top f : Prop :=
  match f with
  | ReadNext l' => l' = l
  | PadSize l' a => l' = l /\ lo <= a <= top
  | AddEnd a sz => sz = padded_size l /\ lo <= a <= top
  | TestLimit a sz e => sz = padded_size l /\ lo <= a /\ e = a + sz
  | CountPages sz => sz = padded_size l
  | RequestPages sz n => sz = padded_size l /\ required_pages sz = Some n
  | WriteLimit sz n p =>
      sz = padded_size l /\ required_pages sz = Some n /\ lo <= p /\ p + n * PAGE_SIZE <= top
  | WriteNext sz p => sz = padded_size l /\ lo <= p /\ p + sz <= top
  | BumpNext a e => lo <= a /\ e = a + padded_size l /\ e <= top
  | Return (Some a) => lo <= a /\ a + padded_size l <= top
  | Return None => True
  end.

(** The state while calls race: the host has granted what is below [top],
    and the cursor and the limit are not beyond it.  The cursor may be
    above the limit. *)
Definition world_inside_top top w : Prop :=
  granted top (host w) /\ lo <= next (inner w) <= top /\ upper_limit (inner w) <= top.

Lemma frame_inside_mono l top top' f :
  top <= top' -> frame_inside l top f -> frame_inside l top' f.
Proof. intros Hle. destruct f as [| | | | | | | | |[a|]]; cbn [frame_inside]; intuition lia. Qed.

(** The request for pages moves the bound to the end of the new pages. *)
Lemma stmt_RequestPages_inside l sz n w f' w' top :
  valid l -> world_inside_top top w -> frame_inside l top (RequestPages sz n) ->
  stmt (RequestPages sz n) w = Done f' w' ->
  exists top', top <= top' /\ world_inside_top top' w' /\ frame_inside l top' f'.
Proof.
  intros Hl (Hg & Hnx & Hup) [-> Hn] E. cbn [stmt] in E. unfold bind, catch, ret in E.
  pose proof (required_pages_nonneg _ _ (padded_size_nonneg l Hl) Hn) as Hn0.
  pose proof PAGE_SIZE_pos. pose proof (granted_inside _ _ Hg) as Hin.
  pose proof (granted_mono _ _ _ Hg Hup) as Hgu.
  destruct (request_pages n w) as [p w1 | w1 |] eqn:Hrp; inv E.
  - destruct (rp_fresh n w p w' Hn0 Hgu Hrp) as [_ Hg'].
    pose proof (rp_appends n w p w' _ Hg Hrp) as Hp.
    pose proof (rp_frame_done n w p w' Hrp) as Hi.
    exists (p + n * PAGE_SIZE). unfold world_inside_top. rewrite Hi.
    cbn [or_return frame_inside]. repeat split; try assumption; nia.
  - pose proof (rp_frame_failed n w w' Hrp) as Hi.
    exists top. unfold world_inside_top. rewrite Hi. cbn [or_return frame_inside].
    repeat split; try assumption; try lia. eapply rp_failed_granted; eauto.
Qed.

(** Every other statement leaves the bound where it is. *)
Lemma stmt_inside_same l f w f' w' top :
  valid l -> (forall sz n, f <> RequestPages sz n) ->
  world_inside_top top w -> frame_inside l top f -> stmt f w = Done f' w' ->
  world_inside_top top w' /\ frame_inside l top f'.
Proof.
  intros Hl Hf Hw Hin E. pose proof Hw as (Hg & Hnx & Hup).
  pose proof (padded_size_nonneg l Hl) as Hsz.
  destruct f as [l' | l' a | a sz | a sz e | sz | sz n | sz n p | sz p | a e | r];
    cbn [stmt frame_inside] in *; [| | | | | now elim (Hf sz n) | | | |].
  - subst l'. inv E. cbn [frame_inside]. auto.
  - destruct Hin as [-> Ha]. unfold bind in E.
    rewrite pad_to_align_spec in E by assumption. inv E. cbn [size frame_inside]. auto.
  - destruct Hin as [-> Ha]. inv E. split; [exact Hw|].
    destruct (checked_add _ _) as [e|] eqn:He; cbn [or_return frame_inside]; [|exact I].
    apply checked_add_Some in He. intuition lia.
  - destruct Hin as (-> & Ha & ->). unfold bind, get_upper_limit, gets, ret in E. inv E.
    split; [exact Hw|]. destruct (_ >? _) eqn:Ht; bool_to_prop; cbn [frame_inside]; lia.
  - subst sz. inv E. split; [exact Hw|].
    destruct (required_pages _) eqn:Hn; cbn [or_return frame_inside]; auto.
  - destruct Hin as (-> & Hn & Hp & Htop).
    pose proof (required_pages_bounds _ _ Hn) as [_ Hb].
    destruct (and_then _ _) as [limit|] eqn:Hlim; inv E; [|cbn [frame_inside]; auto].
    apply and_then_Some_inv in Hlim. destruct Hlim as (pages & Hm & Ha).
    apply checked_mul_Some in Hm. destruct Hm as [-> _].
    apply checked_add_Some in Ha. destruct Ha as [-> _].
    unfold world_inside_top. cbn [frame_inside with_upper_limit inner host next upper_limit].
    repeat split; try assumption; lia.
  - destruct Hin as (-> & Hp & Htop).
    destruct (checked_add p _) as [nn|] eqn:Ha; inv E; [|cbn [frame_inside]; auto].
    apply checked_add_Some in Ha. destruct Ha as [-> _].
    unfold world_inside_top. cbn [frame_inside with_next inner host next upper_limit].
    repeat split; try assumption; lia.
  - destruct Hin as (Ha & -> & Htop). inv E.
    unfold world_inside_top. cbn [frame_inside with_next inner host next upper_limit].
    repeat split; try assumption; lia.
  - inv E. auto.
Qed.

(** A statement of a call keeps what its locals hold inside, and the
    bound does not decrease. *)
Lemma stmt_inside l f w f' w' top :
  valid l -> world_inside_top top w -> frame_inside l top f -> stmt f w = Done f' w' ->
  exists top', top <= top' /\ world_inside_top top' w' /\ frame_inside l top' f'.
Proof.
  intros Hl Hw Hin E.
  destruct f as [| | | | | sz n | | | |] eqn:Hf;
    [| | | | | now apply (stmt_RequestPages_inside l sz n w) | | | |].
  all: exists top; split; [lia|];
    refine (stmt_inside_same l _ w f' w' top Hl _ Hw Hin E); discriminate.
Qed.

End Inside.

(** The block a call has returned, if it has, lies from [lo] on and inside
    the memory. *)
Definition returned_inside {U : Usize} {H : Type} {PS : PageSource H}
    {L : PageSourceLaws H} {LS : LinearSource H} (lo : Z) (l : Layout) (f : Frame)
    (w : World H) : Prop :=
  forall a, f = Return (Some a) -> lo <= a /\ a + padded_size l <= mem_size (host w).

(** ** Every schedule, every path, any number of calls *)

Section Survives.
Context {U : Usize} {H : Type} {PS : PageSource H} {L : PageSourceLaws H}.
Context {LS : LinearSource H}.
Implicit Types (ls : list Layout) (fs : list Frame) (w : World H).

(** The calls of the pool in flight: what their locals hold lies between
    [lo] and a bound the host has granted. *)
Definition pool_inside (lo : Z) ls fs w : Prop :=
  exists top, world_inside_top lo top w /\
    Forall2 (fun l f => frame_inside lo l top f) ls fs.

Lemma pool_stmt_inside lo i ls fs w fs' w' :
  Forall valid ls -> pool_inside lo ls fs w ->
  pool_stmt i fs w = Done fs' w' -> pool_inside lo ls fs' w'.
Proof.
  intros Hls (top & Hw & Hfs) E. unfold pool_stmt in E.
  destruct (nth_error fs i) as [f|] eqn:Ef; [|inv E; exists top; auto].
  destruct (Forall2_nth_error _ i ls fs f Hfs Ef) as (l & El & Hf).
  assert (Hl : valid l) by (eapply (proj1 (Forall_forall _ _)); eauto using nth_error_In).
  apply bind_Done_inv in E. destruct E as (f' & w1 & Es & E). inv E.
  destruct (stmt_inside lo l f w f' w' top Hl Hw Hf Es) as (top' & Hle & Hw' & Hf').
  exists top'. split; [exact Hw'|]. apply Forall2_put.
  - eapply Forall2_impl; [|exact Hfs]. intros l0 f0. now apply frame_inside_mono.
  - intros l0 El0. rewrite El in El0. now inv El0.
Qed.

Lemma pool_run_inside lo ls sched : forall fs w fs' w',
  Forall valid ls -> pool_inside lo ls fs w ->
  pool_run sched fs w = Done fs' w' -> pool_inside lo ls fs' w'.
Proof.
  induction sched as [|i sched IH]; intros fs w fs' w' Hls Hin E; [now inv E|].
  cbn [pool_run] in E. apply bind_Done_inv in E. destruct E as (fs1 & w1 & Es & E).
  eauto using pool_stmt_inside.
Qed.

Lemma pool_inside_start ls w :
  world_ok w -> pool_inside (next (inner w)) ls (map ReadNext ls) w.
Proof.
  intros [(H0 & Hle & Hmax) Hg]. exists (upper_limit (inner w)). split.
  - unfold world_inside_top. repeat split; try assumption; lia.
  - induction ls as [|l ls IH]; constructor; [reflexivity | exact IH].
Qed.

(** C19. Whatever the number of calls in flight, the schedule and the paths the
    calls take, a block that a call returns starts at or above the cursor
    the calls started from and ends inside the memory. *)
Theorem pool_blocks_inside sched ls w fs w' :
  Forall valid ls -> world_ok w ->
  pool_run sched (map ReadNext ls) w = Done fs w' ->
  Forall2 (fun l f => returned_inside (next (inner w)) l f w') ls fs.
Proof.
  intros Hls Hok E.
  destruct (pool_run_inside _ ls sched _ w fs w' Hls (pool_inside_start ls w Hok) E)
    as (top & (Hg & _) & Hfs).
  pose proof (granted_inside _ _ Hg). eapply Forall2_impl; [|exact Hfs].
  intros l f Hf a ->. cbn [frame_inside] in Hf. lia.
Qed.

End Survives.

(** ** The theorem at a concrete race (32-bit target, Wasm memory) *)

Section Witnesses.
#[local] Existing Instance usize32.
Import Wasm32.

(** At the start of a module the two calls that run in turn are given the
    bases of two new pages, and the third the null address. *)
Example third_interrupted_at_boot :
  pool_run third_interrupted (map ReadNext three_calls) w_boot =
    Done [Return (Some 1114112); Return (Some 1179648); Return (Some 0)]
         (mkWorld (mkInnerAlloc 1 1245184) (mkMemory 19 65536)).
Proof. vm_compute. reflexivity. Qed.

Lemma pool_blocks_inside_witness :
  Forall2 (fun l f => returned_inside 0 l f
                        (mkWorld (mkInnerAlloc 1 1245184) (mkMemory 19 65536)))
    three_calls [Return (Some 1114112); Return (Some 1179648); Return (Some 0)].
Proof.
  apply (pool_blocks_inside third_interrupted three_calls w_boot);
    [repeat constructor | apply (started_ok w_boot), w_boot_started
    | apply third_interrupted_at_boot].
Defined.

End Witnesses.
