(* ===== verification/Growing.v ===== *)
(** * Growing: two calls that both have to grow the heap

    [Schedule] settles what two calls are given when there is room for
    both.  This file is about two calls that both find the heap full.  Such
    a call reads the cursor, tests the limit in its fourth statement, asks
    the host for pages in its sixth and writes the limit in its seventh.
    If each of the two calls tests the limit before the other writes it,
    both ask the host, the host answers with two different runs of pages,
    and the blocks are disjoint, whatever the schedule does with the
    writes.  A call that tests the limit after the other call has written
    it is the call of [Schedule.interrupted_call_stale]: it is served from
    the cursor it read, below the pages of the other.

    The proof is an invariant of the two calls in flight, indexed by the
    statements each has executed. *)

From Stdlib Require Import ZArith Lia Bool List.
From S2P Require Import Prelude Usize Layout State PageSource Bump Trace Steps.
From S2P Require Import GlobalAlloc WasmAlloc Linear Schedule.
Import ListNotations.
#[local] Open Scope Z_scope.
#[local] Open Scope rs_scope.

(** Each call tests the limit, its fourth statement, before the other
    writes it, its seventh.  [k1] and [k2] are the statements the two calls
    have executed so far. *)
Fixpoint tests_first_from (k1 k2 : nat) (turns : list Turn) : bool :=
  match turns with
  | [] => true
  | First :: rest =>
      (if (k1 =? 6)%nat then (4 <=? k2)%nat else true) && tests_first_from (S k1) k2 rest
  | Second :: rest =>
      (if (k2 =? 6)%nat then (4 <=? k1)%nat else true) && tests_first_from k1 (S k2) rest
  end.

Definition tests_first : list Turn -> bool := tests_first_from 0 0.

(** The call has not tested the limit yet. *)
Definition early (f : Frame) : bool :=
  match f with
  | ReadNext _ | PadSize _ _ | AddEnd _ _ | TestLimit _ _ _ => true
  | _ => false
  end.

(** The call has written the limit. *)
Definition wrote (f : Frame) : bool :=
  match f with
  | WriteNext _ _ | Return (Some _) => true
  | _ => false
  end.

(** The base of the pages the host has answered the call with. *)
Definition run_of (f : Frame) : option Z :=
  match f with
  | WriteLimit _ _ p | WriteNext _ p | Return (Some p) => Some p
  | _ => None
  end.

Section BothGrow.
Context {U : Usize} {H : Type} {PS : PageSource H} {L : PageSourceLaws H}.
Context {LS : LinearSource H}.
Implicit Types (l : Layout) (w : World H) (f g : Frame) (top : Z) (k : nat).

(** The state the two calls start in. *)
Variable w0 : World H.

(** The bytes of the pages a call asks for. *)
Definition pages l : Z := round_up (padded_size l) PAGE_SIZE.

(** Where a call that finds the heap full is after [k] statements, and
    what its locals hold: the cursor it read is the cursor of [w0], and
    its pages lie beyond the memory of [w0] and below [top]. *)
Definition on_path l top k f : Prop :=
  match f with
  | ReadNext l' => l' = l /\ k = 0%nat
  | PadSize l' a => l' = l /\ a = next (inner w0) /\ k = 1%nat
  | AddEnd a sz => sz = padded_size l /\ a = next (inner w0) /\ k = 2%nat
  | TestLimit a sz e => sz = padded_size l /\ e = next (inner w0) + sz /\ k = 3%nat
  | CountPages sz => sz = padded_size l /\ k = 4%nat
  | RequestPages sz n => sz = padded_size l /\ required_pages sz = Some n /\ k = 5%nat
  | WriteLimit sz n p =>
      sz = padded_size l /\ required_pages sz = Some n /\
      mem_size (host w0) <= p /\ p + pages l <= top /\ k = 6%nat
  | WriteNext sz p =>
      sz = padded_size l /\ mem_size (host w0) <= p /\ p + pages l <= top /\ k = 7%nat
  | BumpNext _ _ => False
  | Return (Some p) => mem_size (host w0) <= p /\ p + pages l <= top
  | Return None => True
  end.

(** The host has granted what is below [top], the limit is not beyond it,
    and the memory has not shrunk. *)
Definition env top w : Prop :=
  granted top (host w) /\ upper_limit (inner w) <= top /\
  mem_size (host w0) <= mem_size (host w).

(** The two calls in flight: their pages are apart, the fields of the
    allocator are those of [w0] while a call has not tested the limit, and
    a call that has written the limit leaves the other past its test. *)
Definition growing l1 l2 k1 k2 (fs : Frame * Frame) w : Prop :=
  exists top, env top w /\
    on_path l1 top k1 (fst fs) /\ on_path l2 top k2 (snd fs) /\
    (forall p1 p2, run_of (fst fs) = Some p1 -> run_of (snd fs) = Some p2 ->
       p1 + pages l1 <= p2 \/ p2 + pages l2 <= p1) /\
    (early (fst fs) || early (snd fs) = true -> inner w = inner w0) /\
    (wrote (fst fs) = true -> early (snd fs) = false) /\
    (wrote (snd fs) = true -> early (fst fs) = false).

Lemma growing_sym l1 l2 k1 k2 f g w :
  growing l1 l2 k1 k2 (f, g) w -> growing l2 l1 k2 k1 (g, f) w.
Proof.
  intros (top & He & H1 & H2 & Ha & Hb & Hc & Hd). exists top. cbn [fst snd] in *.
  repeat split; try assumption; try apply He.
  - intros p1 p2 E1 E2. destruct (Ha p2 p1 E2 E1); auto.
  - now rewrite orb_comm.
Qed.

Lemma on_path_mono l top top' k f :
  top <= top' -> on_path l top k f -> on_path l top' k f.
Proof. intros Hle. destruct f as [| | | | | | | | |[a|]]; cbn [on_path]; intuition lia. Qed.

Lemma on_path_run l top k f p :
  on_path l top k f -> run_of f = Some p -> p + pages l <= top.
Proof.
  destruct f as [| | | | | | | | |[a|]]; cbn [on_path run_of]; try discriminate;
    intros Hp E; inv E; intuition lia.
Qed.

Lemma on_path_tested l top k f : on_path l top k f -> (4 <= k)%nat -> early f = false.
Proof.
  destruct f as [| | | | | | | | |[a|]]; cbn [on_path early]; intuition (try reflexivity; lia).
Qed.

Lemma pages_of l n :
  required_pages (padded_size l) = Some n -> n * PAGE_SIZE = pages l.
Proof. intros Hn. apply required_pages_inv in Hn. now destruct Hn as [-> _]. Qed.

Lemma padded_le_pages l : padded_size l <= pages l.
Proof. apply round_up_ge, PAGE_SIZE_pos. Qed.

(** What a statement of one call does, as far as the other call is
    concerned: the call moves on along the path, it does not go back before
    its test, it writes the fields of the allocator only in its seventh and
    eighth statement, and the pages it is given lie beyond [top]. *)
Definition moves_on l top k f w top' f' w' : Prop :=
  top <= top' /\ env top' w' /\ on_path l top' (S k) f' /\
  (early f' = true -> early f = true) /\
  (inner w' = inner w \/ k = 6%nat \/ wrote f = true) /\
  (wrote f' = true -> wrote f = true \/ k = 6%nat) /\
  (forall p, run_of f' = Some p -> run_of f = Some p \/ top <= p).

(** The request for pages: the host answers with a run beyond [top]. *)
Lemma stmt_RequestPages_on_path l top k sz n w f' w' :
  valid l -> env top w -> on_path l top k (RequestPages sz n) ->
  stmt (RequestPages sz n) w = Done f' w' ->
  exists top', moves_on l top k (RequestPages sz n) w top' f' w'.
Proof.
  intros Hl (Hg & Hup & Hm) (-> & Hn & ->) E. cbn [stmt] in E. unfold bind, catch, ret in E.
  pose proof (required_pages_nonneg _ _ (padded_size_nonneg l Hl) Hn) as Hn0.
  pose proof (pages_of l n Hn) as Hpg. pose proof PAGE_SIZE_pos.
  pose proof (granted_inside _ _ Hg) as Hin. pose proof (granted_mono _ _ _ Hg Hup) as Hgu.
  destruct (request_pages n w) as [p w1 | w1 |] eqn:Hrp; inv E.
  - destruct (rp_fresh n w p w' Hn0 Hgu Hrp) as [_ Hg'].
    pose proof (rp_appends n w p w' _ Hg Hrp) as Hp.
    pose proof (rp_grows n w w' _ Hn0 Hg ltac:(now rewrite Hrp)) as Hgr.
    exists (p + n * PAGE_SIZE). unfold moves_on, env. rewrite (rp_frame_done n w p w' Hrp).
    cbn [or_return on_path early wrote run_of].
    repeat split; auto; try lia; try discriminate. intros q Hq. inv Hq. right. lia.
  - pose proof (rp_grows n w w' _ Hn0 Hg ltac:(now rewrite Hrp)) as Hgr.
    exists top. unfold moves_on, env. rewrite (rp_frame_failed n w w' Hrp).
    cbn [or_return on_path early wrote run_of].
    repeat split; auto; try lia; try discriminate. eapply rp_failed_granted; eauto.
Qed.

(** The statements before the request: nothing is written. *)
Lemma stmt_early_on_path l top k f w f' w' :
  valid l -> upper_limit (inner w0) < next (inner w0) + padded_size l ->
  env top w -> on_path l top k f -> inner w = inner w0 -> early f = true ->
  stmt f w = Done f' w' -> moves_on l top k f w top f' w'.
Proof.
  intros Hl Hfull He Hp Hi Hearly E. unfold moves_on.
  destruct f as [l' | l' a | a sz | a sz e | | | | | |]; try discriminate;
    cbn [stmt on_path] in *.
  - destruct Hp as [-> ->]. inv E. cbn. rewrite Hi. intuition (discriminate || lia).
  - destruct Hp as (-> & -> & ->). unfold bind in E.
    rewrite pad_to_align_spec in E by assumption. inv E. cbn. intuition (discriminate || lia).
  - destruct Hp as (-> & -> & ->). inv E.
    destruct (checked_add _ _) as [e|] eqn:Ha; cbn; [|intuition (discriminate || lia)].
    apply checked_add_Some in Ha. intuition (discriminate || lia).
  - destruct Hp as (-> & -> & ->). unfold bind, get_upper_limit, gets, ret in E. inv E.
    rewrite Hi, (proj2 (Z.gtb_lt _ _)) by lia. cbn. intuition (discriminate || lia).
Qed.

(** The statements after the request, and the call that has returned. *)
Lemma stmt_late_on_path l top k f w f' w' :
  valid l -> env top w -> on_path l top k f -> early f = false ->
  (forall sz n, f <> RequestPages sz n) ->
  stmt f w = Done f' w' -> moves_on l top k f w top f' w'.
Proof.
  intros Hl (Hg & Hup & Hm) Hp Hearly Hnr E. unfold moves_on, env.
  destruct f as [| | | | sz | sz n | sz n p | sz p | a e | r]; try discriminate;
    cbn [stmt on_path] in *; [| now elim (Hnr sz n) | | | tauto |].
  - destruct Hp as [-> ->]. inv E.
    destruct (required_pages _) eqn:Hn; cbn; intuition (discriminate || lia).
  - destruct Hp as (-> & Hn & Hlo & Htop & ->). pose proof (pages_of l n Hn) as Hpg.
    destruct (and_then _ _) as [limit|] eqn:Hlim; inv E; cbn;
      [|intuition (discriminate || lia)].
    apply and_then_Some_inv in Hlim. destruct Hlim as (pg & Hmul & Ha).
    apply checked_mul_Some in Hmul. destruct Hmul as [-> _].
    apply checked_add_Some in Ha. destruct Ha as [-> _]. intuition (discriminate || lia).
  - destruct Hp as (-> & Hlo & Htop & ->).
    destruct (checked_add p _) as [nn|] eqn:Ha; inv E; cbn; intuition (discriminate || lia).
  - inv E. destruct r as [p|]; cbn in *; intuition (discriminate || lia).
Qed.

(** One statement of a call that finds the heap full. *)
Lemma stmt_on_path l top k f w f' w' :
  valid l -> upper_limit (inner w0) < next (inner w0) + padded_size l ->
  env top w -> on_path l top k f -> (early f = true -> inner w = inner w0) ->
  stmt f w = Done f' w' ->
  exists top', moves_on l top k f w top' f' w'.
Proof.
  intros Hl Hfull He Hp Hi E. destruct (early f) eqn:Hearly.
  - exists top. apply stmt_early_on_path; auto.
  - destruct f as [| | | | | sz n | | | |] eqn:Hf;
      [| | | | | now apply stmt_RequestPages_on_path | | | |].
    all: exists top; apply stmt_late_on_path; auto; discriminate.
Qed.

(** A statement of the first call keeps the two calls as they are, when
    the call does not write the limit before the other has tested it. *)
Lemma stmt_growing l l' k k' f g w f' w' :
  valid l -> upper_limit (inner w0) < next (inner w0) + padded_size l ->
  growing l l' k k' (f, g) w -> (k = 6%nat -> (4 <= k')%nat) ->
  stmt f w = Done f' w' -> growing l l' (S k) k' (f', g) w'.
Proof.
  intros Hl Hfull (top & He & Hf & Hg & Ha & Hb & Hc & Hd) Hk E. cbn [fst snd] in *.
  assert (Hi : early f = true -> inner w = inner w0) by (intros Hy; apply Hb; now rewrite Hy).
  destruct (stmt_on_path l top k f w f' w' Hl Hfull He Hf Hi E)
    as (top' & Hle & He' & Hf' & Hback & Hin & Hw & Hrun).
  assert (Hcg : (k = 6%nat \/ wrote f = true) -> early g = false).
  { intros [-> | Hy]; [eapply on_path_tested; eauto | auto]. }
  exists top'. cbn [fst snd]. repeat split; try apply He'; try assumption.
  - eapply on_path_mono; eauto.
  - intros p1 p2 E1 E2. pose proof (on_path_run _ _ _ _ _ Hg E2).
    destruct (Hrun p1 E1); [now apply Ha | lia].
  - intros Hy. destruct (early g) eqn:Hg0.
    + destruct Hin as [-> | Hin]; [apply Hb, orb_true_r | discriminate (Hcg Hin)].
    + rewrite orb_false_r in Hy. destruct Hin as [-> | Hin]; [now apply Hi, Hback|].
      apply Hback in Hy. destruct Hin as [-> | Hin];
        [rewrite (on_path_tested _ _ _ _ Hf) in Hy by lia; discriminate |].
      destruct f as [| | | | | | | | |[a|]]; discriminate.
  - intros Hy. apply Hcg. destruct (Hw Hy); auto.
  - intros Hy. specialize (Hd Hy). destruct (early f') eqn:Hf0; [|reflexivity].
    now rewrite Hback in Hd.
Qed.

(** Whatever the schedule does with the writes. *)
Lemma interleave_growing l1 l2 turns : forall k1 k2 fs w fs' w',
  valid l1 -> valid l2 ->
  upper_limit (inner w0) < next (inner w0) + padded_size l1 ->
  upper_limit (inner w0) < next (inner w0) + padded_size l2 ->
  growing l1 l2 k1 k2 fs w -> tests_first_from k1 k2 turns = true ->
  interleave turns fs w = Done fs' w' -> exists k1' k2', growing l1 l2 k1' k2' fs' w'.
Proof.
  induction turns as [|t turns IH]; intros k1 k2 [f g] w fs' w' Hl1 Hl2 H1 H2 Hg Ht E;
    [inv E; eauto|].
  destruct t; cbn [tests_first_from interleave fst snd] in *;
    apply andb_true_iff in Ht; destruct Ht as [Hk Ht];
    apply bind_Done_inv in E; destruct E as (f' & w1 & Hs & E).
  - apply (IH (S k1) k2 _ _ _ _ Hl1 Hl2 H1 H2) in E; [exact E | | exact Ht].
    apply (stmt_growing l1 l2 k1 k2 f g w); auto.
    intros ->. now apply Nat.leb_le.
  - apply (IH k1 (S k2) _ _ _ _ Hl1 Hl2 H1 H2) in E; [exact E | | exact Ht].
    apply growing_sym, (stmt_growing l2 l1 k2 k1 g f w); auto using growing_sym.
    intros ->. now apply Nat.leb_le.
Qed.

Lemma growing_start l1 l2 :
  world_ok w0 -> growing l1 l2 0 0 (ReadNext l1, ReadNext l2) w0.
Proof.
  intros [(H0 & Hle & Hmax) Hg]. exists (upper_limit (inner w0)). unfold env.
  cbn [fst snd on_path early wrote run_of]. repeat split; auto; try lia; discriminate.
Qed.

(** C30. Two calls that both find the heap full, over a linear memory, under
    every schedule in which each call tests the limit before the other
    writes it: the blocks they return are disjoint and lie in the pages
    the host added, beyond the memory the calls started with.  The
    schedule is free to order the requests to the host and the writes of
    the limit and of the cursor as it likes. *)
Theorem growing_calls_disjoint turns l1 l2 a1 a2 w' :
  valid l1 -> valid l2 -> world_ok w0 ->
  headroom (inner w0) < padded_size l1 -> headroom (inner w0) < padded_size l2 ->
  tests_first turns = true ->
  interleave turns (ReadNext l1, ReadNext l2) w0 =
    Done (Return (Some a1), Return (Some a2)) w' ->
  disjoint (InnerAlloc.block_of l1 a1) (InnerAlloc.block_of l2 a2) /\
  mem_size (host w0) <= a1 /\ mem_size (host w0) <= a2.
Proof.
  unfold headroom. intros Hl1 Hl2 Hok H1 H2 Ht E.
  destruct (interleave_growing l1 l2 turns 0 0 _ w0 _ w' Hl1 Hl2 ltac:(lia) ltac:(lia)
              (growing_start l1 l2 Hok) Ht E)
    as (k1 & k2 & top & _ & (Hm1 & _) & (Hm2 & _) & Ha & _).
  cbn [fst snd run_of] in Ha. split; [|split; assumption].
  pose proof (padded_le_pages l1). pose proof (padded_le_pages l2).
  destruct (Ha a1 a2 eq_refl eq_refl); [|apply disjoint_sym];
    apply before_disjoint; unfold block_end; cbn; lia.
Qed.

End BothGrow.

(** All the schedules of [n] statements of the first call and [m] of the
    second. *)
Fixpoint schedules (n : nat) : nat -> list (list Turn) :=
  fix merge (m : nat) : list (list Turn) :=
    match n, m with
    | O, _ => [repeat Second m]
    | S n', O => [repeat First n]
    | S n', S m' => map (cons First) (schedules n' m) ++ map (cons Second) (merge m')
    end.

(** ** Two calls at the start of a module, every schedule

    On the 32-bit target, in a module that starts with 17 pages and has
    not allocated yet: a call for 8 bytes and a call for 4, and each of the
    12870 ways to order their statements. *)

Section AtBoot.
#[local] Existing Instance usize32.
Import Wasm32.

(** What a race leaves: the two addresses, the cursor, the limit, and the
    size of the memory in pages. *)
Record Left : Type := mkLeft {
  first_at : Z; second_at : Z; cursor : Z; limit : Z; grown_to : Z
}.

Definition left_by (turns : list Turn) : option Left :=
  match interleave turns (ReadNext (mkLayout 8 8), ReadNext (mkLayout 4 4)) w_boot with
  | Done (Return (Some a1), Return (Some a2)) w' =>
      Some (mkLeft a1 a2 (next (inner w')) (upper_limit (inner w')) (mem_pages (host w')))
  | _ => None
  end.

Definition Left_eqb (x y : Left) : bool :=
  (first_at x =? first_at y) && (second_at x =? second_at y) &&
  (cursor x =? cursor y) && (limit x =? limit y) && (grown_to x =? grown_to y).

(** The race left what [o'] is. *)
Definition same_as (o' o : option Left) : bool :=
  match o, o' with
  | Some x, Some y => Left_eqb x y
  | _, _ => false
  end.

(** One of the calls was given the null address. *)
Definition given_null (o : option Left) : bool :=
  match o with
  | Some x => (first_at x =? null_mut) || (second_at x =? null_mut)
  | None => false
  end.

(** The cursor is above the limit. *)
Definition cursor_above (o : option Left) : bool :=
  match o with Some x => limit x <? cursor x | None => false end.

(** Nothing is wrong with what the race left: the two blocks are in the
    pages the host added, they are disjoint, and the cursor is past both
    and at or below the limit, which is inside the memory. *)
Definition sound (o : option Left) : bool :=
  match o with
  | Some x =>
      (mem_bytes (host w_boot) <=? first_at x) && (mem_bytes (host w_boot) <=? second_at x) &&
      disjointb (mkBlock (first_at x) 8) (mkBlock (second_at x) 4) &&
      (first_at x + 8 <=? cursor x) && (second_at x + 4 <=? cursor x) &&
      (cursor x <=? limit x) && (limit x <=? grown_to x * PAGE_SIZE)
  | None => false
  end.

(** The two blocks are disjoint and in the pages the host added. *)
Definition blocks_apart (o : option Left) : bool :=
  match o with
  | Some x =>
      (mem_bytes (host w_boot) <=? first_at x) && (mem_bytes (host w_boot) <=? second_at x) &&
      disjointb (mkBlock (first_at x) 8) (mkBlock (second_at x) 4)
  | None => false
  end.

(** One of the calls is given its eight statements before the other
    starts. *)
Definition unpreempted (turns : list Turn) : bool :=
  (alloc_statements <=? lead First turns)%nat || (alloc_statements <=? lead Second turns)%nat.

(** A schedule and what it leaves. *)
Definition Race : Type := list Turn * option Left.

(** The schedules of which [p] holds, and their number. *)
Definition leaving (p : Race -> bool) (races : list Race) : list (list Turn) :=
  map fst (filter p races).

Definition count (p : Race -> bool) (races : list Race) : Z :=
  Z.of_nat (length (leaving p races)).

(** The two calls tested the limit before either wrote it, and both
    schedules of eight statements each in turn do. *)
Definition in_step : list Turn :=
  in_turn ++ [First; Second; First; Second; First; Second].

(** Of the 12870 schedules, only the two without preemption leave what two
    calls one after the other leave; 1528 give a call the null address,
    924 leave the cursor above the limit, and 6302 leave nothing wrong.
    In 11340 each call tests the limit before the other writes it, and the
    blocks are disjoint and in the pages the host added under these and
    under the two without preemption, and under no other. *)
Example races_at_boot :
  let races := map (fun turns => (turns, left_by turns)) (schedules 8 8) in
  let one := left_by serial in
  let two := left_by (map other serial) in
  (leaving (fun race => same_as one (snd race) || same_as two (snd race)) races,
   count (fun _ => true) races,
   count (fun race => given_null (snd race)) races,
   count (fun race => cursor_above (snd race)) races,
   count (fun race => sound (snd race)) races,
   count (fun race => tests_first (fst race)) races,
   leaving (fun race => negb (Bool.eqb (blocks_apart (snd race))
                                       (tests_first (fst race) || unpreempted (fst race))))
           races) =
  ([serial; map other serial], 12870, 1528, 924, 6302, 11340, []).
Proof. vm_compute. reflexivity. Qed.

(** A call interrupted after it read the cursor is served from the cursor
    it read, below the heap: the block of the second call is at the null
    address, and a third call is given the memory of the module from
    address 4 on, the block of the first call included. *)
Example reentered_at_boot :
  exists w',
    interleave (reentered 1) (ReadNext (mkLayout 8 8), ReadNext (mkLayout 4 4)) w_boot =
      Done (Return (Some 1114112), Return (Some null_mut)) w' /\
    exists w'', InnerAlloc.alloc (mkLayout 1114112 1) w' = Done 4 w'' /\
    ~ disjoint (InnerAlloc.block_of (mkLayout 1114112 1) 4)
               (InnerAlloc.block_of (mkLayout 8 8) 1114112).
Proof.
  eexists. split; [vm_compute; reflexivity|]. eexists. split; [vm_compute; reflexivity|].
  intros Hd. apply disjointb_spec in Hd. discriminate.
Qed.

Lemma growing_calls_disjoint_witness :
  disjoint (InnerAlloc.block_of (mkLayout 8 8) 1114112)
           (InnerAlloc.block_of (mkLayout 4 4) 1179648) /\
  mem_size (host w_boot) <= 1114112 /\ mem_size (host w_boot) <= 1179648.
Proof.
  apply (growing_calls_disjoint w_boot in_step (mkLayout 8 8) (mkLayout 4 4) 1114112 1179648
           (mkWorld (mkInnerAlloc 1179652 1245184) (mkMemory 19 65536)));
    [ reflexivity | reflexivity | apply w_boot_started | by_compute | by_compute
    | reflexivity | vm_compute; reflexivity ].
Defined.

End AtBoot.
