(* ===== verification/Align.v ===== *)
(** * Align: the alignment of the addresses handed out

    [GlobalAlloc::alloc] owes its caller a pointer aligned to
    [layout.align()].  [InnerAlloc::alloc] pads the size of the request to
    its alignment and does nothing else with it: the address it returns is
    the cursor, or the base of new pages.  The theorems: the address does
    not depend on the alignment asked for ([alloc] and [run] respect the
    partial equivalence of layouts with the same padded size, and a run is
    the run of the padded sizes with no alignment); the address of a
    served request is aligned exactly when the request was served from
    new pages or found the cursor aligned, so that after a request of odd
    size the next is served at an odd address, whatever it asked for; and
    when every request has the same alignment, at most a page, every
    address is aligned. *)

From Stdlib Require Import ZArith Lia Bool List Morphisms RelationClasses.
From S2P Require Import Prelude Usize Layout State PageSource Bump Trace GlobalAlloc WasmAlloc.
Import ListNotations.
#[local] Open Scope Z_scope.
#[local] Open Scope rs_scope.

(** The address [addr] is aligned for the request [l]. *)
Definition well_aligned (l : Layout) (addr : Z) : bool := aligned addr (align l).

Section Align.
Context {U : Usize} {H : Type} {PS : PageSource H}.
Implicit Types (l : Layout) (w : World H) (a : Z).

(** The page source returns multiples of [a] only. *)
Definition source_aligned a : Prop :=
  forall n w p w', request_pages n w = Done p w' -> (a | p).

(** A request whose padded size is a multiple of [a], served with the
    cursor at a multiple of [a], gets a multiple of [a] and leaves the
    cursor at one. *)
Lemma alloc_Done_aligned a l w addr w' :
  valid l -> source_aligned a -> (a | padded_size l) -> (a | next (inner w)) ->
  InnerAlloc.alloc l w = Done addr w' ->
  (a | addr) /\ (a | next (inner w')).
Proof.
  intros Hl Hsrc Hsz Hcur E. apply alloc_Done_inv in E; [|exact Hl].
  destruct E as [(_ & -> & ->) | (n & w1 & (_ & _ & Hrp) & _ & ->)]; simpl.
  - split; [exact Hcur | now apply Z.divide_add_r].
  - apply Hsrc in Hrp. split; [exact Hrp | now apply Z.divide_add_r].
Qed.

(** The padded size of a request is a multiple of its alignment. *)
Lemma align_divides_padded l : valid l -> (align l | padded_size l).
Proof.
  intros Hl. pose proof (valid_align_pos l Hl).
  apply Z.mod_divide; [lia | now apply padded_size_aligned].
Qed.

(** The outcome of [alloc] depends on the padded size of the request and on
    nothing else of it: the alignment asked for has no other effect. *)
Theorem alloc_ignores_align l1 l2 w :
  valid l1 -> valid l2 -> padded_size l1 = padded_size l2 ->
  InnerAlloc.alloc l1 w = InnerAlloc.alloc l2 w.
Proof.
  intros H1 H2 Hsz. symmetry. apply alloc_complete; [exact H2|].
  destruct (alloc_cases l1 w H1); rewrite Hsz in *;
    [ apply alloc_fits | apply alloc_end_overflows | apply alloc_pages_overflow
    | eapply alloc_source_panics | eapply alloc_source_refuses
    | eapply alloc_limit_overflows | eapply alloc_grows ]; eauto.
Qed.

(** C12. The address of a served request is aligned as the request asked in
    two cases and in no other: the request did not fit the headroom, and
    was served at the base of new pages; or the cursor was aligned
    already.  Nothing in [alloc] moves the cursor up to the alignment: a
    request served from the headroom is served at the cursor, wherever it
    is. *)
Theorem alloc_aligned_iff l w addr w' :
  valid l -> source_aligned (align l) ->
  InnerAlloc.alloc l w = Done addr w' ->
  (well_aligned l addr = true <->
   headroom (inner w) < padded_size l \/ (align l | next (inner w))).
Proof.
  intros Hl Hsrc E. pose proof (valid_align_pos l Hl) as Ha.
  unfold well_aligned, headroom. rewrite aligned_spec, Z.mod_divide by lia.
  apply alloc_Done_inv in E; [|exact Hl].
  destruct E as [(Hfits & -> & _) | (n & w1 & (Hroom & _ & Hrp) & _)].
  - split; [auto | intros [? | ?]; [lia | assumption]].
  - apply Hsrc in Hrp. split; [left; lia | auto].
Qed.

(** ** Requests the allocator cannot tell apart

    Two requests with the same padded size.  The relation is a partial
    equivalence on layouts (the layouts [from_size_align] accepts are
    those related to themselves), and [alloc] and [run] respect it. *)

Definition same_padded l1 l2 : Prop :=
  valid l1 /\ valid l2 /\ padded_size l1 = padded_size l2.

#[export] Instance same_padded_PER : RelationClasses.PER same_padded.
Proof.
  split; [intros l1 l2 (? & ? & ?) | intros l1 l2 l3 (? & ? & ?) (? & ? & ?)];
    repeat split; congruence.
Qed.

#[export] Instance alloc_Proper : Proper (same_padded ==> eq ==> eq) (InnerAlloc.alloc (H := H)).
Proof. intros l1 l2 (H1 & H2 & Hsz) w _ <-. now apply alloc_ignores_align. Qed.

#[export] Instance block_of_Proper :
  Proper (same_padded ==> eq ==> eq) InnerAlloc.block_of.
Proof. intros l1 l2 (_ & _ & Hsz) a _ <-. unfold InnerAlloc.block_of. now rewrite Hsz. Qed.

#[export] Instance run_Proper : Proper (Forall2 same_padded ==> eq ==> eq) (run (H := H)).
Proof.
  intros ls1 ls2 Hls w _ <-. revert w.
  induction Hls as [|l1 l2 ls1 ls2 Hl _ IH]; intros w; [reflexivity|].
  cbn [run]. rewrite Hl. destruct (InnerAlloc.alloc l2 w) as [a w1 | w1 |]; auto.
  unfold bind, ret. now rewrite IH, (block_of_Proper l1 l2 Hl a a eq_refl).
Qed.

(** The request for the padded size with no alignment at all. *)
Definition unaligned l : Layout := mkLayout (padded_size l) 1.

Lemma unaligned_same l : valid l -> same_padded l (unaligned l).
Proof.
  intros Hl. pose proof (padded_size_in_usize l Hl) as Hsz. pose proof usize_MAX_ge.
  split; [exact Hl|]. split.
  - apply valid_intro; [exact Hsz | unfold in_usize; lia | reflexivity | unfold in_usize in Hsz; lia].
  - unfold unaligned, padded_size at 2. cbn [size align]. unfold round_up, ceil_div.
    rewrite Z.div_1_r. lia.
Qed.

(** The allocator serves a run of requests as it serves their padded sizes
    with no alignment: what a request asks for beyond its size is lost on
    it. *)
Theorem run_unaligned ls w : Forall valid ls -> run ls w = run (map unaligned ls) w.
Proof.
  intros Hls. apply run_Proper; [|reflexivity].
  induction Hls; constructor; auto using unaligned_same.
Qed.

End Align.

Section AlignLaws.
Context {U : Usize} {H : Type} {PS : PageSource H} {L : PageSourceLaws H}.
Implicit Types (l : Layout) (w : World H) (a : Z).

(** Along a run of requests whose padded sizes are multiples of [a], from a
    cursor at a multiple of [a], every block starts at a multiple of [a]. *)
Lemma run_aligned a ls : forall w bs w',
  Forall valid ls -> Forall (fun l => (a | padded_size l)) ls ->
  source_aligned a -> world_ok w -> (a | next (inner w)) ->
  run ls w = Done bs w' ->
  Forall (fun b => (a | start b)) bs.
Proof.
  induction ls as [|l ls IH]; intros w bs w' Hls Hsz Hsrc Hok Hcur E.
  - inv E. constructor.
  - inv Hls. inv Hsz. apply run_cons_inv in E.
    destruct E as [(addr & w1 & bs1 & Ha & Hr & ->) | (w1 & Ha & Hr)].
    + destruct (alloc_Done_aligned a l w addr w1) as [Haddr Hcur1]; try assumption.
      constructor; [exact Haddr|].
      apply (IH w1 bs1 w'); eauto using alloc_Done_ok.
    + destruct (alloc_Failed_ok l w w1 H2 Hok Ha) as [Hok1 Hin].
      apply (IH w1 bs w'); auto. now rewrite Hin.
Qed.

(** C29. When every request of a run has the alignment [a] and the page source
    returns multiples of [a], every block handed out is aligned as its
    request asked. *)
Theorem run_uniform_aligned a ls w bs w' :
  Forall valid ls -> Forall (fun l => align l = a) ls ->
  source_aligned a -> world_ok w -> (a | next (inner w)) ->
  run ls w = Done bs w' ->
  Forall (fun b => (a | start b)) bs.
Proof.
  intros Hls Hal. apply run_aligned; [exact Hls|].
  rewrite Forall_forall in *. intros l Hin. rewrite <- (Hal l Hin).
  apply align_divides_padded, Hls, Hin.
Qed.

End AlignLaws.

(** ** On wasm32 *)

Section WasmAlign.
Import Wasm32.
Context {U : Usize}.

(** [memory_grow] returns a number of pages: the base of the new pages is a
    multiple of every alignment that divides the page size. *)
Lemma wasm_source_aligned a : (a | PAGE_SIZE) -> source_aligned a.
Proof.
  intros Ha n w p w' E. change (Wasm32.request_pages n w = Done p w') in E.
  unfold Wasm32.request_pages, memory_grow, bind, fail, try_opt in E.
  repeat case_hyp E; try discriminate; inv E.
  all: match goal with Hm : checked_mul _ _ = Some _ |- _ =>
         apply checked_mul_Some in Hm; destruct Hm as [-> _] end.
  all: now apply Z.divide_mul_r.
Qed.

End WasmAlign.

(** ** A misaligned pointer

    On the 32-bit target, in a module that starts with 17 pages: a byte,
    then a [u16]. *)

Section Misaligned.
#[local] Existing Instance usize32.
Import Wasm32.

Definition byte_then_u16 : list Call := [CallAlloc (mkLayout 1 1); CallAlloc (mkLayout 2 2)].

(** The [u16] is served at the odd address after the byte: the pointer
    [GlobalAlloc::alloc] returns is not aligned to the alignment asked
    for. *)
Example byte_then_u16_misaligned :
  exists w', serve byte_then_u16 w_boot =
               Done [mkBlock 1114112 1; mkBlock 1114113 2] w' /\
             well_aligned (mkLayout 2 2) 1114113 = false.
Proof. eexists. split; vm_compute; reflexivity. Qed.

(** The state after the byte. *)
Definition w_byte : World Memory :=
  mkWorld (mkInnerAlloc 1114113 1179648) (mkMemory 18 65536).

Lemma alloc_aligned_iff_witness :
  well_aligned (mkLayout 2 2) 1114113 = true <->
  headroom (inner w_byte) < padded_size (mkLayout 2 2) \/ (2 | next (inner w_byte)).
Proof.
  apply (alloc_aligned_iff (mkLayout 2 2) w_byte 1114113
           (mkWorld (mkInnerAlloc 1114115 1179648) (mkMemory 18 65536)));
    [reflexivity | apply wasm_source_aligned; exists 32768; reflexivity | reflexivity].
Defined.

Lemma alloc_ignores_align_witness :
  InnerAlloc.alloc (mkLayout 8 8) w_boot = InnerAlloc.alloc (mkLayout 8 1) w_boot.
Proof.
  apply (alloc_ignores_align (mkLayout 8 8) (mkLayout 8 1) w_boot); reflexivity.
Defined.

Lemma run_uniform_aligned_witness :
  Forall (fun b => (8 | start b)) [mkBlock 1114112 24; mkBlock 1114136 8].
Proof.
  apply (run_uniform_aligned 8 [mkLayout 20 8; mkLayout 8 8] w_boot
           [mkBlock 1114112 24; mkBlock 1114136 8]
           (mkWorld (mkInnerAlloc 1114144 1179648) (mkMemory 18 65536))).
  - repeat constructor.
  - repeat constructor.
  - apply wasm_source_aligned. exists 8192. reflexivity.
  - apply started_ok, w_boot_started.
  - exists 0. reflexivity.
  - vm_compute. reflexivity.
Defined.

End Misaligned.
