(* ===== verification/Contract.v ===== *)
(** * Contract: what [GlobalAlloc] promises its clients

    The contract of a global allocator as an abstract machine.  Its state is
    the ledger of the blocks the clients own, a finite map from base address
    to size; a request is answered with the null pointer or with the base of
    a block that overlaps nothing in the ledger; a free takes the block out
    of the ledger.  The machine is parametrised by what else is asked of an
    address: to lie in the address space, to be aligned.

    The theorems: [impl GlobalAlloc for BumpAllocator] refines the contract
    without alignment (a forward simulation, the blocks owned all ending at
    or below the cursor), for every page source that obeys the laws; and it
    does not refine the contract with alignment. *)

From stdpp Require Import base gmap.
From Stdlib Require Import ZArith Lia List.
From S2P Require Import Prelude Usize Layout State PageSource Bump Trace GlobalAlloc.
From S2P Require Import WasmAlloc Align.
Import ListNotations.
#[local] Open Scope Z_scope.
#[local] Open Scope rs_scope.

(** The blocks the clients own: base address to size. *)
Abbreviation Ledger := (gmap Z Z).

(** ** The calls of a client, one by one *)

Section Calls.
Context {U : Usize} {H : Type} {PS : PageSource H}.
#[local] Existing Instance BumpAllocator.global_alloc.

(** One call of the trait and its answer: the pointer for a request,
    nothing for a free. *)
Definition call (c : Call) : M (World H) (option Z) :=
  match c with
  | CallAlloc l => ptr <- ga_alloc mkBumpAllocator l ;; ret (Some ptr)
  | CallAllocZeroed l => ptr <- ga_alloc_zeroed mkBumpAllocator l ;; ret (Some ptr)
  | CallDealloc ptr l => ga_dealloc mkBumpAllocator ptr l ;; ret None
  end.

(** The answers to a client's calls, in order. *)
Fixpoint answers (cs : list Call) : M (World H) (list (option Z)) :=
  match cs with
  | [] => ret []
  | c :: rest => r <- call c ;; rs <- answers rest ;; ret (r :: rs)
  end.

End Calls.

(** The layout a call asks memory for. *)
Definition request (c : Call) : option Layout :=
  match c with
  | CallAlloc l | CallAllocZeroed l => Some l
  | CallDealloc _ _ => None
  end.

(** ** The abstract machine *)

(** The block [b] overlaps nothing in the ledger. *)
Definition free_in (σ : Ledger) (b : Block) : Prop :=
  map_Forall (fun p n => disjoint (mkBlock p n) b) σ.

Section Machine.
Variable acceptable : Layout -> Z -> Prop.

(** One call and the answers the contract allows. *)
Inductive contract_step : Ledger -> Call -> option Z -> Ledger -> Prop :=
| contract_fail σ c l :
    request c = Some l ->
    contract_step σ c (Some null_mut) σ
| contract_serve σ c l ptr :
    request c = Some l -> ptr <> null_mut -> acceptable l ptr ->
    free_in σ (mkBlock ptr (size l)) ->
    contract_step σ c (Some ptr) (<[ptr := size l]> σ)
| contract_free σ ptr l :
    contract_step σ (CallDealloc ptr l) None (delete ptr σ).

(** A sequence of calls. *)
Inductive contract_run : Ledger -> list Call -> list (option Z) -> Ledger -> Prop :=
| contract_nil σ : contract_run σ [] [] σ
| contract_cons σ c r σ' cs rs σ'' :
    contract_step σ c r σ' -> contract_run σ' cs rs σ'' ->
    contract_run σ (c :: cs) (r :: rs) σ''.

End Machine.

(** The block lies in the address space. *)
Definition addressable {U : Usize} (l : Layout) (ptr : Z) : Prop :=
  0 <= ptr /\ ptr + size l <= usize_MAX.

(** And its base is aligned as the layout asks. *)
Definition aligned_addressable {U : Usize} (l : Layout) (ptr : Z) : Prop :=
  addressable l ptr /\ (align l | ptr).

(** ** The simulation *)

Section Simulation.
Context {U : Usize} {H : Type} {PS : PageSource H} {L : PageSourceLaws H}.
Implicit Types (w : World H) (σ : Ledger) (c : Call) (l : Layout).

(** Every block owned is in the address space and ends at or below the
    cursor. *)
Definition owned_below w σ : Prop :=
  map_Forall (fun p n => 0 <= p /\ 0 <= n /\ p + n <= next (inner w)) σ.

(** The relation between the allocator and the ledger. *)
Definition sim w σ : Prop := world_ok w /\ owned_below w σ.

Lemma owned_below_mono w w' σ :
  next (inner w) <= next (inner w') -> owned_below w σ -> owned_below w' σ.
Proof.
  intros Hle Hb. eapply map_Forall_impl; [exact Hb|]. cbn beta. intros p n ?. lia.
Qed.

(** What is at or above the cursor is free. *)
Lemma owned_below_free w σ b :
  owned_below w σ -> next (inner w) <= start b -> free_in σ b.
Proof.
  intros Hb Hlo. eapply map_Forall_impl; [exact Hb|]. intros p n (_ & ? & ?).
  apply before_disjoint. unfold block_end. cbn [start len]. lia.
Qed.

Lemma sim_empty h : granted 0 h -> sim (INNER h) ∅.
Proof. intros Hg. split; [split; [apply new_wf | exact Hg] | apply map_Forall_empty]. Qed.

(** A call is a call of the adapter's [alloc], or does nothing. *)
Lemma call_inv c w r w' :
  call c w = Done r w' ->
  match request c with
  | Some l => exists ptr, r = Some ptr /\
                BumpAllocator.alloc mkBumpAllocator l w = Done ptr w'
  | None => r = None /\ w' = w
  end.
Proof.
  destruct c as [l | l | ptr l]; cbn; unfold bind, ret, BumpAllocator.alloc_zeroed;
    [| | intros E; inv E; auto].
  all: destruct (BumpAllocator.alloc _ l w) as [ptr w1 | |]; try discriminate;
    intros E; inv E; eauto.
Qed.

(** A request the allocator answers with an address. *)
Lemma served_simulates l w σ ptr w' :
  valid l -> sim w σ -> ptr <> null_mut ->
  BumpAllocator.alloc mkBumpAllocator l w = Done ptr w' ->
  addressable l ptr /\ free_in σ (mkBlock ptr (size l)) /\
  sim w' (<[ptr := size l]> σ).
Proof.
  intros Hl [Hok Hb] Hnn E.
  destruct (alloc_nonnull_fresh _ l w ptr w' Hl Hok E Hnn) as (Hlo & Hhi & Hlim & Hok').
  pose proof (padded_size_ge l Hl). destruct (valid_inv l Hl) as ([Hs0 _] & _).
  destruct Hok as [(Hcur & _) _]. pose proof Hok' as [(_ & _ & Hmax) _].
  split; [split; lia|]. split; [now apply (owned_below_free w)|]. split; [exact Hok'|].
  apply map_Forall_insert_2; [lia|].
  apply (owned_below_mono w); [lia | exact Hb].
Qed.

(** A request the allocator answers with the null pointer. *)
Lemma failed_simulates l w σ ptr w' :
  valid l -> sim w σ ->
  BumpAllocator.alloc mkBumpAllocator l w = Done ptr w' -> sim w' σ.
Proof.
  intros Hl [Hok Hb] E. apply alloc_state in E.
  destruct (alloc_monotone l w w' Hl Hok E) as [Hmono _].
  split; [eapply alloc_keeps_ok; eauto | now apply (owned_below_mono w)].
Qed.

(** Every call of the adapter is a step of the contract. *)
Lemma call_simulates c w σ r w' :
  valid (call_layout c) -> sim w σ -> call c w = Done r w' ->
  exists σ', contract_step addressable σ c r σ' /\ sim w' σ'.
Proof.
  intros Hl Hsim E. apply call_inv in E.
  destruct (request c) as [l|] eqn:Hc.
  - assert (call_layout c = l) as Hl' by (destruct c; inv Hc; reflexivity).
    rewrite Hl' in Hl. destruct E as (ptr & -> & E).
    destruct (Z.eq_dec ptr null_mut) as [-> | Hnn].
    + exists σ. split; [now apply contract_fail with l | eapply failed_simulates; eauto].
    + destruct (served_simulates l w σ ptr w' Hl Hsim Hnn E) as (Ha & Hf & Hs).
      exists (<[ptr := size l]> σ). split; [now apply contract_serve | exact Hs].
  - destruct c as [| | ptr l]; try discriminate. destruct E as [-> ->].
    exists (delete ptr σ). split; [constructor|].
    destruct Hsim as [Hok Hb]. split; [exact Hok | now apply map_Forall_delete].
Qed.

(** C11. The adapter refines the contract: whatever a client calls, in whatever
    order, the answers it gets are answers the contract allows, from a
    ledger of blocks that all end at or below the cursor. *)
Theorem answers_refine_contract cs : forall w σ rs w',
  Forall (fun c => valid (call_layout c)) cs -> sim w σ ->
  answers cs w = Done rs w' ->
  exists σ', contract_run addressable σ cs rs σ' /\ sim w' σ'.
Proof.
  induction cs as [|c cs IH]; intros w σ rs w' Hcs Hsim E.
  - inv E. exists σ. split; [constructor | exact Hsim].
  - apply Forall_cons_iff in Hcs. destruct Hcs as [Hc Hcs]. cbn [answers] in E.
    apply bind_Done_inv in E. destruct E as (r & w1 & Hcall & E).
    apply bind_Done_inv in E. destruct E as (rs1 & w2 & Hrest & E). inv E.
    destruct (call_simulates c w σ r w1 Hc Hsim Hcall) as (σ1 & Hstep & Hsim1).
    destruct (IH w1 σ1 rs1 w' Hcs Hsim1 Hrest) as (σ' & Hrun & Hsim').
    exists σ'. split; [econstructor; eauto | exact Hsim'].
Qed.

End Simulation.

(** ** The contract with alignment

    On the 32-bit target, in a module that starts with 17 pages: the
    answers to a byte and then a [u16] are not answers the contract with
    alignment allows. *)

Section Aligned.
#[local] Existing Instance usize32.
Import Wasm32.

(** C13. The [u16] is answered with an odd address, which the contract with
    alignment allows for no ledger. *)
Example aligned_contract_broken :
  exists w', answers byte_then_u16 w_boot = Done [Some 1114112; Some 1114113] w' /\
    forall σ σ', ~ contract_run aligned_addressable σ byte_then_u16
                     [Some 1114112; Some 1114113] σ'.
Proof.
  eexists. split; [vm_compute; reflexivity|].
  intros σ σ' Hrun. inv Hrun.
  match goal with Hr : contract_run _ _ [_] [_] _ |- _ => inv Hr end.
  match goal with Hs : contract_step _ _ (CallAlloc (mkLayout 2 2)) _ _ |- _ => inv Hs end.
  match goal with Hr : request _ = Some ?l, Ha : aligned_addressable ?l _ |- _ =>
    inv Hr; destruct Ha as [_ [k Hk]] end.
  cbn [align] in Hk. lia.
Qed.

End Aligned.

(** ** The refinement at a concrete client (64-bit host, test stub) *)

Section Witnesses.
#[local] Existing Instance usize64.
Import TestStub.

Lemma answers_refine_contract_witness :
  exists σ', contract_run addressable ∅ client [Some 65535; None; Some 65536] σ' /\
             sim (mkWorld (mkInnerAlloc 65538 131072) tt) σ'.
Proof.
  apply (answers_refine_contract client w_one_byte_left ∅ [Some 65535; None; Some 65536]
           (mkWorld (mkInnerAlloc 65538 131072) tt)).
  - repeat constructor.
  - split; [apply w_one_byte_left_ok | apply map_Forall_empty].
  - vm_compute. reflexivity.
Defined.

End Witnesses.
