(* ===== verification/Zeroed.v ===== *)
(** * Zeroed: why [alloc_zeroed] may be [alloc]

    [alloc_zeroed] returns what [alloc] returns and writes nothing: the
    source says that a new page in Wasm is already zero.  That is half of
    the argument; the other half is that no byte of a block was ever
    written before the block is handed out.  This file has both.  A
    process is the allocator, the ledger of blocks its client owns, and the
    bytes of the linear memory that are not zero.  Three things happen in
    it: the client calls the allocator; a byte is stored, anywhere in the
    memory but in the room the allocator has left between [next] and
    [upper_limit] (so in the program's data, in a block owned or freed, in
    a page somebody else asked the host for); and somebody else than the
    allocator grows the memory.  The theorems: in every state such a
    process reaches, every byte of a block the allocator hands out is
    zero, and the block lies above the memory the process started with.
    The conditions on the steps of the process are none on a client in
    safe Rust: every call it makes is a step, with the answer the
    allocator gives, and so is every store to the program's data and to a
    block it owns ([client_ops_are_steps]).  The
    theorems are proved against [LinearSource], hence for the Wasm memory with
    a host that refuses at the limit only and with one that refuses when
    it pleases. *)

From stdpp Require Import base gmap.
From Stdlib Require Import ZArith Lia List.
From S2P Require Import Prelude Usize Layout State PageSource Bump Trace GlobalAlloc.
From S2P Require Import WasmAlloc WasmHost Linear Contract.
#[local] Open Scope Z_scope.

(** The bytes of the memory that are not zero, by address. *)
Abbreviation Bytes := (gmap Z Z).

Definition read (bs : Bytes) (a : Z) : Z := default 0 (bs !! a).

Definition write (a v : Z) (bs : Bytes) : Bytes :=
  if v =? 0 then delete a bs else <[a := v]> bs.

(** What happens in the instance: the client calls the allocator, somebody
    stores the byte [v] at the address [a], or somebody else than the
    allocator grows the memory. *)
Inductive Op : Type :=
| OpCall (c : Call)
| OpStore (a v : Z)
| OpGrow.

(** The allocator with its memory, the blocks the client owns, and the
    contents of the memory. *)
Record Process (H : Type) : Type := mkProcess {
  world : World H;
  ledger : Ledger;
  bytes : Bytes
}.

Arguments mkProcess {H} world ledger bytes.
Arguments world {H} p.
Arguments ledger {H} p.
Arguments bytes {H} p.

Section Process.
Context {U : Usize} {H : Type} {PS : PageSource H} {L : PageSourceLaws H}.
Context {LS : LinearSource H}.
Implicit Types (P : Process H) (w : World H) (σ : Ledger) (l : Layout).

(** The room the allocator has left: from the cursor to the limit. *)
Definition unclaimed w (a : Z) : Prop :=
  next (inner w) <= a < upper_limit (inner w).

(** A store goes to the memory there is, anywhere but into the room the
    allocator has left: to the program's data, to a block handed out,
    owned or freed, or to pages somebody else asked the host for. *)
Definition may_store w (a : Z) : Prop :=
  0 <= a < mem_size (host w) /\ ~ unclaimed w a.

(** One operation and the allocator's answer to it. *)
Inductive proc_step : Process H -> Op -> option Z -> Process H -> Prop :=
| proc_call P c r w' σ' :
    valid (call_layout c) ->
    call c (world P) = Done r w' ->
    contract_step addressable (ledger P) c r σ' ->
    proc_step P (OpCall c) r (mkProcess w' σ' (bytes P))
| proc_store P a v :
    may_store (world P) a ->
    proc_step P (OpStore a v) None
              (mkProcess (world P) (ledger P) (write a v (bytes P)))
| proc_grow P g :
    grows_only g ->
    proc_step P OpGrow None
              (mkProcess (move_host g (world P)) (ledger P) (bytes P)).

(** Zero or more operations. *)
Inductive proc_steps : Process H -> Process H -> Prop :=
| proc_refl P : proc_steps P P
| proc_cons P op r P' P'' :
    proc_step P op r P' -> proc_steps P' P'' -> proc_steps P P''.

(** The invariant: the ledger is below the cursor, and every byte that is
    not zero is where a store may go. *)
Definition proc_ok P : Prop :=
  sim (world P) (ledger P) /\ map_Forall (fun a _ => may_store (world P) a) (bytes P).

(** The process as it starts: the allocator is [INNER], the client owns
    nothing, and nothing is above the memory. *)
Definition booted P : Prop :=
  world P = INNER (host (world P)) /\ ledger P = ∅ /\
  granted 0 (host (world P)) /\
  map_Forall (fun a _ => 0 <= a < mem_size (host (world P))) (bytes P).

(** ** Where a store may go, and where a block comes from *)

(** A call takes no address from where a store may go. *)
Lemma alloc_keeps_may_store l w w' a :
  valid l -> world_ok w -> state_of (InnerAlloc.alloc l w) = Some w' ->
  may_store w a -> may_store w' a.
Proof.
  intros Hl Hok E [Ha Hun]. pose proof (alloc_grows_memory l w w' Hl Hok E) as Hmem.
  pose proof (padded_size_nonneg l Hl). split; [lia|]. unfold unclaimed in *.
  destruct (InnerAlloc.alloc l w) as [addr w1 | w1 |] eqn:Hc; inv E.
  - apply alloc_Done_inv in Hc; [|exact Hl].
    destruct Hc as [(_ & -> & ->) | (n & w1 & Hg & _ & ->)];
      unfold grown; autorewrite with bump_rw; cbn [next upper_limit]; [lia|].
    rewrite (grew_at_end l w n addr w1 Hok Hg). lia.
  - destruct (alloc_Failed_ok l w w' Hl Hok Hc) as [_ Hin]. now rewrite Hin.
Qed.

(** No store may have gone to a block that is handed out: it comes from the
    room the allocator had left, or from above the memory there was. *)
Lemma served_unwritten l w addr w' a :
  valid l -> world_ok w -> InnerAlloc.alloc l w = Done addr w' ->
  addr <= a < addr + padded_size l -> ~ may_store w a.
Proof.
  intros Hl Hok E Ha [Hin Hun]. apply Hun. unfold unclaimed.
  apply alloc_Done_inv in E; [|exact Hl].
  destruct E as [(Hroom & -> & _) | (n & w1 & Hg & _)]; [lia|].
  rewrite (grew_at_end l w n addr w1 Hok Hg) in Ha. lia.
Qed.

(** Somebody else growing the memory takes no address either. *)
Lemma grow_keeps_may_store g w a :
  grows_only g -> may_store w a -> may_store (move_host g w) a.
Proof. intros [_ Hg] [Ha Hun]. split; [cbn; specialize (Hg (host w)); lia | exact Hun]. Qed.

(** Nor does any call of the trait. *)
Lemma call_keeps_may_store c w r w' a :
  valid (call_layout c) -> world_ok w -> call c w = Done r w' ->
  may_store w a -> may_store w' a.
Proof.
  intros Hl Hok E Ha. apply call_inv in E.
  destruct c as [l | l | ptr l]; cbn [request call_layout] in *;
    [| | destruct E as [_ ->]; exact Ha].
  all: destruct E as (ptr & _ & E); apply alloc_state in E;
    now apply (alloc_keeps_may_store l w).
Qed.

(** The client's own stores: into a block it owns. *)
Lemma owned_may_store P p n a :
  proc_ok P -> ledger P !! p = Some n -> p <= a < p + n -> may_store (world P) a.
Proof.
  intros [[Hok Hled] _] Hp Ha. apply (map_Forall_lookup_1 _ _ _ _ Hled) in Hp.
  pose proof (world_inside _ Hok). destruct Hok as [(_ & Hle & _) _].
  unfold may_store, unclaimed. lia.
Qed.

(** ** Every operation keeps the invariant *)

Lemma request_keeps_ok P l ptr w' σ' :
  valid l -> proc_ok P ->
  BumpAllocator.alloc mkBumpAllocator l (world P) = Done ptr w' ->
  sim w' σ' -> proc_ok (mkProcess w' σ' (bytes P)).
Proof.
  intros Hl ([Hok Hled] & Hbytes) E Hsim. apply alloc_state in E.
  split; [exact Hsim|]. eapply map_Forall_impl; [exact Hbytes|]. cbn beta.
  intros a _. now apply (alloc_keeps_may_store l).
Qed.

Lemma call_keeps_ok P c r w' σ' :
  valid (call_layout c) -> proc_ok P ->
  call c (world P) = Done r w' -> contract_step addressable (ledger P) c r σ' ->
  proc_ok (mkProcess w' σ' (bytes P)).
Proof.
  intros Hl HP E Hstep. pose proof HP as (Hsim & Hrest). apply call_inv in E.
  inversion Hstep as [σ1 c1 l Hc | σ1 c1 l ptr Hc Hnn _ _ | σ1 ptr l]; subst.
  1,2: assert (call_layout c = l) as Hcl by (destruct c; inv Hc; reflexivity);
    rewrite Hcl in Hl; rewrite Hc in E; destruct E as (ptr' & [= <-] & E).
  - eapply request_keeps_ok; eauto using failed_simulates.
  - eapply request_keeps_ok; eauto. now apply (served_simulates l (world P)).
  - cbn in E. destruct E as [_ ->]. destruct Hsim as [Hok Hled].
    split; [split; [exact Hok | now apply map_Forall_delete] | exact Hrest].
Qed.

Lemma store_keeps_ok P a v :
  proc_ok P -> may_store (world P) a ->
  proc_ok (mkProcess (world P) (ledger P) (write a v (bytes P))).
Proof.
  intros (Hsim & Hbytes) Hst. split; [exact Hsim|]. cbn [world ledger bytes].
  unfold write. destruct (v =? 0); [now apply map_Forall_delete|].
  now apply map_Forall_insert_2.
Qed.

Lemma grow_keeps_ok P g :
  proc_ok P -> grows_only g ->
  proc_ok (mkProcess (move_host g (world P)) (ledger P) (bytes P)).
Proof.
  intros ([Hok Hled] & Hbytes) Hg.
  split; [split; [apply move_host_ok; [apply Hg | exact Hok] | exact Hled]|].
  eapply map_Forall_impl; [exact Hbytes|]. cbn beta. intros a _.
  now apply grow_keeps_may_store.
Qed.

Lemma proc_step_ok P op r P' : proc_ok P -> proc_step P op r P' -> proc_ok P'.
Proof.
  intros HP Hs. inv Hs; eauto using call_keeps_ok, store_keeps_ok, grow_keeps_ok.
Qed.

Lemma proc_steps_ok P P' : proc_ok P -> proc_steps P P' -> proc_ok P'.
Proof. intros HP Hs. induction Hs; eauto using proc_step_ok. Qed.

(** Where a store may go, a store may go ever after: the allocator never
    takes an address back, be it of the program's data, of a block, or of
    a page of somebody else. *)
Lemma proc_steps_may_store P P' a :
  proc_ok P -> proc_steps P P' -> may_store (world P) a -> may_store (world P') a.
Proof.
  intros HP Hs. induction Hs as [|P op r P' P'' Hs _ IH]; [auto|].
  intros Ha. apply IH; [eapply proc_step_ok; eauto|]. destruct HP as [[Hok _] _].
  inv Hs; cbn [world]; eauto using call_keeps_may_store, grow_keeps_may_store.
Qed.

Lemma booted_ok P : booted P -> proc_ok P.
Proof.
  intros (Hw & Hl & Hg & Hbytes). unfold proc_ok. rewrite Hw, Hl.
  split; [now apply sim_empty|]. eapply map_Forall_impl; [exact Hbytes|].
  unfold may_store, unclaimed. cbn. intros a _ ?. lia.
Qed.

(** At the start a store may go anywhere in the memory. *)
Lemma booted_may_store P a :
  booted P -> 0 <= a < mem_size (host (world P)) -> may_store (world P) a.
Proof.
  intros (Hw & _) Ha. split; [exact Ha|]. unfold unclaimed. rewrite Hw. cbn. lia.
Qed.

(** What a client in safe Rust stores to: the data and the stack the
    program started with, and the blocks it owns. *)
Definition client_store (P0 P : Process H) (a : Z) : Prop :=
  0 <= a < mem_size (host (world P0)) \/
  exists p n, ledger P !! p = Some n /\ p <= a < p + n.

(** Such a store is one that may go where it goes. *)
Lemma client_may_store P0 P a :
  booted P0 -> proc_steps P0 P -> client_store P0 P a -> may_store (world P) a.
Proof.
  intros H0 Hs [Ha | (p & n & Hp & Ha)].
  - eauto using proc_steps_may_store, booted_ok, booted_may_store.
  - eapply owned_may_store; eauto using proc_steps_ok, booted_ok.
Qed.

(** What the client does next: it calls the allocator with a layout, or
    stores a byte to its data or to a block it owns.  Nothing here names a
    field of the allocator. *)
Definition client_op (P0 P : Process H) (op : Op) : Prop :=
  match op with
  | OpCall c => valid (call_layout c)
  | OpStore a _ => client_store P0 P a
  | OpGrow => False
  end.

(** A call returns an answer. *)
Lemma call_returns c w : valid (call_layout c) -> exists r w', call c w = Done r w'.
Proof.
  intros Hl. destruct c as [l | l | ptr l]; cbn [call call_layout] in *;
    [| | cbn; eauto].
  all: cbn; unfold bind, ret, BumpAllocator.alloc_zeroed, BumpAllocator.alloc;
    pose proof (alloc_no_panic l w Hl rp_returns);
    destruct (InnerAlloc.alloc l w); eauto; congruence.
Qed.

(** C16. The conditions of [proc_step] take nothing from a client: in every
    state the process reaches, every call is a step, with the answer the
    allocator gives (the contract allows it from the blocks the client
    owns), and so is every store to the client's data or to a block it
    owns (it goes nowhere into the room the allocator has left). *)
Theorem client_ops_are_steps P0 P op :
  booted P0 -> proc_steps P0 P -> client_op P0 P op ->
  exists r P', proc_step P op r P'.
Proof.
  intros H0 Hs Hop. pose proof (proc_steps_ok P0 P (booted_ok P0 H0) Hs) as [Hsim _].
  destruct op as [c | a v |]; cbn [client_op] in Hop; [| |contradiction].
  - destruct (call_returns c (world P) Hop) as (r & w' & E).
    destruct (call_simulates c (world P) (ledger P) r w' Hop Hsim E) as (σ' & Hstep & _).
    exists r, (mkProcess w' σ' (bytes P)). now apply proc_call.
  - exists None. eexists. apply proc_store. eapply client_may_store; eauto.
Qed.

(** ** The blocks handed out are zero *)

(** A byte no store may have gone to is zero. *)
Lemma read_unwritten P a : proc_ok P -> ~ may_store (world P) a -> read (bytes P) a = 0.
Proof.
  intros [_ Hbytes] Hun. unfold read. destruct (bytes P !! a) as [v|] eqn:Hv; [|reflexivity].
  now apply (map_Forall_lookup_1 _ _ _ _ Hbytes) in Hv.
Qed.

(** What a served request of the trait is over the inner allocator. *)
Lemma proc_call_inv P c l ptr P' :
  proc_step P (OpCall c) (Some ptr) P' -> request c = Some l -> ptr <> null_mut ->
  valid l /\ InnerAlloc.alloc l (world P) = Done ptr (world P').
Proof.
  intros Hs Hc Hnn. inversion Hs as [P1 c1 r1 w' σ' Hl E Hstep | |]; subst. cbn [world].
  assert (call_layout c = l) as Hcl by (destruct c; inv Hc; reflexivity).
  rewrite Hcl in Hl. apply call_inv in E. rewrite Hc in E.
  destruct E as (ptr' & [= <-] & E). split; [exact Hl | now apply alloc_nonnull_inv in E].
Qed.

(** No store may have gone to a byte of a block that is handed out. *)
Lemma served_fresh P c l ptr P' a :
  proc_ok P -> proc_step P (OpCall c) (Some ptr) P' ->
  request c = Some l -> ptr <> null_mut -> ptr <= a < ptr + size l ->
  ~ may_store (world P) a.
Proof.
  intros [[Hok _] _] Hs Hc Hnn Ha. destruct (proc_call_inv P c l ptr P' Hs Hc Hnn) as [Hl E].
  pose proof (padded_size_ge l Hl). apply (served_unwritten l _ ptr (world P')); auto. lia.
Qed.

(** In a state that satisfies the invariant, every byte of a block the
    allocator hands out is zero. *)
Lemma served_zero P c l ptr P' a :
  proc_ok P -> proc_step P (OpCall c) (Some ptr) P' ->
  request c = Some l -> ptr <> null_mut -> ptr <= a < ptr + size l ->
  read (bytes P') a = 0.
Proof.
  intros HP Hs Hc Hnn Ha. pose proof (served_fresh P c l ptr P' a HP Hs Hc Hnn Ha) as Hf.
  inversion Hs; subst. cbn [bytes]. now apply read_unwritten.
Qed.

(** C14. [alloc_zeroed] may be [alloc]: whatever has been called, stored
    outside the room the allocator has left, and asked of the host by
    others since the process started, every byte of a block that [alloc]
    or [alloc_zeroed] hands out is zero. *)
Theorem served_blocks_are_zero P0 P c l ptr P' a :
  booted P0 -> proc_steps P0 P ->
  proc_step P (OpCall c) (Some ptr) P' ->
  request c = Some l -> ptr <> null_mut -> ptr <= a < ptr + size l ->
  read (bytes P') a = 0.
Proof. intros H0 Hs. eapply served_zero, proc_steps_ok; eauto using booted_ok. Qed.

(** C15. The blocks lie above the memory the process started with: the
    allocator hands out nothing of the program's data and stack, whatever
    has been called, stored and asked of the host since. *)
Theorem served_above_boot P0 P c l ptr P' a :
  booted P0 -> proc_steps P0 P ->
  proc_step P (OpCall c) (Some ptr) P' ->
  request c = Some l -> ptr <> null_mut -> ptr <= a < ptr + size l ->
  mem_size (host (world P0)) <= a.
Proof.
  intros H0 Hs Hc Hr Hnn Ha. pose proof (booted_ok P0 H0) as HP0.
  pose proof (proc_steps_ok P0 P HP0 Hs) as HP.
  destruct (proc_call_inv P c l ptr P' Hc Hr Hnn) as [Hl E]. destruct HP as [[Hok _] _].
  destruct (alloc_Done_bounds l _ ptr _ Hl Hok E) as (Hlo & _). destruct Hok as [(? & _) _].
  destruct (Z.le_gt_cases (mem_size (host (world P0))) a) as [|Hlt]; [assumption|].
  exfalso. apply (served_fresh P c l ptr P' a); eauto using proc_steps_ok.
  apply (proc_steps_may_store P0 P a HP0 Hs), booted_may_store; [exact H0 | lia].
Qed.

End Process.

(** ** The theorem in a module of 17 pages (32-bit target)

    The program's data has a byte at 100 that is not zero; the client asks
    for eight zeroed bytes. *)

Section Witnesses.
#[local] Existing Instance usize32.
Import Wasm32 WasmHost.

Definition p_boot : Process Memory := mkProcess w_boot ∅ {[100 := 7]}.

Definition p_first : Process Memory :=
  mkProcess (mkWorld (mkInnerAlloc 1114120 1179648) (mkMemory 18 65536))
            {[1114112 := 8]} {[100 := 7]}.

Lemma p_boot_booted : booted p_boot.
Proof.
  split; [reflexivity|]. split; [reflexivity|].
  split; [split; [apply memory_okb_spec; reflexivity | by_compute]|].
  apply map_Forall_singleton. by_compute.
Qed.

(** The answer to the request for eight zeroed bytes, from the ledger [σ]. *)
Lemma serve_eight {H} {PS : PageSource H} {L : PageSourceLaws H} {LS : LinearSource H}
    (P : Process H) ptr w' :
  call (CallAllocZeroed (mkLayout 8 8)) (world P) = Done (Some ptr) w' ->
  ledger P = ∅ -> 0 < ptr <= 4294967287 ->
  proc_step P (OpCall (CallAllocZeroed (mkLayout 8 8))) (Some ptr)
            (mkProcess w' {[ptr := 8]} (bytes P)).
Proof.
  intros E Hled Hp. rewrite <- insert_empty, <- Hled.
  apply proc_call; [reflexivity | exact E|].
  apply (contract_serve addressable _ _ (mkLayout 8 8)); [reflexivity | unfold null_mut; lia | |].
  - split; cbn [size]; change usize_MAX with 4294967295; lia.
  - rewrite Hled. apply map_Forall_empty.
Qed.

Lemma p_boot_first :
  proc_step p_boot (OpCall (CallAllocZeroed (mkLayout 8 8))) (Some 1114112) p_first.
Proof. apply (serve_eight p_boot 1114112); [reflexivity | reflexivity | lia]. Qed.

(** The same module over a host that refuses the first [memory.grow]: the
    first request is answered with the null pointer; then somebody else
    grows the memory by three pages and stores in them; the second request
    is served above those pages. *)
Definition p_boot_host : Process WasmHost.Host := mkProcess w_refusing ∅ {[100 := 7]}.

Definition p_refused : Process WasmHost.Host :=
  mkProcess (WasmHost.with_answers [false] w_boot) ∅ {[100 := 7]}.

Definition p_grown : Process WasmHost.Host :=
  mkProcess (WasmHost.with_answers [false] (mkWorld new (mkMemory 20 65536))) ∅ {[100 := 7]}.

Definition p_stored : Process WasmHost.Host :=
  mkProcess (world p_grown) ∅ (write 1200000 9 {[100 := 7]}).

Definition p_first_host : Process WasmHost.Host :=
  mkProcess (WasmHost.with_answers []
               (mkWorld (mkInnerAlloc 1310728 1376256) (mkMemory 21 65536)))
            {[1310720 := 8]} (bytes p_stored).

Lemma p_boot_host_booted : booted p_boot_host.
Proof.
  split; [reflexivity|]. split; [reflexivity|].
  split; [split; [apply memory_okb_spec; reflexivity | by_compute]|].
  apply map_Forall_singleton. by_compute.
Qed.

Lemma p_boot_host_stored : proc_steps p_boot_host p_stored.
Proof.
  eapply proc_cons; [|eapply proc_cons; [|eapply proc_cons; [|apply proc_refl]]].
  - apply (proc_call p_boot_host (CallAllocZeroed (mkLayout 8 8)) (Some null_mut)
             (world p_refused) ∅); [reflexivity | reflexivity |].
    now apply contract_fail with (mkLayout 8 8).
  - exact (proc_grow p_refused _ (host_foreign_grow_grows_only 3)).
  - apply (proc_store p_grown 1200000 9). split; [by_compute | unfold unclaimed; cbn; lia].
Qed.

Lemma p_stored_first :
  proc_step p_stored (OpCall (CallAllocZeroed (mkLayout 8 8))) (Some 1310720) p_first_host.
Proof. apply (serve_eight p_stored 1310720); [reflexivity | reflexivity | lia]. Qed.

(** The client stores to the block it was given. *)
Lemma client_ops_are_steps_witness :
  exists r P', proc_step p_first (OpStore 1114115 5) r P'.
Proof.
  apply (client_ops_are_steps p_boot p_first (OpStore 1114115 5));
    [ apply p_boot_booted
    | eapply proc_cons; [apply p_boot_first | apply proc_refl]
    | right; exists 1114112, 8; split; [reflexivity | lia] ].
Defined.

Lemma served_blocks_are_zero_witness : read (bytes p_first_host) 1310723 = 0.
Proof.
  apply (served_blocks_are_zero p_boot_host p_stored
           (CallAllocZeroed (mkLayout 8 8)) (mkLayout 8 8) 1310720 p_first_host 1310723).
  - apply p_boot_host_booted.
  - apply p_boot_host_stored.
  - apply p_stored_first.
  - reflexivity.
  - discriminate.
  - cbn. lia.
Defined.

Lemma served_above_boot_witness : mem_size (host (world p_boot_host)) <= 1310723.
Proof.
  apply (served_above_boot p_boot_host p_stored
           (CallAllocZeroed (mkLayout 8 8)) (mkLayout 8 8) 1310720 p_first_host 1310723).
  - apply p_boot_host_booted.
  - apply p_boot_host_stored.
  - apply p_stored_first.
  - reflexivity.
  - discriminate.
  - cbn. lia.
Defined.

End Witnesses.
