(* ===== verification/Realloc.v ===== *)
(** * Realloc: the method of the trait the adapter inherits

    [impl GlobalAlloc for BumpAllocator] defines [alloc], [alloc_zeroed]
    and [dealloc]; [realloc] is the default method of the trait: allocate a
    block of the new size, copy, free the old block.  A growing vector is a
    sequence of such calls.  This file has the method over any implementor
    of the trait, with the bytes of the linear memory and
    [copy_nonoverlapping], which is undefined when the two regions overlap
    and traps outside the memory.  The theorems, for a process that
    reallocates a block it owns, over every [LinearSource]: the call
    returns, the copy is defined, the new block holds the bytes of the old
    one and zeros after them, nothing else has changed, the call is a
    sequence of steps of the process of [Zeroed], and it takes new memory
    even to shrink a block. *)

From stdpp Require Import base gmap.
From Stdlib Require Import ZArith Lia List.
From S2P Require Import Prelude Usize Layout State PageSource Bump Trace GlobalAlloc.
From S2P Require Import WasmAlloc WasmHost Linear Contract Zeroed.
#[local] Open Scope Z_scope.
#[local] Open Scope rs_scope.

(** The allocator with the memory it grows, and the contents of the
    memory. *)
Record Heap (H : Type) : Type := mkHeap { heap_world : World H; heap_bytes : Bytes }.

Arguments mkHeap {H} heap_world heap_bytes.
Arguments heap_world {H} h.
Arguments heap_bytes {H} h.

(** A method of the allocator, which leaves the contents alone. *)
Definition on_world {H A} (c : M (World H) A) : M (Heap H) A :=
  fun h =>
    match c (heap_world h) with
    | Done a w => Done a (mkHeap w (heap_bytes h))
    | Failed w => Failed (mkHeap w (heap_bytes h))
    | Panicked => Panicked
    end.

(** The bytes after [count] bytes at [src] were copied to [dst]. *)
Fixpoint copy_bytes (src dst : Z) (count : nat) (bs : Bytes) : Bytes :=
  match count with
  | O => bs
  | S k => write (dst + Z.of_nat k) (read bs (src + Z.of_nat k)) (copy_bytes src dst k bs)
  end.

(** The two regions of [count] bytes are inside a memory of [sz] bytes and
    do not overlap. *)
Definition copy_defined (src dst count sz : Z) : bool :=
  (src + count <=? sz) && (dst + count <=? sz) &&
  ((src + count <=? dst) || (dst + count <=? src)).

(** [Layout::from_size_align_unchecked]. *)
Definition from_size_align_unchecked (size align : Z) : Layout := mkLayout size align.

(** [<*mut u8>::is_null]. *)
Definition is_null (ptr : Z) : bool := ptr =? null_mut.

Section Realloc.
Context {U : Usize} {H : Type} {PS : PageSource H} {L : PageSourceLaws H}.
Context {LS : LinearSource H} {A : Type} {GA : GlobalAlloc A (World H)}.

(** [core::ptr::copy_nonoverlapping::<u8>(src, dst, count)]: the model
    stops where the behaviour is undefined or the access traps. *)
Definition copy_nonoverlapping (src dst count : Z) : M (Heap H) unit :=
  fun h =>
    if copy_defined src dst count (mem_size (host (heap_world h)))
    then Done tt (mkHeap (heap_world h)
                         (copy_bytes src dst (Z.to_nat count) (heap_bytes h)))
    else Panicked.

(** [GlobalAlloc::realloc], the default method. *)
Definition realloc (self : A) (ptr : Z) (layout : Layout) (new_size : Z) : M (Heap H) Z :=
  let new_layout := from_size_align_unchecked new_size (align layout) in
  new_ptr <- on_world (ga_alloc self new_layout) ;;
  if negb (is_null new_ptr) then
    (copy_nonoverlapping ptr new_ptr (Z.min (size layout) new_size) ;;
     on_world (ga_dealloc self ptr layout) ;;
     ret new_ptr)
  else ret new_ptr.

End Realloc.

(** ** Reading what was written and what was copied *)

Lemma read_write a v bs a' :
  read (write a v bs) a' = if decide (a' = a) then v else read bs a'.
Proof.
  unfold read, write. destruct (Z.eqb_spec v 0) as [-> | Hv];
    destruct (decide (a' = a)) as [-> | Hne].
  - now rewrite lookup_delete_eq.
  - now rewrite lookup_delete_ne.
  - now rewrite lookup_insert_eq.
  - now rewrite lookup_insert_ne.
Qed.

(** A byte of the destination is the byte of the source at the same
    offset, as it was before the copy; every other byte is as it was. *)
Lemma read_copy_bytes src dst count bs a :
  read (copy_bytes src dst count bs) a =
    if decide (dst <= a < dst + Z.of_nat count) then read bs (src + (a - dst))
    else read bs a.
Proof.
  induction count as [|k IH]; cbn [copy_bytes].
  - destruct (decide _); [lia | reflexivity].
  - rewrite read_write, IH.
    repeat destruct (decide _); try lia; try reflexivity. f_equal. lia.
Qed.

(** ** Reallocating a block the client owns *)

Section Owned.
Context {U : Usize} {H : Type} {PS : PageSource H} {L : PageSourceLaws H}.
Context {LS : LinearSource H}.
#[local] Existing Instance BumpAllocator.global_alloc.
Implicit Types (P : Process H) (w : World H) (l : Layout) (bs : Bytes).

(** The layout [realloc] asks memory for. *)
Definition new_layout l (new_size : Z) : Layout :=
  from_size_align_unchecked new_size (align l).

(** The bytes [realloc] copies. *)
Definition kept l (new_size : Z) : Z := Z.min (size l) new_size.

(** The contents after the call: the copy when the new pointer is not
    null. *)
Definition moved (ptr : Z) l (new_size new_ptr : Z) bs : Bytes :=
  if is_null new_ptr then bs
  else copy_bytes ptr new_ptr (Z.to_nat (kept l new_size)) bs.

(** The adapter's [alloc] returns a pointer, whatever is asked. *)
Lemma adapter_alloc_returns l w :
  valid l -> exists ptr w', BumpAllocator.alloc mkBumpAllocator l w = Done ptr w'.
Proof.
  intros Hl. pose proof (alloc_no_panic l w Hl rp_returns) as Hp.
  unfold BumpAllocator.alloc. destruct (InnerAlloc.alloc l w); eauto. congruence.
Qed.

(** Where the new block is: above the cursor, hence above the old block,
    and inside the memory. *)
Lemma realloc_served P ptr l new_size new_ptr w' :
  proc_ok P -> ledger P !! ptr = Some (size l) ->
  valid (new_layout l new_size) -> 0 < new_size ->
  BumpAllocator.alloc mkBumpAllocator (new_layout l new_size) (world P) = Done new_ptr w' ->
  new_ptr <> null_mut ->
  0 <= ptr /\ 0 <= size l /\ ptr + size l <= next (inner (world P)) /\
  next (inner (world P)) <= new_ptr /\
  new_ptr + new_size <= next (inner w') /\ next (inner w') <= mem_size (host w').
Proof.
  intros ([Hok Hled] & _) Hown Hnl Hpos E Hnn.
  destruct (alloc_nonnull_fresh _ _ _ _ _ Hnl Hok E Hnn) as (Hlo & Hhi & Hlim & Hok').
  apply (map_Forall_lookup_1 _ _ _ _ Hled) in Hown. cbn beta in Hown.
  pose proof (world_inside w' Hok') as Hin.
  pose proof (padded_size_ge _ Hnl) as Hsz. cbn [size new_layout from_size_align_unchecked] in Hsz.
  repeat split; lia.
Qed.

(** The copy is defined: the old block and the new one are inside the
    memory and do not overlap. *)
Lemma realloc_copy_defined P ptr l new_size new_ptr w' :
  proc_ok P -> ledger P !! ptr = Some (size l) ->
  valid (new_layout l new_size) -> 0 < new_size ->
  BumpAllocator.alloc mkBumpAllocator (new_layout l new_size) (world P) = Done new_ptr w' ->
  new_ptr <> null_mut ->
  copy_defined ptr new_ptr (kept l new_size) (mem_size (host w')) = true.
Proof.
  intros HP Hown Hnl Hpos E Hnn.
  destruct (realloc_served P ptr l new_size new_ptr w' HP Hown Hnl Hpos E Hnn)
    as (? & ? & ? & ? & ? & ?).
  unfold copy_defined, kept. rewrite !andb_true_iff, orb_true_iff, !Z.leb_le. lia.
Qed.

(** The call, once [alloc] has answered. *)
Lemma realloc_eq P ptr l new_size new_ptr w' :
  proc_ok P -> ledger P !! ptr = Some (size l) ->
  valid (new_layout l new_size) -> 0 < new_size ->
  BumpAllocator.alloc mkBumpAllocator (new_layout l new_size) (world P) = Done new_ptr w' ->
  realloc mkBumpAllocator ptr l new_size (mkHeap (world P) (bytes P)) =
    Done new_ptr (mkHeap w' (moved ptr l new_size new_ptr (bytes P))).
Proof.
  intros HP Hown Hnl Hpos E. unfold realloc, moved, bind at 1, on_world at 1.
  cbn [ga_alloc BumpAllocator.global_alloc heap_world heap_bytes].
  fold (new_layout l new_size). rewrite E.
  destruct (is_null new_ptr) eqn:Hnull; [reflexivity|]. cbn [negb].
  apply Z.eqb_neq in Hnull.
  unfold bind, copy_nonoverlapping. cbn [heap_world heap_bytes]. fold (kept l new_size).
  now rewrite (realloc_copy_defined P ptr l new_size new_ptr w').
Qed.

(** The ledger after the call: the new block for the old one, unless the
    allocation failed. *)
Definition reallocated (ptr new_size new_ptr : Z) (σ : Ledger) : Ledger :=
  if is_null new_ptr then σ else delete ptr (<[new_ptr := new_size]> σ).

Lemma proc_steps_trans (P P' P'' : Process H) :
  proc_steps P P' -> proc_steps P' P'' -> proc_steps P P''.
Proof. intros Hs. induction Hs; eauto using proc_cons. Qed.

(** A copy to where a store may go is a sequence of stores. *)
Lemma copy_is_stores w σ bs src dst count :
  (forall i, 0 <= i < Z.of_nat count -> may_store w (dst + i)) ->
  proc_steps (mkProcess w σ bs) (mkProcess w σ (copy_bytes src dst count bs)).
Proof.
  induction count as [|k IH]; intros Hst; [apply proc_refl|].
  eapply proc_steps_trans; [apply IH; intros i Hi; apply Hst; lia|].
  eapply proc_cons; [|apply proc_refl]. cbn [copy_bytes].
  apply (proc_store (mkProcess w σ (copy_bytes src dst k bs))), Hst. lia.
Qed.

(** The call returns: [alloc] does, the copy is defined and inside the
    memory. *)
Theorem realloc_returns P ptr l new_size :
  proc_ok P -> ledger P !! ptr = Some (size l) ->
  valid (new_layout l new_size) -> 0 < new_size ->
  exists new_ptr w',
    realloc mkBumpAllocator ptr l new_size (mkHeap (world P) (bytes P)) =
      Done new_ptr (mkHeap w' (moved ptr l new_size new_ptr (bytes P))) /\
    state_of (InnerAlloc.alloc (new_layout l new_size) (world P)) = Some w'.
Proof.
  intros HP Hown Hnl Hpos.
  destruct (adapter_alloc_returns (new_layout l new_size) (world P) Hnl) as (p & w' & E).
  exists p, w'. split; [now apply realloc_eq | eapply alloc_state, E].
Qed.

(** C20. What was in the block is in the new block: the bytes kept are those of
    the old block, the bytes after them are zero, and no other byte of the
    memory has changed. *)
Theorem realloc_keeps_contents P ptr l new_size new_ptr h' :
  proc_ok P -> ledger P !! ptr = Some (size l) ->
  valid (new_layout l new_size) -> 0 < new_size ->
  realloc mkBumpAllocator ptr l new_size (mkHeap (world P) (bytes P)) = Done new_ptr h' ->
  new_ptr <> null_mut ->
  (forall i, 0 <= i < kept l new_size ->
     read (heap_bytes h') (new_ptr + i) = read (bytes P) (ptr + i)) /\
  (forall i, kept l new_size <= i < new_size -> read (heap_bytes h') (new_ptr + i) = 0) /\
  (forall a, ~ new_ptr <= a < new_ptr + kept l new_size ->
     read (heap_bytes h') a = read (bytes P) a).
Proof.
  intros HP Hown Hnl Hpos E Hnn.
  destruct (adapter_alloc_returns (new_layout l new_size) (world P) Hnl) as (p & w' & Ea).
  rewrite (realloc_eq P ptr l new_size p w' HP Hown Hnl Hpos Ea) in E. inv E.
  destruct (realloc_served P ptr l new_size new_ptr w' HP Hown Hnl Hpos Ea Hnn)
    as (_ & Hs0 & _ & Hlo & _).
  cbn [heap_bytes]. unfold moved, is_null. rewrite (proj2 (Z.eqb_neq _ _) Hnn).
  assert (0 <= kept l new_size) as Hk by (unfold kept; lia).
  repeat split; intros x Hx; rewrite read_copy_bytes, Z2Nat.id by exact Hk;
    destruct (decide _); try lia; [f_equal; lia|].
  apply read_unwritten; [exact HP|]. apply alloc_nonnull_inv in Ea; [|exact Hnn].
  pose proof HP as [[Hok _] _]. pose proof (padded_size_ge _ Hnl) as Hsz.
  apply (served_unwritten _ _ new_ptr w' _ Hnl Hok Ea). cbn [size new_layout from_size_align_unchecked] in Hsz. lia.
Qed.

(** C21. The call is steps of the process: a request, the stores of the copy
    into the new block, and a free.  What holds of every state the process
    reaches holds after [realloc]. *)
Theorem realloc_is_steps P ptr l new_size new_ptr h' :
  proc_ok P -> ledger P !! ptr = Some (size l) -> valid l ->
  valid (new_layout l new_size) -> 0 < new_size ->
  realloc mkBumpAllocator ptr l new_size (mkHeap (world P) (bytes P)) = Done new_ptr h' ->
  proc_steps P
    (mkProcess (heap_world h') (reallocated ptr new_size new_ptr (ledger P)) (heap_bytes h')).
Proof.
  intros HP Hown Hl Hnl Hpos E.
  destruct (adapter_alloc_returns (new_layout l new_size) (world P) Hnl) as (p & w' & Ea).
  rewrite (realloc_eq P ptr l new_size p w' HP Hown Hnl Hpos Ea) in E. inv E.
  cbn [heap_world heap_bytes]. unfold reallocated, moved.
  assert (Hcall : call (CallAlloc (new_layout l new_size)) (world P) = Done (Some new_ptr) w')
    by (cbn; unfold bind; now rewrite Ea).
  destruct (is_null new_ptr) eqn:Hnull.
  - apply Z.eqb_eq in Hnull. subst new_ptr. eapply proc_cons; [|apply proc_refl].
    apply (proc_call P (CallAlloc (new_layout l new_size))); [exact Hnl | exact Hcall|].
    now apply contract_fail with (new_layout l new_size).
  - apply Z.eqb_neq in Hnull. pose proof HP as (Hsim & _).
    destruct (served_simulates _ _ _ _ _ Hnl Hsim Hnull Ea) as (Haddr & Hfree & _).
    eapply proc_cons;
      [apply (proc_call P (CallAlloc (new_layout l new_size)) (Some new_ptr) w'
                (<[new_ptr := new_size]> (ledger P))); [exact Hnl | exact Hcall|] |].
    { now apply (contract_serve addressable _ _ (new_layout l new_size)). }
    eapply proc_steps_trans;
      [apply (copy_is_stores _ _ _ ptr new_ptr (Z.to_nat (kept l new_size))) |].
    { intros i Hi. unfold kept in Hi.
      destruct (realloc_served P ptr l new_size new_ptr w' HP Hown Hnl Hpos Ea Hnull)
        as (_ & _ & _ & ? & ? & ?).
      destruct Haddr as [? _]. destruct Hsim as [[(? & _) _] _].
      unfold may_store, unclaimed. lia. }
    eapply proc_cons; [|apply proc_refl].
    apply (proc_call (mkProcess w' (<[new_ptr := new_size]> (ledger P)) _)
             (CallDealloc ptr l) None w'); [exact Hl | reflexivity|].
    apply contract_free.
Qed.

(** The call takes new memory: the new block lies above the old one and the
    cursor moves up by the new size at least, also when the block
    shrinks. *)
Theorem realloc_takes_memory P ptr l new_size new_ptr h' :
  proc_ok P -> ledger P !! ptr = Some (size l) ->
  valid (new_layout l new_size) -> 0 < new_size ->
  realloc mkBumpAllocator ptr l new_size (mkHeap (world P) (bytes P)) = Done new_ptr h' ->
  new_ptr <> null_mut ->
  ptr + size l <= new_ptr /\
  next (inner (world P)) + new_size <= next (inner (heap_world h')).
Proof.
  intros HP Hown Hnl Hpos E Hnn.
  destruct (adapter_alloc_returns (new_layout l new_size) (world P) Hnl) as (p & w' & Ea).
  rewrite (realloc_eq P ptr l new_size p w' HP Hown Hnl Hpos Ea) in E. inv E.
  destruct (realloc_served P ptr l new_size new_ptr w' HP Hown Hnl Hpos Ea Hnn)
    as (_ & _ & ? & ? & ? & _).
  cbn [heap_world]. lia.
Qed.

End Owned.

(** ** The theorems in a module of 17 pages (32-bit target)

    The client holds the eight bytes at 1114112, has stored 42 in the
    first, and asks for sixteen. *)

Section Witnesses.
#[local] Existing Instance usize32.
#[local] Existing Instance BumpAllocator.global_alloc.
Import Wasm32.

Definition p_held : Process Memory :=
  mkProcess (world p_first) (ledger p_first) (write 1114112 42 (bytes p_first)).

Definition h_moved : Heap Memory :=
  mkHeap (mkWorld (mkInnerAlloc 1114136 1179648) (mkMemory 18 65536))
         (copy_bytes 1114112 1114120 8 (bytes p_held)).

Lemma p_first_ok : proc_ok p_first.
Proof.
  apply (proc_steps_ok p_boot); [apply booted_ok, p_boot_booted|].
  eapply proc_cons; [apply p_boot_first | apply proc_refl].
Qed.

Lemma p_held_ok : proc_ok p_held.
Proof.
  apply (store_keeps_ok p_first 1114112 42 p_first_ok).
  apply (owned_may_store p_first 1114112 8); [apply p_first_ok | reflexivity | lia].
Qed.

Lemma realloc_p_held :
  realloc mkBumpAllocator 1114112 (mkLayout 8 8) 16 (mkHeap (world p_held) (bytes p_held)) =
    Done 1114120 h_moved.
Proof. vm_compute. reflexivity. Qed.

Lemma realloc_returns_witness :
  exists new_ptr w',
    realloc mkBumpAllocator 1114112 (mkLayout 8 8) 16 (mkHeap (world p_held) (bytes p_held)) =
      Done new_ptr (mkHeap w' (moved 1114112 (mkLayout 8 8) 16 new_ptr (bytes p_held))) /\
    state_of (InnerAlloc.alloc (new_layout (mkLayout 8 8) 16) (world p_held)) = Some w'.
Proof.
  apply (realloc_returns p_held 1114112 (mkLayout 8 8) 16);
    [apply p_held_ok | reflexivity | reflexivity | lia].
Defined.

Lemma realloc_keeps_contents_witness :
  (forall i, 0 <= i < kept (mkLayout 8 8) 16 ->
     read (heap_bytes h_moved) (1114120 + i) = read (bytes p_held) (1114112 + i)) /\
  (forall i, kept (mkLayout 8 8) 16 <= i < 16 -> read (heap_bytes h_moved) (1114120 + i) = 0) /\
  (forall a, ~ 1114120 <= a < 1114120 + kept (mkLayout 8 8) 16 ->
     read (heap_bytes h_moved) a = read (bytes p_held) a).
Proof.
  apply (realloc_keeps_contents p_held 1114112 (mkLayout 8 8) 16 1114120 h_moved);
    [apply p_held_ok | reflexivity | reflexivity | lia | apply realloc_p_held | discriminate].
Defined.

Lemma realloc_is_steps_witness :
  proc_steps p_held
    (mkProcess (heap_world h_moved) (reallocated 1114112 16 1114120 (ledger p_held))
               (heap_bytes h_moved)).
Proof.
  apply (realloc_is_steps p_held 1114112 (mkLayout 8 8) 16 1114120 h_moved);
    [apply p_held_ok | reflexivity | reflexivity | reflexivity | lia | apply realloc_p_held].
Defined.

Lemma realloc_takes_memory_witness :
  1114112 + 8 <= 1114120 /\ 1114120 + 16 <= next (inner (heap_world h_moved)).
Proof.
  apply (realloc_takes_memory p_held 1114112 (mkLayout 8 8) 16 1114120 h_moved);
    [apply p_held_ok | reflexivity | reflexivity | lia | apply realloc_p_held | discriminate].
Defined.

(** The byte stored in the old block is read back from the new one. *)
Example realloc_reads_back : read (heap_bytes h_moved) 1114120 = 42.
Proof. vm_compute. reflexivity. Qed.

End Witnesses.
