(* ===== verification/Width.v ===== *)
(** * Width: the allocator at two widths of [usize]

    The tests of [bump.rs] run on the host that builds them, where [usize]
    has 64 bits; the allocator is deployed on [wasm32], where it has 32.
    Every check of [alloc] is against [usize::MAX], so the width is part of
    its behaviour.  This file compares the allocator at a narrow and at a
    wide [usize], over a page source that does not depend on the width: a
    request served at the narrow width is served alike at the wide one,
    and a request served at the wide width is served alike at the narrow
    one when the limit it leaves is an address there. *)

From Stdlib Require Import ZArith Lia Bool List.
From S2P Require Import Prelude Usize Layout State PageSource Bump Trace StubAlloc.
Import ListNotations.
#[local] Open Scope Z_scope.
#[local] Open Scope rs_scope.

(** Whole pages that end at an address leave room for one page less a
    byte: [usize::MAX + 1] is a whole number of pages. *)
Lemma pages_below_max {U : Usize} n :
  n * PAGE_SIZE <= usize_MAX -> n * PAGE_SIZE + (PAGE_SIZE - 1) <= usize_MAX.
Proof.
  intros Hn. pose proof usize_bits_min as Hb.
  assert (usize_modulus = PAGE_SIZE * 2 ^ (usize_bits - 16)) as Hm.
  { unfold usize_modulus. rewrite PAGE_SIZE_eq. change 65536 with (2 ^ 16).
    rewrite <- Z.pow_add_r by lia. f_equal. lia. }
  assert (0 < 2 ^ (usize_bits - 16)) by (apply pow2_pos; lia).
  unfold usize_MAX in *. rewrite Hm in *. rewrite PAGE_SIZE_eq in *. nia.
Qed.

Section Width.
(** The narrow width and the wide one. *)
Variables N W : Usize.
Hypothesis narrower : @usize_bits N <= @usize_bits W.
Context {H : Type} {PS : PageSource H}.
Implicit Types (l : Layout) (w : World H).

Lemma usize_MAX_le : @usize_MAX N <= @usize_MAX W.
Proof.
  unfold usize_MAX, usize_modulus. pose proof (@usize_bits_nonneg N).
  pose proof (Z.pow_le_mono_r 2 _ _ ltac:(lia) narrower). lia.
Qed.

(** A layout of the narrow width is a layout of the wide one. *)
Lemma valid_widen l : @valid N l -> @valid W l.
Proof.
  intros Hl. destruct (valid_inv l Hl) as ((Hs0 & Hs) & (Ha0 & Ha) & _ & Hfit).
  pose proof usize_MAX_le. destruct l as [s a]. cbn [size align] in *.
  unfold valid, layout_ok in Hl. bool_to_prop.
  apply valid_intro; unfold in_usize; try lia. assumption.
Qed.

(** [required_pages] does not depend on the width, where it returns. *)
Lemma required_pages_widen sz n :
  @required_pages N sz = Some n -> @required_pages W sz = Some n.
Proof.
  intros E. apply required_pages_inv in E. destruct E as [-> Hfit].
  pose proof usize_MAX_le. apply required_pages_Some. lia.
Qed.

Lemma required_pages_narrow sz n :
  @required_pages W sz = Some n -> n * PAGE_SIZE <= @usize_MAX N ->
  @required_pages N sz = Some n.
Proof.
  intros E Hn. pose proof (required_pages_bounds _ _ E) as [_ Hsz].
  apply required_pages_inv in E. destruct E as [-> _].
  apply required_pages_Some. pose proof (@pages_below_max N _ Hn). lia.
Qed.

(** ** One call *)

(** A request served at the narrow width is served alike at the wide one. *)
Lemma alloc_widen l w a w' :
  @valid N l -> @InnerAlloc.alloc N H PS l w = Done a w' ->
  @InnerAlloc.alloc W H PS l w = Done a w'.
Proof.
  intros Hl E. pose proof usize_MAX_le. apply (@alloc_complete W); [now apply valid_widen|].
  pose proof (@alloc_cases N _ _ l w Hl) as Hc. rewrite E in Hc.
  inv Hc; [apply alloc_fits; lia | eapply alloc_grows; eauto using required_pages_widen; lia].
Qed.

(** So a request refused at the wide width is refused at the narrow one,
    when the source returns. *)
Lemma alloc_narrow_failed l w w' :
  @valid N l -> never_panics PS -> @InnerAlloc.alloc W H PS l w = Failed w' ->
  exists w'', @InnerAlloc.alloc N H PS l w = Failed w''.
Proof.
  intros Hl Hnp E. pose proof (@alloc_no_panic N _ _ l w Hl Hnp) as Hp.
  destruct (@InnerAlloc.alloc N H PS l w) as [a w1 | w1 |] eqn:En; [|eauto | contradiction].
  apply (alloc_widen l w a w1 Hl) in En. congruence.
Qed.

(** A request served at the wide width is served alike at the narrow one,
    when the limit it leaves is an address there. *)
Lemma alloc_narrow {L : @PageSourceLaws W H PS} l w a w' :
  @valid N l -> @world_ok W H PS L w ->
  @InnerAlloc.alloc W H PS l w = Done a w' ->
  upper_limit (inner w') <= @usize_MAX N ->
  @InnerAlloc.alloc N H PS l w = Done a w'.
Proof.
  intros Hl Hok E Hmax. pose proof (valid_widen l Hl) as HlW.
  apply (@alloc_complete N); [exact Hl|].
  apply alloc_Done_inv in E; [|exact HlW].
  destruct E as [(Hfit & -> & ->) | (n & w1 & Hg & Hlim & ->)].
  - autorewrite with bump_rw in Hmax. cbn [upper_limit] in Hmax. apply alloc_fits; lia.
  - destruct (grew_facts l w n a w1 HlW Hok Hg) as (Hn0 & Hb & Hin & Hp & _).
    destruct Hg as (Hlt & Hn & Hrp). destruct Hok as [(H0 & Hle & _) _].
    unfold grown in Hmax. autorewrite with bump_rw in Hmax. cbn [upper_limit] in Hmax.
    eapply alloc_grows; eauto; try lia. apply required_pages_narrow; [exact Hn | nia].
Qed.

End Width.

(** ** A run over the test stub *)

Section StubRun.
Variables N W : Usize.
Hypothesis narrower : @usize_bits N <= @usize_bits W.
Import TestStub.
Implicit Types (ws : World unit).

(** A run over the stub at the wide width is the run at the narrow width,
    when the limit it leaves is an address there: the same requests are
    served and refused, at the same addresses. *)
Lemma stub_run_narrow ls : forall ws bs ws',
  Forall (@valid N) ls -> @world_ok W unit source laws ws ->
  @run W unit source ls ws = Done bs ws' ->
  upper_limit (inner ws') <= @usize_MAX N ->
  @run N unit source ls ws = Done bs ws'.
Proof.
  induction ls as [|l ls IH]; intros ws bs ws' Hls Hok E Hmax; [exact E|].
  inv Hls. pose proof (valid_widen N W narrower l H1) as HlW.
  apply run_cons_inv in E. cbn [run].
  destruct E as [(a & w1 & bs1 & Ha & Hr & ->) | (w1 & Ha & Hr)].
  - pose proof (alloc_Done_ok l ws a w1 HlW Hok Ha) as Hok1.
    destruct (run_monotone ls w1 bs1 ws' (Forall_impl _ (valid_widen N W narrower) H2) Hok1 Hr)
      as [_ Hup].
    rewrite (alloc_narrow N W narrower l ws a w1 H1 Hok Ha) by lia.
    unfold bind, ret. now rewrite (IH w1 bs1 ws' H2 Hok1 Hr Hmax).
  - pose proof (stub_failed_same l ws w1 HlW Ha). subst w1.
    destruct (alloc_narrow_failed N W narrower l ws ws H1 stub_never_panics Ha) as [w2 En].
    rewrite En, (stub_failed_same l ws w2 H1 En). now apply IH.
Qed.

End StubRun.
