(* ===== verification/Mirror.v ===== *)
(** * Mirror: what the test stub says of the allocator over the Wasm memory

    The tests of [bump.rs] run over the stub, "since we cannot (easily)
    test the [wasm32] implementation".  This file says what they tell of
    it.  Over a Wasm memory that nobody else grows, the allocator is the
    allocator over the stub moved up by the size the memory had when the
    process started: the stub answers a request for pages with its limit,
    the memory with its size, and the two differ by that size from the
    first pages on.  A run over the stub is then the run over the memory,
    block by block, as long as the memory has the pages and their end is
    an address; a request the stub refuses, the memory refuses. *)

From Stdlib Require Import ZArith Lia Bool List.
From S2P Require Import Prelude Usize Layout State PageSource Bump Trace StubAlloc WasmAlloc.
From S2P Require Import Width.
Import ListNotations.
#[local] Open Scope Z_scope.
#[local] Open Scope rs_scope.

Section Mirror.
Context {U : Usize}.
Import TestStub Wasm32.

(** The size of the memory, in bytes, when the process starts. *)
Variable base : Z.
Implicit Types (l : Layout) (ws : World unit) (ww : World Memory).

(** The allocator of the stub, moved up. *)
Definition moved_up (a : InnerAlloc) : InnerAlloc :=
  mkInnerAlloc (next a + base) (upper_limit a + base).

(** The world over the stub and the world over the memory: the memory ends
    where the stub's limit is, moved up, and the allocators are both as
    [new] left them or the second is the first moved up. *)
Definition mirrors ws ww : Prop :=
  mem_bytes (host ww) = upper_limit (inner ws) + base /\
  ((inner ws = new /\ inner ww = new) \/
   (0 < upper_limit (inner ws) /\ inner ww = moved_up (inner ws))).

(** A block over the stub and the block over the memory: the same size,
    and the second moved up unless it holds no byte. *)
Definition mirror_block (b b' : Block) : Prop :=
  len b' = len b /\ (len b = 0 \/ start b' = start b + base).

(** ** One call *)

(** A request the stub serves is served over the memory, when the memory
    has the pages and their end is an address. *)
Lemma alloc_mirrored l ws ww a ws' :
  valid l -> world_ok ws -> world_ok ww -> mirrors ws ww ->
  InnerAlloc.alloc l ws = Done a ws' ->
  upper_limit (inner ws') + base <= usize_MAX ->
  upper_limit (inner ws') + base <= mem_limit (host ww) * PAGE_SIZE ->
  exists a' ww', InnerAlloc.alloc l ww = Done a' ww' /\ mirrors ws' ww' /\
                 (padded_size l = 0 \/ a' = a + base).
Proof.
  intros Hl [Hwf _] Hw [Hmem Hrel] E Hmax Hroom.
  pose proof (padded_size_nonneg l Hl) as Hsz. pose proof PAGE_SIZE_pos as Hps.
  pose proof usize_MAX_ge as HM. apply alloc_Done_inv in E; [|exact Hl].
  destruct E as [(Hfit & -> & ->) | (n & w1 & Hg & Hlim & ->)].
  - exists (next (inner ww)), (with_next (next (inner ww) + padded_size l) ww).
    assert (next (inner ww) + padded_size l <= upper_limit (inner ww) <= usize_MAX /\
            (padded_size l = 0 \/ next (inner ww) = next (inner ws) + base)) as (Hin & Ha).
    { autorewrite with bump_rw in Hmax. cbn [upper_limit] in Hmax.
      destruct Hrel as [[Es Ew] | [_ Ew]]; rewrite Ew; rewrite ?Es in *;
        cbn [upper_limit next new moved_up] in *; lia. }
    split; [apply alloc_complete, alloc_fits; [exact Hl | lia..]|]. split; [|exact Ha].
    unfold mirrors. autorewrite with bump_rw. cbn [upper_limit next]. split; [exact Hmem|].
    destruct Hrel as [[Es Ew] | [Hpos Ew]]; rewrite Ew; rewrite ?Es in *;
      cbn [upper_limit next new moved_up] in *; [left | right; split; [exact Hpos|]].
    + assert (padded_size l = 0) as -> by lia. auto.
    + unfold moved_up. cbn [next upper_limit]. f_equal. lia.
  - destruct (stub_grew l ws n a w1 Hg) as [-> ->]. destruct Hg as (Hlt & Hn & _).
    destruct Hwf as (H0 & Hle & _).
    assert (0 < padded_size l) as Hpos by lia.
    pose proof (required_pages_pos _ _ Hpos Hn) as Hn0.
    unfold grown in *. autorewrite with bump_rw in *. cbn [upper_limit next] in *.
    unfold mem_bytes in Hmem.
    exists (mem_bytes (host ww)). eexists. split; [|split].
    + apply (alloc_at_memory_end l ww n Hl Hw); [| exact Hn | nia..].
      unfold headroom. destruct Hrel as [[Es Ew] | [_ Ew]]; rewrite Ew; rewrite ?Es in *;
        cbn [upper_limit next new moved_up] in *; lia.
    + unfold mirrors, moved_up, grown_by, mem_bytes. autorewrite with bump_rw.
      cbn [upper_limit next host mem_pages]. split; [lia|]. right. split; [nia|].
      f_equal; lia.
    + right. unfold mem_bytes. lia.
Qed.

(** A request the stub refuses, for an overflow since it refuses nothing
    else, is refused over the memory, which does not grow: the end of the
    block or of the pages is further up still. *)
Lemma alloc_mirrored_failed l ws ww ws' :
  valid l -> world_ok ws -> world_ok ww -> mirrors ws ww -> 0 < base ->
  InnerAlloc.alloc l ws = Failed ws' ->
  InnerAlloc.alloc l ww = Failed ww /\ ws' = ws.
Proof.
  intros Hl Hs Hw [Hmem Hrel] Hb E. pose proof Hs as [(H0 & Hle & _) _].
  destruct (world_ok_inv ww Hw) as (_ & Hm & _). pose proof Hm as (_ & _ & Hlm).
  pose proof usize_MAX_ge as HM. pose proof PAGE_SIZE_eq as Hps.
  unfold mem_bytes, MAX_PAGES in *.
  assert (next (inner ws) <= next (inner ww) /\
          upper_limit (inner ww) - next (inner ww) =
            upper_limit (inner ws) - next (inner ws)) as [Hn Hh]
    by (destruct Hrel as [[Es Ew] | [_ Ew]]; rewrite Ew; rewrite ?Es;
        cbn [upper_limit next new moved_up]; lia).
  pose proof (stub_failed_same l ws ws' Hl E). subst ws'.
  split; [|reflexivity]. apply alloc_complete; [exact Hl|].
  destruct (Z.le_gt_cases (next (inner ww) + padded_size l) usize_MAX) as [Hend|Hend];
    [|now apply alloc_end_overflows].
  pose proof (alloc_cases l ws Hl) as Hc. rewrite E in Hc.
  inv Hc; try discriminate; try lia; [apply alloc_pages_overflow; auto; lia|].
  match goal with Hr : _ = Done _ _ |- _ => inv Hr end.
  eapply alloc_source_refuses; eauto; try lia.
  change (Wasm32.request_pages n ww = Failed ww).
  rewrite request_pages_cases by exact Hm. cbv zeta.
  rewrite (proj2 (Z.leb_gt _ _)); [reflexivity | nia].
Qed.

(** ** A run *)

(** The run over the stub is the run over the memory: the same requests
    are served, the blocks are the stub's moved up by the size the memory
    had at the start, and the allocator at the end is the stub's moved
    up; provided the memory is not empty at the start, has the pages the
    run takes, and their end is an address. *)
Lemma run_mirrored ls : forall ws ww bs ws',
  Forall valid ls -> world_ok ws -> world_ok ww -> mirrors ws ww -> 0 < base ->
  run ls ws = Done bs ws' ->
  upper_limit (inner ws') + base <= usize_MAX ->
  upper_limit (inner ws') + base <= mem_limit (host ww) * PAGE_SIZE ->
  exists bw ww', run ls ww = Done bw ww' /\ mirrors ws' ww' /\
                 Forall2 mirror_block bs bw.
Proof.
  induction ls as [|l ls IH]; intros ws ww bs ws' Hls Hs Hw Hrel Hb E Hmax Hroom.
  { inv E. exists [], ww. auto. }
  inv Hls. apply run_cons_inv in E.
  destruct E as [(a & w1 & bs1 & Ha & Hr & ->) | (w1 & Ha & Hr)].
  - pose proof (alloc_Done_ok l ws a w1 H1 Hs Ha) as Hs1.
    destruct (run_monotone ls w1 bs1 ws' H2 Hs1 Hr) as [_ Hup].
    destruct (alloc_mirrored l ws ww a w1 H1 Hs Hw Hrel Ha) as (a' & ww1 & Ea & Hrel1 & Haddr);
      [lia.. |].
    assert (Hst : state_of (InnerAlloc.alloc l ww) = Some ww1) by now rewrite Ea.
    destruct (wasm_alloc_memory_grows l ww ww1 H1 Hw Hst) as [_ Hlm].
    destruct (IH w1 ww1 bs1 ws' H2 Hs1 (alloc_Done_ok l ww a' ww1 H1 Hw Ea) Hrel1 Hb Hr Hmax)
      as (bw & ww' & Er & Hrel' & Hbs); [now rewrite Hlm|].
    exists (InnerAlloc.block_of l a' :: bw), ww'. cbn [run]. rewrite Ea. unfold bind, ret.
    rewrite Er. split; [reflexivity|]. split; [exact Hrel'|].
    constructor; [split; [reflexivity | exact Haddr] | exact Hbs].
  - destruct (alloc_mirrored_failed l ws ww w1 H1 Hs Hw Hrel Hb Ha) as [Ea ->].
    destruct (IH ws ww bs ws' H2 Hs Hw Hrel Hb Hr Hmax Hroom) as (bw & ww' & Er & Hrel' & Hbs).
    exists bw, ww'. cbn [run]. rewrite Ea. auto.
Qed.

End Mirror.

(** ** What a run of the tests says of the module

    The tests run over the stub at the width of the host that builds
    them; the module runs over the memory at its own, narrower width. *)

Section Predict.
Variables N W : Usize.
Hypothesis narrower : @usize_bits N <= @usize_bits W.
Variable base : Z.

(** C17. The run over the stub at the wide width is the run over the memory at
    the narrow one, moved up by the size the memory had at the start:
    the same sizes, and every block that holds a byte at the address of
    the stub plus that size (of a block of no bytes only the size is
    stated: a fresh allocator serves it at 0 over the stub and over the
    memory alike, not moved);
    provided the memory is not empty at the start, has the pages the run
    takes, and their end is an address of the narrow width. *)
Theorem stub_run_predicts ls ws ww bs ws' :
  Forall (@valid N) ls ->
  world_ok (L := TestStub.laws (U := W)) ws ->
  world_ok (L := Wasm32.laws (U := N)) ww ->
  mirrors base ws ww -> 0 < base ->
  run (U := W) (PS := TestStub.source) ls ws = Done bs ws' ->
  upper_limit (inner ws') + base <= @usize_MAX N ->
  upper_limit (inner ws') + base <= Wasm32.mem_limit (host ww) * PAGE_SIZE ->
  exists bw ww',
    run (U := N) (PS := Wasm32.source (U := N)) ls ww = Done bw ww' /\
    mirrors base ws' ww' /\ Forall2 (mirror_block base) bs bw.
Proof.
  intros Hls Hs Hw Hrel Hb E Hmax Hroom.
  destruct (run_monotone ls ws bs ws' (Forall_impl _ (valid_widen N W narrower) Hls) Hs E)
    as [_ Hup].
  apply (run_mirrored (U := N) base ls ws ww bs ws'); auto.
  - destruct Hs as [(H0 & Hle & _) _]. split; [unfold inner_wf; lia | exact I].
  - apply (stub_run_narrow N W narrower); auto. lia.
Qed.

End Predict.

(** ** The theorem at [can_alloc_across_pages]

    The requests of the test, over the stub on the 64-bit host and over a
    memory of 17 pages on the 32-bit target: the test sees the blocks at 0
    and at [PAGE_SIZE]; the module gets them at 1114112 and at
    1114112 + [PAGE_SIZE]. *)

Section Witnesses.
#[local] Existing Instance usize32.
Import TestStub Wasm32.

Definition across_pages : list Layout := [mkLayout 65535 1; mkLayout 2 2].

Lemma stub_run_predicts_witness :
  exists bw ww',
    run across_pages w_boot = Done bw ww' /\
    mirrors 1114112 (mkWorld (mkInnerAlloc 65538 131072) tt) ww' /\
    Forall2 (mirror_block 1114112) [mkBlock 0 65535; mkBlock 65536 2] bw.
Proof.
  apply (stub_run_predicts usize32 usize64 ltac:(cbn; lia) 1114112 across_pages
           (mkWorld new tt) w_boot
           [mkBlock 0 65535; mkBlock 65536 2] (mkWorld (mkInnerAlloc 65538 131072) tt)).
  - repeat constructor.
  - split; [apply (new_wf (U := usize64)) | exact I].
  - apply world_ok_by_compute; reflexivity.
  - split; [reflexivity | left; split; reflexivity].
  - lia.
  - vm_compute. reflexivity.
  - by_compute.
  - by_compute.
Defined.

Example run_across_pages_wasm :
  run across_pages w_boot =
    Done [mkBlock 1114112 65535; mkBlock 1179648 2]
         (mkWorld (mkInnerAlloc 1179650 1245184) (mkMemory 19 65536)).
Proof. vm_compute. reflexivity. Qed.

End Witnesses.
