(* ===== verification/Tests.v ===== *)
(** * Tests: the test suite of [bump.rs]

    The six unit tests of [mod tests] and the two quickcheck properties of
    [mod fuzz_tests], each as the computation its body is: the local
    [inner] is the state, [assert_eq!] panics on a mismatch, and a test
    passes when it returns.  Tests run with [cfg(test)], so the page source
    is the test stub, on a 64-bit host.  The unit tests are evaluated; the
    quickcheck properties are proved for every [n],
    [can_alloc_a_foobarbaz] for every struct and every number of
    allocations that fit the pages of the first one, and
    [can_alloc_many_different_sized_chunks] is characterised for every
    vector: it passes exactly when its arithmetic agrees with the
    allocator at every page boundary. *)

From Stdlib Require Import ZArith Lia Bool List.
From S2P Require Import Prelude Usize Layout State PageSource Bump Trace StubAlloc.
Import ListNotations.
Import TestStub.
#[local] Open Scope Z_scope.
#[local] Open Scope rs_scope.
#[local] Existing Instance usize64.

(** The state of a test: its local [inner]. *)
Abbreviation T := (M (World unit)).

(** [assert_eq!] on [usize] and on [Option<usize>]. *)
Definition assert_eq (a b : Z) : T unit := assert (a =? b).

Definition assert_eq_opt (a b : option Z) : T unit :=
  assert match a, b with
         | Some x, Some y => x =? y
         | None, None => true
         | _, _ => false
         end.

(** [usize * usize] and [usize % usize] with overflow checks on. *)
Definition mul_strict (a b : Z) : T Z := unwrap (checked_mul a b).

Definition rem_strict (a b : Z) : T Z :=
  if b =? 0 then panic else ret (a mod b).

(** [let mut inner = InnerAlloc::new();] *)
Definition let_inner_new : T unit := put (mkWorld new tt).

(** [std::mem::size_of::<usize>()]. *)
Definition size_of_usize : Z := usize_bits / 8.

(** [Layout::new::<T>()] for the types the tests allocate. *)
Definition layout_unit : Layout := mkLayout 0 1.
Definition layout_u8 : Layout := mkLayout 1 1.
Definition layout_u16 : Layout := mkLayout 2 2.

(** [struct Foo { _foo: [u8; n] }]: [n] bytes, aligned to one. *)
Definition layout_bytes (n : Z) : Layout := mkLayout n 1.

(** [struct FooBarBaz { _foo: u32, _bar: u128, _baz: (u16, bool) }].  Rust
    leaves the layout of such a struct to the compiler: 24 bytes where
    [u128] is aligned to 8, 32 bytes where it is aligned to 16. *)
Definition layout_FooBarBaz_8 : Layout := mkLayout 24 8.
Definition layout_FooBarBaz_16 : Layout := mkLayout 32 16.

(** The checks every test makes after an allocation: [inner.upper_limit]
    and [inner.next]. *)
Definition assert_state (expected_limit expected_alloc_start : Z) : T unit :=
  limit <- get_upper_limit ;;
  assert_eq limit expected_limit ;;
  nxt <- get_next ;;
  assert_eq nxt expected_alloc_start.

(** [PAGE_SIZE * required_pages(layout.pad_to_align().size()).unwrap()]. *)
Definition pages_limit (layout : Layout) : T Z :=
  padded <- pad_to_align layout ;;
  n <- unwrap (required_pages (size padded)) ;;
  mul_strict PAGE_SIZE n.

(** [fn can_alloc_no_bytes]. *)
Definition can_alloc_no_bytes : T unit :=
  let_inner_new ;;
  let layout := layout_unit in
  r <- catch (InnerAlloc.alloc layout) ;;
  assert_eq_opt r (Some 0) ;;
  expected_limit <- pages_limit layout ;;
  let expected_alloc_start := size layout_unit in
  assert_state expected_limit expected_alloc_start.

(** [fn can_alloc_a_byte]. *)
Definition can_alloc_a_byte : T unit :=
  let_inner_new ;;
  let layout := layout_u8 in
  r <- catch (InnerAlloc.alloc layout) ;;
  assert_eq_opt r (Some 0) ;;
  expected_limit <- pages_limit layout ;;
  let expected_alloc_start := size layout_u8 in
  assert_state expected_limit expected_alloc_start.

(** The loop of [can_alloc_a_foobarbaz]: [allocations] calls, summing the
    padded sizes. *)
Fixpoint foobarbaz_loop (allocations : nat) (layout : Layout) (total_size : Z) : T Z :=
  match allocations with
  | O => ret total_size
  | S k =>
      r <- catch (InnerAlloc.alloc layout) ;;
      assert (match r with Some _ => true | None => false end) ;;
      padded <- pad_to_align layout ;;
      total_size' <- add_strict total_size (size padded) ;;
      foobarbaz_loop k layout total_size'
  end.

(** The body of [can_alloc_a_foobarbaz], for the layout the compiler gave
    the struct and a number of [allocations]. *)
Definition can_alloc_a_foobarbaz_with (allocations : nat) (layout : Layout) : T unit :=
  let_inner_new ;;
  total_size <- foobarbaz_loop allocations layout 0 ;;
  n <- unwrap (required_pages total_size) ;;
  expected_limit <- mul_strict PAGE_SIZE n ;;
  expected_alloc_start <- mul_strict (Z.of_nat allocations) (size layout) ;;
  assert_state expected_limit expected_alloc_start.

(** [fn can_alloc_a_foobarbaz]: [let allocations = 3]. *)
Definition can_alloc_a_foobarbaz (layout : Layout) : T unit :=
  can_alloc_a_foobarbaz_with 3 layout.

(** [fn can_alloc_across_pages]. *)
Definition can_alloc_across_pages : T unit :=
  let_inner_new ;;
  let layout := layout_bytes (PAGE_SIZE - 1) in
  r <- catch (InnerAlloc.alloc layout) ;;
  assert_eq_opt r (Some 0) ;;
  expected_limit <- pages_limit layout ;;
  assert_state expected_limit (size layout) ;;
  let layout := layout_u16 in
  r <- catch (InnerAlloc.alloc layout) ;;
  assert_eq_opt r (Some PAGE_SIZE) ;;
  expected_limit <- mul_strict 2 PAGE_SIZE ;;
  expected_alloc_start <- add_strict PAGE_SIZE (size layout_u16) ;;
  assert_state expected_limit expected_alloc_start.

(** [fn can_alloc_multiple_pages]. *)
Definition can_alloc_multiple_pages : T unit :=
  let_inner_new ;;
  let layout := layout_bytes (2 * PAGE_SIZE) in
  r <- catch (InnerAlloc.alloc layout) ;;
  assert_eq_opt r (Some 0) ;;
  expected_limit <- pages_limit layout ;;
  assert_state expected_limit (size layout) ;;
  let layout := layout_u8 in
  two_pages <- mul_strict 2 PAGE_SIZE ;;
  r <- catch (InnerAlloc.alloc layout) ;;
  assert_eq_opt r (Some two_pages) ;;
  expected_limit <- mul_strict 3 PAGE_SIZE ;;
  expected_alloc_start <- add_strict two_pages (size layout_u8) ;;
  assert_state expected_limit expected_alloc_start.

(** The locals the loop of [can_alloc_many_different_sized_chunks] carries. *)
Record Chunks : Type := mkChunks {
  total_bytes_requested : Z;
  expected_alloc_start : Z;
  total_bytes_fragmented : Z
}.

(** The call of an iteration and the assertions after it. *)
Definition chunk_check (c1 : Chunks) (layout : Layout) (size : Z) : T Chunks :=
  r <- catch (InnerAlloc.alloc layout) ;;
  assert_eq_opt r (Some (expected_alloc_start c1)) ;;
  requested <- add_strict (total_bytes_requested c1) size ;;
  used <- add_strict requested (total_bytes_fragmented c1) ;;
  pages_required <- unwrap (required_pages used) ;;
  expected_limit <- mul_strict pages_required PAGE_SIZE ;;
  assert_state expected_limit used ;;
  ret (mkChunks requested used (total_bytes_fragmented c1)).

(** One iteration of that loop, for [alloc] KiB. *)
Definition chunk_step (c : Chunks) (alloc : Z) : T Chunks :=
  n <- mul_strict alloc 1024 ;;
  layout <- unwrap_res (from_size_align n size_of_usize) ;;
  padded <- pad_to_align layout ;;
  let size := size padded in
  nxt <- get_next ;;
  pages <- unwrap (required_pages nxt) ;;
  current_page_limit <- mul_strict pages PAGE_SIZE ;;
  end_ <- add_strict nxt size ;;
  let is_too_big_for_current_page := end_ >? current_page_limit in
  c1 <- (if is_too_big_for_current_page && negb (nxt =? 0) then
           (fragmented_in_current_page <- rem_strict current_page_limit nxt ;;
            fragmented <- add_strict (total_bytes_fragmented c) fragmented_in_current_page ;;
            limit <- get_upper_limit ;;
            ret (mkChunks (total_bytes_requested c) limit fragmented))
         else ret c) ;;
  chunk_check c1 layout size.

(** The loop [for alloc in v]. *)
Fixpoint chunks_loop (v : list Z) (c : Chunks) : T Chunks :=
  match v with
  | [] => ret c
  | alloc :: rest => c' <- chunk_step c alloc ;; chunks_loop rest c'
  end.

(** [fn can_alloc_many_different_sized_chunks], for the vector [v]. *)
Definition can_alloc_many_different_sized_chunks_on (v : list Z) : T unit :=
  let_inner_new ;;
  chunks_loop v (mkChunks 0 0 0) ;;
  ret tt.

Definition can_alloc_many_different_sized_chunks : T unit :=
  can_alloc_many_different_sized_chunks_on [32; 30; 6; 20; 20; 20; 10; 130].

(** [quickcheck::TestResult]. *)
Inductive TestResult : Type := passed | discard.

(** [fn fuzz_should_allocate_random_bytes_that_do_not_overflow]. *)
Definition fuzz_should_allocate_random_bytes_that_do_not_overflow (n : Z) : T TestResult :=
  match checked_add n (PAGE_SIZE - 1) with
  | None => ret discard
  | Some _ =>
      let_inner_new ;;
      layout <- unwrap_res (from_size_align n size_of_usize) ;;
      padded <- pad_to_align layout ;;
      let size := size padded in
      r <- catch (InnerAlloc.alloc layout) ;;
      assert_eq_opt r (Some 0) ;;
      pages <- unwrap (required_pages size) ;;
      expected_limit <- mul_strict PAGE_SIZE pages ;;
      assert_state expected_limit size ;;
      ret passed
  end.

(** [fn fuzz_should_not_allocate_if_it_overflows]. *)
Definition fuzz_should_not_allocate_if_it_overflows (n : Z) : T TestResult :=
  match checked_add n (PAGE_SIZE - 1) with
  | Some _ => ret discard
  | None =>
      match from_size_align n size_of_usize with
      | Ok layout =>
          let_inner_new ;;
          r <- catch (InnerAlloc.alloc layout) ;;
          assert_eq_opt r None ;;
          ret passed
      | Err _ => ret discard
      end
  end.

(** A test passes when it returns. *)
Definition passes {A} (t : T A) : bool :=
  match t (mkWorld new tt) with Done _ _ => true | _ => false end.

(** ** The unit tests pass *)

(** The six unit tests of [mod tests] return without a failed
    assertion, with [FooBarBaz] laid out either way. *)
Lemma unit_tests_pass :
  passes can_alloc_no_bytes = true /\
  passes can_alloc_a_byte = true /\
  passes (can_alloc_a_foobarbaz layout_FooBarBaz_8) = true /\
  passes (can_alloc_a_foobarbaz layout_FooBarBaz_16) = true /\
  passes can_alloc_across_pages = true /\
  passes can_alloc_multiple_pages = true /\
  passes can_alloc_many_different_sized_chunks = true.
Proof. repeat split; vm_compute; reflexivity. Qed.

(** The expected values of [can_alloc_many_different_sized_chunks] are
    right for its vector only: the bytes abandoned at a page boundary are
    computed with [%] where the allocator abandons
    [current_page_limit - inner.next].  With 10 KiB then 60 KiB the
    allocator behaves as it should and the test's own arithmetic fails
    its last assertion. *)
Lemma chunks_oracle_wrong :
  passes (can_alloc_many_different_sized_chunks_on [10; 60]) = false /\
  (exists w, Trace.run [mkLayout 10240 8; mkLayout 61440 8] (mkWorld new tt) =
             Done [mkBlock 0 10240; mkBlock 65536 61440] w).
Proof. split; [vm_compute; reflexivity | eexists; vm_compute; reflexivity]. Qed.

(** ** [can_alloc_a_foobarbaz] for any struct and any number of allocations

    The test expects the cursor at [allocations * size_of::<FooBarBaz>()]:
    that is right as long as all the blocks fit the pages of the first
    one, and wrong as soon as a block is served from new pages, since the
    bytes left of the old ones are abandoned. *)

(** The loop while the requests fit the headroom. *)
Lemma foobarbaz_loop_fits l k : forall total a,
  valid l -> inner_wf a -> 0 <= total ->
  next a + Z.of_nat k * padded_size l <= upper_limit a ->
  total + Z.of_nat k * padded_size l <= usize_MAX ->
  foobarbaz_loop k l total (mkWorld a tt) =
    Done (total + Z.of_nat k * padded_size l)
         (mkWorld (mkInnerAlloc (next a + Z.of_nat k * padded_size l) (upper_limit a)) tt).
Proof.
  induction k as [|k IH]; intros total a Hl Hwf Ht Hfit Hmax.
  { cbn. unfold ret. destruct a. cbn. repeat f_equal; lia. }
  pose proof (padded_size_nonneg l Hl) as Hsz. rewrite Nat2Z.inj_succ, Z.mul_succ_l in *.
  assert (0 <= Z.of_nat k * padded_size l) by (apply Z.mul_nonneg_nonneg; lia).
  cbn [foobarbaz_loop]. unfold bind at 1. rewrite catch_alloc_stub by assumption.
  cbn [inner]. rewrite allocate_room by (unfold headroom; lia).
  unfold bind at 1. cbn [assert ret]. unfold bind at 1.
  rewrite pad_to_align_spec by assumption. cbn [size].
  unfold bind at 1, add_strict. rewrite checked_add_fits by lia. cbn [unwrap ret].
  rewrite IH; cbn [next upper_limit]; try assumption; try lia;
    [f_equal; [lia | do 2 f_equal; lia] | destruct Hwf as (? & ? & ?); unfold inner_wf; cbn [next upper_limit]; lia].
Qed.

(** The state the assertions of the test are made in, and the total they
    are made with. *)
Lemma foobarbaz_loop_new l k :
  valid l -> padded_size l + (PAGE_SIZE - 1) <= usize_MAX ->
  Z.of_nat (S k) * padded_size l <= round_up (padded_size l) PAGE_SIZE ->
  round_up (padded_size l) PAGE_SIZE <= usize_MAX - (PAGE_SIZE - 1) /\
  foobarbaz_loop (S k) l 0 (mkWorld new tt) =
    Done (Z.of_nat (S k) * padded_size l)
         (mkWorld (mkInnerAlloc (Z.of_nat (S k) * padded_size l)
                                (round_up (padded_size l) PAGE_SIZE)) tt).
Proof.
  intros Hl Hpg Hfit. pose proof (padded_size_nonneg l Hl) as Hsz.
  assert (usize_MAX - 65535 = 281474976710655 * 65536) as HM by reflexivity.
  assert (round_up (padded_size l) PAGE_SIZE <= usize_MAX - 65535) as Hlim.
  { apply round_up_least; [reflexivity | rewrite PAGE_SIZE_eq in Hpg; lia|].
    rewrite HM. apply Z.mod_mul. discriminate. }
  split; [change (PAGE_SIZE - 1) with 65535; lia|].
  rewrite Nat2Z.inj_succ, Z.mul_succ_l in *.
  assert (0 <= Z.of_nat k * padded_size l) by (apply Z.mul_nonneg_nonneg; lia).
  cbn [foobarbaz_loop]. unfold bind at 1.
  rewrite catch_alloc_stub by auto with bump. cbn [inner].
  rewrite allocate_new by (try assumption; lia).
  unfold bind at 1. cbn [assert ret]. unfold bind at 1.
  rewrite pad_to_align_spec by assumption. cbn [size].
  unfold bind at 1, add_strict. rewrite checked_add_fits by lia. cbn [unwrap ret].
  rewrite foobarbaz_loop_fits; cbn [next upper_limit]; try assumption; try lia;
    [f_equal; [lia | do 2 f_equal; lia] | unfold inner_wf; cbn [next upper_limit]; lia].
Qed.

(** The pages that hold the first block hold all of them. *)
Lemma ceil_div_within a t b :
  0 < b -> a <= t <= round_up a b -> ceil_div t b = ceil_div a b.
Proof.
  intros Hb [Hlo Hhi]. pose proof (ceil_div_spec a b Hb). unfold round_up in Hhi.
  apply ceil_div_unique; lia.
Qed.

(** C38. [can_alloc_a_foobarbaz] passes for every struct (the size of a
    Rust type is a multiple of its alignment) and every number of
    allocations that fit the pages of the first one: the test expects the
    limit at the pages of the bytes requested and the cursor at their
    sum, which is where the allocator leaves them as long as no block is
    served from new pages. *)
Theorem foobarbaz_holds k l :
  valid l -> padded_size l = size l ->
  size l + (PAGE_SIZE - 1) <= usize_MAX ->
  Z.of_nat k * size l <= round_up (size l) PAGE_SIZE ->
  passes (can_alloc_a_foobarbaz_with k l) = true.
Proof.
  intros Hl Hsz Hpg Hfit. unfold passes, can_alloc_a_foobarbaz_with.
  unfold bind at 1, let_inner_new, put. destruct k as [|k]; [vm_compute; reflexivity|].
  rewrite <- Hsz in Hpg, Hfit.
  destruct (foobarbaz_loop_new l k Hl Hpg Hfit) as [Hlim Hloop].
  pose proof (padded_size_nonneg l Hl) as H0. pose proof PAGE_SIZE_pos as Hps.
  assert (padded_size l <= Z.of_nat (S k) * padded_size l) as Hge by nia.
  unfold bind at 1. rewrite Hloop. unfold bind at 1.
  rewrite required_pages_Some by lia.
  rewrite (ceil_div_within (padded_size l)) by (auto; lia). cbn [unwrap ret].
  unfold bind at 1, mul_strict.
  rewrite (checked_mul_fits PAGE_SIZE) by (rewrite Z.mul_comm; fold (round_up (padded_size l) PAGE_SIZE); lia).
  cbn [unwrap ret]. unfold bind at 1. rewrite <- Hsz, checked_mul_fits by lia. cbn [unwrap ret].
  unfold assert_state, get_upper_limit, get_next, gets, bind, assert_eq, assert.
  cbn [inner upper_limit next]. unfold round_up.
  rewrite (Z.mul_comm (ceil_div _ _)), Z.eqb_refl. unfold ret.
  cbn [inner next]. now rewrite Z.eqb_refl.
Qed.

(** With the struct of the test it passes up to 2730 allocations and fails
    at 2731: the last block is served from a new page, and the sixteen
    bytes left of the first are not in the cursor the test expects. *)
Example foobarbaz_oracle_one_page :
  passes (can_alloc_a_foobarbaz_with 2730 layout_FooBarBaz_8) = true /\
  passes (can_alloc_a_foobarbaz_with 2731 layout_FooBarBaz_8) = false.
Proof. split; vm_compute; reflexivity. Qed.

Lemma foobarbaz_holds_witness :
  passes (can_alloc_a_foobarbaz_with 2000 layout_FooBarBaz_16) = true.
Proof. apply foobarbaz_holds; [reflexivity | reflexivity | by_compute | by_compute]. Defined.

(** ** The quickcheck properties hold for every input *)

(** The layouts the quickcheck properties build: [n] bytes aligned to a
    word. *)
Lemma word_layout_valid n :
  0 <= n <= usize_MAX - 7 -> valid (mkLayout n size_of_usize).
Proof.
  intros [H0 Hn]. unfold valid, layout_ok. cbn [size align].
  change size_of_usize with 8. change (is_usize 8) with true.
  change (is_power_of_two 8) with true.
  rewrite (proj2 (is_usize_spec n)) by (unfold in_usize; lia).
  apply Z.leb_le. lia.
Qed.

(** Rounding to a word stays below any bound that is itself a multiple of a
    word. *)
Lemma word_padded_le n m :
  0 <= n <= m -> m mod 8 = 0 -> padded_size (mkLayout n size_of_usize) <= m.
Proof.
  intros Hn Hm. unfold padded_size. cbn [size align]. change size_of_usize with 8.
  apply round_up_least; lia.
Qed.

(** What the first allocation of a test leaves, for a request of [n] bytes
    aligned to a word that [required_pages] accepts. *)
Lemma first_alloc_word n :
  0 <= n -> n + (PAGE_SIZE - 1) <= usize_MAX ->
  let l := mkLayout n size_of_usize in
  let sz := padded_size l in
  valid l /\ sz + (PAGE_SIZE - 1) <= usize_MAX /\
  required_pages sz = Some (ceil_div sz PAGE_SIZE) /\
  PAGE_SIZE * ceil_div sz PAGE_SIZE <= usize_MAX /\
  catch (InnerAlloc.alloc l) (mkWorld new tt) =
    Done (Some 0) (mkWorld (mkInnerAlloc sz (round_up sz PAGE_SIZE)) tt).
Proof.
  intros H0 Hfit l sz. rewrite PAGE_SIZE_eq in Hfit.
  assert (valid l) as Hl by (apply word_layout_valid; lia).
  assert (usize_MAX - 65535 = 281474976710655 * 65536) as Hmax by reflexivity.
  assert (0 <= sz <= usize_MAX - 65535) as [Hsz0 Hsz].
  { split; [now apply padded_size_nonneg|]. apply word_padded_le; [lia|].
    rewrite Hmax. reflexivity. }
  assert (round_up sz PAGE_SIZE <= usize_MAX - 65535) as Hlim.
  { apply round_up_least; [reflexivity | lia |]. rewrite Hmax. apply Z.mod_mul. discriminate. }
  assert (sz + (PAGE_SIZE - 1) <= usize_MAX) as Hpg by (rewrite PAGE_SIZE_eq; lia).
  repeat split; try assumption.
  - now apply required_pages_Some.
  - rewrite Z.mul_comm. fold (round_up sz PAGE_SIZE). lia.
  - rewrite catch_alloc_stub by auto with bump. cbn [inner].
    fold sz. rewrite allocate_new; [reflexivity | assumption.. | lia].
Qed.

(** C35. The first quickcheck property: a request for [n] bytes that
    [required_pages] accepts is served at 0 by a fresh allocator, with the
    limit at the pages it needs and the cursor at its padded size.  The
    [unwrap] of the test returns for every such [n] because
    [from_size_align] is the one of the library the crate was written
    against, which accepts every size that rounds up to at most
    [usize::MAX]; a library that bounds the size by [isize::MAX] makes
    the [unwrap] panic for [n] above it. *)
Lemma fuzz_allocates_holds n :
  in_usize n ->
  passes (fuzz_should_allocate_random_bytes_that_do_not_overflow n) = true.
Proof.
  intros [H0 Hmax]. unfold passes, fuzz_should_allocate_random_bytes_that_do_not_overflow.
  destruct (checked_add n (PAGE_SIZE - 1)) eqn:Hadd; [|reflexivity].
  apply checked_add_Some in Hadd. destruct Hadd as [_ Hfit].
  destruct (first_alloc_word n H0 Hfit) as (Hl & Hpg & Hn & Hmul & Hcatch).
  pose proof (from_size_align_valid _ Hl) as Hfs. cbn [size align] in Hfs.
  unfold bind at 1, let_inner_new, put.
  unfold bind at 1. rewrite Hfs. cbn [unwrap_res ret].
  unfold bind at 1. rewrite pad_to_align_spec by assumption. cbn [size].
  unfold bind at 1. rewrite Hcatch.
  unfold bind at 1. cbn [assert_eq_opt assert Z.eqb ret].
  unfold bind at 1. rewrite Hn. cbn [unwrap ret].
  unfold bind at 1, mul_strict. rewrite checked_mul_fits by assumption. cbn [unwrap ret].
  unfold bind at 1, assert_state, get_upper_limit, get_next, gets, bind, assert_eq, assert.
  cbn [inner upper_limit next]. unfold round_up.
  rewrite (Z.mul_comm (ceil_div _ _)), Z.eqb_refl. unfold ret.
  cbn [inner next]. rewrite Z.eqb_refl. reflexivity.
Qed.

(** C36. The second quickcheck property: a request that [required_pages]
    rejects, and for which a layout exists at all, is refused. *)
Lemma fuzz_overflow_holds n :
  in_usize n ->
  passes (fuzz_should_not_allocate_if_it_overflows n) = true.
Proof.
  intros [H0 Hmax]. unfold passes, fuzz_should_not_allocate_if_it_overflows.
  destruct (checked_add n (PAGE_SIZE - 1)) eqn:Hadd; [reflexivity|].
  apply checked_add_None in Hadd.
  destruct (from_size_align n size_of_usize) as [l|] eqn:Hfs; [|reflexivity].
  apply from_size_align_Ok in Hfs; [|split; assumption | unfold in_usize; by_compute].
  destruct Hfs as [-> Hl].
  unfold bind at 1, let_inner_new, put.
  unfold bind at 1. rewrite catch_alloc_stub by auto with bump. cbn [inner].
  rewrite allocate_new_overflow; [reflexivity|].
  pose proof (padded_size_ge _ Hl). cbn [size] in *. lia.
Qed.

(** ** [can_alloc_many_different_sized_chunks] for any vector

    The test keeps its own account of the heap and compares it with the
    allocator's after every request.  The account is right as long as no
    request crosses a page boundary, and at a boundary when
    [current_page_limit % inner.next] happens to be
    [current_page_limit - inner.next]. *)

(** The call and the assertions of an iteration, once the allocator has
    answered: the iteration passes when the answer, the limit and the
    cursor are what the test's account says. *)
Lemma chunk_check_spec c1 a sz addr a' :
  valid (mkLayout sz size_of_usize) -> padded_size (mkLayout sz size_of_usize) = sz ->
  inner_wf a -> allocate a sz = Some (addr, a') ->
  let used := total_bytes_requested c1 + sz + total_bytes_fragmented c1 in
  total_bytes_requested c1 + sz <= usize_MAX ->
  round_up used PAGE_SIZE + (PAGE_SIZE - 1) <= usize_MAX ->
  chunk_check c1 (mkLayout sz size_of_usize) sz (mkWorld a tt) =
    if (addr =? expected_alloc_start c1) && (upper_limit a' =? round_up used PAGE_SIZE)
       && (next a' =? used)
    then Done (mkChunks (total_bytes_requested c1 + sz) used (total_bytes_fragmented c1))
              (mkWorld a' tt)
    else Panicked.
Proof.
  intros Hl Hpad Hwf Ha used Hreq Hlim. pose proof PAGE_SIZE_pos as Hps.
  pose proof (round_up_ge used PAGE_SIZE Hps) as Hge.
  unfold chunk_check, bind. rewrite catch_alloc_stub by assumption.
  cbn [inner]. rewrite Hpad, Ha. unfold assert_eq_opt, assert.
  destruct (addr =? expected_alloc_start c1); [|reflexivity]. cbn [ret andb].
  unfold add_strict. rewrite checked_add_fits by assumption. cbn [unwrap ret].
  rewrite checked_add_fits by (fold used; lia). cbn [unwrap ret]. fold used.
  rewrite required_pages_Some by lia. cbn [unwrap ret]. unfold mul_strict.
  rewrite checked_mul_fits by (fold (round_up used PAGE_SIZE); lia).
  fold (round_up used PAGE_SIZE). cbn [unwrap ret].
  unfold assert_state, get_upper_limit, get_next, gets, bind, assert_eq, assert.
  cbn [inner]. destruct (upper_limit a' =? _); [|reflexivity]. cbn [ret inner andb].
  destruct (next a' =? used); reflexivity.
Qed.

(** A request of [sz] bytes crosses a page boundary of a heap in use. *)
Definition crosses (a : InnerAlloc) (sz : Z) : bool :=
  (next a + sz >? upper_limit a) && negb (next a =? 0).

(** The test's account when it makes the call: at a boundary it adds
    [current_page_limit % inner.next] to the bytes it takes for abandoned
    and expects the block at the limit. *)
Definition account (c : Chunks) (a : InnerAlloc) (sz : Z) : Chunks :=
  if crosses a sz
  then mkChunks (total_bytes_requested c) (upper_limit a)
                (total_bytes_fragmented c + upper_limit a mod next a)
  else c.

(** A number of KiB is a number of words. *)
Lemma kib_layout alloc :
  0 <= alloc -> alloc * 1024 <= usize_MAX - 7 ->
  valid (mkLayout (alloc * 1024) size_of_usize) /\
  padded_size (mkLayout (alloc * 1024) size_of_usize) = alloc * 1024.
Proof.
  intros H0 Hmax. assert (valid (mkLayout (alloc * 1024) size_of_usize)) as Hl
    by (apply word_layout_valid; lia).
  split; [exact Hl|]. apply (padded_size_aligned_id _ Hl). cbn [size align].
  change size_of_usize with 8. replace (alloc * 1024) with (alloc * 128 * 8) by lia.
  apply Z.mod_mul. discriminate.
Qed.

(** What the loop keeps between two iterations: the limit is the end of
    the page the cursor is in, and the test's account is the cursor. *)
Definition chunks_inv (c : Chunks) (a : InnerAlloc) : Prop :=
  upper_limit a = round_up (next a) PAGE_SIZE /\
  expected_alloc_start c = next a /\
  0 <= total_bytes_requested c /\ 0 <= total_bytes_fragmented c /\
  total_bytes_requested c + total_bytes_fragmented c = next a.

(** What the invariant and the room left in the address space give. *)
Lemma chunks_inv_bounds c a :
  chunks_inv c a ->
  0 <= next a <= upper_limit a /\ upper_limit a mod PAGE_SIZE = 0 /\
  (0 < next a -> 0 <= upper_limit a mod next a <= upper_limit a - next a).
Proof.
  intros (Hup & _ & Hr & Hf & Hacc). pose proof PAGE_SIZE_pos as Hps.
  pose proof (round_up_ge (next a) PAGE_SIZE Hps). rewrite Hup.
  split; [lia|]. split; [now apply round_up_mod|]. intros Hpos.
  pose proof (Z.mod_pos_bound (round_up (next a) PAGE_SIZE) (next a) Hpos).
  pose proof (Z.div_mod (round_up (next a) PAGE_SIZE) (next a) ltac:(lia)).
  assert (1 <= round_up (next a) PAGE_SIZE / next a) by (apply Z.div_le_lower_bound; lia).
  nia.
Qed.

(** An iteration up to the call: the limit of the current page is the
    allocator's limit, and the test's account is [account]. *)
Lemma chunk_step_eq c a alloc :
  chunks_inv c a -> 0 <= alloc ->
  upper_limit a + alloc * 1024 + 2 * PAGE_SIZE <= usize_MAX ->
  chunk_step c alloc (mkWorld a tt) =
    chunk_check (account c a (alloc * 1024)) (mkLayout (alloc * 1024) size_of_usize)
                (alloc * 1024) (mkWorld a tt).
Proof.
  intros Hinv H0 Hroom. destruct (chunks_inv_bounds c a Hinv) as ([Hn Hle] & _ & Hmod).
  destruct Hinv as (Hup & _ & Hr & Hf & Hacc). rewrite PAGE_SIZE_eq in Hroom.
  destruct (kib_layout alloc H0 ltac:(lia)) as [Hl Hpad].
  pose proof (from_size_align_valid _ Hl) as Hfs. cbn [size align] in Hfs.
  unfold chunk_step, bind, mul_strict. rewrite checked_mul_fits by lia. cbn [unwrap ret].
  rewrite Hfs. cbn [unwrap_res ret]. rewrite pad_to_align_spec by assumption.
  cbn [size]. rewrite Hpad. unfold get_next, get_upper_limit, gets. cbn [inner].
  rewrite required_pages_Some by (rewrite PAGE_SIZE_eq; lia). cbn [unwrap ret].
  rewrite checked_mul_fits by (fold (round_up (next a) PAGE_SIZE); lia).
  fold (round_up (next a) PAGE_SIZE). rewrite <- Hup. cbn [unwrap ret].
  unfold add_strict. rewrite checked_add_fits by lia. cbn [unwrap ret].
  unfold account, crosses. destruct (next a + alloc * 1024 >? upper_limit a); [|reflexivity].
  unfold rem_strict. destruct (Z.eqb_spec (next a) 0); [reflexivity|]. cbn [negb andb ret].
  rewrite checked_add_fits; [reflexivity|]. specialize (Hmod ltac:(lia)). lia.
Qed.

(** The test's account after the iteration. *)
Definition chunks_after (c : Chunks) (a : InnerAlloc) (sz : Z) : Chunks :=
  let c1 := account c a sz in
  mkChunks (total_bytes_requested c1 + sz)
           (total_bytes_requested c1 + sz + total_bytes_fragmented c1)
           (total_bytes_fragmented c1).

(** The remainder the test computes is the bytes the allocator abandons. *)
Definition oracle_ok (a : InnerAlloc) (sz : Z) : bool :=
  negb (crosses a sz) || (upper_limit a mod next a =? upper_limit a - next a).

(** Rounding up past a whole number of pages. *)
Lemma round_up_add_pages m x b :
  0 < b -> m mod b = 0 -> round_up (m + x) b = m + round_up x b.
Proof.
  intros Hb Hm. apply Z.mod_divide in Hm; [|lia]. destruct Hm as [q ->].
  unfold round_up, ceil_div. replace (q * b + x + (b - 1)) with (x + (b - 1) + q * b) by lia.
  rewrite Z.div_add by lia. lia.
Qed.

(** An iteration whose request fits the page. *)
Lemma chunk_step_fits c a sz :
  chunks_inv c a -> 0 <= sz -> next a + sz <= upper_limit a ->
  crosses a sz = false /\
  allocate a sz = Some (next a, mkInnerAlloc (next a + sz) (upper_limit a)) /\
  chunks_inv (chunks_after c a sz) (mkInnerAlloc (next a + sz) (upper_limit a)) /\
  upper_limit a = round_up (total_bytes_requested c + sz + total_bytes_fragmented c) PAGE_SIZE.
Proof.
  intros Hinv Hsz Hfit. destruct (chunks_inv_bounds c a Hinv) as ([Hn _] & _).
  destruct Hinv as (Hup & He & Hr0 & Hf & Hacc). pose proof PAGE_SIZE_pos as Hps.
  assert (crosses a sz = false) as Hc
    by (unfold crosses; now rewrite Z.gtb_ltb, (proj2 (Z.ltb_ge _ _)) by lia).
  assert (round_up (next a + sz) PAGE_SIZE = upper_limit a) as Hr.
  { rewrite Hup. unfold round_up. f_equal. apply ceil_div_within; [exact Hps|].
    rewrite <- Hup. lia. }
  split; [exact Hc|]. split; [apply allocate_room; unfold headroom; lia|].
  unfold chunks_after, account, chunks_inv. rewrite Hc. cbn [next upper_limit
    total_bytes_requested expected_alloc_start total_bytes_fragmented].
  replace (total_bytes_requested c + sz + total_bytes_fragmented c) with (next a + sz) by lia.
  repeat split; auto; lia.
Qed.

(** The test's account at the call stays below the limit. *)
Lemma account_bounds c a sz :
  chunks_inv c a ->
  0 <= total_bytes_requested (account c a sz) /\
  0 <= total_bytes_fragmented (account c a sz) /\
  total_bytes_requested (account c a sz) + total_bytes_fragmented (account c a sz)
    <= upper_limit a.
Proof.
  intros Hinv. destruct (chunks_inv_bounds c a Hinv) as ([Hn Hle] & _ & Hmod).
  destruct Hinv as (_ & _ & Hr & Hf & Hacc). unfold account, crosses.
  destruct (_ >? _); [|cbn [andb]; lia].
  destruct (Z.eqb_spec (next a) 0); cbn [negb andb total_bytes_requested
    total_bytes_fragmented]; [lia|]. specialize (Hmod ltac:(lia)). lia.
Qed.

(** An iteration whose request does not fit the page: the block comes from
    new pages, and the test's account is the cursor when the remainder it
    took is the bytes abandoned. *)
Lemma chunk_step_grows c a sz :
  chunks_inv c a -> 0 <= sz -> upper_limit a < next a + sz ->
  upper_limit a + sz + 2 * PAGE_SIZE <= usize_MAX ->
  let a' := mkInnerAlloc (upper_limit a + sz) (upper_limit a + round_up sz PAGE_SIZE) in
  let c1 := account c a sz in
  allocate a sz = Some (upper_limit a, a') /\
  expected_alloc_start c1 = upper_limit a /\
  (oracle_ok a sz = true ->
   total_bytes_requested c1 + sz + total_bytes_fragmented c1 = next a' /\
   chunks_inv (chunks_after c a sz) a') /\
  (oracle_ok a sz = false ->
   total_bytes_requested c1 + sz + total_bytes_fragmented c1 <> next a').
Proof.
  intros Hinv Hsz Hgrow Hroom a' c1.
  destruct (chunks_inv_bounds c a Hinv) as ([Hn Hle] & Hpage & Hmod).
  destruct Hinv as (Hup & He & Hr & Hf & Hacc). pose proof PAGE_SIZE_pos as Hps.
  pose proof (round_up_lt sz PAGE_SIZE Hps) as Hlt.
  pose proof (round_up_add_pages (upper_limit a) sz PAGE_SIZE Hps Hpage) as Hadd.
  split.
  { unfold allocate, headroom. rewrite (proj2 (Z.leb_gt _ _)) by lia.
    fold (round_up sz PAGE_SIZE). now rewrite !(proj2 (Z.leb_le _ _)) by lia. }
  subst c1 a'. unfold oracle_ok, chunks_after, chunks_inv, account, crosses.
  rewrite (proj2 (Z.gtb_lt _ _)) by lia.
  destruct (Z.eqb_spec (next a) 0) as [Hz | Hnz]; cbn [negb andb orb next upper_limit
    total_bytes_requested expected_alloc_start total_bytes_fragmented].
  - assert (upper_limit a = 0) as Hu0 by (rewrite Hup, Hz; reflexivity).
    split; [lia|]. split; [|discriminate]. intros _. rewrite Hadd. repeat split; lia.
  - specialize (Hmod ltac:(lia)). split; [reflexivity|]. split.
    + intros Ho. apply Z.eqb_eq in Ho. rewrite Hadd. repeat split; lia.
    + intros Ho. apply Z.eqb_neq in Ho. lia.
Qed.

(** One iteration: the allocator serves the request, and the test goes on
    exactly when the remainder it took is the bytes abandoned. *)
Lemma chunk_step_spec c a alloc :
  chunks_inv c a -> 0 <= alloc ->
  upper_limit a + alloc * 1024 + 2 * PAGE_SIZE <= usize_MAX ->
  exists addr a',
    allocate a (alloc * 1024) = Some (addr, a') /\
    upper_limit a' <= upper_limit a + alloc * 1024 + PAGE_SIZE /\
    chunk_step c alloc (mkWorld a tt) =
      (if oracle_ok a (alloc * 1024)
       then Done (chunks_after c a (alloc * 1024)) (mkWorld a' tt) else Panicked) /\
    (oracle_ok a (alloc * 1024) = true -> chunks_inv (chunks_after c a (alloc * 1024)) a').
Proof.
  intros Hinv H0 Hroom. rewrite chunk_step_eq by assumption.
  set (sz := alloc * 1024) in *. assert (0 <= sz) as Hsz by (subst sz; lia).
  destruct (chunks_inv_bounds c a Hinv) as ([Hn Hle] & _).
  destruct (account_bounds c a sz Hinv) as (Hr1 & Hf1 & Hacc1).
  pose proof PAGE_SIZE_pos as Hps. pose proof (round_up_lt sz PAGE_SIZE Hps) as Hlt.
  pose proof (round_up_lt (total_bytes_requested (account c a sz) + sz +
                total_bytes_fragmented (account c a sz)) PAGE_SIZE Hps) as Hlt1.
  rewrite PAGE_SIZE_eq in Hroom. destruct (kib_layout alloc H0 ltac:(lia)) as [Hl Hpad].
  assert (inner_wf a) as Hwf by (unfold inner_wf; lia).
  destruct (Z.le_gt_cases (next a + sz) (upper_limit a)) as [Hfit | Hgrow].
  - destruct (chunk_step_fits c a sz Hinv Hsz Hfit) as (Hc & Ha & Hinv' & Hlim).
    assert (oracle_ok a sz = true) as Ho by (unfold oracle_ok; now rewrite Hc).
    destruct Hinv as (_ & He & _ & _ & Hacc). exists (next a). eexists.
    rewrite (chunk_check_spec _ a sz _ _ Hl Hpad Hwf Ha), Ho
      by (rewrite ?PAGE_SIZE_eq in *; lia).
    split; [exact Ha|]. split; [cbn [upper_limit]; lia|]. split; [|auto].
    unfold chunks_after, account. rewrite Hc, He, <- Hlim, !Z.eqb_refl. cbn [next andb].
    now rewrite (proj2 (Z.eqb_eq _ _)) by lia.
  - destruct (chunk_step_grows c a sz Hinv Hsz Hgrow ltac:(rewrite PAGE_SIZE_eq; lia))
      as (Ha & He & Ht & Hf). exists (upper_limit a). eexists.
    rewrite (chunk_check_spec _ a sz _ _ Hl Hpad Hwf Ha), He, Z.eqb_refl
      by (rewrite ?PAGE_SIZE_eq in *; lia).
    split; [exact Ha|]. split; [cbn [upper_limit]; lia|].
    destruct (oracle_ok a sz).
    + destruct (Ht eq_refl) as [Hu Hinv']. split; [|auto]. pose proof Hinv' as (Hq & _).
      unfold chunks_after. cbv zeta. cbn [upper_limit next] in *.
      now rewrite Hu, Hq, !Z.eqb_refl.
    + split; [|discriminate]. specialize (Hf eq_refl). cbn [next] in *.
      rewrite (proj2 (Z.eqb_neq (upper_limit a + sz) _)) by auto. now rewrite andb_false_r.
Qed.

(** The room the vector needs in the address space: each request and two
    pages. *)
Fixpoint budget (v : list Z) : Z :=
  match v with
  | [] => 0
  | alloc :: rest => alloc * 1024 + 2 * PAGE_SIZE + budget rest
  end.

(** The test's arithmetic is right for the vector: at every request the
    remainder it takes is the bytes the allocator abandons. *)
Fixpoint oracle_right (v : list Z) (a : InnerAlloc) : bool :=
  match v with
  | [] => true
  | alloc :: rest =>
      oracle_ok a (alloc * 1024) &&
      match allocate a (alloc * 1024) with
      | Some (_, a') => oracle_right rest a'
      | None => false
      end
  end.

(** The loop returns exactly when the test's arithmetic is right. *)
Lemma chunks_loop_spec v : forall c a,
  chunks_inv c a -> Forall (fun alloc => 0 <= alloc) v ->
  upper_limit a + budget v <= usize_MAX ->
  match chunks_loop v c (mkWorld a tt) with Done _ _ => true | _ => false end =
    oracle_right v a.
Proof.
  induction v as [|alloc v IH]; intros c a Hinv Hv Hroom; [reflexivity|].
  inv Hv. cbn [budget] in Hroom. assert (0 <= budget v) as Hb.
  { clear - H2. induction H2; cbn [budget]; [lia|]. rewrite PAGE_SIZE_eq. lia. }
  destruct (chunk_step_spec c a alloc Hinv H1 ltac:(lia)) as (addr & a' & Ha & Hup & E & Hinv').
  cbn [chunks_loop oracle_right]. unfold bind. rewrite E, Ha.
  destruct (oracle_ok a (alloc * 1024)); [|reflexivity]. cbn [andb].
  apply IH; auto. rewrite PAGE_SIZE_eq in *. lia.
Qed.

(** C37. The test passes on a vector exactly when, at every request that
    crosses a page boundary, [current_page_limit % inner.next] is
    [current_page_limit - inner.next]. *)
Theorem chunks_test_iff v :
  Forall (fun alloc => 0 <= alloc) v -> budget v <= usize_MAX ->
  passes (can_alloc_many_different_sized_chunks_on v) = oracle_right v new.
Proof.
  intros Hv Hroom. rewrite <- (chunks_loop_spec v (mkChunks 0 0 0) new); auto.
  - unfold passes, can_alloc_many_different_sized_chunks_on, bind, let_inner_new, put, ret.
    now destruct (chunks_loop v _ _).
  - repeat split; reflexivity || lia.
Qed.

Lemma chunks_test_iff_witness :
  passes (can_alloc_many_different_sized_chunks_on [10; 60]) = oracle_right [10; 60] new.
Proof. apply chunks_test_iff; [repeat constructor; lia | by_compute]. Defined.

Lemma fuzz_allocates_holds_witness :
  passes (fuzz_should_allocate_random_bytes_that_do_not_overflow 1000) = true.
Proof. apply fuzz_allocates_holds. unfold in_usize. by_compute. Defined.

Lemma fuzz_overflow_holds_witness :
  passes (fuzz_should_not_allocate_if_it_overflows (usize_MAX - 7)) = true.
Proof. apply fuzz_overflow_holds. unfold in_usize. by_compute. Defined.
